(* ===== verification/_CoqProject ===== *)
-Q . S2P
Prelude.v
Memory.v
Kernel.v
Machine.v
Malloc1.v
Malloc2.v
SbrkHeap.v
FreeList.v
HeapInv.v
HeapOps.v
HeapMerge.v
HeapRealloc.v
HeapTrace.v
Malloc3.v
Malloc4.v
ProcessWeights.v
CyclicQueue.v
JobsManager.v
CString.v
Segel.v
Request.v
HttpRequest.v
ServerMain.v
ServerRun.v
ShellParse.v
JobsList.v
ShellState.v
ShellDemo.v
Fare.v
Builtins.v
Shell.v
ShellDepth.v
ShellInv.v
ShellJobs.v
Descriptors.v
ShellLimits.v
BootState.v
BootParams.v
InitCalls.v
Boot.v
SchedTask.v
Syscalls.v
CgiOutput.v
