(* ===== verification/Prelude.v ===== *)
(** * Operating-systems coursework: a verification library

    The repository holds four separate programs.  Each is translated from its
    source into executable Rocq definitions, and the theorems are about these
    definitions.  The sources are under [src/hw1] to [src/hw4].

    ** The programs and the files that model them

    - hw4, four versions of [malloc] ([malloc_1.cpp] to [malloc_4.cpp]).
      [Memory] is a byte-addressed memory, [Kernel] the services [sbrk], [mmap],
      [munmap] and [rand] with their laws, [Machine] checked loads and stores.
      [Malloc1] models [_sbrk] and [smalloc] of the bump allocator; [Malloc2]
      all of [malloc_2.cpp].  [SbrkHeap] holds the functions whose text is the
      same in [malloc_3.cpp] and [malloc_4.cpp] (list of free blocks, merging,
      splitting, cookies, mappings), over a class [Break] for the [_sbrk] of
      each file; [Malloc3] and [Malloc4] hold the entry points.  The globals are
      the record [heap]; headers and tails are bytes in the memory.
    - hw2, system calls on the weights of processes ([kernel/hw2.c]):
      [ProcessWeights].  The tasks of the kernel are a finite map from addresses
      to records.  The Linux files the repository carries for them:
      [init/main.c] as [BootState] (its variables and the rest of the kernel as a
      class), [BootParams] (options of the command line), [InitCalls] (initcalls)
      and [Boot] ([start_kernel], [rest_init], [kernel_init]);
      [include/linux/sched.h] as [SchedTask] (states, flags, identifiers);
      [include/linux/syscalls.h] and [syscall_64.tbl] as [Syscalls].
    - hw3, a web server ([server.c], [request.c], [segel.c], [output.c]).  [CString] has the
      C string functions.  [Segel] models the wrappers of system calls and the
      robust I/O package over an oracle for the kernel, [Request] the handling of
      one request, [CyclicQueue] the ring buffer, [JobsManager] the critical
      sections and the threads, [ServerMain] the command line, the start and the
      body of a worker, [ServerRun] the whole server (threads, statistics of the
      workers and the world together), [CgiOutput] the CGI program of the site on
      doubles.  [HttpRequest] proves what [requestHandle] does with the text of a
      whole request.
    - hw1, a small shell ([Commands.cpp], [Commands.h], [signals.cpp],
      [smash.cpp]).  [ShellParse] models the string functions and the splitting
      of lines, [JobsList] the list of jobs, [ShellState] the record [SmallShell]
      and the calls on it, [Fare] find and replace in a file, [Builtins] the other
      built-in commands, [Shell] external commands, redirections, pipes,
      timeouts, [CreateCommand], the signal handlers and the main loop.
      [ShellDemo] is a concrete kernel for examples.

    ** How code becomes definitions

    Code runs in the monad [M] of this file: it returns, ends the process
    ([Exit]), does something the language does not define ([Fault]: an access to
    memory that is not mapped, outside an array, or to an entry that is not
    there), or exhausts the fuel of a loop ([OutOfFuel]).  Integers are [Z] with
    the wrap-around of their width written out ([u64], [i64], [u32], [i32]).
    What is not in the repository, the kernel and the C library, is a class: its
    operations are oracles ([OS], [Unix], [ServerEnv], [ShellOS], [KernelEnv],
    [BitOps]), and what the code relies on are the laws of further classes and
    records ([OSLaws], [UnixLaws], [FileLaws], [DescriptorLaws],
    [BitOpsLaws], [thread_laws], [parse_words_ok], [file_service]), each with an instance that
    shows that the laws can hold.  [wp] is total correctness, [wpe] and [wpx] also
    allow the process to end, [wlp] speaks only of runs that return.

    ** What the theorems show

    - Allocators.  [HeapInv] states the invariant of the segregated heap: the data
      segment is a sequence of blocks, the free ones are the nodes of the sorted
      list, the counters are exact.  [FreeList], [HeapOps], [HeapMerge] and
      [HeapRealloc] prove what every operation does to it.  [HeapTrace] states the
      contract of an allocator as the class [AllocatorSpec] and proves against it
      that every sequence of requests, releases and writes of a client is served
      safely, with blocks that are large enough, apart, and keep their contents; [Malloc3] and [Malloc4] discharge the contract.  Best fit and first
      fit are equal to reference functions; detection of overflows, zeroing,
      resizing and round trips are theorems of their own.
    - Weights.  The recursion over the children returns the sum of the leaves, the
      walk to the ancestors returns the heaviest one, and does not end for a task
      that is not below [init].  Through the table of system calls the weight of a
      task behaves as a register ([Syscalls]).
    - Start of the kernel.  Parsing stays inside the arrays for the first program
      and hands it the options nobody took; initcalls run once, in order, unless
      blacklisted; under every interleaving of the two threads the first task has
      weight 0 before a program is executed; the programs are tried in order.  A
      task that goes to sleep as [sched.h] says misses no wake-up, and the letter of
      a state is inside its array.
    - Server.  The ring buffer refines a list.  Under every interleaving the
      counters are exact, connections are neither lost nor handled twice, and no
      wake-up is lost; when requests return, every run of the workers ends with an
      empty queue; [add_request] equals a reference function for every policy.  The robust I/O functions
      deliver the stream however it is cut.  File names stay below the directory
      of the site, and responses are what they should be.  A client that sends a
      whole request gets the file, the 501 response or the output of the program it
      asked for ([HttpRequest]).  The whole server simulates its threads; each
      worker counts exactly the requests it has handled, the counts add up to the
      accepted connections, and with [block] nobody is dropped ([ServerRun]).  The
      CGI program sleeps as long as the address says.
    - Shell.  The invariant of jobs and timeouts holds in every reachable state
      ([ShellInv]); job commands never touch an entry that is not there; [fg]
      followed by a stop is a round trip, the alarm handler kills what is due, as the
      log of its calls shows ([ShellJobs]); redirections and pipes restore the table of descriptors
      ([Descriptors]); [fare] equals a one-pass replacement ([Fare]); nested
      commands without [fare] end ([ShellDepth]).
    - Limits.  Where the code does not do what it means to, theorems show it
      ([ShellLimits], and the last parts of [Malloc2], [Malloc3], [Malloc4],
      [ProcessWeights], [JobsManager], [Request] and [BootParams]).

    ** Fuel and bounds

    Loops over the list of free blocks take [list_fuel], the size of the data
    segment divided by the least size of a block, which is enough because the
    nodes are disjoint blocks.  Drawing a cookie takes [rand_bound] turns, within
    which the kernel's [rand] gives a number that is not zero by law.  The
    recursion over children and the walk to [init] take fuel, and theorems give
    the amounts that are enough.  The loops of the robust I/O package end because
    every read or write moves bytes or uses up an interruption; the theorems ask
    for [patience] plus the number of bytes.  [fare] takes one turn per byte and
    one more; the alarm handler and the walks over jobs are structural.  The
    nesting of shell commands is bounded by fuel, for which the length of the line
    is enough when words are separated by spaces and the line holds no [fare]
    ([ShellDepth]); with a tab a
    timeout can run itself (theorem [timeout_runs_itself]).  The other theorems
    about the shell hold for every fuel.  The loop over the names of
    [initcall_blacklist=] takes the length of its argument plus two, one turn for
    each token and one for the end.  Whole seconds of the CGI program are checked
    up to 5000 by evaluation.

    ** Not modelled

    - The destructors of commands, and failures of [new] and of [malloc] inside
      [_parseCommandLine].
    - Signals that interrupt the shell in the middle of a command: they are
      delivered while a line is read or a job is awaited, and handlers run as a
      whole.  Buffering of [cout] beyond what [endl] flushes.
    - Data races inside the server other than at the mutex and the condition
      variables: in [ServerRun] a worker handles its request in one step, so the
      system calls of two requests are not interleaved.  A server whose process has
      ended takes no further steps.  What a CGI program writes after [execve].
    - Overflow of the [int] that numbers the jobs of the shell, and failures of [dup2]
      and [close] on open descriptors in the theorem on descriptors
      ([DescriptorLaws]); a [kernel_thread] that creates no task in the theorems on
      the start of the kernel ([thread_laws]).
    - What [sprintf] does with overlapping arguments: in [Request] it is taken to
      append, in [CgiOutput] it is a parameter.
    - How a request ends in [JobsManager]: whether [requestHandle] returns is a field
      of [ServerEnv] there; [HttpRequest] and [ServerRun] run it.
    - Of the Linux files: prototypes, structures no code here reads, the rows of the
      table of system calls that belong to other subsystems, the records for
      tracing, wrappers that only call another subsystem, and what those do.
    - Makefiles, test drivers and the documents. *)

From stdpp Require Export base tactics numbers list gmap strings.
From Stdlib Require Export ZArith Lia Permutation Sorted.

#[global] Open Scope Z_scope.

(** ** Results of running C code *)

(** Running a piece of C code from a state [s : S] either returns normally with
    a value and a new state, terminates the process through [exit], touches
    memory that is not mapped (or is otherwise undefined), or exhausts the fuel
    that bounds a loop of the source. *)
Inductive outcome (S A : Type) : Type :=
| Ok (a : A) (s : S)
| Exit (code : Z) (s : S)
| Fault
| OutOfFuel.
Arguments Ok {S A} a s.
Arguments Exit {S A} code s.
Arguments Fault {S A}.
Arguments OutOfFuel {S A}.

Definition M (S A : Type) : Type := S → outcome S A.

Definition ret {S A} (a : A) : M S A := λ s, Ok a s.

Definition bind {S A B} (c : M S A) (k : A → M S B) : M S B :=
  λ s,
    match c s with
    | Ok a s' => k a s'
    | Exit code s' => Exit code s'
    | Fault => Fault
    | OutOfFuel => OutOfFuel
    end.

Definition getS {S} : M S S := λ s, Ok s s.
Definition gets {S A} (f : S → A) : M S A := λ s, Ok (f s) s.
Definition modify {S} (f : S → S) : M S unit := λ s, Ok tt (f s).
Definition exit {S A} (code : Z) : M S A := λ s, Exit code s.
Definition fault {S A} : M S A := λ _, Fault.
Definition nofuel {S A} : M S A := λ _, OutOfFuel.
(** Lift a pure state transformer that cannot fail. *)
Definition lift_state {S A} (f : S → A * S) : M S A := λ s, let '(a, s') := f s in Ok a s'.

Declare Scope cmd_scope.
Delimit Scope cmd_scope with cmd.
Notation "'let*' x ':=' c 'in' k" := (bind c (λ x, k))
  (at level 10, x name, c at level 100, k at level 200) : cmd_scope.
Notation "c ;;; k" := (bind c (λ _, k))
  (at level 100, right associativity) : cmd_scope.
Notation "'when' b 'do' c" := (if b then c else ret tt)
  (at level 99, b at level 90, c at level 98) : cmd_scope.
#[global] Open Scope cmd_scope.

(** [wp c Q s]: from [s] the code [c] returns normally (no exit, no fault, no
    lack of fuel) and its value and final state satisfy [Q]. *)
Definition wp {S A} (c : M S A) (Q : A → S → Prop) (s : S) : Prop :=
  match c s with
  | Ok a s' => Q a s'
  | _ => False
  end.

Section WP.
Context {S : Type}.

Lemma wp_ret {A} (a : A) (Q : A → S → Prop) s : Q a s → wp (ret a) Q s.
Proof. done. Qed.

Lemma wp_bind {A B} (c : M S A) (k : A → M S B) Q s :
  wp c (λ a s', wp (k a) Q s') s → wp (bind c k) Q s.
Proof. unfold wp, bind. by destruct (c s). Qed.

Lemma wp_mono {A} (c : M S A) (Q Q' : A → S → Prop) s :
  wp c Q s → (∀ a s', Q a s' → Q' a s') → wp c Q' s.
Proof. unfold wp. destruct (c s); naive_solver. Qed.

Lemma wp_and {A} (c : M S A) (Q Q' : A → S → Prop) s : wp c Q s → wp c Q' s → wp c (λ a s', Q a s' ∧ Q' a s') s.
Proof. unfold wp. by destruct (c s). Qed.

Lemma wp_gets {A} (f : S → A) (Q : A → S → Prop) s : Q (f s) s → wp (gets f) Q s.
Proof. done. Qed.

Lemma wp_modify (f : S → S) (Q : unit → S → Prop) s : Q tt (f s) → wp (modify f) Q s.
Proof. done. Qed.

Lemma wp_run {A} (c : M S A) Q s : wp c Q s ↔ ∃ a s', c s = Ok a s' ∧ Q a s'.
Proof.
  unfold wp. split.
  - destruct (c s) as [a s'| | |]; [by exists a, s'|done..].
  - by intros (a & s' & -> & ?).
Qed.

Lemma wp_run2 {A} (c : M S A) (Q : A → S → Prop) s : wp c Q s → ∃ a s', c s = Ok a s' ∧ Q a s'.
Proof. apply wp_run. Qed.

(** A result together with three ghost values. *)
Lemma wp_run2' {A X Y Z} (c : M S A) (Q : A → S → X → Y → Z → Prop) s :
  wp c (λ a s', ∃ x y z, Q a s' x y z) s → ∃ a s' x y z, c s = Ok a s' ∧ Q a s' x y z.
Proof. intros (a & s' & ? & x & y & z & ?)%wp_run. eauto 10. Qed.

Lemma wp_pure_run {A} (c : M S A) (Q : A → S → Prop) s a s' :
  c s = Ok a s' → Q a s' → wp c Q s.
Proof. unfold wp. by intros ->. Qed.
End WP.

Lemma bind_assoc {S A B C} (c : M S A) (f : A → M S B) (g : B → M S C) s :
  bind (bind c f) g s = bind c (λ a, bind (f a) g) s.
Proof. unfold bind. by destruct (c s). Qed.

(** [wpe c Q s]: like [wp], but the process may also end through [exit]. *)
Definition wpe {S A} (c : M S A) (Q : A → S → Prop) (s : S) : Prop :=
  match c s with
  | Ok a s' => Q a s'
  | Exit _ _ => True
  | _ => False
  end.

Section WPE.
Context {S : Type}.

Lemma wpe_ret {A} (a : A) (Q : A → S → Prop) s : Q a s → wpe (ret a) Q s.
Proof. done. Qed.
Lemma wpe_bind {A B} (c : M S A) (k : A → M S B) Q s :
  wpe c (λ a s', wpe (k a) Q s') s → wpe (bind c k) Q s.
Proof. unfold wpe, bind. by destruct (c s). Qed.
Lemma wpe_wp {A} (c : M S A) Q s : wp c Q s → wpe c Q s.
Proof. unfold wpe, wp. by destruct (c s). Qed.
Lemma wpe_mono {A} (c : M S A) (Q Q' : A → S → Prop) s :
  wpe c Q s → (∀ a s', Q a s' → Q' a s') → wpe c Q' s.
Proof. unfold wpe. destruct (c s); naive_solver. Qed.
Lemma wpe_mono_eq {A} (c c' : M S A) (Q : A → S → Prop) s : c s = c' s → wpe c Q s → wpe c' Q s.
Proof. unfold wpe. by intros ->. Qed.
Lemma wpe_run {A} (c : M S A) Q s a s' : wpe c Q s → c s = Ok a s' → Q a s'.
Proof. unfold wpe. intros H E. by rewrite E in H. Qed.
End WPE.

(** [wlp c Q s]: if [c] returns from [s], its value and final state satisfy [Q]. *)
Definition wlp {S A} (c : M S A) (Q : A → S → Prop) (s : S) : Prop :=
  match c s with Ok a s' => Q a s' | _ => True end.

Section WLP.
Context {S : Type}.
Lemma wlp_ret {A} (a : A) (Q : A → S → Prop) s : Q a s → wlp (ret a) Q s.
Proof. done. Qed.
Lemma wlp_bind {A B} (c : M S A) (k : A → M S B) Q s : wlp c (λ a s', wlp (k a) Q s') s → wlp (bind c k) Q s.
Proof. unfold wlp, bind. by destruct (c s). Qed.
Lemma wlp_mono {A} (c : M S A) (Q Q' : A → S → Prop) s : wlp c Q s → (∀ a s', Q a s' → Q' a s') → wlp c Q' s.
Proof. unfold wlp. destruct (c s); naive_solver. Qed.
Lemma wlp_modify (f : S → S) (Q : unit → S → Prop) s : Q tt (f s) → wlp (modify f) Q s.
Proof. done. Qed.
Lemma wlp_gets {A} (f : S → A) (Q : A → S → Prop) s : Q (f s) s → wlp (gets f) Q s.
Proof. done. Qed.
Lemma wlp_wpe {A} (c : M S A) Q s : wpe c Q s → wlp c Q s.
Proof. unfold wpe, wlp. by destruct (c s). Qed.
End WLP.

(** [wpx c Q R s]: [c] returns with [Q] or ends the process with [R]. *)
Definition wpx {S A} (c : M S A) (Q : A → S → Prop) (R : S → Prop) (s : S) : Prop :=
  match c s with Ok a s' => Q a s' | Exit _ s' => R s' | _ => False end.

Section WPX.
Context {S : Type}.
Lemma wpx_bind {A B} (c : M S A) (k : A → M S B) Q R s : wpx c (λ a s', wpx (k a) Q R s') R s → wpx (bind c k) Q R s.
Proof. unfold wpx, bind. by destruct (c s). Qed.
Lemma wpx_mono {A} (c : M S A) (Q Q' : A → S → Prop) R s : wpx c Q R s → (∀ a s', Q a s' → Q' a s') → wpx c Q' R s.
Proof. unfold wpx. destruct (c s); naive_solver. Qed.
Lemma wpx_wp {A} (c : M S A) (Q : A → S → Prop) R s : wp c Q s → wpx c Q R s.
Proof. unfold wpx, wp. by destruct (c s). Qed.
End WPX.

(** [yields c P]: whenever [c] returns, its value satisfies [P]. *)
Definition yields {S A} (c : M S A) (P : A → Prop) : Prop := ∀ s a s', c s = Ok a s' → P a.

Lemma yields_ret {S A} (a : A) (P : A → Prop) : P a → yields (S := S) (ret a) P.
Proof. intros HP s b s' [= <- _]. done. Qed.
Lemma yields_bind {S A B} (c : M S A) (k : A → M S B) P : (∀ a, yields (k a) P) → yields (bind c k) P.
Proof. intros Hk s b s'. unfold bind. destruct (c s); [apply Hk|done..]. Qed.

(** Concrete runs: the state after a run, and what is seen of a run that returns. *)
Definition after {S A} (c : M S A) (s : S) : S :=
  match c s with Ok _ s' => s' | _ => s end.
Definition observe {S A X} (c : M S A) (s : S) (f : A → S → X) : option X :=
  match c s with Ok a s' => Some (f a s') | _ => None end.

Lemma run_after {S A} (c : M S A) s a : observe c s (λ x _, x) = Some a → c s = Ok a (after c s).
Proof. unfold observe, after. destruct (c s); naive_solver. Qed.
Lemma wp_after {S A} (c : M S A) Q s : wp c Q s → ∃ a, Q a (after c s).
Proof. intros (a & s' & Hr & HQ)%wp_run. exists a. unfold after. by rewrite Hr. Qed.

(** ** Machine integers *)

(** [size_t]/[uintptr_t] arithmetic is modulo [2^64]; [i64] reads a 64-bit
    pattern as an [intptr_t]. *)
Definition W64 : Z := 2 ^ 64.
Definition u64 (z : Z) : Z := z mod W64.
Definition i64 (z : Z) : Z := let r := z mod W64 in if r <? 2 ^ 63 then r else r - W64.
Definition u32 (z : Z) : Z := z mod 2 ^ 32.
Definition i32 (z : Z) : Z := let r := z mod 2 ^ 32 in if r <? 2 ^ 31 then r else r - 2 ^ 32.

Lemma u64_small z : 0 ≤ z < 2 ^ 64 → u64 z = z.
Proof. apply Z.mod_small. Qed.
Lemma u64_range z : 0 ≤ u64 z < 2 ^ 64.
Proof. by apply Z.mod_pos_bound. Qed.
Lemma i64_small z : 0 ≤ z < 2 ^ 63 → i64 z = z.
Proof.
  intros H. unfold i64, W64. rewrite Z.mod_small by lia.
  destruct (Z.ltb_spec z (2 ^ 63)); lia.
Qed.
Lemma i32_range z : - 2 ^ 31 ≤ i32 z < 2 ^ 31.
Proof. unfold i32. pose proof (Z.mod_pos_bound z (2 ^ 32)). destruct (Z.ltb_spec (z mod 2 ^ 32) (2 ^ 31)); lia. Qed.
Lemma u64_u64_add a b : u64 (u64 a + b) = u64 (a + b).
Proof. apply Zplus_mod_idemp_l. Qed.
Lemma u64_add_u64 a b : u64 (a + u64 b) = u64 (a + b).
Proof. apply Zplus_mod_idemp_r. Qed.
Lemma u64_u64_sub a b : u64 (u64 a - b) = u64 (a - b).
Proof. apply Zminus_mod_idemp_l. Qed.
Lemma u64_sub_u64 a b : u64 (a - u64 b) = u64 (a - b).
Proof. apply Zminus_mod_idemp_r. Qed.
Lemma u64_idemp a : u64 (u64 a) = u64 a.
Proof. apply Z.mod_mod. done. Qed.

(** [nullptr], and the [(void* )(-1)] that [sbrk] and [mmap] return on failure. *)
Definition NULL : Z := 0.
Definition FAILED : Z := 2 ^ 64 - 1.

(** Normalise nested wrap-arounds of counter arithmetic. *)
Create Rewrite HintDb u64.
#[export] Hint Rewrite u64_u64_add u64_add_u64 u64_u64_sub u64_sub_u64 u64_idemp : u64.
Ltac u64_norm := autorewrite with u64.

(** Case analysis on the boolean integer tests of the code. *)
Ltac zcase :=
  match goal with
  | |- context [Z.eqb ?a ?b] => destruct (Z.eqb_spec a b)
  | |- context [Z.ltb ?a ?b] => destruct (Z.ltb_spec a b)
  | |- context [Z.leb ?a ?b] => destruct (Z.leb_spec a b)
  end.

(** ** Sums over a list *)

Definition sum_by {A} (f : A → Z) (l : list A) : Z := foldr (λ a n, f a + n) 0 l.

Lemma sum_by_app {A} (f : A → Z) l1 l2 : sum_by f (l1 ++ l2) = sum_by f l1 + sum_by f l2.
Proof. induction l1 as [|a l1 IH]; [done|]. cbn [app]. unfold sum_by in *. cbn [foldr]. lia. Qed.
Lemma sum_by_insert {A} (f : A → Z) l i a a' : l !! i = Some a → sum_by f (<[i := a']> l) = sum_by f l - f a + f a'.
Proof.
  intros Hi. assert (i < length l)%nat by (by eapply lookup_lt_Some). rewrite insert_take_drop by done.
  rewrite <- (take_drop_middle l i a Hi) at 3. rewrite !sum_by_app. unfold sum_by. cbn [foldr]. lia.
Qed.
Lemma sum_by_nonneg {A} (f : A → Z) l : (∀ a, 0 ≤ f a) → 0 ≤ sum_by f l.
Proof. intros Hf. induction l as [|a l IH]; [done|]. unfold sum_by in *. cbn [foldr]. specialize (Hf a). lia. Qed.

(** ** Finite sequences of transitions *)
Inductive star {A : Type} (R : A → A → Prop) : A → A → Prop :=
| star_refl a : star R a a
| star_step a b c : R a b → star R b c → star R a c.

Lemma star_trans {A} (R : A → A → Prop) a b c : star R a b → star R b c → star R a c.
Proof. intros Hab. induction Hab; [done|]. intros Hbc. eapply star_step; eauto. Qed.

Lemma star_map {A B} (R : A → A → Prop) (T : B → B → Prop) (f : A → B) :
  (∀ a b, R a b → star T (f a) (f b)) → ∀ a b, star R a b → star T (f a) (f b).
Proof. intros HR a b Hs. induction Hs; [apply star_refl|]. eapply star_trans; eauto. Qed.

Lemma star_invariant {A} (R : A → A → Prop) (P : A → Prop) :
  (∀ a b, P a → R a b → P b) → ∀ a b, star R a b → P a → P b.
Proof. intros HR a b Hs. induction Hs; eauto. Qed.
