(* ===== verification/Memory.v ===== *)
(** * Byte-addressable memory

    The memory the allocators of [hw4] work on: a finite map from addresses to
    bytes, little-endian fixed-width loads and stores (the machine the code
    runs on is x86-64), and the [memmove] and [memset] of the C library. *)

From S2P Require Import Prelude.

(** A byte never written reads as zero, as fresh pages of the kernel do. *)
Definition rd (m : gmap Z Z) (a : Z) : Z := default 0 (m !! a).

Fixpoint load (m : gmap Z Z) (a : Z) (n : nat) : Z :=
  match n with
  | O => 0
  | S n' => rd m a + 256 * load m (a + 1) n'
  end.

Fixpoint store (m : gmap Z Z) (a : Z) (n : nat) (v : Z) : gmap Z Z :=
  match n with
  | O => m
  | S n' => store (<[a := v mod 256]> m) (a + 1) n' (v / 256)
  end.

Fixpoint rd_bytes (m : gmap Z Z) (a : Z) (n : nat) : list Z :=
  match n with
  | O => []
  | S n' => rd m a :: rd_bytes m (a + 1) n'
  end.

Fixpoint wr_bytes (m : gmap Z Z) (a : Z) (bs : list Z) : gmap Z Z :=
  match bs with
  | [] => m
  | b :: bs' => wr_bytes (<[a := b]> m) (a + 1) bs'
  end.

(** [memmove(dst, src, n)]: as if through a temporary buffer. *)
Definition memmove (m : gmap Z Z) (dst src n : Z) : gmap Z Z :=
  wr_bytes m dst (rd_bytes m src (Z.to_nat n)).

(** [memset(dst, c, n)]. *)
Definition memset (m : gmap Z Z) (dst c n : Z) : gmap Z Z :=
  wr_bytes m dst (replicate (Z.to_nat n) (c mod 256)).

(** ** Reading after writing *)

Lemma rd_insert_eq m a b : rd (<[a := b]> m) a = b.
Proof. unfold rd. by rewrite lookup_insert_eq. Qed.
Lemma rd_insert_ne m a a' b : a ≠ a' → rd (<[a := b]> m) a' = rd m a'.
Proof. intros. unfold rd. by rewrite lookup_insert_ne. Qed.

Lemma rd_store_out m a n v x :
  x < a ∨ a + Z.of_nat n ≤ x → rd (store m a n v) x = rd m x.
Proof.
  revert m a v. induction n as [|n IH]; intros m a v Hx; [done|].
  cbn [store]. rewrite IH by lia. by rewrite rd_insert_ne by lia.
Qed.

Lemma load_ext m m' a n :
  (∀ x, a ≤ x < a + Z.of_nat n → rd m' x = rd m x) → load m' a n = load m a n.
Proof.
  revert a. induction n as [|n IH]; intros a Hx; [done|].
  cbn [load]. rewrite IH; [|intros; apply Hx; lia]. by rewrite Hx by lia.
Qed.

Lemma load_store_ne m a n v a' n' :
  a' + Z.of_nat n' ≤ a ∨ a + Z.of_nat n ≤ a' → load (store m a n v) a' n' = load m a' n'.
Proof. intros. apply load_ext. intros x Hx. apply rd_store_out. lia. Qed.

Lemma load_store_mod m a n v :
  load (store m a n v) a n = v mod 2 ^ (8 * Z.of_nat n).
Proof.
  revert m a v. induction n as [|n IH]; intros m a v.
  { cbn [load store]. by rewrite Z.mul_0_r, Z.mod_1_r. }
  cbn [store load]. rewrite IH, rd_store_out, rd_insert_eq by lia.
  replace (2 ^ (8 * Z.of_nat (S n))) with (256 * 2 ^ (8 * Z.of_nat n))
    by (rewrite Nat2Z.inj_succ, <- Z.add_1_r, Z.mul_add_distr_l, Z.pow_add_r; lia).
  rewrite Z.rem_mul_r by lia. lia.
Qed.

Lemma load_store_eq m a n v :
  0 ≤ v < 2 ^ (8 * Z.of_nat n) → load (store m a n v) a n = v.
Proof. intros. rewrite load_store_mod. by apply Z.mod_small. Qed.

Lemma rd_wr_bytes_out m a bs x :
  x < a ∨ a + Z.of_nat (length bs) ≤ x → rd (wr_bytes m a bs) x = rd m x.
Proof.
  revert m a. induction bs as [|b bs IH]; intros m a Hx; [done|].
  cbn [wr_bytes length] in *. rewrite IH by lia. by rewrite rd_insert_ne by lia.
Qed.

Lemma rd_wr_bytes_in m a bs x :
  a ≤ x < a + Z.of_nat (length bs) →
  rd (wr_bytes m a bs) x = default 0 (bs !! Z.to_nat (x - a)).
Proof.
  revert m a. induction bs as [|b bs IH]; intros m a Hx; cbn [length] in *; [lia|].
  cbn [wr_bytes]. destruct (decide (x = a)) as [->|].
  - rewrite rd_wr_bytes_out, rd_insert_eq by lia. by rewrite Z.sub_diag.
  - rewrite IH by lia. replace (Z.to_nat (x - a)) with (S (Z.to_nat (x - (a + 1)))) by lia.
    done.
Qed.

Lemma length_rd_bytes m a n : length (rd_bytes m a n) = n.
Proof. revert a. induction n; intros; cbn; auto. Qed.

Lemma lookup_rd_bytes m a n i :
  (i < n)%nat → rd_bytes m a n !! i = Some (rd m (a + Z.of_nat i)).
Proof.
  revert a i. induction n as [|n IH]; intros a i Hi; [lia|].
  destruct i as [|i]; cbn [rd_bytes lookup list_lookup].
  - by rewrite Z.add_0_r.
  - rewrite IH by lia. do 2 f_equal. lia.
Qed.

Lemma rd_bytes_ext m m' a n :
  (∀ x, a ≤ x < a + Z.of_nat n → rd m' x = rd m x) → rd_bytes m' a n = rd_bytes m a n.
Proof.
  revert a. induction n as [|n IH]; intros a Hx; [done|].
  cbn [rd_bytes]. rewrite IH; [|intros; apply Hx; lia]. by rewrite Hx by lia.
Qed.

Lemma rd_memmove_out m dst src n x :
  0 ≤ n → x < dst ∨ dst + n ≤ x → rd (memmove m dst src n) x = rd m x.
Proof. intros. unfold memmove. apply rd_wr_bytes_out. rewrite length_rd_bytes. lia. Qed.

Lemma rd_memmove_in m dst src n i :
  0 ≤ i < n → rd (memmove m dst src n) (dst + i) = rd m (src + i).
Proof.
  intros Hi. unfold memmove. rewrite rd_wr_bytes_in by (rewrite length_rd_bytes; lia).
  rewrite lookup_rd_bytes by lia. cbn. f_equal. lia.
Qed.

Lemma rd_memset_out m dst c n x :
  0 ≤ n → x < dst ∨ dst + n ≤ x → rd (memset m dst c n) x = rd m x.
Proof. intros. unfold memset. apply rd_wr_bytes_out. rewrite length_replicate. lia. Qed.

Lemma rd_memset_in m dst c n x :
  dst ≤ x < dst + n → rd (memset m dst c n) x = c mod 256.
Proof.
  intros Hx. unfold memset. rewrite rd_wr_bytes_in by (rewrite length_replicate; lia).
  by rewrite lookup_replicate_2 by lia.
Qed.

(** Two memories agree outside the addresses of [F]. *)
Definition same_but (F : Z → Prop) (m m' : gmap Z Z) : Prop :=
  ∀ x, ¬ F x → rd m' x = rd m x.

Lemma same_but_refl F m : same_but F m m.
Proof. by intros x _. Qed.
Lemma same_but_trans F m1 m2 m3 :
  same_but F m1 m2 → same_but F m2 m3 → same_but F m1 m3.
Proof. intros H1 H2 x Hx. by rewrite H2, H1. Qed.
Lemma same_but_weaken (F G : Z → Prop) m m' :
  (∀ x, F x → G x) → same_but F m m' → same_but G m m'.
Proof. intros HFG H x Hx. apply H. auto. Qed.
Lemma same_but_store (F : Z → Prop) m a n v :
  (∀ x, a ≤ x < a + Z.of_nat n → F x) → same_but F m (store m a n v).
Proof.
  intros HF x Hx. apply rd_store_out.
  destruct (decide (a ≤ x < a + Z.of_nat n)); [|lia]. exfalso. auto.
Qed.
Lemma same_but_store_r (F : Z → Prop) m m1 a n v :
  same_but F m m1 → (∀ x, a ≤ x < a + Z.of_nat n → F x) → same_but F m (store m1 a n v).
Proof. intros H1 H2. eapply same_but_trans; [done|by apply same_but_store]. Qed.
Lemma same_but_load (F : Z → Prop) m m' a n :
  same_but F m m' → (∀ x, a ≤ x < a + Z.of_nat n → ¬ F x) → load m' a n = load m a n.
Proof. intros H HF. apply load_ext. intros x Hx. apply H, HF, Hx. Qed.

(** The widths the allocators use. *)
Lemma load_store8_eq m a v : 0 ≤ v < 2 ^ 64 → load (store m a 8 v) a 8 = v.
Proof. intros. apply load_store_eq. done. Qed.
Lemma load_store4_eq m a v : 0 ≤ v < 2 ^ 32 → load (store m a 4 v) a 4 = v.
Proof. intros. apply load_store_eq. done. Qed.

Ltac ldst :=
  repeat first
    [ rewrite load_store8_eq by lia | rewrite load_store4_eq by lia
    | rewrite load_store_ne by lia ].

(** Peel the stores off a [same_but] goal; [F] is left to arithmetic. *)
Ltac same_but_tac :=
  repeat first [ apply same_but_refl | assumption
               | apply same_but_store_r; [|intros; first [lia | auto with lia]] ].

Arguments load : simpl never.
Arguments store : simpl never.
