(* ===== verification/Kernel.v ===== *)
(** * The kernel services the allocators use

    [sbrk], [mmap], [munmap] and [rand] are not part of the repository.  The
    kernel state is a record; what the kernel is free to decide (whether a
    request can be granted, where a mapping is placed, the random numbers) are
    the operations of the class [OS], and their documented behaviour are the
    laws of the class [OSLaws]. *)

From S2P Require Import Prelude.

Record region := Region { r_lo : Z; r_hi : Z; r_huge : bool }.

(** [k_start, k_brk) is the data segment managed by [brk]; [k_holes] are ranges
    of it removed by [munmap]; [k_calls] counts granted and refused requests, so
    that the decisions of the kernel may vary over time. *)
Record kernel := Kernel {
  k_start : Z;
  k_brk : Z;
  k_maps : list region;
  k_holes : list (Z * Z);
  k_calls : nat
}.

Definition PAGE : Z := 4096.
Definition HUGE : Z := 2 * 1024 * 1024.
(** User addresses of x86-64 Linux lie below [2^47]. *)
Definition ADDR_MAX : Z := 2 ^ 47.

Definition round_up (n p : Z) : Z := (n + p - 1) / p * p.
Definition map_len (len : Z) (huge : bool) : Z := round_up len (if huge then HUGE else PAGE).

Class OS := {
  sbrk_ok : kernel → Z → bool;
  mmap_at : kernel → Z → bool → option Z;
  rand_at : nat → Z;
  rand_bound : nat
}.

(** The documented behaviour the code relies on: the break stays in the user
    address space and never runs into a mapping; a new mapping is aligned,
    inside the user address space and disjoint from everything mapped; [rand]
    returns an [int] of [0, RAND_MAX], and among any [rand_bound] consecutive
    numbers one is not zero. *)
Class OSLaws (os : OS) : Prop := {
  sbrk_ok_range : ∀ k d, sbrk_ok k d = true →
    k_start k ≤ k_brk k + d < ADDR_MAX ∧
    (∀ r, r ∈ k_maps k → r_hi r ≤ k_start k ∨ k_brk k + d ≤ r_lo r);
  mmap_at_range : ∀ k len huge a, mmap_at k len huge = Some a →
    0 < a ∧ a + map_len len huge < ADDR_MAX ∧
    a mod (if huge then HUGE else PAGE) = 0 ∧
    (a + map_len len huge ≤ k_start k ∨ k_brk k ≤ a) ∧
    (∀ r, r ∈ k_maps k → a + map_len len huge ≤ r_lo r ∨ r_hi r ≤ a);
  rand_at_range : ∀ n, 0 ≤ rand_at n < 2 ^ 31;
  rand_at_nonzero : ∀ n, ∃ i, (i < rand_bound)%nat ∧ rand_at (n + i) ≠ 0
}.

Definition tick (k : kernel) : kernel :=
  Kernel (k_start k) (k_brk k) (k_maps k) (k_holes k) (S (k_calls k)).

Section Calls.
Context {os : OS}.

(** [sbrk(delta)]: the old break, or [FAILED] with the break unchanged. *)
Definition sbrk (delta : Z) (k : kernel) : Z * kernel :=
  if delta =? 0 then (k_brk k, k)
  else if sbrk_ok k delta
  then (k_brk k,
        Kernel (k_start k) (k_brk k + delta) (k_maps k) (k_holes k) (S (k_calls k)))
  else (FAILED, tick k).

(** [mmap(NULL, len, ..., MAP_PRIVATE | MAP_ANONYMOUS [| MAP_HUGETLB], -1, 0)]. *)
Definition mmap (len : Z) (huge : bool) (k : kernel) : Z * kernel :=
  match mmap_at k len huge with
  | Some a =>
    (a, Kernel (k_start k) (k_brk k)
          (Region a (a + map_len len huge) huge :: k_maps k) (k_holes k) (S (k_calls k)))
  | None => (FAILED, tick k)
  end.
End Calls.

Definition overlaps (lo hi lo' hi' : Z) : bool := (lo <? hi') && (lo' <? hi).

Definition region_minus (lo hi : Z) (r : region) : list region :=
  if overlaps lo hi (r_lo r) (r_hi r)
  then (if r_lo r <? lo then [Region (r_lo r) lo (r_huge r)] else []) ++
       (if hi <? r_hi r then [Region hi (r_hi r) (r_huge r)] else [])
  else [r].

(** [munmap(addr, len)]: page granular; [EINVAL] (here [-1]) when the address is
    not page aligned, and, for huge pages, when the address or the length is not
    a multiple of the huge page size. *)
Definition munmap (addr len : Z) (k : kernel) : Z * kernel :=
  let lo := addr in
  let hi := addr + round_up len PAGE in
  if negb (addr mod PAGE =? 0) || (len <=? 0) then (-1, k)
  else if existsb (λ r, r_huge r && overlaps lo hi (r_lo r) (r_hi r) &&
                        negb ((lo mod HUGE =? 0) && (hi mod HUGE =? 0))) (k_maps k)
  then (-1, k)
  else
    (0, Kernel (k_start k) (k_brk k)
          (flat_map (region_minus lo hi) (k_maps k))
          (if overlaps lo hi (k_start k) (k_brk k) then (lo, hi) :: k_holes k else k_holes k)
          (k_calls k)).

(** Whether the [n] bytes at [a] can be accessed. *)
Definition mapped (k : kernel) (a n : Z) : bool :=
  ((k_start k <=? a) && (a + n <=? k_brk k) &&
   forallb (λ h, negb (overlaps a (a + n) h.1 h.2)) (k_holes k))
  || existsb (λ r, (r_lo r <=? a) && (a + n <=? r_hi r)) (k_maps k).

Lemma mapped_brk k a n :
  k_holes k = [] → k_start k ≤ a → a + n ≤ k_brk k → mapped k a n = true.
Proof.
  intros Hh H1 H2. unfold mapped. rewrite Hh. cbn.
  apply Z.leb_le in H1, H2. by rewrite H1, H2.
Qed.

Lemma mapped_region k a n r :
  r ∈ k_maps k → r_lo r ≤ a → a + n ≤ r_hi r → mapped k a n = true.
Proof.
  intros Hr H1 H2. unfold mapped. apply orb_true_iff. right.
  apply existsb_exists. exists r. split; [by apply list_elem_of_In|].
  apply Z.leb_le in H1, H2. by rewrite H1, H2.
Qed.

Lemma round_up_bounds n p : 0 < p → n ≤ round_up n p < n + p.
Proof.
  intros Hp. unfold round_up.
  pose proof (Z.div_mod (n + p - 1) p ltac:(lia)).
  pose proof (Z.mod_pos_bound (n + p - 1) p Hp). lia.
Qed.

Lemma map_len_ge len huge : len ≤ map_len len huge.
Proof.
  unfold map_len. destruct huge; [pose proof (round_up_bounds len HUGE)|pose proof (round_up_bounds len PAGE)];
    unfold HUGE, PAGE in *; lia.
Qed.

Lemma round_up_map_len n huge : round_up n PAGE ≤ map_len n huge.
Proof.
  unfold map_len. destruct huge; [|lia].
  pose proof (round_up_bounds n HUGE ltac:(done)) as Hh. pose proof (round_up_bounds n PAGE ltac:(done)) as Hp.
  unfold round_up in *. unfold HUGE, PAGE in *. lia.
Qed.

Lemma page_aligned a (huge : bool) : a mod (if huge then HUGE else PAGE) = 0 → a mod PAGE = 0.
Proof.
  destruct huge; [|done]. intros [q ->]%Z.mod_divide; [|done].
  replace (q * HUGE) with (q * 512 * PAGE) by (unfold HUGE, PAGE; lia). by apply Z.mod_mul.
Qed.

Section CallLemmas.
Context {os : OS} {laws : OSLaws os}.

Lemma sbrk_0 k : sbrk 0 k = (k_brk k, k).
Proof. done. Qed.

Lemma sbrk_cases d k : d ≠ 0 →
  (sbrk_ok k d = true ∧
   sbrk d k = (k_brk k, Kernel (k_start k) (k_brk k + d) (k_maps k) (k_holes k) (S (k_calls k)))) ∨
  (sbrk_ok k d = false ∧ sbrk d k = (FAILED, tick k)).
Proof.
  intros Hd. unfold sbrk. destruct (Z.eqb_spec d 0); [done|].
  destruct (sbrk_ok k d); auto.
Qed.
End CallLemmas.

(** ** The list of mappings *)

Definition region_apart (r r' : region) : Prop := r_hi r ≤ r_lo r' ∨ r_hi r' ≤ r_lo r.

Fixpoint maps_apart (l : list region) : Prop :=
  match l with
  | [] => True
  | r :: t => Forall (region_apart r) t ∧ maps_apart t
  end.

Lemma maps_apart_app l1 l2 :
  maps_apart (l1 ++ l2) ↔ maps_apart l1 ∧ maps_apart l2 ∧ ∀ r r', r ∈ l1 → r' ∈ l2 → region_apart r r'.
Proof.
  induction l1 as [|r l1 IH]; cbn; [set_solver|]. rewrite Forall_app, !Forall_forall, IH. set_solver.
Qed.

Lemma maps_apart_in l r r' : maps_apart l → r ∈ l → r' ∈ l → r = r' ∨ region_apart r r'.
Proof.
  induction l as [|q l IH]; [by intros _ ?%not_elem_of_nil|].
  cbn. rewrite Forall_forall. intros [H1 H2] [->|Hr]%elem_of_cons [->|Hr']%elem_of_cons; [by left|auto| |auto].
  right. destruct (H1 _ Hr); [by right|by left].
Qed.

(** The pieces [munmap] leaves of a mapping lie inside it. *)
Lemma region_minus_in lo hi r q : q ∈ region_minus lo hi r → r_lo r ≤ r_lo q ∧ r_hi q ≤ r_hi r.
Proof.
  unfold region_minus, overlaps.
  destruct (Z.ltb_spec lo (r_hi r)), (Z.ltb_spec (r_lo r) hi), (Z.ltb_spec (r_lo r) lo), (Z.ltb_spec hi (r_hi r)); cbn;
    rewrite ?elem_of_cons, elem_of_nil; intros Hq; repeat destruct Hq as [->|Hq]; try done; cbn; lia.
Qed.

Lemma region_minus_apart lo hi l : lo ≤ hi → maps_apart l → maps_apart (flat_map (region_minus lo hi) l).
Proof.
  intros Hlh. induction l as [|r l IH]; [done|]. cbn. intros [Hr Hl]. apply maps_apart_app. split; [|split; [auto|]].
  - unfold region_minus, overlaps.
    destruct (Z.ltb_spec lo (r_hi r)), (Z.ltb_spec (r_lo r) hi), (Z.ltb_spec (r_lo r) lo), (Z.ltb_spec hi (r_hi r)); cbn;
      repeat split; repeat constructor; unfold region_apart; cbn; lia.
  - intros p q Hp%region_minus_in (r' & Hr' & Hq%list_elem_of_In%region_minus_in)%list_elem_of_In%in_flat_map.
    rewrite Forall_forall in Hr. specialize (Hr r' ltac:(by apply list_elem_of_In)). unfold region_apart in *. lia.
Qed.

(** What a call to [munmap] inside the mapping [r] leaves alone. *)
Record unmaps (r : region) (k k' : kernel) : Prop := {
  um_start : k_start k' = k_start k;
  um_brk : k_brk k' = k_brk k;
  um_holes : k_holes k' = k_holes k;
  um_keep : ∀ r', r' ∈ k_maps k → r' ≠ r → r' ∈ k_maps k';
  um_inside : ∀ q, q ∈ k_maps k' → ∃ r', r' ∈ k_maps k ∧ r_lo r' ≤ r_lo q ∧ r_hi q ≤ r_hi r';
  um_apart : maps_apart (k_maps k')
}.

Lemma unmaps_refl r k : maps_apart (k_maps k) → unmaps r k k.
Proof. intros Hap. split; try done. intros q Hq. exists q. by split. Qed.

Lemma munmap_spec r addr len k :
  maps_apart (k_maps k) → r ∈ k_maps k → r_lo r ≤ addr → addr + round_up len PAGE ≤ r_hi r →
  (r_hi r ≤ k_start k ∨ k_brk k ≤ r_lo r) → 0 < len → unmaps r k (munmap addr len k).2.
Proof.
  intros Hap Hr Hlo Hhi Hseg Hlen. pose proof (round_up_bounds len PAGE ltac:(done)).
  unfold munmap. cbv zeta. destruct (negb (_ =? _) || _); [by apply unmaps_refl|].
  destruct (@existsb region _ _); [by apply unmaps_refl|]. split; cbn; try done.
  - unfold overlaps.
    destruct (Z.ltb_spec addr (k_brk k)), (Z.ltb_spec (k_start k) (addr + round_up len PAGE)); try done. cbn. lia.
  - intros r' Hr' Hne. apply list_elem_of_In, in_flat_map. exists r'. split; [by apply list_elem_of_In|].
    destruct (maps_apart_in _ _ _ Hap Hr Hr') as [->|Ha]; [done|]. unfold region_apart in Ha.
    unfold region_minus, overlaps.
    destruct (Z.ltb_spec addr (r_hi r')), (Z.ltb_spec (r_lo r') (addr + round_up len PAGE)); cbn; first [lia|by left].
  - intros q (r' & Hr' & Hq%list_elem_of_In%region_minus_in)%list_elem_of_In%in_flat_map.
    exists r'. split; [by apply list_elem_of_In|done].
  - apply region_minus_apart; [lia|done].
Qed.

(** A mapping of normal pages is released as a whole. *)
Lemma munmap_small r len k :
  maps_apart (k_maps k) → r ∈ k_maps k → r_huge r = false → r_hi r = r_lo r + round_up len PAGE →
  r_lo r mod PAGE = 0 → 0 < len →
  (munmap (r_lo r) len k).1 = 0 ∧
  ∀ q, q ∈ k_maps (munmap (r_lo r) len k).2 → region_apart r q.
Proof.
  intros Hap Hr Hh Hhi Hal Hlen. pose proof (round_up_bounds len PAGE ltac:(done)). unfold munmap. cbv zeta. rewrite Hal, Z.eqb_refl. cbn [negb orb].
  destruct (Z.leb_spec len 0); [lia|].
  destruct (@existsb region _ _) eqn:E.
  { apply existsb_exists in E as (q & Hq%list_elem_of_In & E). rewrite !andb_true_iff in E. destruct E as [[Eh Eo] _].
    unfold overlaps in Eo. rewrite andb_true_iff, !Z.ltb_lt in Eo.
    destruct (maps_apart_in _ _ _ Hap Hr Hq) as [<-|Ha]; [congruence|unfold region_apart in Ha; lia]. }
  split; [done|]. cbn. intros q (r' & Hr' & Hq%list_elem_of_In)%list_elem_of_In%in_flat_map.
  destruct (maps_apart_in _ _ _ Hap Hr ltac:(by apply list_elem_of_In)) as [<-|Ha].
  - revert Hq. unfold region_minus, overlaps. rewrite Hhi.
    rewrite (Z.ltb_irrefl (r_lo r)), (Z.ltb_irrefl (r_lo r + round_up len PAGE)).
    destruct (Z.ltb_spec (r_lo r) (r_lo r + round_up len PAGE)); [|lia]. cbn. by intros ?%not_elem_of_nil.
  - apply region_minus_in in Hq. unfold region_apart in *. lia.
Qed.

(** ** A concrete kernel

    Grants the break up to a limit, places mappings one after the other from a
    fixed base, and draws [rand] from a short cycle that contains a zero. *)
Definition demo_top (k : kernel) : Z :=
  foldr (λ r acc, Z.max (r_hi r) acc) (2 ^ 46) (k_maps k).

Definition demo_os (limit : Z) : OS := {|
  sbrk_ok k d := (k_start k <=? k_brk k + d) && (k_brk k + d <=? Z.min limit (2 ^ 46))
                 && forallb (λ r, (r_hi r <=? k_start k) || (k_brk k + d <=? r_lo r)) (k_maps k);
  mmap_at k len huge :=
    let a := Z.max (round_up (demo_top k) HUGE) (round_up (Z.max (k_brk k) (2 ^ 46)) HUGE) in
    if a + map_len len huge <? ADDR_MAX then Some a else None;
  rand_at n := if Nat.even n then 0 else 1804289383;
  rand_bound := 2
|}.

Lemma demo_top_ge k r : r ∈ k_maps k → r_hi r ≤ demo_top k.
Proof.
  unfold demo_top. induction (k_maps k) as [|r' l IH]; [by intros ?%not_elem_of_nil|].
  cbn. intros [->|H]%elem_of_cons; [lia|]. specialize (IH H). lia.
Qed.

Lemma round_up_mod n p : 0 < p → round_up n p mod p = 0.
Proof. intros. unfold round_up. apply Z.mod_mul. lia. Qed.

#[export] Instance demo_laws limit : OSLaws (demo_os limit).
Proof.
  split.
  - intros k d. cbn [sbrk_ok demo_os]. rewrite !andb_true_iff, !Z.leb_le, forallb_forall.
    intros [[H1 H2] H3]. split; [unfold ADDR_MAX; lia|].
    intros r Hr%list_elem_of_In%H3. rewrite orb_true_iff, !Z.leb_le in Hr. lia.
  - intros k len huge a. cbn [mmap_at demo_os].
    set (b := Z.max _ _). destruct (Z.ltb_spec (b + map_len len huge) ADDR_MAX); [|done].
    intros [= <-].
    assert (HUGE > 0) by (unfold HUGE; lia).
    pose proof (round_up_bounds (demo_top k) HUGE ltac:(lia)).
    pose proof (round_up_bounds (Z.max (k_brk k) (2 ^ 46)) HUGE ltac:(lia)).
    assert (Hb : b mod HUGE = 0).
    { unfold b. destruct (Z.max_spec (round_up (demo_top k) HUGE) (round_up (Z.max (k_brk k) (2 ^ 46)) HUGE))
        as [[_ ->]|[_ ->]]; apply round_up_mod; lia. }
    repeat split; [lia|lia| |lia|].
    + destruct huge; [done|].
      apply Z.mod_divide in Hb as [q ->]; [|unfold HUGE; lia].
      replace (q * HUGE) with (q * 512 * PAGE) by (unfold HUGE, PAGE; lia).
      apply Z.mod_mul. unfold PAGE; lia.
    + intros r Hr%demo_top_ge. lia.
  - intros n. cbn. destruct (Nat.even n); lia.
  - intros n. cbn. destruct (Nat.even n) eqn:E.
    + exists 1%nat. split; [lia|]. rewrite Nat.add_1_r, Nat.even_succ, <- Nat.negb_even, E. done.
    + exists 0%nat. split; [lia|]. by rewrite Nat.add_0_r, E.
Qed.
