(* ===== verification/Machine.v ===== *)
(** * Memory accesses of C code

    Any state that has a memory and a kernel (class [Machine]) supports checked
    loads and stores: an access to bytes that are not mapped is a [Fault]. *)

From S2P Require Import Prelude Memory Kernel.

Class Machine (S : Type) := {
  get_k : S → kernel;
  get_m : S → gmap Z Z;
  set_m : gmap Z Z → S → S
}.

Class MachineLaws (S : Type) `{Machine S} : Prop := {
  get_set_m : ∀ m s, get_m (set_m m s) = m;
  get_k_set_m : ∀ m s, get_k (set_m m s) = get_k s
}.

Section Access.
Context {S : Type} `{Machine S}.

(** [n]-byte load and store. *)
Definition ld (a : Z) (n : nat) : M S Z :=
  λ s, if mapped (get_k s) a (Z.of_nat n) then Ok (load (get_m s) a n) s else Fault.

Definition st (a : Z) (n : nat) (v : Z) : M S unit :=
  λ s, if mapped (get_k s) a (Z.of_nat n) then Ok tt (set_m (store (get_m s) a n v) s) else Fault.

(** [memmove] and [memset] of [n] bytes, [n] a [size_t]. *)
Definition c_memmove (dst src n : Z) : M S unit :=
  λ s, if (n =? 0) || (mapped (get_k s) dst n && mapped (get_k s) src n)
       then Ok tt (set_m (memmove (get_m s) dst src n) s) else Fault.

Definition c_memset (dst c n : Z) : M S unit :=
  λ s, if (n =? 0) || mapped (get_k s) dst n
       then Ok tt (set_m (memset (get_m s) dst c n) s) else Fault.

Lemma wp_ld a n (Q : Z → S → Prop) s :
  mapped (get_k s) a (Z.of_nat n) = true → Q (load (get_m s) a n) s → wp (ld a n) Q s.
Proof. intros Hm HQ. unfold wp, ld. by rewrite Hm. Qed.

Lemma wp_st a n v (Q : unit → S → Prop) s :
  mapped (get_k s) a (Z.of_nat n) = true → Q tt (set_m (store (get_m s) a n v) s) →
  wp (st a n v) Q s.
Proof. intros Hm HQ. unfold wp, st. by rewrite Hm. Qed.

Lemma wp_memmove dst src n (Q : unit → S → Prop) s :
  mapped (get_k s) dst n = true → mapped (get_k s) src n = true →
  Q tt (set_m (memmove (get_m s) dst src n) s) → wp (c_memmove dst src n) Q s.
Proof. intros Hm1 Hm2 HQ. unfold wp, c_memmove. rewrite Hm1, Hm2. by destruct (n =? 0). Qed.

Lemma wp_memset dst c n (Q : unit → S → Prop) s :
  mapped (get_k s) dst n = true → Q tt (set_m (memset (get_m s) dst c n) s) →
  wp (c_memset dst c n) Q s.
Proof. intros Hm HQ. unfold wp, c_memset. rewrite Hm. by destruct (n =? 0). Qed.
End Access.
