(* ===== verification/Malloc1.v ===== *)
(** * [hw4/wet_4/malloc_1.cpp]: the naive bump allocator

    [_sbrk] keeps the allocator's own break, a static variable initialised at
    its first call, below the break of the kernel; [smalloc] bumps it.  The same
    [_sbrk] is used by [malloc_2.cpp] and [malloc_3.cpp]. *)

From S2P Require Import Prelude Kernel.

(** The static [program_break] ([None] before the first call) and the kernel. *)
Record brk_state := BrkState { kern : kernel; program_break : option Z }.

(** [SIZE_LIMIT] is the double [1e8]; a [size_t] compared with it is converted
    to double, which is monotone and exact at [10^8], so the test is the one on
    integers. *)
Definition SIZE_LIMIT : Z := 100000000.

Section Malloc1.
Context {os : OS}.

(** [static void* program_break = sbrk(0);] *)
Definition init_program_break (b : brk_state) : Z * brk_state :=
  match program_break b with
  | Some pb => (pb, b)
  | None => let '(r, k) := sbrk 0 (kern b) in (r, BrkState k (Some r))
  end.

(** The part of [_sbrk] after [program_break] is known. *)
Definition sbrk_move (pb delta : Z) (b : brk_state) : Z * brk_state :=
  if delta =? 0 then (pb, b)
  else
    let '(sbrk_break, k) := sbrk 0 (kern b) in
    if sbrk_break =? FAILED then (sbrk_break, BrkState k (program_break b))
    else if i64 sbrk_break <? i64 pb + delta then
      let '(r, k') := sbrk (i64 pb + delta - i64 sbrk_break) k in
      if r =? FAILED then (r, BrkState k' (program_break b))
      else (pb, BrkState k' (Some (u64 (i64 pb + delta))))
    else (pb, BrkState k (Some (u64 (i64 pb + delta)))).

Definition _sbrk (delta : Z) (b : brk_state) : Z * brk_state :=
  let '(pb, b) := init_program_break b in
  sbrk_move pb delta b.

Definition smalloc (size : Z) (b : brk_state) : Z * brk_state :=
  if (size =? 0) || (SIZE_LIMIT <? size) then (NULL, b)
  else
    let '(prev_program_break, b') := _sbrk (i64 size) b in
    if prev_program_break =? FAILED then (NULL, b')
    else (prev_program_break, b').
End Malloc1.

(** ** Well-formed break states *)

(** The current allocator break, the kernel's before the first call. *)
Definition cur_break (b : brk_state) : Z :=
  match program_break b with Some pb => pb | None => k_brk (kern b) end.

(** The allocator's break lies in the data segment, which lies in the user
    address space and is separate from every mapping; mappings do not overlap. *)
Record brk_ok (b : brk_state) : Prop := {
  bo_start : 0 < k_start (kern b);
  bo_lo : k_start (kern b) ≤ cur_break b;
  bo_hi : cur_break b ≤ k_brk (kern b);
  bo_max : k_brk (kern b) < ADDR_MAX;
  bo_maps : ∀ r, r ∈ k_maps (kern b) → r_hi r ≤ k_start (kern b) ∨ k_brk (kern b) ≤ r_lo r;
  bo_apart : maps_apart (k_maps (kern b))
}.

(** What a caller of [_sbrk] may rely on; the allocators built on top are proved
    against it, and the variants of [_sbrk] discharge it. *)
Record sbrk_grows (delta : Z) (b b' : brk_state) : Prop := {
  sg_ok : brk_ok b';
  sg_break : program_break b' = Some (cur_break b + delta);
  sg_start : k_start (kern b') = k_start (kern b);
  sg_brk : k_brk (kern b) ≤ k_brk (kern b');
  sg_maps : k_maps (kern b') = k_maps (kern b);
  sg_holes : k_holes (kern b') = k_holes (kern b)
}.

(** The kernel grants every request that keeps its break within [n] bytes of
    the allocator's. *)
Definition grants {os : OS} (b : brk_state) (n : Z) : Prop :=
  ∀ k d, k_start k = k_start (kern b) → k_maps k = k_maps (kern b) → k_start k ≤ k_brk k → 0 < d →
    k_brk k + d ≤ cur_break b + n → sbrk_ok k d = true.

Ltac brk_solve :=
  unfold cur_break, ADDR_MAX in *;
  repeat match goal with |- sbrk_grows _ _ _ => split | |- brk_ok _ => split end;
  cbn [kern program_break k_start k_brk k_maps k_holes tick] in *;
  unfold cur_break, ADDR_MAX in *; cbn [kern program_break] in *;
  first [done | lia | by f_equal; lia | idtac].

Section Malloc1Lemmas.
Context {os : OS} {laws : OSLaws os}.

Lemma init_program_break_eq b :
  init_program_break b = (cur_break b, BrkState (kern b) (Some (cur_break b))).
Proof.
  unfold init_program_break, cur_break. destruct b as [k [pb|]]; reflexivity.
Qed.

Lemma _sbrk_0 b : _sbrk 0 b = (cur_break b, BrkState (kern b) (Some (cur_break b))).
Proof. unfold _sbrk. by rewrite init_program_break_eq. Qed.

(** [_sbrk] refuses with the break unchanged, or advances its break. *)
Lemma _sbrk_spec delta b :
  brk_ok b → 0 < delta < 2 ^ 32 →
  let '(r, b') := _sbrk delta b in
  (r = FAILED ∧ sbrk_grows 0 b b' ∧ ¬ grants b delta) ∨
  (r = cur_break b ∧ sbrk_grows delta b b').
Proof.
  intros [H1 H2 H3 H4 H5 H6] Hd. unfold ADDR_MAX in *.
  unfold _sbrk. rewrite init_program_break_eq. unfold sbrk_move.
  destruct (Z.eqb_spec delta 0); [lia|]. rewrite sbrk_0. cbn [kern program_break].
  destruct (Z.eqb_spec (k_brk (kern b)) FAILED) as [HF|_]; [unfold FAILED in HF; lia|].
  rewrite !i64_small by lia. rewrite u64_small by lia.
  destruct (Z.ltb_spec (k_brk (kern b)) (cur_break b + delta)) as [Hlt|Hge].
  - destruct (sbrk_cases (cur_break b + delta - k_brk (kern b)) (kern b)) as [[Hok ->]|[Hno ->]]; [lia| |].
    + destruct (Z.eqb_spec (k_brk (kern b)) FAILED) as [HF|_]; [unfold FAILED in HF; lia|].
      apply sbrk_ok_range in Hok as [Hr Hm]. unfold ADDR_MAX in *. right. split; [done|].
      brk_solve.
    + rewrite Z.eqb_refl. left. split; [done|]. split; [brk_solve|].
      intros Hgr. rewrite (Hgr (kern b)) in Hno by (done || lia). done.
  - right. split; [done|]. brk_solve.
Qed.

(** One request: refused with nothing changed, or the [size] bytes at the old
    break, which all lie in the data segment. *)
Lemma smalloc_step size b :
  brk_ok b → 0 ≤ size →
  let '(p, b') := smalloc size b in
  brk_ok b' ∧
  ((p = NULL ∧ cur_break b' = cur_break b) ∨
   (0 < size ≤ SIZE_LIMIT ∧ p = cur_break b ∧ p ≠ NULL ∧
    cur_break b' = p + size ∧
    k_start (kern b') ≤ p ∧ p + size ≤ k_brk (kern b'))).
Proof.
  intros Hb Hs. unfold smalloc, SIZE_LIMIT.
  destruct (Z.eqb_spec size 0) as [Hz|Hn]; cbn [orb]; [by auto|].
  destruct (Z.ltb_spec 100000000 size) as [Hl|Hl]; [by auto|].
  rewrite i64_small by lia.
  pose proof (_sbrk_spec size b Hb ltac:(lia)) as Hspec.
  pose proof Hb as [B1 B2 B3 B4 _ _]. unfold ADDR_MAX in B4.
  destruct (_sbrk size b) as [r b'] eqn:E. destruct Hspec as [(-> & Hg & _)|[-> Hg]].
  - rewrite Z.eqb_refl. split; [apply Hg|]. left. split; [done|].
    destruct Hg as [_ Hpb _ _ _ _]. unfold cur_break at 1. rewrite Hpb. cbn. lia.
  - destruct (Z.eqb_spec (cur_break b) FAILED) as [HF|_]; [unfold FAILED in HF; lia|].
    destruct Hg as [Hok Hpb Hst _ _ _]. split; [done|]. right.
    assert (cur_break b' = cur_break b + size) as Hc by (unfold cur_break at 1; by rewrite Hpb).
    pose proof (bo_hi _ Hok). rewrite Hst, Hc in *. unfold NULL. repeat split; lia.
Qed.
End Malloc1Lemmas.

(** ** Sequences of requests *)

(** The blocks handed out by a sequence of requests: (address, size). *)
Fixpoint run_smalloc {os : OS} (sizes : list Z) (b : brk_state) : list (Z * Z) * brk_state :=
  match sizes with
  | [] => ([], b)
  | s :: rest =>
    let '(p, b1) := smalloc s b in
    let '(ps, b2) := run_smalloc rest b1 in
    (if p =? NULL then ps else (p, s) :: ps, b2)
  end.

(** Every block lies at or above [lo], below the next ones, and in the segment
    that ends at [hi]. *)
Fixpoint bump_layout (lo hi : Z) (bs : list (Z * Z)) : Prop :=
  match bs with
  | [] => lo ≤ hi
  | (p, s) :: rest => lo ≤ p ∧ 0 < s ∧ bump_layout (p + s) hi rest
  end.

Lemma run_smalloc_layout {os : OS} {laws : OSLaws os} sizes b :
  brk_ok b → Forall (λ s, 0 ≤ s) sizes →
  brk_ok (run_smalloc sizes b).2 ∧
  bump_layout (cur_break b) (cur_break (run_smalloc sizes b).2) (run_smalloc sizes b).1.
Proof.
  revert b. induction sizes as [|s rest IH]; intros b Hb Hs; cbn [run_smalloc fst snd].
  { split; [done|]. cbn. lia. }
  apply Forall_cons in Hs as [Hs Hrest].
  pose proof (smalloc_step s b Hb Hs) as Hstep.
  destruct (smalloc s b) as [p b1]. destruct Hstep as [Hb1 Hcase].
  specialize (IH b1 Hb1 Hrest). destruct (run_smalloc rest b1) as [ps b2]. cbn [fst snd] in *.
  destruct IH as [Hb2 Hl]. split; [done|].
  destruct Hcase as [[-> Hc]|(Hr & Hp & Hn & Hc & _)].
  - cbn. by rewrite <- Hc.
  - destruct (Z.eqb_spec p NULL); [done|]. cbn. rewrite <- Hc. split; [lia|split; [lia|done]].
Qed.

Lemma bump_layout_le lo hi bs : bump_layout lo hi bs → lo ≤ hi.
Proof.
  revert lo. induction bs as [|[p s] rest IH]; intros lo; cbn; [done|].
  intros (? & ? & ?%IH). lia.
Qed.

Lemma bump_layout_ge lo hi bs q t : bump_layout lo hi bs → (q, t) ∈ bs → lo ≤ q ∧ q + t ≤ hi.
Proof.
  revert lo. induction bs as [|[p s] rest IH]; intros lo Hl Hin; [by apply not_elem_of_nil in Hin|].
  cbn in Hl. destruct Hl as (H1 & H2 & H3). apply elem_of_cons in Hin as [[= -> ->]|Hin].
  - split; [done|]. by eapply bump_layout_le.
  - specialize (IH _ H3 Hin). lia.
Qed.

(** ** Properties *)

(** the bump allocator is safe over any sequence of requests: every block it
    hands out lies inside the data segment, and two different blocks never
    overlap. *)
Theorem malloc1_blocks_disjoint {os : OS} {laws : OSLaws os} (sizes : list Z) (b : brk_state)
    (Hb : brk_ok b) (Hs : Forall (λ s, 0 ≤ s) sizes) (i j : nat) (p q s t : Z)
    (Hi : (run_smalloc sizes b).1 !! i = Some (p, s))
    (Hj : (run_smalloc sizes b).1 !! j = Some (q, t)) (Hij : (i < j)%nat) :
  cur_break b ≤ p ∧ p + s ≤ q ∧ q + t ≤ k_brk (kern (run_smalloc sizes b).2).
Proof.
  destruct (run_smalloc_layout sizes b Hb Hs) as [Hok Hl].
  revert Hi Hj Hl Hok. generalize (run_smalloc sizes b). intros [bs b'] Hi Hj Hl Hok. cbn [fst snd] in *.
  assert (Hend : ∀ x y, (x, y) ∈ bs → x + y ≤ k_brk (kern b')).
  { intros x y Hxy. pose proof (bump_layout_ge _ _ _ _ _ Hl Hxy). pose proof (bo_hi _ Hok). lia. }
  split; [|split]; [|revert i j Hi Hj Hij Hl; generalize (cur_break b)|].
  - eapply bump_layout_ge; [done|]. by eapply list_elem_of_lookup_2.
  - clear Hend Hok. induction bs as [|[p0 s0] rest IH]; intros lo i j Hi Hj Hij Hl; [done|].
    destruct j as [|j]; [lia|]. cbn in Hj, Hl. destruct Hl as (? & ? & Hl).
    destruct i as [|i]; cbn in Hi.
    + injection Hi as -> ->. apply list_elem_of_lookup_2 in Hj.
      by destruct (bump_layout_ge _ _ _ _ _ Hl Hj).
    + by apply (IH (p0 + s0) i j); [..|lia|].
  - apply Hend. by eapply list_elem_of_lookup_2.
Qed.

Definition demo_kernel : kernel := Kernel 4096 4096 [] [] 0.
Definition demo_brk : brk_state := BrkState demo_kernel None.

Lemma demo_brk_ok : brk_ok demo_brk.
Proof. split; cbn; unfold cur_break, ADDR_MAX; cbn; try lia. by intros r ?%not_elem_of_nil. Qed.

(** The kernel of the examples has room left. *)
Lemma demo_grants limit b n :
  k_maps (kern b) = [] → cur_break b + n ≤ limit → limit < 2 ^ 46 → grants (os := demo_os limit) b n.
Proof.
  intros Hm Hle Hlim k d Hs Hmk Hb Hd Hn. cbn [sbrk_ok demo_os]. rewrite Hmk, Hm. cbn [forallb].
  rewrite !andb_true_iff, !Z.leb_le. lia.
Qed.

Lemma malloc1_blocks_disjoint_witness :
  let r := run_smalloc (os := demo_os 5000) [100; 0; 5000; 40] demo_brk in
  r.1 = [(4096, 100); (4196, 40)] ∧ 4096 + 100 ≤ 4196 ∧ 4196 + 40 ≤ k_brk (kern r.2).
Proof.
  split; [vm_compute; reflexivity|].
  apply (malloc1_blocks_disjoint (os := demo_os 5000) [100; 0; 5000; 40] demo_brk demo_brk_ok
           ltac:(repeat constructor; lia) 0 1 4096 4196 100 40);
    [vm_compute; reflexivity|vm_compute; reflexivity|lia].
Defined.
