(* ===== verification/Malloc2.v ===== *)
(** * [hw4/wet_4/malloc_2.cpp]: the first-fit allocator

    One list of blocks from [global_head] to the break, each with a header of two
    words; a released block keeps its place and is given out again to the first
    request that fits.  [_sbrk] is the text of [malloc_1.cpp]. *)

From S2P Require Import Prelude Memory Kernel Machine Malloc1.

Record heap := Heap {
  brk : brk_state;
  memory : gmap Z Z;
  global_head : Z;
  free_blocks_num : Z;
  free_bytes_num : Z;
  allocated_blocks_num : Z;
  allocated_bytes_num : Z
}.

Definition set_brk (x : brk_state) (s : heap) : heap :=
  Heap x (memory s) (global_head s) (free_blocks_num s) (free_bytes_num s)
    (allocated_blocks_num s) (allocated_bytes_num s).
Definition set_memory (x : gmap Z Z) (s : heap) : heap :=
  Heap (brk s) x (global_head s) (free_blocks_num s) (free_bytes_num s)
    (allocated_blocks_num s) (allocated_bytes_num s).
Definition set_global_head (x : Z) (s : heap) : heap :=
  Heap (brk s) (memory s) x (free_blocks_num s) (free_bytes_num s)
    (allocated_blocks_num s) (allocated_bytes_num s).
(** The counters are [size_t]. *)
Definition add_counts (d1 d2 d3 d4 : Z) (s : heap) : heap :=
  Heap (brk s) (memory s) (global_head s) (u64 (free_blocks_num s + d1)) (u64 (free_bytes_num s + d2))
    (u64 (allocated_blocks_num s + d3)) (u64 (allocated_bytes_num s + d4)).

#[export] Instance heap_machine : Machine heap := {
  get_k s := kern (brk s);
  get_m := memory;
  set_m := set_memory
}.
#[export] Instance heap_machine_laws : MachineLaws heap.
Proof. by split. Qed.

(** [sizeof(head_metadata_t)]: [size] at offset 0, [is_free] at offset 8. *)
Definition _size_meta_data : Z := 16.
Definition get_size (b : Z) : M heap Z := ld b 8.
Definition put_size (b v : Z) : M heap unit := st b 8 v.
Definition get_is_free (b : Z) : M heap Z := ld (b + 8) 8.
Definition put_is_free (b v : Z) : M heap unit := st (b + 8) 8 v.

Definition _num_free_blocks : M heap Z := gets free_blocks_num.
Definition _num_free_bytes : M heap Z := gets free_bytes_num.
Definition _num_allocated_blocks : M heap Z := gets allocated_blocks_num.
Definition _num_allocated_bytes : M heap Z := gets allocated_bytes_num.
Definition _num_meta_data_bytes : M heap Z :=
  let* n := gets allocated_blocks_num in
  ret (u64 (_size_meta_data * n)).

(** A bound on the number of blocks between the start of the segment and the
    break. *)
Definition list_fuel (s : heap) : nat :=
  S (Z.to_nat ((k_brk (kern (brk s)) - k_start (kern (brk s))) / _size_meta_data)).

Section Malloc2.
Context {os : OS}.

Definition _sbrk (delta : Z) : M heap Z :=
  λ s, let '(r, b) := Malloc1._sbrk (i64 delta) (brk s) in Ok r (set_brk b s).

(** The [while] loop of [_find_free_block]. *)
Fixpoint find_loop (fuel : nat) (block_size pb last_searched : Z) : M heap Z :=
  let* size := get_size last_searched in
  if u64 (last_searched + size) <? pb then
    let* is_free := get_is_free last_searched in
    if negb (is_free =? 0) && (block_size <=? size) then ret last_searched
    else
      match fuel with
      | O => nofuel
      | S fuel' => find_loop fuel' block_size pb (u64 (last_searched + size))
      end
  else ret last_searched.

Definition _find_free_block (block_size : Z) : M heap Z :=
  let* last_searched := gets global_head in
  let* program_break := _sbrk 0 in
  if (program_break =? FAILED) || (last_searched =? NULL) then ret NULL
  else
    let* fuel := gets list_fuel in
    find_loop fuel block_size program_break last_searched.

Definition _init_alloc_block (block block_size : Z) : M heap Z :=
  let* r := _sbrk block_size in
  if r =? FAILED then ret NULL
  else
    put_size block block_size ;;;
    put_is_free block 0 ;;;
    ret block.

(** The end of [smalloc], after [last_block] is known. *)
Definition finish_smalloc (last_block size : Z) : M heap Z :=
  if last_block =? NULL then ret NULL
  else
    modify (add_counts 0 0 1 size) ;;;
    ret (last_block + _size_meta_data).

Definition smalloc (size : Z) : M heap Z :=
  if (size =? 0) || (SIZE_LIMIT <? size) then ret NULL
  else
    let block_size := u64 (size + _size_meta_data) in
    let* head := gets global_head in
    if negb (head =? NULL) then
      let* last_searched := _find_free_block block_size in
      if last_searched =? NULL then ret NULL
      else
        let* is_free := get_is_free last_searched in
        if negb (is_free =? 0) then
          put_is_free last_searched 0 ;;;
          let* sz := get_size last_searched in
          modify (add_counts (-1) (- u64 (sz - _size_meta_data)) 0 0) ;;;
          ret (last_searched + _size_meta_data)
        else
          let* sz := get_size last_searched in
          let* last_block := _init_alloc_block (u64 (last_searched + sz)) block_size in
          finish_smalloc last_block size
    else
      let* pb := _sbrk 0 in
      modify (set_global_head pb) ;;;
      let* last_block := _init_alloc_block pb block_size in
      finish_smalloc last_block size.

Definition scalloc (num size : Z) : M heap Z :=
  let* alloc := smalloc (u64 (num * size)) in
  if alloc =? NULL then ret NULL
  else
    c_memset alloc 0 (u64 (num * size)) ;;;
    ret alloc.

Definition sfree (p : Z) : M heap unit :=
  if p =? NULL then ret tt
  else
    let block_to_free := u64 (p - _size_meta_data) in
    let* is_free := get_is_free block_to_free in
    if negb (is_free =? 0) then ret tt
    else
      put_is_free block_to_free 1 ;;;
      let* sz := get_size block_to_free in
      modify (add_counts 1 (u64 (sz - _size_meta_data)) 0 0).

Definition srealloc (oldp size : Z) : M heap Z :=
  if oldp =? NULL then smalloc size
  else
    let old_block := u64 (oldp - _size_meta_data) in
    if (size =? 0) || (SIZE_LIMIT <? size) then ret NULL
    else
      let block_size := u64 (size + _size_meta_data) in
      let* osize := get_size old_block in
      if block_size <=? osize then ret oldp
      else
        let* newp := smalloc size in
        if newp =? NULL then ret NULL
        else
          let* osize := get_size old_block in
          c_memmove newp oldp (u64 (osize - _size_meta_data)) ;;;
          sfree oldp ;;;
          ret newp.
End Malloc2.

(** ** The list of blocks *)

Definition flag (f : bool) : Z := if f then 1 else 0.

(** Size and state of the blocks that follow each other from [a] to [e], as their
    headers describe them. *)
Fixpoint blocks (m : gmap Z Z) (a : Z) (l : list (Z * bool)) (e : Z) : Prop :=
  match l with
  | [] => a = e
  | (sz, f) :: t => 16 ≤ sz ∧ load m a 8 = sz ∧ load m (a + 8) 8 = flag f ∧ blocks m (a + sz) t e
  end.

Definition total (l : list (Z * bool)) : Z := foldr (λ x acc, x.1 + acc) 0 l.
Definition payload (l : list (Z * bool)) : Z := foldr (λ x acc, x.1 - 16 + acc) 0 l.
Definition free_of (l : list (Z * bool)) : list (Z * bool) := List.filter (λ x, x.2) l.

(** The invariant: the list, and exact counters. *)
Record inv (s : heap) (l : list (Z * bool)) : Prop := {
  iv_brk : brk_ok (brk s);
  iv_holes : k_holes (kern (brk s)) = [];
  iv_list : (global_head s = NULL ∧ l = []) ∨
            (l ≠ [] ∧ k_start (kern (brk s)) ≤ global_head s ∧
             blocks (memory s) (global_head s) l (cur_break (brk s)));
  iv_fblocks : free_blocks_num s = u64 (Z.of_nat (length (free_of l)));
  iv_fbytes : free_bytes_num s = u64 (payload (free_of l));
  iv_ablocks : allocated_blocks_num s = u64 (Z.of_nat (length l));
  iv_abytes : allocated_bytes_num s = u64 (payload l)
}.

Lemma size_total_app l1 l2 : total (l1 ++ l2) = total l1 + total l2.
Proof. induction l1 as [|x l1 IH]; cbn in *; unfold total in *; lia. Qed.
Lemma payload_app l1 l2 : payload (l1 ++ l2) = payload l1 + payload l2.
Proof. induction l1 as [|x l1 IH]; cbn in *; unfold payload in *; lia. Qed.
Lemma free_of_app l1 l2 : free_of (l1 ++ l2) = free_of l1 ++ free_of l2.
Proof. apply List.filter_app. Qed.

Lemma blocks_app m a l1 l2 e : blocks m a (l1 ++ l2) e ↔ blocks m a l1 (a + total l1) ∧ blocks m (a + total l1) l2 e.
Proof.
  revert a. induction l1 as [|[sz f] l1 IH]; intros a; cbn.
  - rewrite Z.add_0_r. tauto.
  - rewrite IH. unfold total. cbn. rewrite Z.add_assoc. tauto.
Qed.

Lemma blocks_end m a l e : blocks m a l e → e = a + total l ∧ 16 * Z.of_nat (length l) ≤ total l.
Proof.
  revert a. induction l as [|[sz f] l IH]; intros a; cbn; [lia|]. intros (H & _ & _ & [-> Hl]%IH). unfold total in *. cbn. lia.
Qed.

Lemma blocks_ext m m' a l e :
  blocks m a l e → (∀ x, a ≤ x < e → rd m' x = rd m x) → blocks m' a l e.
Proof.
  revert a. induction l as [|[sz f] l IH]; intros a Hb Hx; [done|]. destruct Hb as (H1 & H2 & H3 & H4).
  pose proof (blocks_end _ _ _ _ H4) as [He Hl]. split; [done|]. split; [|split].
  - rewrite <- H2. apply load_ext. intros x ?. apply Hx. lia.
  - rewrite <- H3. apply load_ext. intros x ?. apply Hx. lia.
  - apply IH; [done|]. intros x ?. apply Hx. lia.
Qed.

(** ** Search *)

(** The address [_find_free_block] returns: the first fit among all blocks but
    the last, or else the last block, whether it fits or not. *)
Fixpoint search (n a : Z) (l : list (Z * bool)) : Z :=
  match l with
  | [] => a
  | (sz, f) :: t =>
    match t with
    | [] => a
    | _ :: _ => if f && (n <=? sz) then a else search n (a + sz) t
    end
  end.

Definition fits (n : Z) (x : Z * bool) : bool := x.2 && (n <=? x.1).

Lemma search_cons n a sz f y l :
  search n a ((sz, f) :: y :: l) = if f && (n <=? sz) then a else search n (a + sz) (y :: l).
Proof. done. Qed.

Lemma search_spec n a l :
  l ≠ [] → ∃ l1 x l2, l = l1 ++ x :: l2 ∧ search n a l = a + total l1 ∧ Forall (λ y, fits n y = false) l1 ∧
                      (fits n x = true ∨ l2 = []).
Proof.
  revert a. induction l as [|[sz f] l IH]; intros a Hl; [done|]. destruct l as [|y l].
  { exists [], (sz, f), []. split; [done|]. split; [cbn; lia|]. split; [done|by right]. }
  rewrite search_cons. destruct (f && (n <=? sz)) eqn:E.
  - exists [], (sz, f), (y :: l). split; [done|]. split; [cbn; lia|]. split; [done|by left].
  - destruct (IH (a + sz) ltac:(done)) as (l1 & x & l2 & Hl' & Hs & Hn & Hx). exists ((sz, f) :: l1), x, l2.
    split; [by rewrite Hl'|]. split; [rewrite Hs; cbn; unfold total; lia|]. split; [by constructor|done].
Qed.

(** ** Specifications *)

Ltac hcbn :=
  unfold set_brk, set_memory, set_global_head, add_counts in *;
  cbn [get_k get_m set_m heap_machine brk memory global_head free_blocks_num free_bytes_num
       allocated_blocks_num allocated_bytes_num] in *.

Section Specs.
Context {os : OS} {laws : OSLaws os}.

Lemma inv_mapped s l x n :
  inv s l → k_start (kern (brk s)) ≤ x → x + n ≤ cur_break (brk s) → mapped (kern (brk s)) x n = true.
Proof. intros Hi H1 H2. pose proof (bo_hi _ (iv_brk _ _ Hi)). apply mapped_brk; [apply Hi|lia|lia]. Qed.

Lemma first_fit_loop_spec fuel n s a l (Q : Z → heap → Prop) :
  brk_ok (brk s) → k_holes (kern (brk s)) = [] → k_start (kern (brk s)) ≤ a → blocks (memory s) a l (cur_break (brk s)) →
  l ≠ [] → (length l ≤ S fuel)%nat → Q (search n a l) s →
  wp (find_loop fuel n (cur_break (brk s)) a) Q s.
Proof.
  intros Hb Hh. pose proof Hb as [B1 B2 B3 B4 _ _]. unfold ADDR_MAX in B4.
  revert a l. induction fuel as [|fuel IH]; intros a l Ha Hl Hne Hlen HQ.
  all: destruct l as [|[sz f] l]; [done|]; destruct Hl as (H1 & H2 & H3 & H4); pose proof (blocks_end _ _ _ _ H4) as [He Hln].
  all: cbn [find_loop]; apply wp_bind, wp_ld; [apply mapped_brk; [done|done|hcbn; lia]|]; hcbn; rewrite H2, u64_small by lia.
  all: destruct l as [|y l]; [cbn in He; destruct (Z.ltb_spec (a + sz) (cur_break (brk s))); [lia|by apply wp_ret]|].
  { cbn in Hlen. lia. }
  destruct y as [sz' f']. pose proof H4 as (H5 & _ & _ & H6). pose proof (blocks_end _ _ _ _ H6) as [He' Hln'].
  destruct (Z.ltb_spec (a + sz) (cur_break (brk s))); [|lia].
  apply wp_bind, wp_ld; [apply mapped_brk; [done|hcbn; lia|hcbn; lia]|]. hcbn. rewrite H3.
  rewrite search_cons in HQ. destruct f; cbn [flag Z.eqb negb andb] in *.
  - destruct (n <=? sz); [by apply wp_ret|]. eapply IH; [lia|exact H4|done|cbn in *; lia|done].
  - eapply IH; [lia|exact H4|done|cbn in *; lia|done].
Qed.

Lemma blocks_set_flag m a l1 sz f l2 e f' :
  blocks m a (l1 ++ (sz, f) :: l2) e →
  blocks (store m (a + total l1 + 8) 8 (flag f')) a (l1 ++ (sz, f') :: l2) e.
Proof.
  intros (H1 & H2 & H3 & H4 & H5)%blocks_app. pose proof (blocks_end _ _ _ _ H1) as [_ ?]. apply blocks_app. split.
  - eapply blocks_ext; [exact H1|]. intros x Hx. apply rd_store_out. lia.
  - split; [done|]. split; [by rewrite load_store_ne by lia|]. split; [rewrite load_store8_eq; [done|by destruct f']|].
    eapply blocks_ext; [exact H5|]. intros x Hx. apply rd_store_out. lia.
Qed.

(** The counters after the state of one block changed. *)
Lemma inv_set_flag s l1 sz f l2 f' d1 d2 :
  inv s (l1 ++ (sz, f) :: l2) → f ≠ f' → d1 = (if f' then 1 else -1) → d2 = (if f' then sz - 16 else - (sz - 16)) →
  inv (add_counts d1 d2 0 0 (set_memory (store (memory s) (global_head s + total l1 + 8) 8 (flag f')) s)) (l1 ++ (sz, f') :: l2).
Proof.
  intros [H1 H2 H3 H4 H5 H6 H7] Hff -> ->. split; hcbn; try done.
  - destruct H3 as [[_ ?]|(_ & ? & ?)]; [by destruct l1|right]. split; [by destruct l1|]. split; [done|by eapply blocks_set_flag].
  - rewrite H4. u64_norm. f_equal. rewrite !free_of_app, !length_app. destruct f, f'; try done; cbn; lia.
  - rewrite H5. u64_norm. f_equal. rewrite !free_of_app, !payload_app. destruct f, f'; try done; cbn; unfold payload; lia.
  - rewrite H6. u64_norm. f_equal. rewrite !length_app. cbn. lia.
  - rewrite H7. u64_norm. f_equal. rewrite !payload_app. cbn. lia.
Qed.

Lemma inv_head s l1 x l2 :
  inv s (l1 ++ x :: l2) →
  0 < global_head s ∧ k_start (kern (brk s)) ≤ global_head s + total l1 ∧ 16 ≤ x.1 ∧ 0 ≤ total l1 ∧ 0 ≤ total l2 ∧
  global_head s + total l1 + x.1 + total l2 = cur_break (brk s) ∧ cur_break (brk s) < 2 ^ 47 ∧
  load (memory s) (global_head s + total l1) 8 = x.1 ∧ load (memory s) (global_head s + total l1 + 8) 8 = flag x.2.
Proof.
  intros [[B1 B2 B3 B4 _ _] H2 H3 _ _ _ _]. unfold ADDR_MAX in *. destruct H3 as [[_ ?]|(_ & ? & Hb)]; [by destruct l1|].
  apply blocks_app in Hb as [Hb1 Hb2]. destruct x as [sz f]. destruct Hb2 as (H5 & H6 & H7 & H8).
  pose proof (blocks_end _ _ _ _ Hb1) as [_ ?]. pose proof (blocks_end _ _ _ _ H8) as [? ?]. cbn in *. lia.
Qed.

Lemma inv_settle s l : inv s l → inv (set_brk (BrkState (kern (brk s)) (Some (cur_break (brk s)))) s) l.
Proof.
  intros [[B1 B2 B3 B4 B5 B6] H2 H3 H4 H5 H6 H7]. split; hcbn; try done.
Qed.

Lemma first_fit_spec n s l (Q : Z → heap → Prop) :
  inv s l → l ≠ [] →
  Q (search n (global_head s) l) (set_brk (BrkState (kern (brk s)) (Some (cur_break (brk s)))) s) →
  wp (_find_free_block n) Q s.
Proof.
  intros Hi Hl HQ. pose proof (inv_settle _ _ Hi) as Hi'. destruct Hi' as [H1 H2 H3 _ _ _ _].
  pose proof H1 as [B1 B2 B3 B4 _ _]. hcbn. unfold ADDR_MAX in B4. cbn in *.
  unfold _find_free_block. apply wp_bind, wp_gets, wp_bind. unfold wp at 1, _sbrk. change (i64 0) with 0. rewrite _sbrk_0.
  destruct H3 as [[_ ?]|(_ & Hst & Hb)]; [done|].
  destruct (Z.eqb_spec (cur_break (brk s)) FAILED) as [E|_]; [unfold cur_break, FAILED in *; cbn in *; lia|].
  destruct (Z.eqb_spec (global_head s) NULL) as [E|_]; [unfold NULL in E; lia|]. cbn [orb].
  apply wp_bind, wp_gets. pose proof (blocks_end _ _ _ _ Hb) as [He Hlen].
  eapply (first_fit_loop_spec _ _ (set_brk (BrkState (kern (brk s)) (Some (cur_break (brk s)))) s)); hcbn;
    [done|done|exact Hst|exact Hb|done| |exact HQ].
  unfold list_fuel. cbn [brk kern]. enough (Z.of_nat (length l) ≤ (k_brk (kern (brk s)) - k_start (kern (brk s))) / _size_meta_data) by lia.
  unfold _size_meta_data. apply Z.div_le_lower_bound; lia.
Qed.

(** A block at the break, followed by the end of [smalloc]. *)
Lemma append_spec size s l hd (Q : Z → heap → Prop) :
  let n := size + 16 in
  inv s l → (l = [] → hd = cur_break (brk s)) → (l ≠ [] → hd = global_head s) → 0 < size < 2 ^ 31 →
  (∀ s', ¬ grants (brk s) n → (l ≠ [] → inv s' l) → Q NULL s') →
  (∀ s', inv s' (l ++ [(n, false)]) → global_head s' = hd →
     same_but (λ x, cur_break (brk s) ≤ x < cur_break (brk s) + 16) (memory s) (memory s') →
     cur_break (brk s') = cur_break (brk s) + n → Q (cur_break (brk s) + 16) s') →
  wp (let* last_block := _init_alloc_block (cur_break (brk s)) n in finish_smalloc last_block size) Q (set_global_head hd s).
Proof.
  intros n Hi Hhd1 Hhd2 Hsize HQ1 HQ2. pose proof (iv_brk _ _ Hi) as Hb. pose proof Hb as [B1 B2 B3 B4 B5 B6]. unfold ADDR_MAX in B4.
  apply wp_bind. unfold _init_alloc_block. apply wp_bind. unfold wp at 1, _sbrk. rewrite i64_small by (unfold n; lia).
  pose proof (_sbrk_spec n (brk s) Hb ltac:(unfold n; lia)) as Hs. hcbn. destruct (Malloc1._sbrk n (brk s)) as [r b'].
  destruct Hs as [(-> & Hg & Hng)|[-> Hg]].
  - cbn [Z.eqb FAILED]. apply wp_ret. unfold finish_smalloc. cbn [Z.eqb NULL]. apply wp_ret, HQ1; [done|]. intros Hl.
    rewrite Hhd2 by done. destruct Hi as [H1 H2 H3 H4 H5 H6 H7]. destruct Hg as [G1 G2 G3 G4 G5 G6]. split; hcbn; try done.
    + by rewrite G6.
    + unfold cur_break at 1. by rewrite G2, G3, Z.add_0_r.
  - destruct (Z.eqb_spec (cur_break (brk s)) FAILED) as [E|_]; [unfold FAILED in E; lia|].
    pose proof Hg as [G1 G2 G3 G4 G5 G6]. assert (Hcb : cur_break b' = cur_break (brk s) + n) by (unfold cur_break at 1; by rewrite G2).
    pose proof (bo_hi _ G1). pose proof (bo_max _ G1). unfold ADDR_MAX in *.
    assert (Hm : ∀ x k, cur_break (brk s) ≤ x → x + k ≤ cur_break (brk s) + n → mapped (kern b') x k = true).
    { intros x k Hx Hk. apply mapped_brk; [rewrite G6; apply Hi|lia|lia]. }
    apply wp_bind, wp_st; [apply Hm; hcbn; unfold n in *; lia|]. apply wp_bind, wp_st; [apply Hm; hcbn; unfold n in *; lia|]. apply wp_ret.
    unfold finish_smalloc. destruct (Z.eqb_spec (cur_break (brk s)) NULL) as [E|_]; [unfold NULL in E; lia|].
    apply wp_bind, wp_modify, wp_ret. hcbn.
    apply HQ2; hcbn; [|done| |done].
    + destruct Hi as [H1 H2 H3 H4 H5 H6 H7]. split; hcbn; try done.
      * by rewrite G6.
      * right. split; [by destruct l|]. rewrite Hcb, G3.
        assert (Hnew : ∀ m, blocks (store (store m (cur_break (brk s)) 8 n) (cur_break (brk s) + 8) 8 0) (cur_break (brk s)) [(n, false)] (cur_break (brk s) + n)).
        { intros m. cbn. split; [unfold n; lia|]. split; [by rewrite load_store_ne, load_store8_eq by (unfold n; lia)|].
          split; [by rewrite load_store8_eq|done]. }
        destruct H3 as [[_ ->]|(Hl & Hst & Hbl)]; [rewrite Hhd1 by done; split; [lia|apply Hnew]|].
        rewrite Hhd2 by done. split; [done|]. pose proof (blocks_end _ _ _ _ Hbl) as [He _]. apply blocks_app. split.
        -- rewrite <- He. eapply blocks_ext; [exact Hbl|]. intros x Hx. rewrite !rd_store_out by lia. done.
        -- rewrite <- He. apply Hnew.
      * rewrite H4. u64_norm. f_equal. rewrite !free_of_app, !length_app. cbn. lia.
      * rewrite H5. u64_norm. f_equal. rewrite !free_of_app, !payload_app. cbn. lia.
      * rewrite H6. u64_norm. f_equal. rewrite !length_app. cbn. lia.
      * rewrite H7. u64_norm. f_equal. rewrite !payload_app. cbn. unfold n. lia.
    + eapply same_but_trans; apply same_but_store; lia.
Qed.

Lemma smalloc_spec size s l (Q : Z → heap → Prop) :
  let n := size + 16 in
  inv s l → 0 < size ≤ SIZE_LIMIT →
  (∀ l1 sz l2 s', l = l1 ++ (sz, true) :: l2 → Forall (λ y, fits n y = false) l1 → (n ≤ sz ∨ l2 = []) →
     inv s' (l1 ++ (sz, false) :: l2) → global_head s' = global_head s → cur_break (brk s') = cur_break (brk s) →
     memory s' = store (memory s) (global_head s + total l1 + 8) 8 0 →
     Q (global_head s + total l1 + 16) s') →
  (∀ s', Forall (λ y, fits n y = false) l → inv s' (l ++ [(n, false)]) → (l ≠ [] → global_head s' = global_head s) →
     same_but (λ x, cur_break (brk s) ≤ x < cur_break (brk s) + 16) (memory s) (memory s') →
     cur_break (brk s') = cur_break (brk s) + n → Q (cur_break (brk s) + 16) s') →
  (∀ s', Forall (λ y, fits n y = false) l → ¬ grants (brk s) n → (l ≠ [] → inv s' l) → Q NULL s') →
  wp (smalloc size) Q s.
Proof.
  intros n Hi Hsize HQ1 HQ2 HQ3. unfold SIZE_LIMIT in Hsize. unfold smalloc, SIZE_LIMIT.
  destruct (Z.eqb_spec size 0); [lia|]. destruct (Z.ltb_spec 100000000 size); [lia|]. cbn [orb].
  unfold _size_meta_data. rewrite (u64_small (size + 16)) by lia. fold n. apply wp_bind, wp_gets.
  pose proof (bo_start _ (iv_brk _ _ Hi)). pose proof (bo_lo _ (iv_brk _ _ Hi)).
  destruct (iv_list _ _ Hi) as [[Hh ->]|(Hl & Hst & Hbl)].
  - rewrite Hh. cbn [Z.eqb NULL negb]. apply wp_bind. unfold wp at 1, _sbrk. change (i64 0) with 0. rewrite _sbrk_0.
    apply wp_bind, wp_modify.
    eapply (append_spec size (set_brk (BrkState (kern (brk s)) (Some (cur_break (brk s)))) s) []);
      [by apply inv_settle|done|done|lia|..].
    + intros s' Hng _. by apply HQ3.
    + intros s' Hi' _ Hs Hcb. by apply HQ2.
  - destruct (Z.eqb_spec (global_head s) NULL) as [E|_]; [unfold NULL in E; lia|]. cbn [negb]. apply wp_bind.
    eapply first_fit_spec; [exact Hi|done|]. destruct (search_spec n (global_head s) l Hl) as (l1 & [sz f] & l2 & -> & -> & Hnf & Hfit).
    pose proof (inv_head _ _ _ _ Hi) as (P1 & P2 & P3 & P4 & P5 & P6 & P7 & P8 & P9). cbn [fst snd] in *.
    destruct (Z.eqb_spec (global_head s + total l1) NULL) as [E|_]; [unfold NULL in E; lia|].
    pose proof (inv_settle _ _ Hi) as Hi'. set (s0 := set_brk _ s) in *.
    assert (Hm : ∀ x k, global_head s + total l1 ≤ x → x + k ≤ global_head s + total l1 + sz → mapped (kern (brk s0)) x k = true).
    { intros x k Hx Hk. eapply inv_mapped; [exact Hi'|..]; change (brk s0) with (BrkState (kern (brk s)) (Some (cur_break (brk s)))); cbn; lia. }
    apply wp_bind, wp_ld; [apply Hm; lia|]. change (get_m s0) with (memory s). rewrite P9. destruct f; cbn [flag Z.eqb negb].
    + apply wp_bind, wp_st; [apply Hm; lia|]. apply wp_bind, wp_ld; [apply Hm; lia|]. apply wp_bind, wp_modify, wp_ret.
      change (get_m (set_m _ _)) with (store (memory s) (global_head s + total l1 + 8) 8 0).
      rewrite load_store_ne, P8, u64_small by lia. eapply HQ1; [done|done| | |done|done|done].
      * destruct Hfit as [Hf|Hf]; [left; unfold fits in Hf; cbn in Hf; by apply Z.leb_le in Hf|by right].
      * apply (inv_set_flag s0 l1 sz true l2 false); [done|done|done|done].
    + assert (l2 = []) as -> by (destruct Hfit as [Hf|]; done). cbn in P6.
      apply wp_bind, wp_ld; [apply Hm; lia|]. change (get_m s0) with (memory s). rewrite P8, u64_small by lia.
      replace (global_head s + total l1 + sz) with (cur_break (brk s0)) by (change (cur_break (brk s0)) with (cur_break (brk s)); lia).
      replace s0 with (set_global_head (global_head s0) s0) at 2 by (by destruct s0).
      eapply (append_spec size s0); [exact Hi'|intros E; by destruct l1|done|lia|..].
      * intros s' Hng Hi2. apply HQ3; [|done|done]. apply Forall_app. split; [done|]. by repeat constructor.
      * intros s' Hi2 Hh Hs Hcb. apply HQ2; [|done|done|done|done]. apply Forall_app. split; [done|]. by repeat constructor.
Qed.

Lemma sfree_spec s l1 sz l2 (Q : unit → heap → Prop) :
  inv s (l1 ++ (sz, false) :: l2) →
  (∀ s', inv s' (l1 ++ (sz, true) :: l2) → global_head s' = global_head s → cur_break (brk s') = cur_break (brk s) →
     memory s' = store (memory s) (global_head s + total l1 + 8) 8 1 → Q tt s') →
  wp (sfree (global_head s + total l1 + 16)) Q s.
Proof.
  intros Hi HQ. pose proof (inv_head _ _ _ _ Hi) as (P1 & P2 & P3 & P4 & P5 & P6 & P7 & P8 & P9). cbn [fst snd] in *.
  unfold sfree. destruct (Z.eqb_spec (global_head s + total l1 + 16) NULL) as [E|_]; [unfold NULL in E; lia|].
  unfold _size_meta_data. rewrite u64_small by lia. replace (global_head s + total l1 + 16 - 16) with (global_head s + total l1) by lia.
  assert (Hm : ∀ x k, global_head s + total l1 ≤ x → x + k ≤ global_head s + total l1 + sz → mapped (kern (brk s)) x k = true).
  { intros x k Hx Hk. eapply inv_mapped; [exact Hi|lia|lia]. }
  apply wp_bind, wp_ld; [apply Hm; lia|]. change (get_m s) with (memory s). rewrite P9. cbn [flag Z.eqb negb].
  apply wp_bind, wp_st; [apply Hm; lia|]. apply wp_bind, wp_ld; [apply Hm; lia|]. apply wp_modify.
  change (get_m (set_m _ _)) with (store (memory s) (global_head s + total l1 + 8) 8 1).
  rewrite load_store_ne, P8, u64_small by lia. apply HQ; [|done|done|done].
  by apply (inv_set_flag s l1 sz false l2 true).
Qed.

Lemma inv_write_payload s l1 sz f l2 m' :
  inv s (l1 ++ (sz, f) :: l2) →
  same_but (λ x, global_head s + total l1 + 16 ≤ x < global_head s + total l1 + sz) (memory s) m' →
  inv (set_memory m' s) (l1 ++ (sz, f) :: l2).
Proof.
  intros [H1 H2 H3 H4 H5 H6 H7] Hs. split; hcbn; try done.
  destruct H3 as [[_ ?]|(_ & ? & Hb)]; [by destruct l1|right]. split; [by destruct l1|]. split; [done|].
  apply blocks_app in Hb as (Hb1 & H8 & H9 & H10 & Hb2). apply blocks_app. pose proof (blocks_end _ _ _ _ Hb2) as [He ?].
  pose proof (blocks_end _ _ _ _ Hb1) as [_ ?]. split; [|split; [done|split; [|split]]].
  - eapply blocks_ext; [exact Hb1|]. intros x Hx. apply Hs. lia.
  - rewrite <- H9. eapply same_but_load; [exact Hs|]. intros x Hx. cbn in *. lia.
  - rewrite <- H10. eapply same_but_load; [exact Hs|]. intros x Hx. cbn in *. lia.
  - eapply blocks_ext; [exact Hb2|]. intros x Hx. apply Hs. lia.
Qed.

(** The first fit is unique. *)
Lemma first_fit_unique n l1 x l2 k1 y k2 :
  l1 ++ x :: l2 = k1 ++ y :: k2 → Forall (λ z, fits n z = false) l1 → fits n x = true →
  Forall (λ z, fits n z = false) k1 → (fits n y = true ∨ k2 = []) → l1 = k1 ∧ x = y ∧ l2 = k2.
Proof.
  revert k1. induction l1 as [|a l1 IH]; intros [|b k1] E Hl Hx Hk Hy; cbn in E.
  - by simplify_eq.
  - injection E as -> _. apply Forall_cons in Hk as [? _]. congruence.
  - injection E as -> E. apply Forall_cons in Hl as [Ha Hl]. destruct Hy as [Hy|Hy]; [congruence|]. subst k2. by destruct l1.
  - injection E as -> E. apply Forall_cons in Hl as [_ Hl]. apply Forall_cons in Hk as [_ Hk].
    destruct (IH k1 E Hl Hx Hk Hy) as (-> & -> & ->). done.
Qed.

Lemma sfree_free s l1 sz l2 :
  inv s (l1 ++ (sz, true) :: l2) → sfree (global_head s + total l1 + 16) s = Ok tt s.
Proof.
  intros Hi. pose proof (inv_head _ _ _ _ Hi) as (P1 & P2 & P3 & P4 & P5 & P6 & P7 & P8 & P9). cbn [fst snd] in *.
  unfold sfree. destruct (Z.eqb_spec (global_head s + total l1 + 16) NULL) as [E|_]; [unfold NULL in E; lia|].
  unfold _size_meta_data. rewrite u64_small by lia. replace (global_head s + total l1 + 16 - 16) with (global_head s + total l1) by lia.
  unfold get_is_free, ld, bind. hcbn. rewrite (inv_mapped s _ _ _ Hi) by lia. by rewrite P9.
Qed.

(** A request that no block fits takes the last block if that is free. *)
Lemma smalloc_too_small size s l sz (Q : Z → heap → Prop) :
  inv s (l ++ [(sz, true)]) → 0 < size ≤ SIZE_LIMIT → Forall (λ y, fits (size + 16) y = false) (l ++ [(sz, true)]) →
  (∀ s', inv s' (l ++ [(sz, false)]) → Q (global_head s + total l + 16) s') →
  wp (smalloc size) Q s.
Proof.
  intros Hi Hsize Hall HQ. unfold SIZE_LIMIT in Hsize. unfold smalloc, SIZE_LIMIT.
  destruct (Z.eqb_spec size 0); [lia|]. destruct (Z.ltb_spec 100000000 size); [lia|]. cbn [orb].
  pose proof (inv_head _ _ _ _ Hi) as (P1 & P2 & P3 & P4 & P5 & P6 & P7 & P8 & P9). cbn [fst snd] in *.
  unfold _size_meta_data. rewrite (u64_small (size + 16)) by lia. apply wp_bind, wp_gets.
  destruct (Z.eqb_spec (global_head s) NULL) as [E|_]; [unfold NULL in E; lia|]. cbn [negb]. apply wp_bind.
  eapply first_fit_spec; [exact Hi|by destruct l|].
  assert (Hsr : search (size + 16) (global_head s) (l ++ [(sz, true)]) = global_head s + total l).
  { destruct (search_spec (size + 16) (global_head s) (l ++ [(sz, true)]) ltac:(by destruct l)) as (l1 & x & l2 & Hl & -> & _ & Hx).
    destruct Hx as [Hx| ->]; [rewrite Hl in Hall; apply Forall_app in Hall as [_ Hf]; apply Forall_cons in Hf as [Hf _]; congruence|].
    by apply app_inj_tail in Hl as [-> _]. }
  rewrite Hsr. destruct (Z.eqb_spec (global_head s + total l) NULL) as [E|_]; [unfold NULL in E; lia|].
  pose proof (inv_settle _ _ Hi) as Hi'. set (s0 := set_brk _ s) in *.
  assert (Hm : ∀ x k, global_head s + total l ≤ x → x + k ≤ global_head s + total l + sz → mapped (kern (brk s0)) x k = true).
  { intros x k Hx Hk. eapply inv_mapped; [exact Hi'|..]; change (brk s0) with (BrkState (kern (brk s)) (Some (cur_break (brk s)))); cbn; lia. }
  apply wp_bind, wp_ld; [apply Hm; lia|]. change (get_m s0) with (memory s). rewrite P9. cbn [flag Z.eqb negb].
  apply wp_bind, wp_st; [apply Hm; lia|]. apply wp_bind, wp_ld; [apply Hm; lia|]. apply wp_bind, wp_modify, wp_ret.
  change (get_m (set_m _ _)) with (store (memory s) (global_head s + total l + 8) 8 0).
  rewrite load_store_ne, P8, u64_small by lia. apply HQ. by apply (inv_set_flag s0 l sz true [] false).
Qed.
End Specs.

(** ** Properties *)

Section Properties.
Context {os : OS} {laws : OSLaws os}.

(** C32: when a released block is large enough, the first one in address order is
    given out again, as the comment of [_find_free_block] says; only its flag and
    the counters of free blocks change. *)
Theorem smalloc2_first_fit (size : Z) (s : heap) (l1 : list (Z * bool)) (sz : Z) (l2 : list (Z * bool))
    (Hi : inv s (l1 ++ (sz, true) :: l2)) (Hsize : 0 < size ≤ SIZE_LIMIT) (Hfit : size + 16 ≤ sz)
    (Hfirst : Forall (λ y, fits (size + 16) y = false) l1) :
  ∃ s', smalloc size s = Ok (global_head s + total l1 + 16) s' ∧ inv s' (l1 ++ (sz, false) :: l2) ∧
        memory s' = store (memory s) (global_head s + total l1 + 8) 8 0.
Proof.
  assert (Hfx : fits (size + 16) (sz, true) = true) by (cbn; by apply Z.leb_le).
  assert (Hwp : wp (smalloc size) (λ p s', p = global_head s + total l1 + 16 ∧ inv s' (l1 ++ (sz, false) :: l2) ∧
                 memory s' = store (memory s) (global_head s + total l1 + 8) 8 0) s).
  { eapply smalloc_spec; [exact Hi|done|..].
    - intros k1 sz' k2 s' Hl Hk Hc Hi' Hh _ Hm.
      destruct (first_fit_unique (size + 16) _ _ _ _ _ _ Hl Hfirst Hfx Hk) as (-> & [= ->] & ->); [|done].
      destruct Hc; [left; cbn; by apply Z.leb_le|by right].
    - intros s' Hn. apply Forall_app in Hn as [_ Hn]. apply Forall_cons in Hn as [Hn _]. congruence.
    - intros s' Hn. apply Forall_app in Hn as [_ Hn]. apply Forall_cons in Hn as [Hn _]. congruence. }
  apply wp_run in Hwp as (p & s' & Hrun & -> & ? & ?). by exists s'.
Qed.

(** when no released block fits and the last block is in use, the request
    gets a new block at the break if the kernel grants the memory; the invariant
    with exact counters holds again and no byte below the break changes. *)
Theorem smalloc2_append (size : Z) (s : heap) (l : list (Z * bool))
    (Hi : inv s l) (Hsize : 0 < size ≤ SIZE_LIMIT) (Hnone : Forall (λ y, fits (size + 16) y = false) l)
    (Hlast : ∀ k x, l = k ++ [x] → x.2 = false) (Hg : grants (brk s) (size + 16)) :
  ∃ s', smalloc size s = Ok (cur_break (brk s) + 16) s' ∧ inv s' (l ++ [(size + 16, false)]) ∧
        ∀ x, x < cur_break (brk s) → rd (memory s') x = rd (memory s) x.
Proof.
  assert (Hwp : wp (smalloc size) (λ p s', p = cur_break (brk s) + 16 ∧ inv s' (l ++ [(size + 16, false)]) ∧
                 ∀ x, x < cur_break (brk s) → rd (memory s') x = rd (memory s) x) s).
  { eapply smalloc_spec; [exact Hi|done|..].
    - intros l1 sz l2 s' -> _ [Hn| ->] _.
      + apply Forall_app in Hnone as [_ Hf]. apply Forall_cons in Hf as [Hf _]. cbn in Hf. apply Z.leb_gt in Hf. lia.
      + by specialize (Hlast l1 (sz, true) eq_refl).
    - intros s' _ Hi' _ Hs _. split; [done|]. split; [done|]. intros x Hx. apply Hs. lia.
    - intros s' _ Hng. done. }
  apply wp_run in Hwp as (p & s' & Hrun & -> & ? & ?). by exists s'.
Qed.

(** [sfree] marks the block free and changes nothing else but the counters of
    free blocks; a second [sfree] does nothing. *)
Theorem sfree2_correct (s : heap) (l1 : list (Z * bool)) (sz : Z) (l2 : list (Z * bool))
    (Hi : inv s (l1 ++ (sz, false) :: l2)) :
  ∃ s', sfree (global_head s + total l1 + 16) s = Ok tt s' ∧ inv s' (l1 ++ (sz, true) :: l2) ∧
        memory s' = store (memory s) (global_head s + total l1 + 8) 8 1 ∧
        sfree (global_head s + total l1 + 16) s' = Ok tt s'.
Proof.
  assert (Hwp : wp (sfree (global_head s + total l1 + 16)) (λ _ s', inv s' (l1 ++ (sz, true) :: l2) ∧ global_head s' = global_head s ∧
                 memory s' = store (memory s) (global_head s + total l1 + 8) 8 1) s) by (by eapply sfree_spec).
  apply wp_run in Hwp as ([] & s' & Hrun & Hi' & Hh & Hm). exists s'. split; [done|]. split; [done|]. split; [done|].
  rewrite <- Hh. by eapply sfree_free.
Qed.

(** [srealloc] to a larger size, when the block has to move to the break,
    copies the whole old contents, frees the old block and leaves the invariant
    with exact counters. *)
Theorem srealloc2_moves (size : Z) (s : heap) (l1 : list (Z * bool)) (sz : Z) (l2 : list (Z * bool))
    (Hi : inv s (l1 ++ (sz, false) :: l2)) (Hsize : 0 < size ≤ SIZE_LIMIT) (Hgrow : sz < size + 16)
    (Hnone : Forall (λ y, fits (size + 16) y = false) (l1 ++ (sz, false) :: l2))
    (Hlast : ∀ k x, l1 ++ (sz, false) :: l2 = k ++ [x] → x.2 = false) (Hg : grants (brk s) (size + 16)) :
  let old := global_head s + total l1 + 16 in
  let new := cur_break (brk s) + 16 in
  ∃ s', srealloc old size s = Ok new s' ∧ inv s' (l1 ++ (sz, true) :: l2 ++ [(size + 16, false)]) ∧
        ∀ i, 0 ≤ i < sz - 16 → rd (memory s') (new + i) = rd (memory s) (old + i).
Proof.
  intros old new. pose proof (inv_head _ _ _ _ Hi) as (P1 & P2 & P3 & P4 & P5 & P6 & P7 & P8 & P9). cbn [fst snd] in *.
  assert (Hwp : wp (srealloc old size) (λ p s', p = new ∧ inv s' (l1 ++ (sz, true) :: l2 ++ [(size + 16, false)]) ∧
                 ∀ i, 0 ≤ i < sz - 16 → rd (memory s') (new + i) = rd (memory s) (old + i)) s).
  { unfold srealloc. destruct (Z.eqb_spec old NULL) as [E|_]; [unfold old, NULL in E; lia|]. pose proof Hsize as Hsize'. unfold SIZE_LIMIT in *.
    destruct (Z.eqb_spec size 0); [lia|]. destruct (Z.ltb_spec 100000000 size); [lia|]. cbn [orb].
    unfold _size_meta_data, old. rewrite (u64_small (global_head s + total l1 + 16 - 16)), (u64_small (size + 16)) by lia.
    replace (global_head s + total l1 + 16 - 16) with (global_head s + total l1) by lia.
    apply wp_bind, wp_ld; [eapply inv_mapped; [exact Hi|lia|lia]|]. change (get_m s) with (memory s). rewrite P8.
    destruct (Z.leb_spec (size + 16) sz); [lia|]. apply wp_bind.
    eapply smalloc_spec; [exact Hi|done|..].
    - intros k1 sz' k2 s' Hl _ [Hn| ->] _.
      + rewrite Hl in Hnone. apply Forall_app in Hnone as [_ Hf]. apply Forall_cons in Hf as [Hf _]. cbn in Hf. apply Z.leb_gt in Hf. lia.
      + by specialize (Hlast k1 (sz', true) Hl).
    - intros s1 _ Hi1 Hh1 Hs1 Hcb1. rewrite <- app_assoc in Hi1. specialize (Hh1 ltac:(by destruct l1)).
      destruct (Z.eqb_spec (cur_break (brk s) + 16) NULL) as [E|_]; [unfold NULL in E; lia|].
      pose proof (inv_head _ _ _ _ Hi1) as (R1 & R2 & R3 & R4 & R5 & R6 & R7 & R8 & R9). cbn [fst snd] in *. rewrite Hh1 in *.
      apply wp_bind, wp_ld; [eapply inv_mapped; [exact Hi1|lia|lia]|]. change (get_m s1) with (memory s1). rewrite R8, u64_small by lia.
      apply wp_bind, wp_memmove; [eapply inv_mapped; [exact Hi1|lia|lia]|eapply inv_mapped; [exact Hi1|lia|lia]|].
      apply wp_bind. set (m2 := memmove _ _ _ _). change (set_m m2 s1) with (set_memory m2 s1).
      assert (Hs2 : same_but (λ x, new ≤ x < new + (sz - 16)) (memory s1) m2).
      { intros x Hx. apply rd_memmove_out; unfold new in *; lia. }
      assert (Hi2 : inv (set_memory m2 s1) (l1 ++ (sz, false) :: l2 ++ [(size + 16, false)])).
      { assert (Hi1' : inv s1 ((l1 ++ (sz, false) :: l2) ++ (size + 16, false) :: [])) by (by rewrite <- app_assoc).
        pose proof (inv_write_payload s1 _ _ _ _ m2 Hi1') as Hw. rewrite <- app_assoc in Hw. apply Hw.
        eapply same_but_weaken; [|exact Hs2]. intros x Hx. rewrite Hh1, size_total_app. cbn. unfold new in Hx. unfold total in *. lia. }
      replace (global_head s + total l1 + 16) with (global_head (set_memory m2 s1) + total l1 + 16) by (cbn; by rewrite Hh1).
      eapply sfree_spec; [exact Hi2|]. intros s3 Hi3 _ _ Hm3. apply wp_ret. split; [done|]. split; [done|]. intros i Hi'.
      rewrite Hm3. change (global_head (set_memory m2 s1)) with (global_head s1). rewrite Hh1.
      rewrite rd_store_out by (unfold new; lia). change (memory (set_memory m2 s1)) with m2. unfold m2, new.
      rewrite rd_memmove_in by lia. apply Hs1. unfold old. lia.
    - intros s' _ Hng. done. }
  apply wp_run in Hwp as (p & s' & Hrun & -> & ? & ?). by exists s'.
Qed.

(** The code does not do what its comment says for the last block: when it is
    free it is given out even if it is too small, and the caller gets a block of
    fewer bytes than it asked for. *)
Theorem smalloc2_last_too_small (size : Z) (s : heap) (l : list (Z * bool)) (sz : Z)
    (Hi : inv s (l ++ [(sz, true)])) (Hsize : 0 < size ≤ SIZE_LIMIT) (Hsmall : sz < size + 16)
    (Hnone : Forall (λ y, fits (size + 16) y = false) l) :
  ∃ s', smalloc size s = Ok (global_head s + total l + 16) s' ∧ inv s' (l ++ [(sz, false)]) ∧ sz - 16 < size.
Proof.
  assert (Hwp : wp (smalloc size) (λ p s', p = global_head s + total l + 16 ∧ inv s' (l ++ [(sz, false)])) s).
  { assert (Hsf : fits (size + 16) (sz, true) = false) by (cbn; by apply Z.leb_gt).
    assert (Hall : Forall (λ y, fits (size + 16) y = false) (l ++ [(sz, true)])) by (apply Forall_app; split; [done|by repeat constructor]).
    eapply smalloc_too_small; [exact Hi|done|exact Hall|]. intros s' Hi'. done. }
  apply wp_run in Hwp as (p & s' & Hrun & -> & ?). exists s'. split; [done|]. split; [done|lia].
Qed.
End Properties.

(** ** A small heap to try the theorems on

    Two blocks are requested and the first is released: [4096, 4212) is then
    free and [4212, 4428) in use. *)

Definition os2 : OS := demo_os 1000000.
Definition e0 : heap := Heap demo_brk ∅ NULL 0 0 0 0.
Definition e1 : heap := after (smalloc (os := os2) 100) e0.
Definition e2 : heap := after (smalloc (os := os2) 200) e1.
Definition e3 : heap := after (sfree 4112) e2.

Lemma demo0_ok : inv e0 [].
Proof. split; [apply demo_brk_ok|done|by left|done..]. Qed.

(** What the invariant says of a heap whose break is [n] bytes above 4096. *)
Lemma demo_inv s l n :
  brk s = BrkState (Kernel 4096 (4096 + n) [] [] 2) (Some (4096 + n)) → 0 ≤ n ≤ 1000000 → global_head s = 4096 →
  l ≠ [] → blocks (memory s) 4096 l (4096 + n) →
  (free_blocks_num s, free_bytes_num s, allocated_blocks_num s, allocated_bytes_num s) =
    (u64 (Z.of_nat (length (free_of l))), u64 (payload (free_of l)), u64 (Z.of_nat (length l)), u64 (payload l)) →
  inv s l.
Proof.
  intros Hb Hn Hh Hl Hbl [= ? ? ? ?]. split; rewrite ?Hb; [|done| |done..].
  - split; unfold cur_break, ADDR_MAX; cbn; try lia. by intros r ?%not_elem_of_nil.
  - right. rewrite Hh. cbn. split; [done|]. split; [lia|done].
Qed.

Lemma e2_ok : inv e2 [(116, false); (216, false)].
Proof. apply (demo_inv _ _ 332); [vm_compute; reflexivity|lia|vm_compute; reflexivity|done|vm_compute; repeat split; discriminate|vm_compute; reflexivity]. Qed.
Lemma e3_ok : inv e3 [(116, true); (216, false)].
Proof. apply (demo_inv _ _ 332); [vm_compute; reflexivity|lia|vm_compute; reflexivity|done|vm_compute; repeat split; discriminate|vm_compute; reflexivity]. Qed.

Lemma last_of_two (x y z : Z * bool) k : [x; y] = k ++ [z] → z = y.
Proof. intros E. change [x; y] with ([x] ++ [y]) in E. by apply app_inj_tail in E as [_ ->]. Qed.

#[local] Opaque e0 e1 e2 e3.

Lemma smalloc2_first_fit_witness :
  ∃ s', smalloc (os := os2) 50 e3 = Ok (global_head e3 + 0 + 16) s' ∧ inv s' [(116, false); (216, false)] ∧
        memory s' = store (memory e3) (global_head e3 + 0 + 8) 8 0.
Proof.
  apply (smalloc2_first_fit (os := os2) (laws := demo_laws _) 50 e3 [] 116 [(216, false)] e3_ok);
    [unfold SIZE_LIMIT; lia|lia|constructor].
Defined.

Lemma smalloc2_append_witness :
  ∃ s', smalloc (os := os2) 150 e3 = Ok (cur_break (brk e3) + 16) s' ∧
        inv s' [(116, true); (216, false); (166, false)] ∧
        ∀ x, x < cur_break (brk e3) → rd (memory s') x = rd (memory e3) x.
Proof.
  apply (smalloc2_append (os := os2) (laws := demo_laws _) 150 e3 _ e3_ok);
    [unfold SIZE_LIMIT; lia|repeat constructor|by intros k x ->%last_of_two|].
  apply demo_grants; vm_compute; [reflexivity|discriminate|reflexivity].
Defined.

Lemma sfree2_correct_witness :
  ∃ s', sfree (global_head e2 + 0 + 16) e2 = Ok tt s' ∧ inv s' [(116, true); (216, false)] ∧
        memory s' = store (memory e2) (global_head e2 + 0 + 8) 8 1 ∧ sfree (global_head e2 + 0 + 16) s' = Ok tt s'.
Proof. apply (sfree2_correct e2 [] 116 [(216, false)] e2_ok). Defined.

Lemma srealloc2_moves_witness :
  ∃ s', srealloc (os := os2) (global_head e2 + 0 + 16) 300 e2 = Ok (cur_break (brk e2) + 16) s' ∧
        inv s' [(116, true); (216, false); (316, false)] ∧
        ∀ i, 0 ≤ i < 116 - 16 → rd (memory s') (cur_break (brk e2) + 16 + i) = rd (memory e2) (global_head e2 + 0 + 16 + i).
Proof.
  apply (srealloc2_moves (os := os2) (laws := demo_laws _) 300 e2 [] 116 [(216, false)] e2_ok);
    [unfold SIZE_LIMIT; lia|lia|repeat constructor|by intros k x ->%last_of_two|].
  apply demo_grants; vm_compute; [reflexivity|discriminate|reflexivity].
Defined.

(** ** Where the code does not do what it means to *)

(** The first request sets [global_head] to the break before it asks the kernel
    for the memory: after a refusal the next request reads a header that is not
    there. *)
Theorem smalloc2_refused_then_faults :
  observe (smalloc (os := demo_os 5000) 2000) e0 (λ p s, (p, global_head s)) = Some (NULL, 4096) ∧
  (smalloc (os := demo_os 5000) 2000 ;;; smalloc (os := demo_os 5000) 100) e0 = Fault.
Proof. split; vm_compute; reflexivity. Qed.
