(* ===== verification/SbrkHeap.v ===== *)
(** * The segregated heap of [hw4/wet_4/malloc_3.cpp] and [malloc_4.cpp]

    The part of the two allocators that is the same text in both files: block
    metadata (a header and a tail with a cookie), the sorted doubly linked free
    list, splitting, merging, the wilderness block, [sfree] and the in-place
    part of [srealloc].  The two files differ in [_sbrk]; it is the operation of
    the class [Break].  Source lines are those of [malloc_3.cpp]. *)

From S2P Require Import Prelude Memory Kernel Machine Malloc1.

(** The [_sbrk] of the file, and the granularity of the requests made to it. *)
Class Break := {
  brk_move : Z → brk_state → Z * brk_state;
  brk_unit : Z
}.

(** The global variables of the file, the memory and the operating system. *)
Record heap := Heap {
  brk : brk_state;
  memory : gmap Z Z;
  rand_pos : nat;
  global_rand_cookie : Z;
  sbrk_head : Z;
  sbrk_free_head : Z;
  free_blocks_num : Z;
  free_bytes_num : Z;
  allocated_blocks_num : Z;
  allocated_bytes_num : Z
}.

Definition set_brk (x : brk_state) (s : heap) : heap :=
  Heap x (memory s) (rand_pos s) (global_rand_cookie s) (sbrk_head s) (sbrk_free_head s)
    (free_blocks_num s) (free_bytes_num s) (allocated_blocks_num s) (allocated_bytes_num s).
Definition set_memory (x : gmap Z Z) (s : heap) : heap :=
  Heap (brk s) x (rand_pos s) (global_rand_cookie s) (sbrk_head s) (sbrk_free_head s)
    (free_blocks_num s) (free_bytes_num s) (allocated_blocks_num s) (allocated_bytes_num s).
Definition set_cookie (pos : nat) (x : Z) (s : heap) : heap :=
  Heap (brk s) (memory s) pos x (sbrk_head s) (sbrk_free_head s)
    (free_blocks_num s) (free_bytes_num s) (allocated_blocks_num s) (allocated_bytes_num s).
Definition set_sbrk_head (x : Z) (s : heap) : heap :=
  Heap (brk s) (memory s) (rand_pos s) (global_rand_cookie s) x (sbrk_free_head s)
    (free_blocks_num s) (free_bytes_num s) (allocated_blocks_num s) (allocated_bytes_num s).
Definition set_sbrk_free_head (x : Z) (s : heap) : heap :=
  Heap (brk s) (memory s) (rand_pos s) (global_rand_cookie s) (sbrk_head s) x
    (free_blocks_num s) (free_bytes_num s) (allocated_blocks_num s) (allocated_bytes_num s).

(** [free_blocks_num += d1; free_bytes_num += d2; ...] with the wrap-around of
    [size_t]. *)
Definition add_counts (d1 d2 d3 d4 : Z) (s : heap) : heap :=
  Heap (brk s) (memory s) (rand_pos s) (global_rand_cookie s) (sbrk_head s) (sbrk_free_head s)
    (u64 (free_blocks_num s + d1)) (u64 (free_bytes_num s + d2))
    (u64 (allocated_blocks_num s + d3)) (u64 (allocated_bytes_num s + d4)).

#[export] Instance heap_machine : Machine heap := {
  get_k s := kern (brk s);
  get_m := memory;
  set_m := set_memory
}.

#[export] Instance heap_machine_laws : MachineLaws heap.
Proof. by split. Qed.

(** ** Layout of the metadata *)

(** [sizeof(head_metadata_t)] and [sizeof(tail_metadata_t)]; the fields of the
    header are at offsets 0, 8, 16, 24, the cookie of the tail at 0 (4 bytes,
    then padding) and its size at 8. *)
Definition SIZEOF_HEAD : Z := 32.
Definition SIZEOF_TAIL : Z := 16.
Definition _size_meta_data : Z := SIZEOF_HEAD + SIZEOF_TAIL.
Definition SBRK_LIMIT : Z := 128 * 1024 + _size_meta_data.
Definition REDUNDANT_SIZE : Z := 128 + _size_meta_data.

Definition get_size (b : Z) : M heap Z := ld b 8.
Definition put_size (b v : Z) : M heap unit := st b 8 v.
Definition get_is_free (b : Z) : M heap Z := ld (b + 8) 8.
Definition put_is_free (b v : Z) : M heap unit := st (b + 8) 8 v.
Definition get_next (b : Z) : M heap Z := ld (b + 16) 8.
Definition put_next (b v : Z) : M heap unit := st (b + 16) 8 v.
Definition get_prev (b : Z) : M heap Z := ld (b + 24) 8.
Definition put_prev (b v : Z) : M heap unit := st (b + 24) 8 v.

Definition IS_REDUNDANT (size block_size : Z) : bool := REDUNDANT_SIZE <=? u64 (size - block_size).
Definition TAIL_METADATA (b : Z) : M heap Z :=
  let* size := get_size b in
  ret (u64 (b + u64 (size - SIZEOF_TAIL))).
Definition IS_SBRK_ALLOC (b : Z) : M heap bool :=
  let* size := get_size b in
  ret (size <? SBRK_LIMIT).
Definition ALLOC_SBRK (block_size : Z) : bool := block_size <? SBRK_LIMIT.

(** ** Counters *)

Definition _num_free_blocks : M heap Z := gets free_blocks_num.
Definition _num_free_bytes : M heap Z := gets free_bytes_num.
Definition _num_allocated_blocks : M heap Z := gets allocated_blocks_num.
Definition _num_allocated_bytes : M heap Z := gets allocated_bytes_num.
Definition _num_meta_data_bytes : M heap Z :=
  let* n := gets allocated_blocks_num in
  ret (u64 (_size_meta_data * n)).

(** A bound on the length of the free list: its nodes are disjoint blocks of at
    least [_size_meta_data] bytes of the data segment. *)
Definition list_fuel (s : heap) : nat :=
  S (Z.to_nat ((k_brk (kern (brk s)) - k_start (kern (brk s))) / _size_meta_data)).

Section SbrkHeap.
Context {os : OS} {B : Break}.

Definition _sbrk (delta : Z) : M heap Z :=
  λ s, let '(r, b) := brk_move (i64 delta) (brk s) in Ok r (set_brk b s).

(** [while (global_rand_cookie == 0) global_rand_cookie = rand();] *)
Fixpoint draw_cookie (fuel : nat) : M heap unit :=
  let* c := gets global_rand_cookie in
  if c =? 0 then
    match fuel with
    | O => nofuel
    | S fuel' =>
      modify (λ s, set_cookie (S (rand_pos s)) (u32 (rand_at (rand_pos s))) s) ;;;
      draw_cookie fuel'
    end
  else ret tt.

Definition _set_tail (block : Z) : M heap unit :=
  draw_cookie rand_bound ;;;
  let* tail := TAIL_METADATA block in
  let* cookie := gets global_rand_cookie in
  st tail 4 cookie ;;;
  let* size := get_size block in
  st (tail + 8) 8 size.

Definition _check_cookie (block : Z) : M heap unit :=
  let* tail := TAIL_METADATA block in
  let* cookie := gets global_rand_cookie in
  if cookie =? 0 then ret tt
  else
    let* c := ld tail 4 in
    if cookie =? c then ret tt else exit 0xdeadbeef.

Definition _init_sbrk_alloc_block (block block_size : Z) (alloc : bool) : M heap Z :=
  let* r := (if alloc then _sbrk block_size else ret 0) in
  if alloc && (r =? FAILED) then ret NULL
  else
    put_size block block_size ;;;
    put_is_free block 0 ;;;
    put_next block NULL ;;;
    put_prev block NULL ;;;
    _set_tail block ;;;
    ret block.

Definition _wilderness_sbrk_block_increase (wilderness block_size : Z) : M heap Z :=
  let* size := get_size wilderness in
  let* r := _sbrk (u64 (block_size - size)) in
  if r =? FAILED then ret NULL
  else
    put_size wilderness block_size ;;;
    _set_tail wilderness ;;;
    ret wilderness.

(** The [for] loop of [_find_sbrk_free_block]. *)
Fixpoint find_loop (fuel : nat) (block_size pb current mn wilderness : Z) : M heap (Z * Z) :=
  if current =? NULL then ret (mn, wilderness)
  else
    match fuel with
    | O => nofuel
    | S fuel' =>
      _check_cookie current ;;;
      let* size := get_size current in
      let* mn' :=
        (if block_size <=? size then
           if mn =? NULL then ret current
           else let* msize := get_size mn in ret (if size <? msize then current else mn)
         else ret mn) in
      let wilderness' := if u64 (current + size) =? pb then current else wilderness in
      let* next := get_next current in
      find_loop fuel' block_size pb next mn' wilderness'
    end.

Definition _find_sbrk_free_block (block_size : Z) : M heap Z :=
  let* h := gets sbrk_free_head in
  if h =? NULL then ret NULL
  else
    let* pb := _sbrk 0 in
    let* fuel := gets list_fuel in
    let* r := find_loop fuel block_size pb h NULL NULL in
    let '(mn, wilderness) := r in
    if negb (mn =? NULL) then ret mn
    else if negb (wilderness =? NULL) then
      let* wsize := get_size wilderness in
      modify (add_counts 0 (u64 (block_size - wsize)) 0 (u64 (block_size - wsize))) ;;;
      _wilderness_sbrk_block_increase wilderness block_size
    else ret NULL.

(** The [for] loop of [_add_sbrk_free_block]. *)
Fixpoint add_loop (fuel : nat) (block bsize current : Z) : M heap unit :=
  let* next := get_next current in
  if next =? NULL then
    put_prev block current ;;;
    put_next block NULL ;;;
    put_next current block
  else
    match fuel with
    | O => nofuel
    | S fuel' =>
      _check_cookie next ;;;
      let* nsize := get_size next in
      if (bsize <? nsize) || ((bsize =? nsize) && (block <? next)) then
        put_prev block current ;;;
        put_next block next ;;;
        put_prev next block ;;;
        put_next current block
      else add_loop fuel' block bsize next
    end.

Definition _add_sbrk_free_block (block : Z) : M heap unit :=
  put_is_free block 1 ;;;
  put_prev block NULL ;;;
  let* bsize := get_size block in
  let* h := gets sbrk_free_head in
  let* first :=
    (if h =? NULL then ret true
     else let* hsize := get_size h in
          ret ((bsize <? hsize) || ((bsize =? hsize) && (block <? h)))) in
  if first then
    modify (set_sbrk_free_head block) ;;;
    put_next block h ;;;
    (if h =? NULL then ret tt else put_prev h block)
  else
    _check_cookie h ;;;
    let* fuel := gets list_fuel in
    add_loop fuel block bsize h.

Definition _remove_sbrk_free_block (block : Z) : M heap unit :=
  put_is_free block 0 ;;;
  let* h := gets sbrk_free_head in
  if h =? block then
    let* next := get_next block in
    modify (set_sbrk_free_head next) ;;;
    put_next block NULL ;;;
    put_prev block NULL
  else
    let* prev := get_prev block in
    let* next := get_next block in
    (if prev =? NULL then ret tt else _check_cookie prev ;;; put_next prev next) ;;;
    (if next =? NULL then ret tt else _check_cookie next ;;; put_prev next prev) ;;;
    put_next block NULL ;;;
    put_prev block NULL.

Definition _init_sbrk_free_block (block block_size : Z) : M heap unit :=
  put_size block block_size ;;;
  put_next block NULL ;;;
  put_prev block NULL ;;;
  _set_tail block ;;;
  _add_sbrk_free_block block.

(** The blocks before and after [block] that [_merge_sbrk_blocks] looks at. *)
Definition left_neighbour (block : Z) (merge_left : bool) : M heap Z :=
  let* sh := gets sbrk_head in
  if merge_left && negb (sh =? block) then
    let* prev_block_size := ld (block - SIZEOF_TAIL + 8) 8 in
    let left_block := u64 (block - prev_block_size) in
    _check_cookie left_block ;;;
    ret left_block
  else ret NULL.

Definition right_neighbour (block : Z) (merge_right : bool) : M heap Z :=
  if merge_right then
    let* size := get_size block in
    let* pb := _sbrk 0 in
    if u64 (block + size) =? pb then ret NULL
    else
      let right_block := u64 (block + size) in
      _check_cookie right_block ;;;
      ret right_block
  else ret NULL.

(** [_merge_sbrk_blocks] takes a free neighbour off the list. *)
Definition absorb (neighbour : Z) : M heap Z :=
  let* size := get_size neighbour in
  modify (add_counts (-1) (- u64 (size - _size_meta_data)) (-1) _size_meta_data) ;;;
  _remove_sbrk_free_block neighbour ;;;
  ret size.

Definition is_free_block (block : Z) : M heap bool :=
  if block =? NULL then ret false
  else let* f := get_is_free block in ret (negb (f =? 0)).

(** The returned block and the sum of the sizes after each neighbour. *)
Definition merge_left_block (left_block block size : Z) (copy_data : bool) : M heap (Z * Z) :=
  let* left_free := is_free_block left_block in
  if left_free then
    let* lsize := absorb left_block in
    (if copy_data then
       let* bsize := get_size block in
       c_memmove (left_block + SIZEOF_HEAD) (block + SIZEOF_HEAD) (u64 (bsize - _size_meta_data))
     else ret tt) ;;;
    ret (left_block, u64 (size + lsize))
  else ret (block, size).

Definition merge_right_block (right_block block_size_sum : Z) : M heap Z :=
  let* right_free := is_free_block right_block in
  if right_free then
    let* rsize := absorb right_block in
    ret (u64 (block_size_sum + rsize))
  else ret block_size_sum.

Definition _merge_sbrk_blocks (block : Z) (merge_left merge_right copy_data : bool) : M heap Z :=
  let* size := get_size block in
  let* left_block := left_neighbour block merge_left in
  let* right_block := right_neighbour block merge_right in
  let* acc := merge_left_block left_block block size copy_data in
  let* block_size_sum := merge_right_block right_block acc.2 in
  _init_sbrk_alloc_block acc.1 block_size_sum false.

(** The branch of [_sbrk_malloc] that reuses the block the search found. *)
Definition malloc_reuse (last_searched block_size : Z) : M heap Z :=
  let* size := get_size last_searched in
  modify (add_counts (-1) (- u64 (size - _size_meta_data)) 0 0) ;;;
  _remove_sbrk_free_block last_searched ;;;
  let* size := get_size last_searched in
  (if IS_REDUNDANT size block_size then
     modify (add_counts 1 (u64 (size - _size_meta_data - block_size)) 1 (- _size_meta_data)) ;;;
     let* prev_size := get_size last_searched in
     _init_sbrk_alloc_block last_searched block_size false ;;;
     _init_sbrk_free_block (u64 (last_searched + block_size)) (u64 (prev_size - block_size))
   else ret tt) ;;;
  ret last_searched.

(** The end of [_sbrk_malloc]: a block at the break. *)
Definition malloc_fresh (block_size : Z) : M heap Z :=
  let* last_block := _sbrk 0 in
  let* last_block := _init_sbrk_alloc_block last_block block_size true in
  modify (add_counts 0 0 1 (u64 (block_size - _size_meta_data))) ;;;
  ret last_block.

Definition _sbrk_malloc (block_size : Z) : M heap Z :=
  let* sh := gets sbrk_head in
  if negb (sh =? NULL) then
    let* last_searched := _find_sbrk_free_block block_size in
    if negb (last_searched =? NULL) then malloc_reuse last_searched block_size
    else malloc_fresh block_size
  else
    let* pb := _sbrk 0 in
    modify (set_sbrk_head pb) ;;;
    if pb =? FAILED then modify (set_sbrk_head NULL) ;;; ret NULL
    else malloc_fresh block_size.

Definition _sbrk_free (block : Z) : M heap unit :=
  let* block := _merge_sbrk_blocks block true true false in
  let* size := get_size block in
  modify (add_counts 1 (u64 (size - _size_meta_data)) 0 0) ;;;
  _add_sbrk_free_block block.

Definition _mmap_free (block : Z) : M heap unit :=
  let* size := get_size block in
  modify (add_counts 0 0 (-1) (- u64 (size - _size_meta_data))) ;;;
  let* size := get_size block in
  modify (λ s, set_brk (BrkState (munmap block size (kern (brk s))).2 (program_break (brk s))) s).

Definition sfree (p : Z) : M heap unit :=
  if p =? NULL then ret tt
  else
    let block := u64 (p - SIZEOF_HEAD) in
    _check_cookie block ;;;
    let* is_free := get_is_free block in
    if negb (is_free =? 0) then ret tt
    else
      let* b := IS_SBRK_ALLOC block in
      if b then _sbrk_free block else _mmap_free block.

(** The code at the label [split_block_if_needed]. *)
Definition split_block_if_needed (block block_size : Z) : M heap Z :=
  let* size := get_size block in
  (if IS_REDUNDANT size block_size then
     modify (add_counts 1 (u64 (size - block_size - _size_meta_data)) 1 (- _size_meta_data)) ;;;
     let* prev_size := get_size block in
     _init_sbrk_alloc_block block block_size false ;;;
     _init_sbrk_free_block (u64 (block + block_size)) (u64 (prev_size - block_size))
   else ret tt) ;;;
  ret (block + SIZEOF_HEAD).

(** The wilderness branches of [_sbrk_realloc]: the result of the increase is
    not checked. *)
Definition realloc_wilderness (block block_size : Z) : M heap Z :=
  let* size := get_size block in
  modify (add_counts 0 0 0 (u64 (block_size - size))) ;;;
  let* block := _wilderness_sbrk_block_increase block block_size in
  ret (block + SIZEOF_HEAD).

Definition _sbrk_realloc (block block_size : Z) : M heap Z :=
  let* program_break := _sbrk 0 in
  let* size := get_size block in
  if block_size <=? size then split_block_if_needed block block_size
  else
    let* block := _merge_sbrk_blocks block true false true in
    let* size := get_size block in
    if block_size <=? size then split_block_if_needed block block_size
    else if u64 (block + size) =? program_break then realloc_wilderness block block_size
    else
      let* block := _merge_sbrk_blocks block false true false in
      let* size := get_size block in
      if block_size <=? size then split_block_if_needed block block_size
      else
        let* block := _merge_sbrk_blocks block true true true in
        let* size := get_size block in
        if block_size <=? size then ret (block + SIZEOF_HEAD)
        else if u64 (block + size) =? program_break then realloc_wilderness block block_size
        else ret NULL.
End SbrkHeap.
