(* ===== verification/FreeList.v ===== *)
(** * The free list of [malloc_3.cpp] and [malloc_4.cpp]

    What the metadata of a block looks like in memory ([blk_ok]), what the
    doubly linked free list looks like ([dll]), and the effect of the operations
    that touch them: [_check_cookie], [_set_tail], [_init_sbrk_alloc_block],
    [_add_sbrk_free_block], [_remove_sbrk_free_block], [_init_sbrk_free_block]. *)

From S2P Require Import Prelude Memory Kernel Machine Malloc1 SbrkHeap.

(** ** Block metadata *)

(** All bytes of the block can be accessed. *)
Definition accessible (k : kernel) (a size : Z) : Prop :=
  ∀ x n, a ≤ x → x + n ≤ a + size → mapped k x n = true.

(** A block of [size] bytes at [a]: its header and its tail carry the size, the
    tail carries the cookie [c]. *)
Record blk_ok (k : kernel) (m : gmap Z Z) (c a size : Z) : Prop := {
  bk_acc : accessible k a size;
  bk_min : _size_meta_data ≤ size;
  bk_pos : 0 < a;
  bk_max : a + size < ADDR_MAX;
  bk_size : load m a 8 = size;
  bk_cookie : load m (a + size - 16) 4 = c;
  bk_tail : load m (a + size - 8) 8 = size
}.

(** The bytes [blk_ok] reads. *)
Definition core_bytes (a size x : Z) : Prop :=
  a ≤ x < a + 8 ∨ a + size - 16 ≤ x < a + size.

Lemma blk_ok_frame k m m' c a size :
  blk_ok k m c a size → (∀ x, core_bytes a size x → rd m' x = rd m x) →
  blk_ok k m' c a size.
Proof.
  intros [H1 H2 H3 H4 H5 H6 H7] Hf. unfold core_bytes in Hf.
  split; try done; [etransitivity; [|exact H5]|etransitivity; [|exact H6]|etransitivity; [|exact H7]];
    apply load_ext; intros; apply Hf; lia.
Qed.

(** ** Linked lists *)

(** Nodes of the list: address and size of a block. *)
Abbreviation node := (Z * Z)%type.
Definition head_or (l : list node) (n : Z) : Z :=
  match l with [] => n | (a, _) :: _ => a end.

(** The nodes [l] are linked in both directions and the last one points to [n].
    The [prev] field of the first node is not constrained: removing the head of
    the list leaves the old value there. *)
Fixpoint dll_to (m : gmap Z Z) (l : list node) (n : Z) : Prop :=
  match l with
  | [] => True
  | (a, _) :: t =>
    load m (a + 16) 8 = head_or t n ∧
    match t with [] => True | (b, _) :: _ => load m (b + 24) 8 = a end ∧
    dll_to m t n
  end.

Definition dll (m : gmap Z Z) (l : list node) : Prop := dll_to m l NULL.

Lemma dll_cons m a sz l :
  dll m ((a, sz) :: l) ↔
  load m (a + 16) 8 = head_or l NULL ∧
  match l with [] => True | (b, _) :: _ => load m (b + 24) 8 = a end ∧ dll m l.
Proof. done. Qed.

(** Two blocks do not overlap. *)
Definition apart (x y : node) : Prop := x.1 + x.2 ≤ y.1 ∨ y.1 + y.2 ≤ x.1.

Fixpoint all_apart (l : list node) : Prop :=
  match l with
  | [] => True
  | x :: t => Forall (apart x) t ∧ all_apart t
  end.

Lemma apart_sym x y : apart x y → apart y x.
Proof. unfold apart. tauto. Qed.

Lemma all_apart_app l1 l2 :
  all_apart (l1 ++ l2) ↔
  all_apart l1 ∧ all_apart l2 ∧ (∀ x y, x ∈ l1 → y ∈ l2 → apart x y).
Proof.
  induction l1 as [|x l1 IH]; cbn.
  { split; [intros; split; [done|split; [done|by intros ? ? ?%not_elem_of_nil]]|tauto]. }
  rewrite Forall_app, IH, !Forall_forall. split.
  - intros ([H1 H2] & H3 & H4 & H5). split; [done|]. split; [done|].
    intros y z [->|Hy]%elem_of_cons; auto.
  - intros ([H1 H2] & H3 & H4).
    split; [split; [done|]|]; [|split; [done|split; [done|]]]; intros y; [intros; apply H4; [left|done]|].
    intros z ??. apply H4; [by right|done].
Qed.

Lemma all_apart_perm l1 l2 : l1 ≡ₚ l2 → all_apart l1 → all_apart l2.
Proof.
  induction 1 as [|x l l' Hp IH|x y l|]; cbn; [done| | |tauto].
  - intros [H1 H2]. split; [by rewrite <- Hp|auto].
  - rewrite !Forall_cons. intros ([H1 H2] & H3 & H4). split; [split|]; auto using apart_sym.
Qed.

Lemma dll_to_frame m m' l n :
  dll_to m l n →
  (∀ y x, y ∈ l → y.1 + 16 ≤ x < y.1 + 24 → rd m' x = rd m x) →
  (∀ y x, y ∈ tail l → y.1 + 24 ≤ x < y.1 + 32 → rd m' x = rd m x) →
  dll_to m' l n.
Proof.
  induction l as [|[a s] t IH]; [done|].
  cbn [dll_to tail]. intros (H1 & H2 & H3) Hn Hp. split; [|split].
  - rewrite <- H1. apply load_ext. intros x Hx. apply (Hn (a, s) x); [left|cbn; lia].
  - destruct t as [|[b bs] t]; [done|]. rewrite <- H2. apply load_ext. intros x Hx.
    apply (Hp (b, bs)); [left|cbn; lia].
  - apply IH; [done| |].
    + intros y x Hy. apply Hn. by right.
    + intros y x Hy. apply Hp. destruct t; [done|]. by right.
Qed.

Lemma dll_to_snoc m l p ps n :
  dll_to m (l ++ [(p, ps)]) n ↔
  dll_to m l p ∧ load m (p + 16) 8 = n ∧
  match last l with None => True | Some (q, _) => load m (p + 24) 8 = q end.
Proof.
  induction l as [|[a s] t IH]; cbn [dll_to app last].
  { cbn. tauto. }
  rewrite IH. destruct t as [|[b bs] t]; cbn; tauto.
Qed.

Lemma dll_to_app m l1 p ps l2 n :
  dll_to m ((l1 ++ [(p, ps)]) ++ l2) n ↔
  dll_to m (l1 ++ [(p, ps)]) (head_or l2 n) ∧ dll_to m l2 n ∧
  match l2 with [] => True | (b, _) :: _ => load m (b + 24) 8 = p end.
Proof.
  induction l1 as [|[a s] t IH]; cbn [dll_to app].
  { destruct l2 as [|[b bs] l2]; cbn; tauto. }
  rewrite IH. destruct t as [|[b bs] t]; cbn; tauto.
Qed.

(** The position the code inserts at: before the first node with a larger key,
    keys being ordered by size and then by address. *)
Definition key_lt (x y : node) : bool :=
  (x.2 <? y.2) || ((x.2 =? y.2) && (x.1 <? y.1)).

Fixpoint fl_insert (b : node) (l : list node) : list node :=
  match l with
  | [] => [b]
  | x :: t => if key_lt b x then b :: x :: t else x :: fl_insert b t
  end.

Lemma fl_insert_perm b l : fl_insert b l ≡ₚ b :: l.
Proof.
  induction l as [|x t IH]; cbn; [done|]. destruct (key_lt b x); [done|].
  rewrite IH. constructor.
Qed.

Lemma elem_of_fl_insert x b l : x ∈ fl_insert b l ↔ x = b ∨ x ∈ l.
Proof. rewrite fl_insert_perm. apply elem_of_cons. Qed.

(** The list is ordered by size, then address. *)
Definition fl_sorted (l : list node) : Prop := StronglySorted (λ x y, key_lt x y = true) l.

Lemma key_lt_iff x y : key_lt x y = true ↔ x.2 < y.2 ∨ (x.2 = y.2 ∧ x.1 < y.1).
Proof.
  unfold key_lt. rewrite orb_true_iff, andb_true_iff, !Z.ltb_lt, Z.eqb_eq. done.
Qed.

Lemma key_lt_trans x y z : key_lt x y = true → key_lt y z = true → key_lt x z = true.
Proof. rewrite !key_lt_iff. lia. Qed.

(** An ordered list is determined by its elements. *)
Lemma fl_sorted_unique l1 l2 : fl_sorted l1 → fl_sorted l2 → l1 ≡ₚ l2 → l1 = l2.
Proof.
  unfold fl_sorted. intros H1. revert l2. induction H1 as [|x l1 H1 IH Hx]; intros l2 H2 Hp.
  { by apply Permutation_nil_l in Hp. }
  destruct H2 as [|y l2 H2 Hy]; [by apply Permutation_nil_r in Hp|]. rewrite Forall_forall in Hx, Hy.
  assert (x = y) as ->.
  { assert (Hxy : x ∈ y :: l2) by (rewrite <- Hp; left). assert (Hyx : y ∈ x :: l1) by (rewrite Hp; left).
    apply elem_of_cons in Hxy as [|Hxy]; [done|]. apply elem_of_cons in Hyx as [|Hyx]; [done|].
    specialize (Hx y Hyx). specialize (Hy x Hxy). apply key_lt_iff in Hx, Hy. lia. }
  f_equal. apply IH; [done|]. by apply Permutation_cons_inv in Hp.
Qed.

Lemma fl_insert_sorted b l :
  fl_sorted l → Forall (λ x, x.1 ≠ b.1) l → fl_sorted (fl_insert b l).
Proof.
  unfold fl_sorted. induction l as [|x t IH]; intros Hs Hne.
  { repeat constructor. }
  apply StronglySorted_inv in Hs as [Hs Hx]. apply Forall_cons in Hne as [Hbx Hne].
  cbn. destruct (key_lt b x) eqn:E.
  - constructor; [by constructor|]. constructor; [done|].
    rewrite Forall_forall in Hx |- *. intros y Hy. exact (key_lt_trans _ _ _ E (Hx y Hy)).
  - constructor; [by apply IH|]. apply Forall_forall. intros y Hy.
    apply elem_of_fl_insert in Hy as [->|Hy].
    + apply key_lt_iff. apply not_true_iff_false in E. rewrite key_lt_iff in E. lia.
    + rewrite Forall_forall in Hx. auto.
Qed.

(** ** Symbolic execution *)

(** States are kept as explicit [Heap] records during a proof. *)
Ltac hcbn :=
  unfold set_memory, set_sbrk_free_head, set_sbrk_head, set_brk, set_cookie, add_counts in *;
  cbn [get_k get_m set_m heap_machine set_memory
       brk memory rand_pos global_rand_cookie sbrk_head sbrk_free_head free_blocks_num
       free_bytes_num allocated_blocks_num allocated_bytes_num] in *.

Ltac acc_tac :=
  match goal with
  | H : accessible ?k ?a ?s |- mapped ?k ?x ?n = true => solve [apply H; lia]
  end.

Ltac wp_step :=
  lazymatch goal with
  | |- wp (bind _ _) _ _ => apply wp_bind; cbv beta
  | |- wp (ret _) _ _ => apply wp_ret
  | |- wp (gets _) _ _ => apply wp_gets; hcbn
  | |- wp (modify _) _ _ => apply wp_modify; hcbn
  | |- wp (ld _ _) _ _ => apply wp_ld; hcbn; [acc_tac|]
  | |- wp (st _ _ _) _ _ => apply wp_st; hcbn; [acc_tac|]
  | |- wp (get_size _) _ _ => unfold get_size
  | |- wp (put_size _ _) _ _ => unfold put_size
  | |- wp (get_is_free _) _ _ => unfold get_is_free
  | |- wp (put_is_free _ _) _ _ => unfold put_is_free
  | |- wp (get_next _) _ _ => unfold get_next
  | |- wp (put_next _ _) _ _ => unfold put_next
  | |- wp (get_prev _) _ _ => unfold get_prev
  | |- wp (put_prev _ _) _ _ => unfold put_prev
  end.
Ltac wp_steps := repeat wp_step.

(** Bring the numeric content of a block fact into the context. *)
Ltac bk_facts H :=
  pose proof (bk_acc _ _ _ _ _ H); pose proof (bk_min _ _ _ _ _ H);
  pose proof (bk_pos _ _ _ _ _ H); pose proof (bk_max _ _ _ _ _ H);
  pose proof (bk_size _ _ _ _ _ H);
  unfold _size_meta_data, SIZEOF_HEAD, SIZEOF_TAIL, ADDR_MAX in *.

Section Ops.
Context {os : OS} {laws : OSLaws os} {B : Break}.

Lemma tail_metadata_spec a sz s (Q : Z → heap → Prop) :
  accessible (kern (brk s)) a sz → 48 ≤ sz → 0 < a → a + sz < 2 ^ 47 →
  load (memory s) a 8 = sz →
  Q (a + sz - 16) s → wp (TAIL_METADATA a) Q s.
Proof.
  intros Hacc H1 H2 H3 Hl HQ. destruct s. hcbn. unfold TAIL_METADATA. wp_steps.
  rewrite Hl. unfold SIZEOF_TAIL. rewrite !u64_small by (rewrite ?u64_small; lia).
  by replace (a + (sz - 16)) with (a + sz - 16) by lia.
Qed.

Lemma check_cookie_spec a sz s (Q : unit → heap → Prop) :
  blk_ok (kern (brk s)) (memory s) (global_rand_cookie s) a sz →
  Q tt s → wp (_check_cookie a) Q s.
Proof.
  intros Hb HQ. bk_facts Hb. unfold _check_cookie. wp_step.
  eapply tail_metadata_spec; [done..|]. pose proof (bk_cookie _ _ _ _ _ Hb) as Hc.
  destruct s. hcbn. wp_steps. zcase; [by wp_steps|]. wp_steps. rewrite Hc, Z.eqb_refl. by wp_steps.
Qed.

Lemma draw_cookie_spec fuel s (Q : unit → heap → Prop) :
  (global_rand_cookie s ≠ 0 ∨ ∃ i, (i < fuel)%nat ∧ rand_at (rand_pos s + i) ≠ 0) →
  (∀ pos c, (global_rand_cookie s ≠ 0 → c = global_rand_cookie s) →
     (global_rand_cookie s = 0 → 0 < c < 2 ^ 32) → Q tt (set_cookie pos c s)) →
  wp (draw_cookie fuel) Q s.
Proof.
  revert s. induction fuel as [|fuel IH]; intros s Hs HQ; cbn [draw_cookie]; wp_steps.
  - destruct (Z.eqb_spec (global_rand_cookie s) 0) as [E|E].
    { destruct Hs as [?|(i & ? & _)]; [done|lia]. }
    wp_steps. specialize (HQ (rand_pos s) (global_rand_cookie s)). destruct s. apply HQ; [done|by hcbn].
  - destruct (Z.eqb_spec (global_rand_cookie s) 0) as [E|E].
    + destruct Hs as [?|(i & Hi & Hr)]; [done|]. wp_steps.
      pose proof (rand_at_range (rand_pos s)) as Hrange.
      assert (Hu : u32 (rand_at (rand_pos s)) = rand_at (rand_pos s)) by (apply Z.mod_small; lia).
      apply IH; destruct s; hcbn.
      * rewrite Hu. destruct (decide (rand_at rand_pos = 0)) as [E0|]; [right|by left].
        destruct i as [|i]; [by rewrite Nat.add_0_r in Hr|].
        exists i. split; [lia|]. by replace (S rand_pos + i)%nat with (rand_pos + S i)%nat by lia.
      * intros pos c H1 H2. apply HQ; [done|]. intros _. rewrite Hu in *.
        destruct (decide (rand_at rand_pos = 0)) as [E0|E0]; [auto|]. rewrite H1 by done. lia.
    + wp_steps. specialize (HQ (rand_pos s) (global_rand_cookie s)). destruct s. apply HQ; [done|by hcbn].
Qed.

(** [_set_tail] draws the cookie if there is none and writes the tail. *)
Lemma set_tail_spec a sz s (Q : unit → heap → Prop) :
  accessible (kern (brk s)) a sz → 48 ≤ sz → 0 < a → a + sz < 2 ^ 47 →
  load (memory s) a 8 = sz → 0 ≤ global_rand_cookie s < 2 ^ 32 →
  (∀ pos c, (global_rand_cookie s ≠ 0 → c = global_rand_cookie s) → 0 < c < 2 ^ 32 →
     Q tt (set_memory (store (store (memory s) (a + sz - 16) 4 c) (a + sz - 8) 8 sz)
             (set_cookie pos c s))) →
  wp (_set_tail a) Q s.
Proof.
  intros Hacc H1 H2 H3 Hl Hc HQ. unfold _set_tail. wp_step.
  apply draw_cookie_spec.
  { destruct (decide (global_rand_cookie s = 0)); [right|by left]. apply rand_at_nonzero. }
  intros pos c Hc1 Hc2. specialize (HQ pos c Hc1).
  wp_step. eapply tail_metadata_spec; [by destruct s..|]. destruct s; hcbn. wp_steps.
  rewrite load_store_ne, Hl by lia.
  replace (a + sz - 16 + 8) with (a + sz - 8) by lia. apply HQ.
  destruct (decide (global_rand_cookie = 0)); [auto|]. rewrite Hc1 by done. lia.
Qed.

(** The bytes of the metadata of a block. *)
Definition meta_bytes (a size x : Z) : Prop :=
  a ≤ x < a + 32 ∨ a + size - 16 ≤ x < a + size.

(** A fresh header and tail over mapped memory, whatever was there before. *)
Lemma init_alloc_spec a sz s (Q : Z → heap → Prop) :
  accessible (kern (brk s)) a sz → 48 ≤ sz → 0 < a → a + sz < 2 ^ 47 →
  0 ≤ global_rand_cookie s < 2 ^ 32 →
  (∀ pos c m', (global_rand_cookie s ≠ 0 → c = global_rand_cookie s) → 0 < c < 2 ^ 32 →
     blk_ok (kern (brk s)) m' c a sz → load m' (a + 8) 8 = 0 →
     same_but (meta_bytes a sz) (memory s) m' →
     Q a (set_memory m' (set_cookie pos c s))) →
  wp (_init_sbrk_alloc_block a sz false) Q s.
Proof.
  intros Hacc H1 H2 H3 Hc HQ. unfold _init_sbrk_alloc_block. wp_steps. cbn [andb].
  destruct s; hcbn. unfold NULL. wp_steps.
  eapply set_tail_spec; hcbn; [done..| |done|].
  { by ldst. }
  intros pos c Hc1 Hc2. wp_steps. apply HQ; [done..| | |].
  - split; unfold _size_meta_data, SIZEOF_HEAD, SIZEOF_TAIL, ADDR_MAX; try done; by ldst.
  - by ldst.
  - unfold meta_bytes. same_but_tac.
Qed.

(** The link fields of the nodes of a list. *)
Definition link_bytes (l : list node) (x : Z) : Prop :=
  ∃ y, y ∈ l ∧ y.1 + 16 ≤ x < y.1 + 32.

(** Nodes are well-formed blocks that do not overlap and are linked. *)
Record fl_ok (k : kernel) (m : gmap Z Z) (c : Z) (l : list node) : Prop := {
  fo_blk : ∀ y, y ∈ l → blk_ok k m c y.1 y.2;
  fo_apart : all_apart l;
  fo_dll : dll m l
}.

Lemma link_bytes_cons y l x : link_bytes (y :: l) x ↔ y.1 + 16 ≤ x < y.1 + 32 ∨ link_bytes l x.
Proof.
  unfold link_bytes. split.
  - intros (z & [->|Hz]%elem_of_cons & ?); [by left|right; eauto].
  - intros [?|(z & ? & ?)]; [exists y; split; [left|done]|exists z; split; [by right|done]].
Qed.

Lemma fl_ok_tail k m c y l : fl_ok k m c (y :: l) → fl_ok k m c l.
Proof.
  intros [H1 [_ H2] H3]. split; [|done|].
  - intros z Hz. apply H1. by right.
  - unfold dll in *. destruct y. apply H3.
Qed.

(** An address inside one of the nodes of [l]. *)
Definition in_nodes (l : list node) (x : Z) : Prop := ∃ y, y ∈ l ∧ y.1 ≤ x < y.1 + y.2.

Lemma link_in_nodes k m c l x :
  (∀ y, y ∈ l → blk_ok k m c y.1 y.2) → link_bytes l x → in_nodes l x.
Proof.
  intros Hl (y & Hy & Hx). exists y. split; [done|].
  pose proof (bk_min _ _ _ _ _ (Hl y Hy)). unfold _size_meta_data, SIZEOF_HEAD, SIZEOF_TAIL in *. lia.
Qed.

Lemma apart_in_nodes b l x :
  Forall (apart b) l → b.1 ≤ x < b.1 + b.2 → ¬ in_nodes l x.
Proof.
  rewrite Forall_forall. intros Hl Hx (y & Hy & Hy'). specialize (Hl y Hy). unfold apart in Hl. lia.
Qed.
(** Links lie inside the nodes, so not in a block apart from them. *)
Lemma link_outside k m c b l x :
  (∀ y, y ∈ l → blk_ok k m c y.1 y.2) → Forall (apart b) l → b.1 ≤ x < b.1 + b.2 → ¬ link_bytes l x.
Proof. intros Hl Hap Hx Hlk. eapply (apart_in_nodes b l x); [done|done|]. by eapply link_in_nodes. Qed.

(** Writes outside the nodes, except to the [prev] field of the first one, keep
    the list. *)
Lemma dll_keep k m m' c (F : Z → Prop) l :
  fl_ok k m c l → same_but F m m' →
  (∀ x, F x → in_nodes l x → ∃ y t, l = y :: t ∧ y.1 + 24 ≤ x < y.1 + 32) →
  dll m' l.
Proof.
  intros [Hb Hap Hd] Hs HF.
  assert (Hin : ∀ y x, y ∈ l → y.1 + 16 ≤ x < y.1 + 32 → in_nodes l x).
  { intros y x Hy Hx. eapply link_in_nodes; [done|]. by exists y. }
  assert (Hdec : ∀ x, in_nodes l x → (∀ y t, l = y :: t → ¬ y.1 + 24 ≤ x < y.1 + 32) → rd m' x = rd m x).
  { intros x Hx Hn. apply Hs. intros Hf. destruct (HF x Hf Hx) as (y & t & -> & ?). by apply (Hn y t). }
  apply (dll_to_frame m); [done| |]; intros y x Hy Hx.
  - apply Hdec; [eapply Hin; [done|lia]|]. intros z t -> Hz. cbn [all_apart] in Hap.
    apply elem_of_cons in Hy as [->|Hy]; [lia|].
    destruct Hap as [Hap _]. rewrite Forall_forall in Hap. specialize (Hap y Hy). unfold apart in Hap.
    pose proof (bk_min _ _ _ _ _ (Hb y ltac:(by right))). pose proof (bk_min _ _ _ _ _ (Hb z ltac:(left))).
    unfold _size_meta_data, SIZEOF_HEAD, SIZEOF_TAIL in *. lia.
  - assert (y ∈ l) as Hyl by (destruct l; [done|by right]).
    apply Hdec; [eapply Hin; [done|lia]|]. intros z t -> Hz. cbn [tail] in Hy. cbn [all_apart] in Hap.
    destruct Hap as [Hap _]. rewrite Forall_forall in Hap. specialize (Hap y Hy). unfold apart in Hap.
    pose proof (bk_min _ _ _ _ _ (Hb y ltac:(by right))). pose proof (bk_min _ _ _ _ _ (Hb z ltac:(left))).
    unfold _size_meta_data, SIZEOF_HEAD, SIZEOF_TAIL in *. lia.
Qed.

Lemma apart_not_in b l x :
  Forall (apart b) l → in_nodes l x → ¬ b.1 ≤ x < b.1 + b.2.
Proof. intros H1 H2 H3. by eapply apart_in_nodes. Qed.

(** Linking a block in behind [c0] and before the node [n]. *)
Lemma dll_link_mid k m c a sz c0 s0 n ns rest :
  fl_ok k m c ((c0, s0) :: (n, ns) :: rest) → 48 ≤ sz →
  Forall (apart (a, sz)) ((c0, s0) :: (n, ns) :: rest) → 0 < a < ADDR_MAX →
  dll (store (store (store (store m (a + 24) 8 c0) (a + 16) 8 n) (n + 24) 8 a) (c0 + 16) 8 a)
    ((c0, s0) :: (a, sz) :: (n, ns) :: rest).
Proof.
  intros Hfl Hsz Haa Ha. pose proof Hfl as [Hblk [Hcr _] _].
  assert (Hc := Hblk (c0, s0) ltac:(left)). cbn in Hc. bk_facts Hc.
  assert (Hn := Hblk (n, ns) ltac:(right; left)). cbn in Hn. bk_facts Hn.
  assert (Hac : apart (a, sz) (c0, s0) ∧ apart (a, sz) (n, ns) ∧ apart (c0, s0) (n, ns)).
  { pose proof (proj1 (Forall_forall _ _) Haa) as Haf. pose proof (proj1 (Forall_forall _ _) Hcr) as Hcf.
    split; [apply Haf; left|split; [apply Haf; right; left|apply Hcf; left]]. }
  unfold apart in Hac. cbn [fst snd] in Hac.
  cbn [dll dll_to head_or]. split; [by ldst|]. split; [by ldst|]. split; [by ldst|]. split; [by ldst|].
  apply (dll_keep k m _ c (λ x, a + 16 ≤ x < a + 32 ∨ c0 + 16 ≤ x < c0 + 24 ∨ n + 24 ≤ x < n + 32) ((n, ns) :: rest)).
  - by eapply fl_ok_tail.
  - same_but_tac.
  - intros x Hx Hin. exists (n, ns), rest. split; [done|]. cbn.
    apply Forall_cons in Haa as [_ Haa].
    pose proof (apart_not_in _ _ _ Haa Hin). pose proof (apart_not_in _ _ _ Hcr Hin). cbn in *. lia.
Qed.

Lemma add_loop_spec fuel a sz c0 s0 rest s (Q : unit → heap → Prop) :
  accessible (kern (brk s)) a sz → 48 ≤ sz → 0 < a → a + sz < 2 ^ 47 →
  fl_ok (kern (brk s)) (memory s) (global_rand_cookie s) ((c0, s0) :: rest) →
  Forall (apart (a, sz)) ((c0, s0) :: rest) → (length rest ≤ fuel)%nat →
  (∀ m', dll m' ((c0, s0) :: fl_insert (a, sz) rest) →
     load m' (c0 + 24) 8 = load (memory s) (c0 + 24) 8 →
     same_but (λ x, a + 16 ≤ x < a + 32 ∨ c0 + 16 ≤ x < c0 + 24 ∨ link_bytes rest x) (memory s) m' →
     Q tt (set_memory m' s)) →
  wp (add_loop fuel a sz c0) Q s.
Proof.
  intros Hacc Hsz Ha Hmax. revert c0 s0 fuel. induction rest as [|[n ns] rest IH];
    intros c0 s0 fuel Hfl Haa Hf HQ; pose proof Hfl as [Hblk Hap Hdll].
  - assert (Hc := Hblk (c0, s0) ltac:(left)). cbn in Hc. bk_facts Hc.
    apply Forall_cons in Haa as [Haa _]. unfold apart in Haa. cbn in Haa, Hdll.
    destruct Hdll as [Hnext _]. destruct fuel; cbn [add_loop]; wp_steps; rewrite Hnext; cbn [Z.eqb NULL];
      wp_steps; apply HQ.
    1,4: (cbn; unfold NULL; repeat split; by ldst).
    1,3: (by ldst).
    all: unfold NULL; same_but_tac.
  - assert (Hc := Hblk (c0, s0) ltac:(left)). cbn in Hc. bk_facts Hc.
    assert (Hn := Hblk (n, ns) ltac:(right; left)). cbn in Hn. bk_facts Hn.
    pose proof Haa as Haa0. apply Forall_cons in Haa as [Hac Haa]. pose proof Haa as Haa'. apply Forall_cons in Haa' as [Han Har].
    cbn [all_apart] in Hap. destruct Hap as [Hcr Hap]. pose proof Hcr as Hcr'. apply Forall_cons in Hcr' as [Hcn _].
    unfold apart in Hac, Han, Hcn. cbn in Hac, Han, Hcn, Hf.
    destruct Hdll as (Hnext & Hprev & Hdll). cbn in Hnext.
    destruct fuel as [|fuel]; [lia|]. cbn [add_loop]. wp_steps. rewrite Hnext.
    destruct (Z.eqb_spec n NULL) as [E|_]; [unfold NULL in E; lia|].
    wp_step. eapply check_cookie_spec; [exact Hn|]. wp_steps.
    rewrite (bk_size _ _ _ _ _ Hn).
    change ((sz <? ns) || (sz =? ns) && (a <? n)) with (key_lt (a, sz) (n, ns)).
    cbn [fl_insert] in HQ. destruct (key_lt (a, sz) (n, ns)).
    + wp_steps. apply HQ.
      * eapply dll_link_mid; [exact Hfl|done|exact Haa0|unfold ADDR_MAX; lia].
      * by ldst.
      * same_but_tac. right; right. apply link_bytes_cons. left. cbn. lia.
    + apply (IH n ns); [split; [|done|done]|done|lia|].
      { intros y Hy. apply Hblk. by right. }
      intros m' Hd Hp Hs.
      assert (Hout : ∀ x, c0 + 16 ≤ x < c0 + 32 →
                ¬ (a + 16 ≤ x < a + 32 ∨ n + 16 ≤ x < n + 24 ∨ link_bytes rest x)).
      { intros x Hx [?|[?|Hl]]; [lia|lia|]. apply Forall_cons in Hcr as [_ Hcr].
        apply (apart_in_nodes (c0, s0) rest x); [exact Hcr|cbn; lia|].
        eapply link_in_nodes; [|exact Hl]. intros y Hy. apply Hblk. by right; right. }
      apply HQ.
      * cbn [dll dll_to head_or]. split; [|split; [|done]].
        -- rewrite <- Hnext. eapply same_but_load; [exact Hs|]. intros x Hx HF. apply (Hout x); [lia|done].
        -- by rewrite Hp.
      * eapply same_but_load; [exact Hs|]. intros x Hx HF. apply (Hout x); [lia|done].
      * eapply same_but_weaken; [|exact Hs]. intros x [?|[?|?]]; [by left|right; right|right; right];
          apply link_bytes_cons; [left; cbn; lia|by right].
Qed.

Lemma all_apart_in l x y : all_apart l → x ∈ l → y ∈ l → x = y ∨ apart x y.
Proof.
  induction l as [|z l IH]; [by intros _ ?%not_elem_of_nil|].
  cbn. rewrite Forall_forall. intros [H1 H2] [->|Hx]%elem_of_cons [->|Hy]%elem_of_cons; auto using apart_sym.
Qed.

(** The middle of the headers of some blocks: flag and links. *)
Definition mid_bytes (l : list node) (x : Z) : Prop :=
  ∃ z, z ∈ l ∧ z.1 + 8 ≤ x < z.1 + 32.

(** The bytes a free-list operation on the block [a] may write: its flag and
    links, and the links of the nodes of [l]. *)
Definition upd_bytes (a : Z) (l : list node) (x : Z) : Prop :=
  a + 8 ≤ x < a + 32 ∨ link_bytes l x.

Lemma upd_mid_bytes a sz l l' x :
  (∀ y, y ∈ l → y ∈ l') → (a, sz) ∈ l' → upd_bytes a l x → mid_bytes l' x.
Proof.
  intros Hl Ha [?|(y & ? & ?)]; [by exists (a, sz)|]. exists y. split; [auto|lia].
Qed.

Lemma upd_bytes_in a l y x : y ∈ l → y.1 + 16 ≤ x < y.1 + 32 → upd_bytes a l x.
Proof. right. by exists y. Qed.

(** Writing only there keeps the sizes and the tails. *)
Lemma blk_ok_mid k m m' c l :
  (∀ y, y ∈ l → blk_ok k m c y.1 y.2) → all_apart l → same_but (mid_bytes l) m m' →
  ∀ y, y ∈ l → blk_ok k m' c y.1 y.2.
Proof.
  intros Hb Hap Hs y Hy. eapply blk_ok_frame; [by apply Hb|]. intros x Hx. apply Hs.
  intros (z & Hz & Hxz). pose proof (bk_min _ _ _ _ _ (Hb y Hy)). pose proof (bk_min _ _ _ _ _ (Hb z Hz)).
  unfold core_bytes, _size_meta_data, SIZEOF_HEAD, SIZEOF_TAIL in *.
  destruct (all_apart_in _ _ _ Hap Hy Hz) as [->|Ha]; [lia|]. unfold apart in Ha. lia.
Qed.

Lemma head_or_insert_cons b x l :
  head_or (fl_insert b (x :: l)) NULL = if key_lt b x then b.1 else x.1.
Proof. cbn. destruct b, x. by destruct (key_lt _ _). Qed.

(** The start of [_add_sbrk_free_block] leaves the list as it is. *)
Lemma fl_ok_prepare k m c a sz l :
  blk_ok k m c a sz → fl_ok k m c l → Forall (apart (a, sz)) l →
  fl_ok k (store (store m (a + 8) 8 1) (a + 24) 8 NULL) c l.
Proof.
  intros Hb Hfl Hap. set (m1 := store _ _ _ _).
  assert (Hblk : ∀ y, y ∈ (a, sz) :: l → blk_ok k m c y.1 y.2) by (intros y [->|Hy]%elem_of_cons; [done|by apply Hfl]).
  assert (Happ : all_apart ((a, sz) :: l)) by (split; [done|apply Hfl]). bk_facts Hb.
  assert (Hmid : same_but (λ x, a + 8 ≤ x < a + 32) m m1) by same_but_tac.
  split; [|apply Hfl|].
  - intros y Hy. eapply blk_ok_mid; [done..| |by right].
    eapply same_but_weaken; [|exact Hmid]. intros x Hx. exists (a, sz). split; [left|done].
  - eapply dll_keep; [done|exact Hmid|]. intros x Hx Hin. cbn in Hx.
    destruct (apart_not_in _ _ _ Hap Hin). cbn. lia.
Qed.

Lemma add_free_spec a sz l s (Q : unit → heap → Prop) :
  blk_ok (kern (brk s)) (memory s) (global_rand_cookie s) a sz →
  fl_ok (kern (brk s)) (memory s) (global_rand_cookie s) l →
  Forall (apart (a, sz)) l → sbrk_free_head s = head_or l NULL →
  (length l ≤ list_fuel s)%nat →
  (∀ m', fl_ok (kern (brk s)) m' (global_rand_cookie s) (fl_insert (a, sz) l) →
     load m' (a + 8) 8 = 1 →
     same_but (upd_bytes a l) (memory s) m' →
     Q tt (set_sbrk_free_head (head_or (fl_insert (a, sz) l) NULL) (set_memory m' s))) →
  wp (_add_sbrk_free_block a) Q s.
Proof.
  intros Hb Hfl Hap Hh Hfuel HQ. bk_facts Hb.
  assert (Hblk : ∀ y, y ∈ (a, sz) :: l → blk_ok (kern (brk s)) (memory s) (global_rand_cookie s) y.1 y.2).
  { intros y [->|Hy]%elem_of_cons; [done|by apply Hfl]. }
  assert (Happ : all_apart ((a, sz) :: l)) by (split; [done|apply Hfl]).
  (* it is enough to link the block in *)
  assert (HQ' : ∀ m', dll m' (fl_insert (a, sz) l) → load m' (a + 8) 8 = 1 →
     same_but (upd_bytes a l) (memory s) m' →
     Q tt (set_sbrk_free_head (head_or (fl_insert (a, sz) l) NULL) (set_memory m' s))).
  { intros m' Hd H8 Hs. apply HQ; [|done|done]. split; [|by eapply all_apart_perm; [symmetry; apply fl_insert_perm|]|done].
    intros y Hy. eapply blk_ok_mid; [done..| |by rewrite <- fl_insert_perm].
    eapply same_but_weaken; [|exact Hs]. intros x. apply upd_mid_bytes with sz; [by right|left]. }
  clear HQ. unfold _add_sbrk_free_block. wp_steps. rewrite !load_store_ne by lia.
  replace (load (memory s) a 8) with sz. rewrite Hh.
  set (m1 := store (store (memory s) (a + 8) 8 1) (a + 24) 8 NULL).
  assert (Hmid' : same_but (upd_bytes a l) (memory s) m1).
  { apply (same_but_weaken (λ x, a + 8 ≤ x < a + 32)); [by left|]. same_but_tac. }
  assert (Hfl1 : fl_ok (kern (brk s)) m1 (global_rand_cookie s) l) by (by eapply fl_ok_prepare).
  assert (H8 : load m1 (a + 8) 8 = 1) by (unfold m1; by ldst). clearbody m1.
  destruct l as [|[h hs] t]; cbn [head_or fl_insert].
  - cbn [Z.eqb NULL]. wp_steps. apply HQ'; [cbn; unfold NULL; split; [by ldst|done]|by ldst|].
    same_but_tac. left. lia.
  - assert (Hbh := fo_blk _ _ _ _ Hfl1 (h, hs) ltac:(left)). cbn in Hbh. bk_facts Hbh.
    assert (Hah : apart (a, sz) (h, hs)) by (by apply Forall_cons in Hap as [? _]). unfold apart in Hah. cbn in Hah.
    destruct (Z.eqb_spec h NULL) as [E|_]; [unfold NULL in E; lia|]. wp_steps.
    replace (load m1 h 8) with hs.
    change ((sz <? hs) || (sz =? hs) && (a <? h)) with (key_lt (a, sz) (h, hs)).
    cbn [fl_insert] in HQ'. destruct (key_lt (a, sz) (h, hs)) eqn:Hk.
    + wp_steps. apply HQ'; [|by ldst|].
      * apply dll_cons. split; [by ldst|]. split; [by ldst|].
        eapply (dll_keep _ _ _ _ (λ x, a + 16 ≤ x < a + 24 ∨ h + 24 ≤ x < h + 32)); [exact Hfl1|same_but_tac|].
        intros x Hx Hin. exists (h, hs), t. split; [done|]. destruct Hx as [Hx|Hx]; [|done].
        destruct (apart_not_in _ _ _ Hap Hin). cbn. lia.
      * same_but_tac; [left; lia|]. apply (upd_bytes_in _ _ (h, hs)); [left|cbn; lia].
    + wp_step. eapply check_cookie_spec; [exact Hbh|]. wp_steps.
      eapply add_loop_spec; hcbn; [done..|exact Hfl1|exact Hap|change (list_fuel _) with (list_fuel s); cbn [length] in Hfuel; lia|].
      intros m' Hd _ Hs. hcbn. apply HQ'.
      * done.
      * rewrite <- H8. eapply same_but_load; [exact Hs|]. intros x Hx [?|[?|Hl]]; [lia|lia|].
        apply Forall_cons in Hap as [_ Hap]. revert Hl. eapply (link_outside _ _ _ (a, sz)); [|done|cbn; lia].
        intros y Hy. apply Hfl1. by right.
      * eapply same_but_trans; [exact Hmid'|]. eapply same_but_weaken; [|exact Hs].
        intros x [?|[?|Hl]]; [left; lia| |].
        -- apply (upd_bytes_in _ _ (h, hs)); [left|cbn; lia].
        -- destruct Hl as (y & ? & ?). apply (upd_bytes_in _ _ y); [by right|lia].
Qed.

Lemma fl_ok_app k m c l1 l2 : fl_ok k m c (l1 ++ l2) → all_apart l1 ∧ fl_ok k m c l2 ∧
  (∀ y, y ∈ l1 → blk_ok k m c y.1 y.2 ∧ Forall (apart y) l2).
Proof.
  intros [Hb Hap Hd]. apply all_apart_app in Hap as (Ha1 & Ha2 & Ha12). split; [done|]. split.
  - split; [intros y Hy; apply Hb, elem_of_app; by right|done|].
    revert Hd. clear. unfold dll. induction l1 as [|[a s] l1 IH]; [done|]. cbn. intros (_ & _ & H). auto.
  - intros y Hy. split; [apply Hb, elem_of_app; by left|]. apply Forall_forall. intros z Hz. by apply Ha12.
Qed.

(** Unlinking the block [a] between [p] and [l2]. *)
Lemma dll_unlink k m m' c l1 p ps a sz l2 :
  fl_ok k m c ((l1 ++ [(p, ps)]) ++ (a, sz) :: l2) →
  same_but (λ x, a + 8 ≤ x < a + 32 ∨ p + 16 ≤ x < p + 24 ∨
                 head_or l2 NULL + 24 ≤ x < head_or l2 NULL + 32 ∧ l2 ≠ []) m m' →
  load m' (p + 16) 8 = head_or l2 NULL →
  match l2 with [] => True | (n, _) :: _ => load m' (n + 24) 8 = p end →
  dll m' ((l1 ++ [(p, ps)]) ++ l2).
Proof.
  intros Hfl Hs Hp Hn.
  pose proof (fo_dll _ _ _ _ Hfl) as Hd. unfold dll in *. apply dll_to_app in Hd as (Hd1 & _ & _).
  apply dll_to_snoc in Hd1 as (Hd1 & _ & Hlast).
  apply fl_ok_app in Hfl as (Hap1 & Hfa & Hrest).
  apply all_apart_app in Hap1 as (_ & _ & Hap1).
  destruct (Hrest (p, ps)) as [Hbp Happ]; [apply elem_of_app; right; left|]. cbn in Hbp. bk_facts Hbp.
  pose proof (fl_ok_tail _ _ _ _ _ Hfa) as Hf2. destruct Hfa as [Hba [Haa _] _].
  assert (Hba' := Hba (a, sz) ltac:(left)). cbn in Hba'. bk_facts Hba'.
  assert (Hhd : l2 ≠ [] → ∃ ns, (head_or l2 NULL, ns) ∈ l2 ∧ 48 ≤ ns).
  { destruct l2 as [|[n ns] l2]; [done|]. intros _. exists ns. split; [left|].
    assert (Hbn := Hba (n, ns) ltac:(right; left)). cbn in Hbn. by bk_facts Hbn. }
  (* the bytes written are away from every node apart from the three *)
  assert (Hout : ∀ y x, Forall (apart y) ((p, ps) :: (a, sz) :: l2) → y.1 ≤ x < y.1 + y.2 → rd m' x = rd m x).
  { intros y x Hy Hx. apply Hs. rewrite Forall_forall in Hy.
    pose proof (Hy (p, ps) ltac:(left)) as Hyp. pose proof (Hy (a, sz) ltac:(right; left)) as Hya.
    unfold apart in Hyp, Hya. cbn in Hyp, Hya. intros [?|[?|[? Hne]]]; [lia|lia|].
    destruct (Hhd Hne) as (ns & Hin & ?). specialize (Hy _ ltac:(right; right; exact Hin)).
    unfold apart in Hy. cbn in Hy. lia. }
  apply dll_to_app. split; [apply dll_to_snoc; split; [|split; [done|]]|split; [|done]].
  - assert (Hl1 : ∀ y x, y ∈ l1 → y.1 + 16 ≤ x < y.1 + 32 → rd m' x = rd m x).
    { intros y x Hy Hx. destruct (Hrest y) as [Hby Hyap]; [apply elem_of_app; by left|]. bk_facts Hby.
      apply (Hout y); [constructor; [apply Hap1; [done|left]|done]|lia]. }
    apply (dll_to_frame m); [done| |]; intros y x Hy Hx; apply (Hl1 y); try lia; [done|].
    destruct l1; [done|by right].
  - destruct (last l1) as [[q qs]|] eqn:Hq; [|done]. rewrite <- Hlast. apply load_ext. intros x Hx. apply Hs.
    rewrite Forall_forall in Happ. pose proof (Happ (a, sz) ltac:(left)) as Hpa. unfold apart in Hpa. cbn in Hpa.
    intros [?|[?|[? Hne]]]; [lia|lia|]. destruct (Hhd Hne) as (ns & Hin & ?).
    specialize (Happ _ ltac:(right; exact Hin)). unfold apart in Happ. cbn in Happ. lia.
  - eapply dll_keep; [exact Hf2|exact Hs|]. intros x Hx Hin.
    pose proof (apart_not_in _ _ _ Haa Hin). apply Forall_cons in Happ as [_ Happ].
    pose proof (apart_not_in _ _ _ Happ Hin). cbn in *.
    destruct Hx as [?|[?|[? Hne]]]; [lia|lia|]. destruct l2 as [|[n ns] l2]; [done|].
    by exists (n, ns), l2.
Qed.


Ltac upd_tac :=
  same_but_tac;
  first
    [ left; lia
    | match goal with
      | H : ?y ∈ ?l |- upd_bytes _ ?l _ => solve [apply (upd_bytes_in _ l y _ H); cbn; lia]
      end ].

Lemma remove_head_unlink a sz l2 s (Q : unit → heap → Prop) :
  fl_ok (kern (brk s)) (memory s) (global_rand_cookie s) ((a, sz) :: l2) →
  sbrk_free_head s = a →
  (∀ m', dll m' l2 → load m' (a + 8) 8 = 0 → same_but (upd_bytes a l2) (memory s) m' →
     Q tt (set_sbrk_free_head (head_or l2 NULL) (set_memory m' s))) →
  wp (_remove_sbrk_free_block a) Q s.
Proof.
  intros Hfl Hh HQ. pose proof Hfl as [Hblk [Hap _] Hdll].
  assert (Hba := Hblk (a, sz) ltac:(left)). cbn in Hba. bk_facts Hba.
  unfold _remove_sbrk_free_block. wp_steps. rewrite Hh, Z.eqb_refl. wp_steps.
  apply dll_cons in Hdll as (Hnext & _ & _).
  rewrite load_store_ne, Hnext by lia. apply HQ; unfold NULL; [|by ldst|upd_tac].
  eapply (dll_keep _ (memory s) _ _ (λ x, a + 8 ≤ x < a + 32)); [by eapply fl_ok_tail|same_but_tac|].
  intros x Hx Hin. destruct (apart_not_in _ _ _ Hap Hin). cbn. lia.
Qed.

(** The successor of an inner node, if there is one, gets its [prev] field
    updated; [m1] is the memory before, [m2] after that step. *)
Lemma relink_next_spec l p ps l2 s (Q : unit → heap → Prop) :
  (∀ y, y ∈ l ++ l2 → blk_ok (kern (brk s)) (memory s) (global_rand_cookie s) y.1 y.2) → (p, ps) ∈ l →
  (∀ m2, match l2 with [] => True | (n, _) :: _ => load m2 (n + 24) 8 = p end →
     same_but (λ x, head_or l2 NULL + 24 ≤ x < head_or l2 NULL + 32 ∧ l2 ≠ []) (memory s) m2 →
     Q tt (set_memory m2 s)) →
  wp (let next := head_or l2 NULL in
      if next =? NULL then ret tt else _check_cookie next ;;; put_prev next p) Q s.
Proof.
  intros Hblk Hp HQ. cbv zeta. destruct l2 as [|[n ns] l2]; cbn [head_or] in *.
  - cbn [Z.eqb NULL]. wp_steps. specialize (HQ (memory s) I (same_but_refl _ _)). by destruct s.
  - assert (Hbn := Hblk (n, ns) ltac:(apply elem_of_app; right; left)). cbn in Hbn. bk_facts Hbn.
    assert (Hbp := Hblk (p, ps) ltac:(apply elem_of_app; by left)). cbn in Hbp. bk_facts Hbp.
    destruct (Z.eqb_spec n NULL) as [E|_]; [unfold NULL in E; lia|]. wp_step.
    eapply check_cookie_spec; [exact Hbn|]. wp_steps. apply HQ; [by ldst|]. same_but_tac.
Qed.

(** The block after [p] and [a], if there is one. *)
Lemma next_facts k m c p ps a sz l1 l2 :
  fl_ok k m c ((l1 ++ [(p, ps)]) ++ (a, sz) :: l2) →
  0 ≤ head_or l2 NULL < 2 ^ 47 ∧ (l2 ≠ [] → ∃ ns, (head_or l2 NULL, ns) ∈ (l1 ++ [(p, ps)]) ++ l2 ∧ 48 ≤ ns ∧
    apart (p, ps) (head_or l2 NULL, ns) ∧ apart (a, sz) (head_or l2 NULL, ns)).
Proof.
  intros (_ & [Hba2 [Haap _] _] & Hrest)%fl_ok_app. destruct (Hrest (p, ps)) as [_ Happ]; [apply elem_of_app; right; left|].
  destruct l2 as [|[n ns] l2]; cbn [head_or]; [unfold NULL; split; [lia|done]|].
  assert (Hbn := Hba2 (n, ns) ltac:(right; left)). cbn in Hbn. bk_facts Hbn. split; [lia|]. intros _.
  exists ns. rewrite Forall_forall in Happ. apply Forall_cons in Haap as [? _].
  split; [apply elem_of_app; right; left|]. split; [done|]. split; [|done]. apply Happ. right; left.
Qed.

Lemma remove_inner_unlink a sz l1 p ps l2 s (Q : unit → heap → Prop) :
  fl_ok (kern (brk s)) (memory s) (global_rand_cookie s) ((l1 ++ [(p, ps)]) ++ (a, sz) :: l2) →
  sbrk_free_head s ≠ a →
  (∀ m', dll m' ((l1 ++ [(p, ps)]) ++ l2) → load m' (a + 8) 8 = 0 →
     same_but (upd_bytes a ((l1 ++ [(p, ps)]) ++ l2)) (memory s) m' →
     Q tt (set_memory m' s)) →
  wp (_remove_sbrk_free_block a) Q s.
Proof.
  intros Hfl Hne HQ. pose proof Hfl as [Hblk Hap Hdll].
  pose proof Hdll as Hd. unfold dll in Hd. apply dll_to_app in Hd as (_ & (Hnext & _ & _) & Hprev).
  pose proof (fl_ok_app _ _ _ _ _ Hfl) as (_ & [Hba2 [Haap _] _] & Hrest).
  destruct (Hrest (p, ps)) as [Hbp Happ]; [apply elem_of_app; right; left|]. cbn in Hbp. bk_facts Hbp.
  assert (Hba := Hba2 (a, sz) ltac:(left)). cbn in Hba. bk_facts Hba.
  set (L := (l1 ++ [(p, ps)]) ++ (a, sz) :: l2) in *.
  set (L' := (l1 ++ [(p, ps)]) ++ l2) in *.
  assert (Hpin : (p, ps) ∈ L') by (apply elem_of_app; left; apply elem_of_app; right; left).
  assert (HL : ∀ m', same_but (upd_bytes a L') (memory s) m' →
     ∀ y, y ∈ L → blk_ok (kern (brk s)) m' (global_rand_cookie s) y.1 y.2).
  { intros m' Hs. apply (blk_ok_mid _ (memory s)); [done..|]. eapply same_but_weaken; [|exact Hs].
    intros x. apply (upd_mid_bytes a sz); unfold L, L'; [set_solver|apply elem_of_app; right; left]. }
  assert (Hpa : apart (p, ps) (a, sz)) by (by apply Forall_cons in Happ as [? _]). unfold apart in Hpa. cbn in Hpa.
  unfold _remove_sbrk_free_block. wp_steps.
  destruct (Z.eqb_spec (sbrk_free_head s) a) as [|_]; [done|]. wp_steps.
  rewrite !load_store_ne, Hprev, Hnext by lia.
  destruct (Z.eqb_spec p NULL) as [E|_]; [unfold NULL in E; lia|]. wp_step.
  assert (Hs0 : same_but (upd_bytes a L') (memory s) (store (memory s) (a + 8) 8 0)) by upd_tac.
  eapply check_cookie_spec; [hcbn; apply (HL _ Hs0 (p, ps)); unfold L; set_solver|]. wp_steps.
  set (m1 := store (store (memory s) (a + 8) 8 0) (p + 16) 8 (head_or l2 NULL)).
  assert (Hs1 : same_but (upd_bytes a L') (memory s) m1) by (unfold m1; upd_tac).
  destruct (next_facts _ _ _ _ _ _ _ _ _ Hfl) as [Hhr Hhd].
  apply (relink_next_spec ((l1 ++ [(p, ps)]) ++ [(a, sz)]) p ps l2); hcbn.
  { intros y Hy. apply (HL _ Hs1 y). unfold L. set_solver. }
  { set_solver. }
  intros m2 Hm2 Hs2. hcbn. wp_steps.
  assert (Hs2' : same_but (upd_bytes a L') (memory s) m2).
  { eapply same_but_trans; [exact Hs1|]. eapply same_but_weaken; [|exact Hs2]. intros x [Hx Hne2].
    destruct (Hhd Hne2) as (ns & Hin & _). apply (upd_bytes_in _ _ _ _ Hin). cbn. lia. }
  assert (Hm1 : ∀ x, p + 16 ≤ x < p + 24 ∨ a + 8 ≤ x < a + 16 → rd m2 x = rd m1 x).
  { intros x Hx. apply Hs2. intros [? Hne2]. destruct (Hhd Hne2) as (ns & _ & ? & Hd1 & Hd2).
    unfold apart in Hd1, Hd2. cbn in Hd1, Hd2. lia. }
  apply HQ; unfold NULL; [|ldst; rewrite (load_ext m1) by (intros; apply Hm1; lia); unfold m1; by ldst|upd_tac].
  eapply (dll_unlink _ _ _ _ _ _ _ _ sz); [exact Hfl| | |].
  - same_but_tac. intros x Hx. rewrite Hs2 by tauto. unfold m1.
    rewrite !rd_store_out; [done|destruct (decide (a + 8 ≤ x < a + 16)); [exfalso; apply Hx; lia|lia]|
      destruct (decide (p + 16 ≤ x < p + 24)); [exfalso; apply Hx; lia|lia]].
  - ldst. rewrite (load_ext m1) by (intros; apply Hm1; lia). unfold m1. by ldst.
  - destruct l2 as [|[n ns] l2]; [done|]. cbn [head_or] in *.
    destruct (Hhd ltac:(done)) as (ns' & _ & ? & _ & Hd2). unfold apart in Hd2. cbn in Hd2. by ldst.
Qed.

Lemma remove_free_spec a sz l1 l2 s (Q : unit → heap → Prop) :
  fl_ok (kern (brk s)) (memory s) (global_rand_cookie s) (l1 ++ (a, sz) :: l2) →
  sbrk_free_head s = head_or (l1 ++ (a, sz) :: l2) NULL →
  (∀ m', fl_ok (kern (brk s)) m' (global_rand_cookie s) (l1 ++ l2) →
     blk_ok (kern (brk s)) m' (global_rand_cookie s) a sz →
     load m' (a + 8) 8 = 0 →
     same_but (upd_bytes a (l1 ++ l2)) (memory s) m' →
     Q tt (set_sbrk_free_head (head_or (l1 ++ l2) NULL) (set_memory m' s))) →
  wp (_remove_sbrk_free_block a) Q s.
Proof.
  intros Hfl Hh HQ. pose proof Hfl as [Hblk Hap Hdll].
  assert (HQ' : ∀ m', dll m' (l1 ++ l2) → load m' (a + 8) 8 = 0 →
     same_but (upd_bytes a (l1 ++ l2)) (memory s) m' →
     Q tt (set_sbrk_free_head (head_or (l1 ++ l2) NULL) (set_memory m' s))).
  { intros m' Hd H8 Hs.
    assert (Hb' : ∀ y, y ∈ l1 ++ (a, sz) :: l2 → blk_ok (kern (brk s)) m' (global_rand_cookie s) y.1 y.2).
    { apply (blk_ok_mid _ (memory s)); [done..|]. eapply same_but_weaken; [|exact Hs].
      intros x. apply (upd_mid_bytes a sz); [set_solver|apply elem_of_app; right; left]. }
    apply HQ; [|by apply (Hb' (a, sz)), elem_of_app; right; left|done|done].
    split; [|eapply all_apart_perm in Hap; [|symmetry; apply Permutation_middle]; apply Hap|done].
    intros y Hy. apply Hb'. rewrite elem_of_app, elem_of_cons in *. tauto. }
  destruct l1 as [|[p ps] l1 _] using rev_ind; [by eapply remove_head_unlink|].
  assert (Hin : ∃ q qs t, (l1 ++ [(p, ps)]) = (q, qs) :: t).
  { destruct l1 as [|[q qs] l1]; cbn; eauto. }
  destruct Hin as (q & qs & t & Hq). eapply remove_inner_unlink; [exact Hfl| |].
  - rewrite Hh. apply fl_ok_app in Hfl as (_ & Hfa & Hrest). rewrite Hq in *. cbn.
    destruct (Hrest (q, qs) ltac:(left)) as [Hbq Hqa]. cbn in Hbq. bk_facts Hbq.
    assert (Hba := fo_blk _ _ _ _ Hfa (a, sz) ltac:(left)). cbn in Hba. bk_facts Hba.
    apply Forall_cons in Hqa as [Hqa _]. unfold apart in Hqa. cbn in Hqa. lia.
  - intros m' Hd H8 Hs. specialize (HQ' m' Hd H8 Hs).
    replace (head_or ((l1 ++ [(p, ps)]) ++ l2) NULL) with (sbrk_free_head s) in HQ'
      by (rewrite Hh, Hq; done). by destruct s.
Qed.

(** Writes outside the nodes keep the whole list. *)
Lemma fl_ok_keep k m m' c (F : Z → Prop) l :
  fl_ok k m c l → same_but F m m' → (∀ x, F x → ¬ in_nodes l x) → fl_ok k m' c l.
Proof.
  intros Hfl Hs HF. split; [|apply Hfl|].
  - intros y Hy. pose proof (fo_blk _ _ _ _ Hfl y Hy) as Hb. pose proof (bk_min _ _ _ _ _ Hb).
    eapply blk_ok_frame; [exact Hb|]. intros x Hx. apply Hs. intros Hfx. apply (HF x Hfx). exists y.
    split; [done|]. unfold core_bytes, _size_meta_data, SIZEOF_HEAD, SIZEOF_TAIL in *. lia.
  - eapply dll_keep; [done..|]. intros x Hx Hin. by destruct (HF x Hx).
Qed.

(** A new free block at [a], whatever was there before. *)
Lemma init_free_spec a sz l s (Q : unit → heap → Prop) :
  accessible (kern (brk s)) a sz → 48 ≤ sz → 0 < a → a + sz < 2 ^ 47 →
  0 < global_rand_cookie s < 2 ^ 32 →
  fl_ok (kern (brk s)) (memory s) (global_rand_cookie s) l →
  Forall (apart (a, sz)) l → sbrk_free_head s = head_or l NULL →
  (length l ≤ list_fuel s)%nat →
  (∀ pos m', fl_ok (kern (brk s)) m' (global_rand_cookie s) (fl_insert (a, sz) l) →
     load m' (a + 8) 8 = 1 →
     same_but (λ x, meta_bytes a sz x ∨ link_bytes l x) (memory s) m' →
     Q tt (set_sbrk_free_head (head_or (fl_insert (a, sz) l) NULL)
             (set_memory m' (set_cookie pos (global_rand_cookie s) s)))) →
  wp (_init_sbrk_free_block a sz) Q s.
Proof.
  intros Hacc H1 H2 H3 Hc Hfl Hap Hh Hfuel HQ. unfold _init_sbrk_free_block, NULL. wp_steps.
  eapply set_tail_spec; hcbn; [done..|by ldst|lia|].
  intros pos c Hc1 _. rewrite (Hc1 ltac:(lia)). clear Hc1 c.
  set (m1 := store (store (store (store (store (memory s) a 8 sz) (a + 16) 8 0) (a + 24) 8 0)
                      (a + sz - 16) 4 (global_rand_cookie s)) (a + sz - 8) 8 sz).
  assert (Hs1 : same_but (meta_bytes a sz) (memory s) m1) by (unfold m1, meta_bytes; same_but_tac).
  assert (Hb1 : blk_ok (kern (brk s)) m1 (global_rand_cookie s) a sz).
  { unfold m1. split; unfold _size_meta_data, SIZEOF_HEAD, SIZEOF_TAIL, ADDR_MAX; try done; by ldst. }
  assert (Hfl1 : fl_ok (kern (brk s)) m1 (global_rand_cookie s) l).
  { eapply fl_ok_keep; [done..|]. intros x Hx. apply (apart_in_nodes (a, sz)); [done|].
    unfold meta_bytes in Hx. cbn. lia. }
  clearbody m1. eapply add_free_spec; hcbn; [exact Hb1|exact Hfl1|done|done|done|].
  intros m' Hfl' H8 Hs'. hcbn. apply HQ; [done|done|].
  eapply same_but_trans; [eapply same_but_weaken; [|exact Hs1]; by left|].
  eapply same_but_weaken; [|exact Hs']. intros x [?|?]; [left; left; lia|by right].
Qed.
End Ops.
