(* ===== verification/HeapInv.v ===== *)
(** * The invariant of the segregated heap

    The data segment is a sequence of blocks, each with a header and a tail
    ([chain], [core]); the free ones are exactly the nodes of the free list; the
    large blocks live in mappings of their own.  This file states the invariant
    and proves what every step of the allocator does to it: taking a block off
    the free list, putting it back, joining and splitting blocks, extending the
    last one and appending a new one. *)

From S2P Require Import Prelude Memory Kernel Machine Malloc1 SbrkHeap FreeList.

(** ** Blocks of the data segment *)

Record blk := Blk { ba : Z; bsz : Z; bfree : bool }.
Definition bnode (b : blk) : node := (ba b, bsz b).
Definition nodes (bs : list blk) : list node := map bnode bs.
Definition free_nodes (bs : list blk) : list node := nodes (List.filter bfree bs).

(** The blocks follow each other from [a] to [e]. *)
Fixpoint chain (a : Z) (bs : list blk) (e : Z) : Prop :=
  match bs with
  | [] => a = e
  | b :: t => ba b = a ∧ 48 ≤ bsz b ∧ chain (a + bsz b) t e
  end.

(** What a caller of the [_sbrk] of the file relies on. *)
Class BreakLaws {os : OS} (B : Break) : Prop := {
  unit_pos : 0 < brk_unit;
  move_0 : ∀ b, brk_ok b → (brk_unit | cur_break b) →
    brk_move 0 b = (cur_break b, BrkState (kern b) (Some (cur_break b)));
  move_pos : ∀ b d, brk_ok b → (brk_unit | cur_break b) → 0 < d < 2 ^ 32 → (brk_unit | d) →
    (∃ b', brk_move d b = (FAILED, b') ∧ sbrk_grows 0 b b' ∧ ¬ grants b d) ∨
    (∃ b', brk_move d b = (cur_break b, b') ∧ sbrk_grows d b b')
}.

Definition flag (f : bool) : Z := if f then 1 else 0.

(** A block of the data segment as its metadata in memory describe it. *)
Record good_blk {B : Break} (k : kernel) (m : gmap Z Z) (c : Z) (b : blk) : Prop := {
  gb_ok : blk_ok k m c (ba b) (bsz b);
  gb_flag : load m (ba b + 8) 8 = flag (bfree b);
  gb_unit : (brk_unit | bsz b)
}.

(** A block of its own mapping. *)
Record good_map (k : kernel) (m : gmap Z Z) (c : Z) (y : node) : Prop := {
  gm_ok : blk_ok k m c y.1 y.2;
  gm_flag : load m (y.1 + 8) 8 = 0;
  gm_big : SBRK_LIMIT ≤ y.2;
  gm_region : ∃ r, r ∈ k_maps k ∧ r_lo r = y.1 ∧ r_hi r = y.1 + map_len y.2 (r_huge r) ∧ y.1 mod PAGE = 0
}.

Record core {B : Break} (s : heap) (bs : list blk) (fl mm : list node) : Prop := {
  co_brk : brk_ok (brk s);
  co_unit : (brk_unit | cur_break (brk s));
  co_holes : k_holes (kern (brk s)) = [];
  co_chain : (sbrk_head s = NULL ∧ bs = []) ∨
             (sbrk_head s ≠ NULL ∧ k_start (kern (brk s)) ≤ sbrk_head s ∧
              chain (sbrk_head s) bs (cur_break (brk s)));
  co_cookie : 0 ≤ global_rand_cookie s < 2 ^ 32;
  co_cookie' : bs ≠ [] ∨ mm ≠ [] → global_rand_cookie s ≠ 0;
  co_blk : ∀ b, b ∈ bs → good_blk (kern (brk s)) (memory s) (global_rand_cookie s) b;
  co_fl : fl_ok (kern (brk s)) (memory s) (global_rand_cookie s) fl;
  co_perm : fl ≡ₚ free_nodes bs;
  co_fhead : sbrk_free_head s = head_or fl NULL;
  co_mm : ∀ y, y ∈ mm → good_map (kern (brk s)) (memory s) (global_rand_cookie s) y;
  co_mapart : all_apart mm;
  co_counters : 0 ≤ free_blocks_num s < 2 ^ 64 ∧ 0 ≤ free_bytes_num s < 2 ^ 64 ∧
                0 ≤ allocated_blocks_num s < 2 ^ 64 ∧ 0 ≤ allocated_bytes_num s < 2 ^ 64
}.

(** The counters of the file. *)
Definition payload_sum (l : list node) : Z := foldr (λ y acc, y.2 - _size_meta_data + acc) 0 l.

Record counted (s : heap) (bs : list blk) (mm : list node) : Prop := {
  ct_fblocks : free_blocks_num s = u64 (Z.of_nat (length (free_nodes bs)));
  ct_fbytes : free_bytes_num s = u64 (payload_sum (free_nodes bs));
  ct_ablocks : allocated_blocks_num s = u64 (Z.of_nat (length bs + length mm));
  ct_abytes : allocated_bytes_num s = u64 (payload_sum (nodes bs) + payload_sum mm)
}.

(** The invariant of the allocator. *)
Record heap_ok {B : Break} (s : heap) (bs : list blk) (fl mm : list node) : Prop := {
  ho_core : core s bs fl mm;
  ho_sorted : fl_sorted fl;
  ho_counts : counted s bs mm
}.

(** ** Geometry of the chain *)

Lemma nodes_app l1 l2 : nodes (l1 ++ l2) = nodes l1 ++ nodes l2.
Proof. apply map_app. Qed.
Lemma free_nodes_app l1 l2 : free_nodes (l1 ++ l2) = free_nodes l1 ++ free_nodes l2.
Proof. unfold free_nodes. by rewrite List.filter_app, nodes_app. Qed.
Lemma free_nodes_cons b l :
  free_nodes (b :: l) = (if bfree b then [bnode b] else []) ++ free_nodes l.
Proof. unfold free_nodes. cbn. by destruct (bfree b). Qed.
Lemma elem_of_nodes y bs : y ∈ nodes bs ↔ ∃ b, b ∈ bs ∧ y = bnode b.
Proof.
  unfold nodes. rewrite list_elem_of_In, in_map_iff. setoid_rewrite list_elem_of_In. naive_solver.
Qed.
Lemma elem_of_free_nodes y bs : y ∈ free_nodes bs ↔ ∃ b, b ∈ bs ∧ bfree b = true ∧ y = bnode b.
Proof.
  unfold free_nodes. rewrite elem_of_nodes. setoid_rewrite list_elem_of_In. setoid_rewrite filter_In. naive_solver.
Qed.

Lemma chain_app a l1 l2 e :
  chain a (l1 ++ l2) e ↔ ∃ x, chain a l1 x ∧ chain x l2 e.
Proof.
  revert a. induction l1 as [|b l1 IH]; intros a; cbn.
  - split; [by exists a|by intros (x & -> & ?)].
  - setoid_rewrite IH. split; [intros (? & ? & x & ? & ?); by exists x|intros (x & (? & ? & ?) & ?)].
    split; [done|split; [done|by exists x]].
Qed.

Lemma chain_split a l1 b l2 e n f1 f2 :
  chain a (l1 ++ b :: l2) e → 48 ≤ n → 48 ≤ bsz b - n →
  chain a (l1 ++ Blk (ba b) n f1 :: Blk (ba b + n) (bsz b - n) f2 :: l2) e.
Proof.
  intros (x & Hc1 & <- & Hm & Hc2)%chain_app Hn1 Hn2. apply chain_app. exists (ba b). split; [done|]. cbn.
  split; [done|]. split; [lia|]. split; [done|]. split; [lia|]. by replace (ba b + n + (bsz b - n)) with (ba b + bsz b) by lia.
Qed.

Lemma chain_le a bs e : chain a bs e → a ≤ e.
Proof. revert a. induction bs as [|b t IH]; intros a; cbn; [lia|]. intros (? & ? & ?%IH). lia. Qed.

Lemma chain_in a bs e b : chain a bs e → b ∈ bs → a ≤ ba b ∧ 48 ≤ bsz b ∧ ba b + bsz b ≤ e.
Proof.
  revert a. induction bs as [|b' t IH]; intros a Hc Hb; [by apply not_elem_of_nil in Hb|].
  destruct Hc as (H1 & H2 & H3). apply elem_of_cons in Hb as [->|Hb].
  - pose proof (chain_le _ _ _ H3). lia.
  - specialize (IH _ H3 Hb). lia.
Qed.

Lemma chain_all_apart a bs e : chain a bs e → all_apart (nodes bs).
Proof.
  revert a. induction bs as [|b t IH]; intros a Hc; [done|].
  destruct Hc as (H1 & H2 & H3). cbn. split; [|by eapply IH].
  apply Forall_forall. intros y (b' & Hb' & ->)%elem_of_nodes. destruct (chain_in _ _ _ _ H3 Hb'). unfold apart, bnode. cbn. lia.
Qed.

Lemma chain_free_apart a bs e : chain a bs e → all_apart (free_nodes bs).
Proof.
  revert a. induction bs as [|b t IH]; intros a Hc; [done|].
  destruct Hc as (H1 & H2 & H3). rewrite free_nodes_cons. specialize (IH _ H3).
  destruct (bfree b); [|done]. cbn. split; [|done].
  apply Forall_forall. intros y (b' & Hb' & _ & ->)%elem_of_free_nodes.
  destruct (chain_in _ _ _ _ H3 Hb'). unfold apart, bnode. cbn. lia.
Qed.

Lemma chain_length a bs e : chain a bs e → 48 * Z.of_nat (length bs) ≤ e - a.
Proof.
  revert a. induction bs as [|b t IH]; intros a Hc; cbn [length] in *; [cbn in Hc; lia|].
  destruct Hc as (H1 & H2 & H3). specialize (IH _ H3). lia.
Qed.

Lemma chain_fun a js x y : chain a js x → chain a js y → x = y.
Proof.
  revert a. induction js as [|b js IH]; intros a; cbn; [congruence|].
  intros (? & ? & ?) (? & ? & ?). eauto.
Qed.

Lemma chain_start a a' js x y : js ≠ [] → chain a js x → chain a' js y → a = a' ∧ x = y.
Proof.
  destruct js as [|b js]; [done|]. intros _ (H1 & H2 & H3) (H4 & H5 & H6). subst a a'.
  split; [done|]. by eapply chain_fun.
Qed.

(** The address a position in the chain starts at. *)
Lemma chain_mid a l1 b l2 e :
  chain a (l1 ++ b :: l2) e → chain a l1 (ba b) ∧ 48 ≤ bsz b ∧ chain (ba b + bsz b) l2 e.
Proof. rewrite chain_app. intros (x & H1 & <- & H2 & H3). done. Qed.

Lemma payload_sum_app l1 l2 : payload_sum (l1 ++ l2) = payload_sum l1 + payload_sum l2.
Proof. induction l1 as [|y t IH]; [done|]. cbn [app payload_sum foldr] in *. fold payload_sum. unfold payload_sum in *. lia. Qed.

#[export] Instance payload_sum_perm : Proper (Permutation ==> eq) payload_sum.
Proof. intros l1 l2 H. induction H; cbn in *; unfold payload_sum in *; cbn; lia. Qed.

(** ** Frames *)

(** The bytes [good_blk] reads: size, flag and tail. *)
Definition blk_bytes (y : node) (x : Z) : Prop :=
  y.1 ≤ x < y.1 + 16 ∨ y.1 + y.2 - 16 ≤ x < y.1 + y.2.

Lemma elem_of_tail {A} (x : A) l : x ∈ tail l → x ∈ l.
Proof. destruct l; [done|by right]. Qed.

Lemma all_apart_fst l1 y l2 :
  all_apart (l1 ++ y :: l2) → (∀ z, z ∈ l1 ++ y :: l2 → 0 < z.2) → ∀ z, z ∈ l1 ++ l2 → z.1 ≠ y.1.
Proof.
  intros Hap Hmin z Hz. assert (Hp : l1 ++ y :: l2 ≡ₚ y :: l1 ++ l2) by (by rewrite Permutation_middle).
  apply (all_apart_perm _ _ Hp) in Hap as [Hy _]. rewrite Forall_forall in Hy. specialize (Hy z Hz).
  pose proof (Hmin z ltac:(set_solver)). pose proof (Hmin y ltac:(set_solver)). unfold apart in Hy. lia.
Qed.

Section Frames.
Context {B : Break}.

Lemma good_blk_frame k m m' c b :
  good_blk k m c b → (∀ x, blk_bytes (bnode b) x → rd m' x = rd m x) → good_blk k m' c b.
Proof.
  intros [H1 H2 H3] Hf. unfold blk_bytes in Hf. cbn in Hf. pose proof (bk_min _ _ _ _ _ H1). split; [|..|done].
  - eapply blk_ok_frame; [done|]. unfold core_bytes. intros x Hx. apply Hf. lia.
  - rewrite <- H2. apply load_ext. intros x Hx. apply Hf. lia.
Qed.

Lemma good_map_frame k m m' c y :
  good_map k m c y → (∀ x, blk_bytes y x → rd m' x = rd m x) → good_map k m' c y.
Proof.
  intros [H1 H2 H3 H4] Hf. unfold blk_bytes in Hf. split; [|..|done|done].
  - eapply blk_ok_frame; [done|]. unfold core_bytes. intros x Hx. apply Hf. lia.
  - rewrite <- H2. apply load_ext. intros x Hx. apply Hf. lia.
Qed.

(** All blocks of the allocator, small and large. *)
Lemma core_all_apart s bs fl mm : core s bs fl mm → all_apart (nodes bs ++ mm).
Proof.
  intros Hc. apply all_apart_app.
  destruct (co_chain _ _ _ _ Hc) as [[_ ->]|(_ & Hs & Hch)].
  { split; [done|]. split; [apply Hc|]. by intros x y ?%not_elem_of_nil. }
  split; [by eapply chain_all_apart|]. split; [apply Hc|].
  intros x y (b & Hb & ->)%elem_of_nodes Hy. destruct (chain_in _ _ _ _ Hch Hb) as (H1 & H2 & H3).
  destruct (co_mm _ _ _ _ Hc y Hy) as [Hok _ Hbig (r & Hr & Hlo & Hhi & _)]. pose proof (map_len_ge y.2 (r_huge r)).
  pose proof (co_brk _ _ _ _ Hc) as Hbk. pose proof (bo_hi _ Hbk). destruct (bo_maps _ Hbk r Hr);
    unfold apart, bnode; cbn; lia.
Qed.

Lemma core_node_min s bs fl mm y : core s bs fl mm → y ∈ nodes bs ++ mm → 48 ≤ y.2.
Proof.
  intros Hc [(b & Hb & ->)%elem_of_nodes|Hy]%elem_of_app.
  - apply (bk_min _ _ _ _ _ (gb_ok _ _ _ _ (co_blk _ _ _ _ Hc b Hb))).
  - apply (bk_min _ _ _ _ _ (gm_ok _ _ _ _ (co_mm _ _ _ _ Hc y Hy))).
Qed.

Lemma core_free_in s bs fl mm y : core s bs fl mm → y ∈ fl → y ∈ nodes bs ++ mm.
Proof.
  intros Hc Hy. rewrite (co_perm _ _ _ _ Hc) in Hy. apply elem_of_free_nodes in Hy as (b & Hb & _ & ->).
  apply elem_of_app. left. apply elem_of_nodes. by exists b.
Qed.

(** A free-list operation on the block [z] writes no size, flag or tail of
    another block. *)
Lemma upd_blk_bytes (N l : list node) z y x :
  all_apart N → (∀ w, w ∈ N → 48 ≤ w.2) → z ∈ N → (∀ w, w ∈ l → w ∈ N) → y ∈ N → y ≠ z →
  blk_bytes y x → ¬ upd_bytes z.1 l x.
Proof.
  intros Hap Hmin Hz Hl Hy Hyz Hx Hu. unfold blk_bytes in Hx. pose proof (Hmin y Hy).
  destruct Hu as [Hu|(w & Hw & Hu)].
  - destruct (all_apart_in _ _ _ Hap Hy Hz) as [|Ha]; [done|]. pose proof (Hmin z Hz). unfold apart in Ha. lia.
  - apply Hl in Hw. pose proof (Hmin w Hw).
    destruct (all_apart_in _ _ _ Hap Hy Hw) as [->|Ha]; [lia|]. unfold apart in Ha. lia.
Qed.

(** The free list is no longer than the fuel of the loops over it. *)
Lemma core_fuel s bs fl mm : core s bs fl mm → (length fl ≤ list_fuel s)%nat.
Proof.
  intros Hc. rewrite (co_perm _ _ _ _ Hc). unfold free_nodes, nodes. rewrite length_map.
  pose proof (List.filter_length_le bfree bs).
  enough (length bs ≤ list_fuel s)%nat by lia.
  destruct (co_chain _ _ _ _ Hc) as [[_ ->]|(_ & Hs & Hch)]; [cbn; lia|].
  pose proof (chain_length _ _ _ Hch). pose proof (bo_hi _ (co_brk _ _ _ _ Hc)).
  unfold list_fuel, _size_meta_data, SIZEOF_HEAD, SIZEOF_TAIL.
  assert (Z.of_nat (length bs) ≤ (k_brk (kern (brk s)) - k_start (kern (brk s))) / (32 + 16)).
  { apply Z.div_le_lower_bound; lia. }
  lia.
Qed.

(** Any range between the first block and the break can be accessed. *)
Lemma core_accessible s bs fl mm a sz :
  core s bs fl mm → k_start (kern (brk s)) ≤ a → a + sz ≤ cur_break (brk s) →
  accessible (kern (brk s)) a sz.
Proof.
  intros Hc H1 H2 x n Hx Hn. pose proof (bo_hi _ (co_brk _ _ _ _ Hc)).
  apply mapped_brk; [apply Hc|lia|lia].
Qed.
End Frames.

(** ** Steps on the block list *)

Section Steps.
Context {os : OS} {laws : OSLaws os} {B : Break} {blaws : BreakLaws B}.

Definition set_flag (f : bool) (b : blk) : blk := Blk (ba b) (bsz b) f.

Lemma chain_set_flag f a l1 b l2 e :
  chain a (l1 ++ b :: l2) e → chain a (l1 ++ set_flag f b :: l2) e.
Proof. rewrite !chain_app. done. Qed.

Lemma nodes_set_flag f l1 b l2 : nodes (l1 ++ set_flag f b :: l2) = nodes (l1 ++ b :: l2).
Proof. by rewrite !nodes_app. Qed.

Lemma free_nodes_mid l1 b l2 :
  free_nodes (l1 ++ b :: l2) ≡ₚ (if bfree b then [bnode b] else []) ++ free_nodes (l1 ++ l2).
Proof. rewrite !free_nodes_app, free_nodes_cons. apply Permutation_app_swap_app. Qed.

(** Blocks other than the one at a given position keep their metadata when a
    free-list operation runs on it. *)
Lemma core_upd s l1 b l2 fl mm l m' :
  core s (l1 ++ b :: l2) fl mm →
  (∀ w, w ∈ l → w ∈ nodes (l1 ++ b :: l2) ++ mm) →
  same_but (upd_bytes (ba b) l) (memory s) m' →
  (∀ b', b' ∈ l1 ++ l2 → good_blk (kern (brk s)) m' (global_rand_cookie s) b') ∧
  (∀ y, y ∈ mm → good_map (kern (brk s)) m' (global_rand_cookie s) y).
Proof.
  intros Hc Hl Hs. pose proof (core_all_apart _ _ _ _ Hc) as Hap.
  assert (Hmin := λ w, core_node_min _ _ _ _ w Hc).
  assert (Hbin : bnode b ∈ nodes (l1 ++ b :: l2) ++ mm).
  { apply elem_of_app. left. apply elem_of_nodes. exists b. split; [apply elem_of_app; right; left|done]. }
  assert (Hother : ∀ y, y ∈ nodes (l1 ++ l2) ++ mm → y ∈ nodes (l1 ++ b :: l2) ++ mm ∧ y ≠ bnode b).
  { revert Hap. rewrite !nodes_app. cbn. rewrite <- !app_assoc. cbn. intros Hap y Hy.
    assert (Hp : nodes l1 ++ bnode b :: nodes l2 ++ mm ≡ₚ bnode b :: nodes l1 ++ nodes l2 ++ mm)
      by (symmetry; apply Permutation_middle).
    eapply all_apart_perm in Hap; [|exact Hp]. destruct Hap as [Hap _]. split; [set_solver|].
    intros ->. rewrite Forall_forall in Hap. specialize (Hap _ Hy).
    specialize (Hmin (bnode b) Hbin). unfold apart in Hap. cbn in *. lia. }
  split.
  - intros b' Hb'. apply (good_blk_frame _ (memory s)).
    + apply Hc. rewrite elem_of_app in *. rewrite elem_of_cons. tauto.
    + intros x Hx. apply Hs. destruct (Hother (bnode b')) as [H1 H2].
      { apply elem_of_app. left. apply elem_of_nodes. by exists b'. }
      eapply (upd_blk_bytes (nodes (l1 ++ b :: l2) ++ mm) l (bnode b)); eauto.
  - intros y Hy. apply (good_map_frame _ (memory s)); [by apply Hc|].
    intros x Hx. apply Hs. destruct (Hother y) as [H1 H2]; [apply elem_of_app; by right|].
    eapply (upd_blk_bytes (nodes (l1 ++ b :: l2) ++ mm) l (bnode b)); eauto.
Qed.

(** The block leaves the free list. *)
Lemma core_taken l1 b l2 fl1 fl2 mm s m' :
  core s (l1 ++ b :: l2) (fl1 ++ bnode b :: fl2) mm → bfree b = true →
  fl_ok (kern (brk s)) m' (global_rand_cookie s) (fl1 ++ fl2) →
  blk_ok (kern (brk s)) m' (global_rand_cookie s) (ba b) (bsz b) → load m' (ba b + 8) 8 = 0 →
  same_but (upd_bytes (ba b) (fl1 ++ fl2)) (memory s) m' →
  core (set_sbrk_free_head (head_or (fl1 ++ fl2) NULL) (set_memory m' s))
    (l1 ++ set_flag false b :: l2) (fl1 ++ fl2) mm.
Proof.
  intros Hc Hf Hfl' Hb' H8 Hs.
  destruct (core_upd _ _ _ _ _ _ (fl1 ++ fl2) m' Hc) as [Hblk Hmm]; [|done|].
  { intros w Hw. eapply core_free_in; [exact Hc|]. rewrite elem_of_app in *. rewrite elem_of_cons. tauto. }
  destruct Hc as [H1 H2 H3 H4 H5 H6 H7 H9 H10 H11 H12 H13]. split; hcbn; try done.
  - destruct H4 as [[_ Hnil]|(? & ? & ?)]; [by destruct l1|right]. eauto using chain_set_flag.
  - intros [?|?]; apply H6; [left; by destruct l1|by right].
  - intros b' [Hb1|[->|Hb2]%elem_of_cons]%elem_of_app; [apply Hblk; set_solver| |apply Hblk; set_solver].
    split; [done|done|]. apply (gb_unit _ _ _ _ (H7 b ltac:(set_solver))).
  - rewrite free_nodes_mid, Hf in H10. rewrite free_nodes_mid. cbn in *.
    apply (Permutation_cons_inv (a := bnode b)). rewrite <- H10. apply Permutation_middle.
Qed.

Lemma core_free_split s l1 b l2 fl mm :
  core s (l1 ++ b :: l2) fl mm → bfree b = true → ∃ fl1 fl2, fl = fl1 ++ bnode b :: fl2.
Proof.
  intros Hc Hf. apply list_elem_of_split. rewrite (co_perm _ _ _ _ Hc), free_nodes_mid, Hf. left.
Qed.

(** [_remove_sbrk_free_block] on a block of the invariant. *)
Lemma core_take l1 b l2 fl mm s (Q : unit → heap → Prop) :
  core s (l1 ++ b :: l2) fl mm → bfree b = true →
  (∀ fl1 fl2 m', fl = fl1 ++ bnode b :: fl2 →
     let s' := set_sbrk_free_head (head_or (fl1 ++ fl2) NULL) (set_memory m' s) in
     core s' (l1 ++ set_flag false b :: l2) (fl1 ++ fl2) mm →
     same_but (upd_bytes (ba b) (fl1 ++ fl2)) (memory s) m' →
     Q tt s') →
  wp (_remove_sbrk_free_block (ba b)) Q s.
Proof.
  intros Hc Hf HQ. destruct (core_free_split _ _ _ _ _ _ Hc Hf) as (fl1 & fl2 & ->).
  eapply remove_free_spec; [apply Hc|apply Hc|]. intros m' Hfl' Hb' H8 Hs. cbv zeta in HQ.
  apply HQ; [done| |done]. by apply core_taken.
Qed.

(** [_add_sbrk_free_block]: the block joins the free list. *)
Lemma core_put l1 b l2 fl mm s (Q : unit → heap → Prop) :
  core s (l1 ++ b :: l2) fl mm → bfree b = false →
  (∀ m', let s' := set_sbrk_free_head (head_or (fl_insert (bnode b) fl) NULL) (set_memory m' s) in
     core s' (l1 ++ set_flag true b :: l2) (fl_insert (bnode b) fl) mm →
     same_but (upd_bytes (ba b) fl) (memory s) m' →
     Q tt s') →
  wp (_add_sbrk_free_block (ba b)) Q s.
Proof.
  intros Hc Hf HQ.
  assert (Hb : good_blk (kern (brk s)) (memory s) (global_rand_cookie s) b) by (apply Hc; set_solver).
  assert (Hfree : ∀ w, w ∈ fl → w ∈ nodes (l1 ++ b :: l2) ++ mm) by (intros w Hw; by eapply core_free_in).
  assert (Hap : Forall (apart (bnode b)) fl).
  { apply Forall_forall. intros y Hy. pose proof Hy as Hy'. rewrite (co_perm _ _ _ _ Hc), free_nodes_mid, Hf in Hy.
    apply elem_of_free_nodes in Hy as (b' & Hb' & _ & ->).
    pose proof (core_all_apart _ _ _ _ Hc) as Hap. apply all_apart_app in Hap as (Hap & _ & _).
    rewrite nodes_app in Hap. cbn in Hap.
    eapply all_apart_perm in Hap; [|symmetry; apply Permutation_middle]. destruct Hap as [Hap _].
    rewrite Forall_forall in Hap. apply Hap. rewrite <- nodes_app. apply elem_of_nodes. by exists b'. }
  eapply add_free_spec; [apply Hb|apply Hc|done|apply Hc|by eapply core_fuel|].
  intros m' Hfl' H8 Hs. cbv zeta in HQ. apply HQ; [|done].
  destruct (core_upd _ _ _ _ _ _ fl m' Hc Hfree Hs) as [Hblk Hmm].
  pose proof (fo_blk _ _ _ _ Hfl' (bnode b) ltac:(apply elem_of_fl_insert; by left)) as Hb'.
  destruct Hc as [H1 H2 H3 H4 H5 H6 H7 H9 H10 H11 H12 H13]. split; hcbn; try done.
  - destruct H4 as [[_ Hnil]|(? & ? & ?)]; [by destruct l1|right]. eauto using chain_set_flag.
  - intros [?|?]; apply H6; [left; by destruct l1|by right].
  - intros b'' [Hb1|[->|Hb2]%elem_of_cons]%elem_of_app; [apply Hblk; set_solver| |apply Hblk; set_solver].
    split; [done|done|]. apply Hb.
  - rewrite fl_insert_perm, H10, !free_nodes_mid, Hf. done.
Qed.

(** Headers and tails hold no links of the free list. *)
Lemma core_links_apart s bs fl mm y x : core s bs fl mm → y ∈ nodes bs ++ mm → blk_bytes y x → ¬ link_bytes fl x.
Proof.
  intros Hc Hy Hx (w & Hw & Hwx). pose proof (core_all_apart _ _ _ _ Hc) as Hap. pose proof (core_node_min _ _ _ _ y Hc Hy).
  pose proof (core_node_min _ _ _ _ w Hc (core_free_in _ _ _ _ _ Hc Hw)). unfold blk_bytes in Hx.
  destruct (all_apart_in _ y w Hap) as [->|Ha]; [done|by eapply core_free_in|lia|]. unfold apart in Ha. lia.
Qed.

(** A run of blocks: where it lies, and that everything else is outside. *)
Lemma core_outside s l1 js l2 fl mm a tot :
  core s (l1 ++ js ++ l2) fl mm → js ≠ [] → chain a js (a + tot) →
  0 < a ∧ k_start (kern (brk s)) ≤ a ∧ a + tot ≤ cur_break (brk s) ∧ 48 ≤ tot ∧ a + tot < 2 ^ 47 ∧
  (∀ y, y ∈ nodes (l1 ++ l2) ++ mm → apart (a, tot) y).
Proof.
  intros Hc Hne Hj. destruct (co_chain _ _ _ _ Hc) as [[_ Hnil]|(_ & Hs & Hch)].
  { destruct l1; [|done]. by destruct js. }
  apply chain_app in Hch as (x & Hc1 & (x' & Hcj & Hc2)%chain_app).
  assert (x = a ∧ x' = a + tot) as [-> ->].
  { by eapply chain_start. }
  assert (Hmin : 48 ≤ tot).
  { destruct js as [|b js]; [done|]. destruct Hj as (_ & Hm & Hj). apply chain_le in Hj. lia. }
  pose proof (chain_le _ _ _ Hc1). pose proof (chain_le _ _ _ Hc2).
  pose proof (co_brk _ _ _ _ Hc) as [B1 B2 B3 B4 B5 B6]. unfold ADDR_MAX in B4.
  split; [lia|]. split; [lia|]. split; [lia|]. split; [lia|]. split; [lia|].
  intros y [(b & [Hb|Hb]%elem_of_app & ->)%elem_of_nodes|Hy]%elem_of_app; unfold apart, bnode; cbn.
  - destruct (chain_in _ _ _ _ Hc1 Hb). lia.
  - destruct (chain_in _ _ _ _ Hc2 Hb). lia.
  - destruct (co_mm _ _ _ _ Hc y Hy) as [Hok _ Hbig (r & Hr & Hlo & Hhi & _)]. pose proof (map_len_ge y.2 (r_huge r)). destruct (B5 r Hr); lia.
Qed.

(** Rewriting the metadata inside a run of allocated blocks leaves all other
    blocks and the free list alone. *)
Lemma core_inside s l1 js l2 fl mm a tot (F : Z → Prop) m' :
  core s (l1 ++ js ++ l2) fl mm → js ≠ [] → chain a js (a + tot) →
  Forall (λ b, bfree b = false) js →
  (∀ x, F x → a ≤ x < a + tot) → same_but F (memory s) m' →
  (∀ b', b' ∈ l1 ++ l2 → good_blk (kern (brk s)) m' (global_rand_cookie s) b') ∧
  (∀ y, y ∈ mm → good_map (kern (brk s)) m' (global_rand_cookie s) y) ∧
  fl_ok (kern (brk s)) m' (global_rand_cookie s) fl ∧ fl ≡ₚ free_nodes (l1 ++ l2) ∧
  Forall (apart (a, tot)) fl.
Proof.
  intros Hc Hne Hj Hnf HF Hs.
  destruct (core_outside _ _ _ _ _ _ _ _ Hc Hne Hj) as (_ & _ & _ & _ & _ & Hout).
  assert (Hperm : fl ≡ₚ free_nodes (l1 ++ l2)).
  { rewrite (co_perm _ _ _ _ Hc), !free_nodes_app. enough (free_nodes js = []) as -> by done.
    clear -Hnf. induction Hnf as [|b js Hb _ IH]; [done|]. by rewrite free_nodes_cons, Hb, IH. }
  assert (Hfa : Forall (apart (a, tot)) fl).
  { apply Forall_forall. intros y Hy. apply Hout. rewrite Hperm in Hy.
    apply elem_of_free_nodes in Hy as (b & Hb & _ & ->). apply elem_of_app. left. apply elem_of_nodes. by exists b. }
  assert (Hmin := λ w, core_node_min _ _ _ _ w Hc).
  assert (Hfr : ∀ y, y ∈ nodes (l1 ++ l2) ++ mm → ∀ x, blk_bytes y x → rd m' x = rd (memory s) x).
  { intros y Hy x Hx. apply Hs. intros Hf. apply HF in Hf. specialize (Hout y Hy). unfold apart, blk_bytes in *.
    assert (48 ≤ y.2); [|cbn in *; lia]. apply Hmin. rewrite !nodes_app in *. set_solver. }
  split; [|split; [|split; [|done]]].
  - intros b' Hb'. eapply good_blk_frame; [apply Hc; set_solver|]. apply Hfr. apply elem_of_app. left.
    apply elem_of_nodes. by exists b'.
  - intros y Hy. eapply good_map_frame; [by apply Hc|]. apply Hfr. apply elem_of_app. by right.
  - eapply fl_ok_keep; [apply Hc|exact Hs|]. intros x Hx. apply HF in Hx.
    by apply (apart_in_nodes (a, tot)).
Qed.

Lemma chain_unit (u a tot : Z) js :
  chain a js (a + tot) → (∀ b, b ∈ js → (u | bsz b)) → (u | tot).
Proof.
  revert a tot. induction js as [|b js IH]; intros a tot Hc Hu; cbn in Hc.
  - replace tot with 0 by lia. apply Z.divide_0_r.
  - destruct Hc as (_ & _ & Hc). replace tot with (bsz b + (tot - bsz b)) by lia.
    apply Z.divide_add_r; [apply Hu; left|]. eapply (IH (a + bsz b)).
    + by replace (a + bsz b + (tot - bsz b)) with (a + tot) by lia.
    + intros b' Hb'. apply Hu. by right.
Qed.

(** [_init_sbrk_alloc_block] over a run of allocated blocks makes them one; their
    bytes may have been overwritten since the invariant held with [m0]. *)
Lemma core_join l1 js l2 a tot fl mm m0 s (Q : Z → heap → Prop) :
  core (set_memory m0 s) (l1 ++ js ++ l2) fl mm → same_but (λ x, a ≤ x < a + tot) m0 (memory s) → js ≠ [] → Forall (λ b, bfree b = false) js → chain a js (a + tot) →
  (∀ pos m', let s' := set_memory m' (set_cookie pos (global_rand_cookie s) s) in
     core s' (l1 ++ Blk a tot false :: l2) fl mm →
     same_but (meta_bytes a tot) (memory s) m' → Q a s') →
  wp (_init_sbrk_alloc_block a tot false) Q s.
Proof.
  intros Hc Hm0 Hne Hnf Hj HQ.
  destruct (core_outside _ _ _ _ _ _ _ _ Hc Hne Hj) as (P1 & P2 & P3 & P4 & P5 & Hout).
  assert (Hck : global_rand_cookie s ≠ 0).
  { apply (co_cookie' _ _ _ _ Hc). left. destruct l1; [by destruct js|done]. }
  eapply init_alloc_spec; [by eapply (core_accessible _ _ _ _ _ _ Hc)|done|done|done|apply Hc|].
  intros pos c m' Hc1 _ Hb H8 Hs. rewrite (Hc1 Hck) in *. clear Hc1 c. cbv zeta in HQ. apply HQ; [|done].
  destruct (core_inside _ _ _ _ _ _ _ _ (λ x, a ≤ x < a + tot) m' Hc Hne Hj Hnf) as (Hblk & Hmm & Hfl & Hperm & _);
    [done|eapply same_but_trans; [exact Hm0|]; eapply same_but_weaken; [|exact Hs]; unfold meta_bytes; lia|].
  assert (Hu : (brk_unit | tot)).
  { eapply chain_unit; [exact Hj|]. intros b Hb'. apply (gb_unit _ _ _ _ (co_blk _ _ _ _ Hc b ltac:(set_solver))). }
  destruct Hc as [H1 H2 H3 H4 H5 H6 H7 H9 H10 H11 H12 H13]. split; hcbn; try done.
  - destruct H4 as [[_ Hnil]|(? & ? & Hch)]; [destruct l1; [by destruct js|done]|right].
    split; [done|]. split; [done|]. apply chain_app in Hch as (x & Hc1 & (x' & Hcj & Hc2)%chain_app).
    apply chain_app. exists x. split; [done|].
    destruct (chain_start _ _ _ _ _ Hne Hcj Hj) as [-> ->]. by cbn.
  - intros b' [Hb1|[->|Hb2]%elem_of_cons]%elem_of_app; [apply Hblk; set_solver| |apply Hblk; set_solver].
    split; done.
  - rewrite free_nodes_mid. done.
Qed.

(** Splitting an allocated block: the first [n] bytes stay allocated, the rest
    becomes a free block. *)
Lemma core_split l1 b l2 n fl mm s (Q : unit → heap → Prop) :
  core s (l1 ++ b :: l2) fl mm → bfree b = false → 48 ≤ n → 48 ≤ bsz b - n → (brk_unit | n) →
  (∀ pos m', let rest := (ba b + n, bsz b - n) in
     let s' := set_sbrk_free_head (head_or (fl_insert rest fl) NULL)
                 (set_memory m' (set_cookie pos (global_rand_cookie s) s)) in
     core s' (l1 ++ Blk (ba b) n false :: Blk (ba b + n) (bsz b - n) true :: l2) (fl_insert rest fl) mm →
     same_but (λ x, meta_bytes (ba b) n x ∨ meta_bytes (ba b + n) (bsz b - n) x ∨ link_bytes fl x)
       (memory s) m' →
     Q tt s') →
  wp (_init_sbrk_alloc_block (ba b) n false ;;; _init_sbrk_free_block (ba b + n) (bsz b - n)) Q s.
Proof.
  intros Hc Hnf Hn1 Hn2 Hu HQ.
  assert (Hne : [b] ≠ []) by done.
  assert (Hj : chain (ba b) [b] (ba b + bsz b)) by (cbn; split; [done|split; [lia|done]]).
  assert (Hnf' : Forall (λ b, bfree b = false) [b]) by (repeat constructor; done).
  destruct (core_outside _ l1 [b] l2 _ _ _ _ Hc Hne Hj) as (P1 & P2 & P3 & P4 & P5 & Hout).
  assert (Hck : global_rand_cookie s ≠ 0).
  { apply (co_cookie' _ _ _ _ Hc). left. by destruct l1. }
  wp_step. eapply init_alloc_spec; [eapply core_accessible; [done|lia|lia]|lia|lia|lia|apply Hc|].
  intros pos c m1 Hc1 _ Hb1 H81 Hs1. rewrite (Hc1 Hck) in *. clear Hc1 c.
  destruct (core_inside _ l1 [b] l2 _ _ _ _ (meta_bytes (ba b) n) m1 Hc Hne Hj Hnf') as (Hblk1 & Hmm1 & Hfl1 & Hperm & Hfa);
    [unfold meta_bytes; lia|done|].
  assert (Hfa2 : Forall (apart (ba b + n, bsz b - n)) fl).
  { eapply Forall_impl; [exact Hfa|]. intros y. unfold apart. cbn. lia. }
  eapply (init_free_spec _ _ fl); hcbn; [eapply core_accessible; [done|lia|lia]|lia|lia|lia| |done|done|apply Hc| |].
  { pose proof (co_cookie _ _ _ _ Hc). lia. }
  { change (list_fuel _) with (list_fuel s). by eapply core_fuel. }
  intros pos2 m2 Hfl2 H82 Hs2. hcbn. cbv zeta in HQ.
  assert (Hs12 : same_but (λ x, meta_bytes (ba b) n x ∨ meta_bytes (ba b + n) (bsz b - n) x ∨ link_bytes fl x)
            (memory s) m2).
  { eapply same_but_trans; [eapply same_but_weaken; [|exact Hs1]|eapply same_but_weaken; [|exact Hs2]]; tauto. }
  assert (Hlink : ∀ x, ba b ≤ x < ba b + bsz b → ¬ link_bytes fl x).
  { intros x Hx. eapply link_outside; [apply Hfl1|exact Hfa|done]. }
  (* the other blocks *)
  assert (Hother : ∀ y x, y ∈ nodes (l1 ++ l2) ++ mm → 48 ≤ y.2 → blk_bytes y x → rd m2 x = rd m1 x).
  { intros y x Hy Hymin Hx. apply Hs2. specialize (Hout y Hy). unfold apart, blk_bytes, meta_bytes in *. cbn in Hout.
    intros [?|Hl]; [lia|]. eapply (core_links_apart _ _ _ _ y x Hc); [rewrite nodes_app in *; set_solver|done|done]. }
  apply HQ; [|done]. pose proof (co_blk _ _ _ _ Hc b ltac:(set_solver)) as Hgb.
  pose proof (fo_blk _ _ _ _ Hfl2 (ba b + n, bsz b - n) ltac:(apply elem_of_fl_insert; by left)) as Hb2. cbn in Hb2.
  destruct Hc as [H1 H2 H3 H4 H5 H6 H7 H9 H10 H11 H12 H13]. split; hcbn; try done.
  - destruct H4 as [[_ Hnil]|(? & ? & Hch)]; [by destruct l1|right].
    split; [done|]. split; [done|]. by apply chain_split.
  - intros b' Hb'. assert (b' ∈ l1 ++ l2 ∨ b' = Blk (ba b) n false ∨ b' = Blk (ba b + n) (bsz b - n) true) as [Hl|[->| ->]]
      by (clear -Hb'; set_solver).
    + eapply good_blk_frame; [by apply Hblk1|]. intros x Hx. apply (Hother (bnode b')); [| |done].
      * apply elem_of_app. left. apply elem_of_nodes. by exists b'.
      * apply (bk_min _ _ _ _ _ (gb_ok _ _ _ _ (Hblk1 b' Hl))).
    + split; cbn; [|rewrite <- H81|done].
      * eapply blk_ok_frame; [exact Hb1|]. intros x Hx. apply Hs2. unfold core_bytes, meta_bytes in *.
        intros [?|Hl]; [lia|]. eapply Hlink; [|exact Hl]. lia.
      * eapply same_but_load; [exact Hs2|]. intros x Hx. unfold meta_bytes.
        intros [?|Hl]; [lia|]. eapply Hlink; [|exact Hl]. lia.
    + split; cbn; [done|done|]. apply Z.divide_sub_r; [apply Hgb|done].
  - rewrite fl_insert_perm, Hperm, !free_nodes_mid. done.
  - intros y Hy. eapply good_map_frame; [by apply Hmm1|]. intros x Hx. apply (Hother y); [apply elem_of_app; by right| |done].
    apply (bk_min _ _ _ _ _ (gm_ok _ _ _ _ (Hmm1 y Hy))).
Qed.

(** ** Growing the data segment *)

(** Everything accessible before stays accessible when the kernel grants more. *)
Record kern_le (k k' : kernel) : Prop := {
  kl_start : k_start k' = k_start k;
  kl_brk : k_brk k ≤ k_brk k';
  kl_maps : ∀ r, r ∈ k_maps k → r ∈ k_maps k';
  kl_holes : k_holes k = []; kl_holes' : k_holes k' = []
}.

Lemma accessible_le k k' a sz : kern_le k k' → accessible k a sz → accessible k' a sz.
Proof.
  intros [H1 H2 H3 H4 H5] Ha x n Hx Hn. specialize (Ha x n Hx Hn). unfold mapped in *.
  rewrite H4 in Ha. rewrite H5. cbn [forallb] in *. rewrite !andb_true_r in *. rewrite H1.
  apply orb_true_iff in Ha as [Ha|Ha]; apply orb_true_iff; [left|right].
  - apply andb_true_iff in Ha as [Ha1 Ha2]. rewrite Ha1. apply Z.leb_le in Ha2. apply Z.leb_le. lia.
  - apply existsb_exists in Ha as (r & Hr & Hb). apply existsb_exists. exists r. split; [|done].
    apply list_elem_of_In, H3, list_elem_of_In, Hr.
Qed.

Lemma blk_ok_le k k' m c a sz : kern_le k k' → blk_ok k m c a sz → blk_ok k' m c a sz.
Proof. intros Hk []. split; try done. by eapply accessible_le. Qed.
Lemma good_blk_le k k' m c b : kern_le k k' → good_blk k m c b → good_blk k' m c b.
Proof. intros Hk []. split; try done. by eapply blk_ok_le. Qed.
Lemma good_map_le k k' m c y : kern_le k k' → good_map k m c y → good_map k' m c y.
Proof.
  intros Hk [H1 H2 H3 (r & ? & ? & ?)]. split; try done; [by eapply blk_ok_le|]. exists r. split; [by apply Hk|done].
Qed.
Lemma fl_ok_le k k' m c l : kern_le k k' → fl_ok k m c l → fl_ok k' m c l.
Proof. intros Hk []. split; try done. intros y Hy. eapply blk_ok_le; eauto. Qed.

Lemma sbrk_grows_le d b b' : k_holes (kern b) = [] → sbrk_grows d b b' → kern_le (kern b) (kern b').
Proof. intros Hh [H1 H2 H3 H4 H5 H6]. split; try done; [by rewrite H5|by rewrite H6]. Qed.

Lemma cur_break_grows d b b' : sbrk_grows d b b' → cur_break b' = cur_break b + d.
Proof. intros [_ H _ _ _ _]. unfold cur_break at 1. by rewrite H. Qed.

(** A move of the break that leaves the allocator's break alone. *)
Lemma core_set_brk s bs fl mm b' :
  core s bs fl mm → sbrk_grows 0 (brk s) b' → core (set_brk b' s) bs fl mm.
Proof.
  intros [H1 H2 H3 H4 H5 H6 H7 H9 H10 H11 H12 H13] Hg.
  pose proof (sbrk_grows_le _ _ _ H3 Hg) as Hk. pose proof (cur_break_grows _ _ _ Hg) as Hcb.
  rewrite Z.add_0_r in Hcb. split; hcbn; try done.
  - apply Hg.
  - by rewrite Hcb.
  - by rewrite (sg_holes _ _ _ Hg).
  - by rewrite Hcb, (sg_start _ _ _ Hg).
  - intros b Hb. eapply good_blk_le; eauto.
  - by eapply fl_ok_le.
  - intros y Hy. eapply good_map_le; eauto.
Qed.

Lemma settle_grows b : brk_ok b → sbrk_grows 0 b (BrkState (kern b) (Some (cur_break b))).
Proof. intros [H1 H2 H3 H4 H5]. brk_solve. Qed.

Lemma i64_0 : i64 0 = 0.
Proof. done. Qed.

(** [_sbrk(0)] returns the break. *)
Lemma sbrk_0_spec s bs fl mm (Q : Z → heap → Prop) :
  core s bs fl mm →
  (∀ b', brk_ok b' → kern b' = kern (brk s) → cur_break b' = cur_break (brk s) →
     core (set_brk b' s) bs fl mm → Q (cur_break (brk s)) (set_brk b' s)) →
  wp (_sbrk 0) Q s.
Proof.
  intros Hc HQ. unfold wp, _sbrk. rewrite i64_0, move_0 by apply Hc.
  pose proof (settle_grows _ (co_brk _ _ _ _ Hc)). apply HQ; [by eapply sg_ok|done|done|by apply core_set_brk].
Qed.

Lemma sbrk_pos_spec d s bs fl mm (Q : Z → heap → Prop) :
  core s bs fl mm → 0 < d < 2 ^ 32 → (brk_unit | d) →
  (∀ b', sbrk_grows 0 (brk s) b' → ¬ grants (brk s) d → core (set_brk b' s) bs fl mm → Q FAILED (set_brk b' s)) →
  (∀ b', sbrk_grows d (brk s) b' → kern_le (kern (brk s)) (kern b') → Q (cur_break (brk s)) (set_brk b' s)) →
  wp (_sbrk d) Q s.
Proof.
  intros Hc Hd Hu HQ1 HQ2. unfold wp, _sbrk. rewrite i64_small by lia.
  destruct (move_pos (brk s) d) as [(b' & -> & Hg & Hng)|(b' & -> & Hg)]; [apply Hc|apply Hc|done|done| |].
  - apply HQ1; [done|done|]. by apply core_set_brk.
  - apply HQ2; [done|]. by eapply sbrk_grows_le, Hg; apply Hc.
Qed.

(** A block past the end of the chain: everything else is below or outside. *)
Lemma core_beyond s bs fl mm b' d :
  core s bs fl mm → sbrk_grows d (brk s) b' →
  ∀ y, y ∈ nodes bs ++ mm → y.1 + y.2 ≤ cur_break (brk s) ∨ cur_break (brk s) + d ≤ y.1 ∨ y.1 + y.2 ≤ k_start (kern (brk s)).
Proof.
  intros Hc Hg y [(b & Hb & ->)%elem_of_nodes|Hy]%elem_of_app.
  - destruct (co_chain _ _ _ _ Hc) as [[_ ->]|(_ & _ & Hch)]; [by apply not_elem_of_nil in Hb|].
    destruct (chain_in _ _ _ _ Hch Hb). left. unfold bnode. cbn. lia.
  - destruct (co_mm _ _ _ _ Hc y Hy) as [_ _ _ (r & Hr & Hlo & Hhi & _)]. pose proof (map_len_ge y.2 (r_huge r)).
    rewrite <- (sg_maps _ _ _ Hg) in Hr. pose proof (bo_maps _ (sg_ok _ _ _ Hg) r Hr) as Hd.
    rewrite (sg_start _ _ _ Hg) in Hd. pose proof (bo_hi _ (sg_ok _ _ _ Hg)) as Hhi'.
    rewrite (cur_break_grows _ _ _ Hg) in Hhi'. lia.
Qed.

(** Writing past the old break changes no block. *)
Lemma core_write_beyond s bs fl mm b' d m' (F : Z → Prop) :
  core s bs fl mm → sbrk_grows d (brk s) b' → kern_le (kern (brk s)) (kern b') → 0 ≤ d →
  (∀ x, F x → cur_break (brk s) ≤ x < cur_break (brk s) + d) → same_but F (memory s) m' →
  (∀ b, b ∈ bs → good_blk (kern b') m' (global_rand_cookie s) b) ∧
  (∀ y, y ∈ mm → good_map (kern b') m' (global_rand_cookie s) y) ∧
  fl_ok (kern b') m' (global_rand_cookie s) fl.
Proof.
  intros Hc Hg Hk Hd HF Hs. assert (Hmin := λ w, core_node_min _ _ _ _ w Hc).
  pose proof (bo_lo _ (co_brk _ _ _ _ Hc)) as Hlo.
  assert (Hfr : ∀ y, y ∈ nodes bs ++ mm → ∀ x, y.1 ≤ x < y.1 + y.2 → ¬ F x).
  { intros y Hy x Hx Hf%HF. destruct (core_beyond _ _ _ _ _ _ Hc Hg y Hy) as [?|[?|?]]; lia. }
  assert (Hbb : ∀ y, y ∈ nodes bs ++ mm → ∀ x, blk_bytes y x → rd m' x = rd (memory s) x).
  { intros y Hy x Hx. apply Hs, (Hfr y Hy). specialize (Hmin y Hy). unfold blk_bytes in Hx. lia. }
  split; [|split].
  - intros b Hb. eapply good_blk_le; [done|]. eapply good_blk_frame; [by apply Hc|].
    apply Hbb, elem_of_app. left. apply elem_of_nodes. by exists b.
  - intros y Hy. eapply good_map_le; [done|]. eapply good_map_frame; [by apply Hc|]. apply Hbb, elem_of_app. by right.
  - eapply fl_ok_le; [done|]. eapply fl_ok_keep; [apply Hc|exact Hs|].
    intros x Hx (y & Hy & Hyx). by apply (Hfr y (core_free_in _ _ _ _ _ Hc Hy) x Hyx).
Qed.

(** [_init_sbrk_alloc_block(pb, n, true)]: a new block at the break. *)
Lemma core_append n s bs fl mm (Q : Z → heap → Prop) :
  core s bs fl mm → sbrk_head s ≠ NULL → 48 ≤ n < 2 ^ 32 → (brk_unit | n) →
  (∀ b', sbrk_grows 0 (brk s) b' → ¬ grants (brk s) n → core (set_brk b' s) bs fl mm → Q NULL (set_brk b' s)) →
  (∀ b' pos c m', let s' := set_memory m' (set_cookie pos c (set_brk b' s)) in
     sbrk_grows n (brk s) b' →
     core s' (bs ++ [Blk (cur_break (brk s)) n false]) fl mm →
     same_but (meta_bytes (cur_break (brk s)) n) (memory s) m' →
     Q (cur_break (brk s)) s') →
  wp (_init_sbrk_alloc_block (cur_break (brk s)) n true) Q s.
Proof.
  intros Hc Hh Hn Hu HQ1 HQ2. unfold _init_sbrk_alloc_block. wp_step.
  eapply sbrk_pos_spec; [exact Hc|lia|done| |].
  { intros b' Hg Hng Hc'. cbn. wp_steps. by apply HQ1. }
  intros b' Hg Hk. pose proof (co_brk _ _ _ _ Hc) as [B1 B2 B3 B4 _ _]. unfold ADDR_MAX in B4.
  destruct (Z.eqb_spec (cur_break (brk s)) FAILED) as [E|_]; [unfold FAILED in E; lia|]. cbn [andb].
  pose proof (cur_break_grows _ _ _ Hg) as Hcb. pose proof (sg_ok _ _ _ Hg) as Hok.
  pose proof (bo_hi _ Hok). pose proof (bo_max _ Hok). unfold ADDR_MAX in *.
  set (pb := cur_break (brk s)) in *.
  enough (wp (_init_sbrk_alloc_block pb n false) Q (set_brk b' s)) as Hwp by exact Hwp.
  eapply init_alloc_spec; hcbn; [|lia|lia|lia|apply Hc|].
  { intros x l Hx Hl. apply mapped_brk; [apply Hk|rewrite (sg_start _ _ _ Hg); lia|lia]. }
  intros pos c m' Hc1 Hc2 Hb H8 Hs. hcbn. cbv zeta in HQ2. apply HQ2; [done| |done].
  assert (Hbs : (bs ≠ [] ∨ mm ≠ []) → c = global_rand_cookie s) by (intros; by apply Hc1, Hc).
  destruct (core_write_beyond _ _ _ _ _ _ m' (meta_bytes pb n) Hc Hg Hk) as (Hblk & Hmm & Hfl);
    [lia|unfold meta_bytes; lia|done|].
  assert (Hbs' : bs ≠ [] → c = global_rand_cookie s) by auto.
  assert (Hmm' : mm ≠ [] → c = global_rand_cookie s) by auto.
  destruct Hc as [H1 H2 H3 H4 H5 H6 H7 H9 H10 H11 H12 H13]. split; hcbn; try done.
  - rewrite Hcb. by apply Z.divide_add_r.
  - by rewrite (sg_holes _ _ _ Hg).
  - right. split; [done|]. destruct H4 as [[? _]|(_ & ? & ?)]; [done|]. rewrite (sg_start _ _ _ Hg). split; [done|].
    apply chain_app. exists pb. split; [done|]. cbn. split; [done|split; [lia|done]].
  - lia.
  - intros _. lia.
  - intros b [Hb'| ->%list_elem_of_singleton]%elem_of_app; [|by split].
    rewrite Hbs' by (by destruct bs; [apply not_elem_of_nil in Hb'|]). by apply Hblk.
  - destruct fl as [|y fl]; [by split; [intros ? ?%not_elem_of_nil|..]|]. rewrite Hbs'; [done|].
    intros ->. by apply Permutation_nil_r in H10.
  - rewrite free_nodes_app, free_nodes_cons. cbn. by rewrite app_nil_r.
  - intros y Hy. rewrite Hmm' by (by destruct mm; [apply not_elem_of_nil in Hy|]). by apply Hmm.
Qed.

(** The free list after the size of the node at [a], if there is one, became [n]. *)
Definition resize (a n : Z) (l : list node) : list node :=
  map (λ y, if y.1 =? a then (a, n) else y) l.

Lemma resize_head a n l d : head_or (resize a n l) d = head_or l d.
Proof. destruct l as [|[x xs] l]; [done|]. cbn. by destruct (Z.eqb_spec x a) as [->|]. Qed.

Lemma dll_to_resize m a n l d : dll_to m l d → dll_to m (resize a n l) d.
Proof.
  induction l as [|[x xs] l IH]; [done|]. cbn [dll_to]. intros (H1 & H2 & H3).
  cbn [resize map]. fold (resize a n l).
  assert (Hhd : dll_to m ((x, xs) :: resize a n l) d).
  { cbn [dll_to]. rewrite resize_head. split; [done|]. split; [|auto].
    destruct l as [|[y ys] l]; [done|]. cbn. by destruct (Z.eqb_spec y a) as [->|]. }
  cbn. by destruct (Z.eqb_spec x a) as [->|].
Qed.

Lemma elem_of_resize a n y l :
  y ∈ resize a n l → y ∈ l ∧ y.1 ≠ a ∨ y = (a, n) ∧ ∃ xs, (a, xs) ∈ l.
Proof.
  unfold resize. rewrite list_elem_of_In, in_map_iff. intros ([x xs] & <- & Hx%list_elem_of_In). cbn.
  destruct (Z.eqb_spec x a) as [->|]; [right; eauto|by left].
Qed.

Lemma resize_id a n l : (∀ y, y ∈ l → y.1 ≠ a) → resize a n l = l.
Proof.
  induction l as [|y l IH]; intros Hl; [done|]. cbn. fold (resize a n l).
  destruct (Z.eqb_spec y.1 a) as [E|_]; [by destruct (Hl y ltac:(left))|].
  rewrite IH; [done|]. intros z Hz. apply Hl. by right.
Qed.

Lemma resize_nodes_last a l1 f n :
  chain a (l1 ++ [Blk (ba f) (bsz f) (bfree f)]) (ba f + bsz f) →
  resize (ba f) n (free_nodes (l1 ++ [f])) = free_nodes (l1 ++ [Blk (ba f) n (bfree f)]).
Proof.
  intros Hch. rewrite !free_nodes_app, !free_nodes_cons. cbn [free_nodes nodes List.filter map].
  unfold resize. rewrite map_app. fold (resize (ba f) n (free_nodes l1)). rewrite resize_id.
  - rewrite !app_nil_r. cbn [bfree]. destruct (bfree f); [|done]. cbn. by rewrite Z.eqb_refl.
  - intros y (b & Hb & _ & ->)%elem_of_free_nodes. apply chain_app in Hch as (x & Hc1 & Hc2 & _).
    cbn in Hc2. subst x. destruct (chain_in _ _ _ _ Hc1 Hb). unfold bnode. cbn. lia.
Qed.

Lemma core_last s l1 b fl mm :
  core s (l1 ++ [b]) fl mm →
  cur_break (brk s) = ba b + bsz b ∧ 48 ≤ bsz b ∧ k_start (kern (brk s)) ≤ ba b ∧
  chain (sbrk_head s) l1 (ba b) ∧ sbrk_head s ≠ NULL.
Proof.
  intros Hc. destruct (co_chain _ _ _ _ Hc) as [[_ Hnil]|(? & ? & Hch)]; [by destruct l1|].
  apply chain_mid in Hch as (H1 & H2 & H3). cbn in H3. pose proof (chain_le _ _ _ H1).
  split; [lia|]. split; [done|]. split; [lia|done].
Qed.

(** The nodes other than the last block stay away from its grown range. *)
Lemma core_widen_outside s l1 b fl mm b' d :
  core s (l1 ++ [b]) fl mm → sbrk_grows d (brk s) b' →
  ∀ y, y ∈ nodes l1 ++ mm → y.1 + y.2 ≤ ba b ∨ ba b + bsz b + d ≤ y.1.
Proof.
  intros Hc Hg y Hy. destruct (core_last _ _ _ _ _ Hc) as (Hcb & Hmin & Hst & Hch & _).
  apply elem_of_app in Hy as [(b1 & Hb1 & ->)%elem_of_nodes|Hy].
  - destruct (chain_in _ _ _ _ Hch Hb1). unfold bnode. cbn. lia.
  - pose proof (gm_region _ _ _ _ (co_mm _ _ _ _ Hc y Hy)) as (r & Hr & Hlo & Hhi & _). pose proof (map_len_ge y.2 (r_huge r)).
    pose proof (gm_big _ _ _ _ (co_mm _ _ _ _ Hc y Hy)).
    destruct (core_beyond _ _ _ _ _ _ Hc Hg y) as [?|[?|?]]; [apply elem_of_app; by right| |lia|lia].
    destruct (bo_maps _ (co_brk _ _ _ _ Hc) r Hr); [lia|]. pose proof (bo_hi _ (co_brk _ _ _ _ Hc)). unfold SBRK_LIMIT, _size_meta_data, SIZEOF_HEAD, SIZEOF_TAIL in *. lia.
Qed.

Definition widen_bytes (a n x : Z) : Prop := a ≤ x < a + 8 ∨ a + n - 16 ≤ x < a + n.

(** A free block is the last block or one of those before it. *)
Lemma core_free_last s l1 b fl mm y : core s (l1 ++ [b]) fl mm → y ∈ fl → y ∈ nodes l1 ∨ y = bnode b.
Proof.
  intros Hc Hy. rewrite (co_perm _ _ _ _ Hc) in Hy. apply elem_of_free_nodes in Hy as (b1 & Hb1 & _ & ->).
  apply elem_of_app in Hb1 as [?| ->%list_elem_of_singleton]; [left|by right]. apply elem_of_nodes. by exists b1.
Qed.

(** The free list when the last block, which may be one of its nodes, was widened. *)
Lemma widened_free_list s l1 b n fl mm k m' :
  core s (l1 ++ [b]) fl mm → bsz b < n → kern_le (kern (brk s)) k →
  same_but (widen_bytes (ba b) n) (memory s) m' → blk_ok k m' (global_rand_cookie s) (ba b) n →
  (∀ y, y ∈ nodes l1 ++ mm → ∀ x, y.1 ≤ x < y.1 + y.2 → rd m' x = rd (memory s) x) →
  all_apart (resize (ba b) n fl) → fl_ok k m' (global_rand_cookie s) (resize (ba b) n fl).
Proof.
  intros Hc Hn Hk Hs Hb Hfr Hap. pose proof (co_fl _ _ _ _ Hc) as Hfl. assert (Hfl1 := λ y, core_free_last _ _ _ _ _ y Hc).
  assert (Hmin : ∀ y, y ∈ fl → 48 ≤ y.2) by (intros y Hy; apply (bk_min _ _ _ _ _ (fo_blk _ _ _ _ Hfl y Hy))).
  assert (Hlk : ∀ y x, y ∈ fl → y.1 + 16 ≤ x < y.1 + 32 → rd m' x = rd (memory s) x).
  { intros y x Hy Hx. specialize (Hmin y Hy). destruct (Hfl1 y Hy) as [Hy'| ->].
    - apply (Hfr y); [apply elem_of_app; by left|lia].
    - apply Hs. unfold widen_bytes. cbn in *. lia. }
  split; [|done|].
  - intros y [[Hy Hne]|[-> _]]%elem_of_resize; [|done]. eapply blk_ok_le; [done|].
    eapply blk_ok_frame; [by apply Hfl|]. intros x Hx. destruct (Hfl1 y Hy) as [Hy'| ->]; [|by cbn in Hne].
    apply (Hfr y); [by apply elem_of_app; left|]. specialize (Hmin y Hy). unfold core_bytes in *. lia.
  - unfold dll. apply dll_to_resize. apply (dll_to_frame (memory s)); [apply Hfl| |]; intros y x Hy Hx;
      (apply (Hlk y x); [|lia]); [done|by apply elem_of_tail].
Qed.

(** The invariant after the last block was widened in place. *)
Lemma core_widened s l1 b n fl mm b' pos m' :
  core s (l1 ++ [b]) fl mm → bsz b < n → (brk_unit | n) →
  sbrk_grows (n - bsz b) (brk s) b' → kern_le (kern (brk s)) (kern b') →
  same_but (widen_bytes (ba b) n) (memory s) m' →
  blk_ok (kern b') m' (global_rand_cookie s) (ba b) n →
  core (set_memory m' (set_cookie pos (global_rand_cookie s) (set_brk b' s)))
    (l1 ++ [Blk (ba b) n (bfree b)]) (resize (ba b) n fl) mm.
Proof.
  intros Hc Hn Hu Hg Hk Hs Hb. destruct (core_last _ _ _ _ _ Hc) as (Hcb & Hmin & Hst & Hch & Hhd).
  pose proof (core_widen_outside _ _ _ _ _ _ _ Hc Hg) as Hout.
  replace (ba b + bsz b + (n - bsz b)) with (ba b + n) in Hout by lia.
  pose proof (core_all_apart _ _ _ _ Hc) as Hap. assert (Hnm := λ w, core_node_min _ _ _ _ w Hc).
  assert (Hfr : ∀ y, y ∈ nodes l1 ++ mm → ∀ x, y.1 ≤ x < y.1 + y.2 → rd m' x = rd (memory s) x).
  { intros y Hy x Hx. apply Hs. specialize (Hout y Hy). unfold widen_bytes. lia. }
  assert (Hbb : ∀ y, y ∈ nodes l1 ++ mm → ∀ x, blk_bytes y x → rd m' x = rd (memory s) x).
  { intros y Hy x Hx. apply (Hfr y Hy). assert (48 ≤ y.2) by (apply Hnm; rewrite nodes_app; set_solver).
    unfold blk_bytes in Hx. lia. }
  pose proof (co_blk _ _ _ _ Hc b ltac:(set_solver)) as Hgb.
  assert (Hch' : chain (sbrk_head s) (l1 ++ [Blk (ba b) n (bfree b)]) (ba b + n)).
  { apply chain_app. exists (ba b). split; [done|]. cbn. split; [done|]. split; lia. }
  assert (Hperm : resize (ba b) n fl ≡ₚ free_nodes (l1 ++ [Blk (ba b) n (bfree b)])).
  { unfold resize. rewrite (co_perm _ _ _ _ Hc). fold (resize (ba b) n (free_nodes (l1 ++ [b]))).
    rewrite (resize_nodes_last (sbrk_head s)); [done|]. apply chain_app. exists (ba b). by destruct b. }
  assert (Hfl' : fl_ok (kern b') m' (global_rand_cookie s) (resize (ba b) n fl)).
  { eapply widened_free_list; try done. eapply all_apart_perm; [symmetry; exact Hperm|]. eapply chain_free_apart; exact Hch'. }
  destruct Hc as [H1 H2 H3 H4 H5 H6 H7 H9 H10 H11 H12 H13]. split; hcbn; try done.
  - apply Hg.
  - rewrite (cur_break_grows _ _ _ Hg). apply Z.divide_add_r; [done|]. apply Z.divide_sub_r; [done|apply Hgb].
  - by rewrite (sg_holes _ _ _ Hg).
  - right. split; [done|]. rewrite (sg_start _ _ _ Hg). split; [by destruct H4 as [[? _]|(_ & ? & _)]|].
    rewrite (cur_break_grows _ _ _ Hg), Hcb. by replace (ba b + bsz b + (n - bsz b)) with (ba b + n) by lia.
  - intros [_|?]; apply H6; [left; by destruct l1|by right].
  - intros b1 [Hb1| ->%list_elem_of_singleton]%elem_of_app.
    + eapply good_blk_le; [done|]. eapply good_blk_frame; [apply H7; set_solver|]. apply Hbb.
      apply elem_of_app. left. apply elem_of_nodes. by exists b1.
    + split; cbn; [done| |done]. rewrite <- (gb_flag _ _ _ _ Hgb). eapply same_but_load; [exact Hs|].
      intros x Hx. unfold widen_bytes. lia.
  - by rewrite resize_head.
  - intros y Hy. eapply good_map_le; [done|]. eapply good_map_frame; [by apply H12|]. apply Hbb. apply elem_of_app. by right.
Qed.

(** [_wilderness_sbrk_block_increase] on the last block. *)
Lemma core_widen l1 b n fl mm s (Q : Z → heap → Prop) :
  core s (l1 ++ [b]) fl mm → bsz b < n < 2 ^ 32 → (brk_unit | n) →
  (∀ b', sbrk_grows 0 (brk s) b' → ¬ grants (brk s) (n - bsz b) → core (set_brk b' s) (l1 ++ [b]) fl mm →
     Q NULL (set_brk b' s)) →
  (∀ b' pos m', let s' := set_memory m' (set_cookie pos (global_rand_cookie s) (set_brk b' s)) in
     sbrk_grows (n - bsz b) (brk s) b' →
     core s' (l1 ++ [Blk (ba b) n (bfree b)]) (resize (ba b) n fl) mm →
     same_but (widen_bytes (ba b) n) (memory s) m' → Q (ba b) s') →
  wp (_wilderness_sbrk_block_increase (ba b) n) Q s.
Proof.
  intros Hc Hn Hu HQ1 HQ2. destruct (core_last _ _ _ _ _ Hc) as (Hcb & Hmin & Hst & Hch & Hhd).
  pose proof (co_blk _ _ _ _ Hc b ltac:(set_solver)) as Hgb. pose proof (gb_ok _ _ _ _ Hgb) as Hb. bk_facts Hb.
  unfold _wilderness_sbrk_block_increase. wp_steps.
  replace (load (memory s) (ba b) 8) with (bsz b). rewrite u64_small by lia.
  eapply sbrk_pos_spec; [exact Hc|lia|apply Z.divide_sub_r; [done|apply Hgb]| |].
  { intros b' Hg Hng Hc'. cbn [Z.eqb FAILED]. wp_steps. by apply HQ1. }
  intros b' Hg Hk. pose proof (co_brk _ _ _ _ Hc) as [B1 B2 B3 B4 _ _]. unfold ADDR_MAX in B4.
  destruct (Z.eqb_spec (cur_break (brk s)) FAILED) as [E|_]; [unfold FAILED in E; lia|].
  pose proof (cur_break_grows _ _ _ Hg) as Hcb'. pose proof (sg_ok _ _ _ Hg) as Hok.
  pose proof (bo_hi _ Hok). pose proof (bo_max _ Hok). unfold ADDR_MAX in *.
  assert (Hacc : accessible (kern b') (ba b) n).
  { intros x l Hx Hl. apply mapped_brk; [apply Hk|rewrite (sg_start _ _ _ Hg); lia|lia]. }
  hcbn. wp_steps. eapply set_tail_spec; hcbn; [done|lia|lia|lia|by ldst|apply Hc|].
  intros pos c Hc1 Hc2. rewrite Hc1 in * by (apply Hc; left; by destruct l1). wp_steps.
  cbv zeta in HQ2. hcbn. apply HQ2; [done|..].
  - pose proof (core_widened s l1 b n fl mm b' pos) as Hw. hcbn. apply Hw; [done|lia|done|done|done| |].
    + unfold widen_bytes. same_but_tac.
    + split; unfold _size_meta_data, SIZEOF_HEAD, SIZEOF_TAIL, ADDR_MAX; try done; try lia; by ldst.
  - unfold widen_bytes. same_but_tac.
Qed.

(** ** Large blocks *)

(** A new mapping does not disturb anything. *)
Lemma mmap_kern_le a len huge k :
  k_holes k = [] →
  kern_le k (Kernel (k_start k) (k_brk k) (Region a (a + map_len len huge) huge :: k_maps k) (k_holes k) (S (k_calls k))).
Proof. intros Hh. split; cbn; try done. intros r Hr. by right. Qed.

(** A refused request. *)
Lemma core_tick s bs fl mm :
  core s bs fl mm → core (set_brk (BrkState (tick (kern (brk s))) (program_break (brk s))) s) bs fl mm.
Proof.
  intros Hc. assert (Hk : kern_le (kern (brk s)) (tick (kern (brk s)))).
  { split; cbn; try done; apply (co_holes _ _ _ _ Hc). }
  destruct Hc as [H1 H2 H3 H4 H5 H6 H7 H9 H10 H11 H12 H13 H14]. split; hcbn; try done.
  - by destruct H1; split.
  - intros b Hb. eapply good_blk_le; eauto.
  - by eapply fl_ok_le.
  - intros y Hy. eapply good_map_le; eauto.
Qed.

(** Mapping a block and writing its metadata. *)
Lemma core_map_block n huge a fl mm bs s (Q : Z → heap → Prop) :
  core s bs fl mm → SBRK_LIMIT ≤ n → mmap_at (kern (brk s)) n huge = Some a →
  (∀ pos c m', let s' := set_memory m' (set_cookie pos c
       (set_brk (BrkState (mmap n huge (kern (brk s))).2 (program_break (brk s))) s)) in
     core s' bs fl ((a, n) :: mm) → Forall (apart (a, n)) (nodes bs ++ mm) →
     same_but (meta_bytes a n) (memory s) m' → Q a s') →
  wp (_init_sbrk_alloc_block a n false) Q
    (set_brk (BrkState (mmap n huge (kern (brk s))).2 (program_break (brk s))) s).
Proof.
  intros Hc Hn Hmm HQ. unfold mmap in *. rewrite Hmm in *. cbn [snd] in *.
  pose proof (mmap_at_range _ _ _ _ Hmm) as (Ha & Hmax & Hal & Hseg & Hregs). unfold ADDR_MAX in *.
  pose proof (map_len_ge n huge) as Hlen.
  set (k' := Kernel _ _ _ _ _) in *.
  pose proof (mmap_kern_le a n huge _ (co_holes _ _ _ _ Hc)) as Hk. fold k' in Hk.
  unfold SBRK_LIMIT, _size_meta_data, SIZEOF_HEAD, SIZEOF_TAIL in Hn.
  assert (Hacc : accessible k' a n).
  { intros x l Hx Hl. eapply mapped_region; [left|cbn; lia|cbn; lia]. }
  eapply init_alloc_spec; hcbn; [done|lia|lia|lia|apply Hc|].
  intros pos c m' Hc1 Hc2 Hb H8 Hs. hcbn. cbv zeta in HQ.
  assert (Hout : ∀ y, y ∈ nodes bs ++ mm → apart (a, n) y).
  { intros y [(b & Hb' & ->)%elem_of_nodes|Hy]%elem_of_app; unfold apart; cbn.
    - destruct (co_chain _ _ _ _ Hc) as [[_ ->]|(_ & ? & Hch)]; [by apply not_elem_of_nil in Hb'|].
      destruct (chain_in _ _ _ _ Hch Hb'). pose proof (bo_hi _ (co_brk _ _ _ _ Hc)). lia.
    - destruct (co_mm _ _ _ _ Hc y Hy) as [_ _ _ (r & Hr & Hlo & Hhi & _)]. pose proof (map_len_ge y.2 (r_huge r)). destruct (Hregs r Hr); lia. }
  apply HQ; [|by apply Forall_forall|done].
  assert (Hmin := λ w, core_node_min _ _ _ _ w Hc).
  assert (Hfr : ∀ y, y ∈ nodes bs ++ mm → ∀ x, y.1 ≤ x < y.1 + y.2 → ¬ meta_bytes a n x).
  { intros y Hy x Hx Hm. specialize (Hout y Hy). unfold apart, meta_bytes in *. cbn in Hout. lia. }
  assert (Hbb : ∀ y, y ∈ nodes bs ++ mm → ∀ x, blk_bytes y x → rd m' x = rd (memory s) x).
  { intros y Hy x Hx. apply Hs, (Hfr y Hy). specialize (Hmin y Hy). unfold blk_bytes in Hx. lia. }
  assert (Hck : bs ≠ [] ∨ mm ≠ [] → c = global_rand_cookie s) by (intros; by apply Hc1, Hc).
  assert (Hbs' : bs ≠ [] → c = global_rand_cookie s) by auto.
  assert (Hmm' : mm ≠ [] → c = global_rand_cookie s) by auto.
  pose proof (λ y, core_free_in _ _ _ _ y Hc) as Hfin.
  destruct Hc as [H1 H2 H3 H4 H5 H6 H7 H9 H10 H11 H12 H13]. split; hcbn; try done.
  - destruct H1 as [B1 B2 B3 B4 B5 B6]. split; try done; cbn.
    + intros r [->|Hr]%elem_of_cons; [cbn; lia|auto].
    + split; [|done]. apply Forall_forall. intros r Hr. unfold region_apart. cbn. destruct (Hregs r Hr); lia.
  - lia.
  - intros _. lia.
  - intros b Hb'. rewrite Hbs' by (by destruct bs; [apply not_elem_of_nil in Hb'|]).
    eapply good_blk_le; [done|]. eapply good_blk_frame; [by apply H7|]. apply Hbb, elem_of_app. left. apply elem_of_nodes. by exists b.
  - destruct fl as [|y fl]; [by split; [intros ? ?%not_elem_of_nil|..]|].
    rewrite Hbs'; [|intros ->; by apply Permutation_nil_r in H10]. eapply fl_ok_le; [done|].
    eapply fl_ok_keep; [done|exact Hs|]. intros x Hx (z & Hz & Hzx). by apply (Hfr z (Hfin z Hz) x Hzx).
  - intros y [->|Hy]%elem_of_cons.
    + split; [done|done|unfold SBRK_LIMIT, _size_meta_data, SIZEOF_HEAD, SIZEOF_TAIL; cbn; lia|].
      exists (Region a (a + map_len n huge) huge). split; [left|]. split; [done|]. split; [done|]. by eapply page_aligned.
    + rewrite Hmm' by (by destruct mm; [apply not_elem_of_nil in Hy|]).
      eapply good_map_le; [done|]. eapply good_map_frame; [by apply H12|]. apply Hbb, elem_of_app. by right.
  - split; [|done]. apply Forall_forall. intros y Hy. apply Hout, elem_of_app. by right.
Qed.

(** ** Unmapping *)

Lemma blk_ok_acc k k' m c a sz : blk_ok k m c a sz → accessible k' a sz → blk_ok k' m c a sz.
Proof. by intros [] ?; split. Qed.

(** [munmap] of a large block leaves everything else as it was. *)
Lemma core_unmap s bs fl mm1 y mm2 :
  core s bs fl (mm1 ++ y :: mm2) →
  core (set_brk (BrkState (munmap y.1 y.2 (kern (brk s))).2 (program_break (brk s))) s) bs fl (mm1 ++ mm2).
Proof.
  intros Hc. pose proof (core_all_apart _ _ _ _ Hc) as Hap.
  pose proof (co_mm _ _ _ _ Hc y ltac:(set_solver)) as [Hyok _ Hbig (r & Hr & Hlo & Hhi & Hal)].
  bk_facts Hyok. pose proof (co_brk _ _ _ _ Hc) as [B1 B2 B3 B4 B5 B6].
  assert (Hrnd : round_up y.2 PAGE ≤ map_len y.2 (r_huge r)) by apply round_up_map_len.
  destruct (munmap_spec r y.1 y.2 _ B6 Hr) as [U1 U2 U3 U4 U5 U6]; [lia|lia|by apply B5|lia|].
  set (k' := (munmap y.1 y.2 (kern (brk s))).2) in *.
  assert (Hreg : ∀ z, z ∈ mm1 ++ mm2 → good_map k' (memory s) (global_rand_cookie s) z).
  { intros z Hz. destruct (co_mm _ _ _ _ Hc z ltac:(set_solver)) as [Hzok Hzf Hzb (q & Hq & Hqlo & Hqhi & Hqal)].
    assert (Hne : q ≠ r).
    { intros ->. apply all_apart_app in Hap as (_ & Hmm & _).
      apply (all_apart_fst mm1 y mm2 Hmm) in Hz; [congruence|].
      intros w Hw. pose proof (core_node_min _ _ _ _ w Hc ltac:(apply elem_of_app; by right)). lia. }
    split; [|done|done|by exists q; auto]. eapply blk_ok_acc; [exact Hzok|].
    pose proof (map_len_ge z.2 (r_huge q)). intros x n Hx Hn. eapply mapped_region; [apply (U4 q Hq Hne)|lia|lia]. }
  assert (Hseg : ∀ a sz, k_start (kern (brk s)) ≤ a → a + sz ≤ cur_break (brk s) → accessible k' a sz).
  { intros a sz H5 H6 x n Hx Hn. apply mapped_brk; [rewrite U3; apply Hc|lia|lia]. }
  assert (Hin : ∀ b, b ∈ bs → accessible k' (ba b) (bsz b)).
  { intros b Hb. destruct (co_chain _ _ _ _ Hc) as [[_ ->]|(_ & Hst & Hch)]; [by apply not_elem_of_nil in Hb|].
    destruct (chain_in _ _ _ _ Hch Hb). apply Hseg; lia. }
  pose proof (co_perm _ _ _ _ Hc) as Hperm.
  assert (Hcb : cur_break (BrkState k' (program_break (brk s))) = cur_break (brk s)).
  { unfold cur_break. cbn. by destruct (program_break (brk s)). }
  destruct Hc as [H5 H6 H7 H8 H9 H10 H11 H12 H13 H14 H15 H16]. split; hcbn; rewrite ?Hcb; try done.
  - split; rewrite ?Hcb; cbn; rewrite ?U1, ?U2; try done. intros q Hq. destruct (U5 q Hq) as (q' & Hq' & ? & ?).
    destruct (B5 q' Hq'); lia.
  - cbn. by rewrite U3.
  - cbn. by rewrite U1.
  - intros [?|Hm]; apply H10; [by left|right; by destruct mm1].
  - intros b Hb. destruct (H11 b Hb) as [Hbok Hbf Hbu]. split; [|done|done]. eapply blk_ok_acc; [exact Hbok|exact (Hin b Hb)].
  - destruct H12 as [Hf1 Hf2 Hf3]. split; [|done|done]. intros z Hz. eapply blk_ok_acc; [by apply Hf1|].
    rewrite Hperm in Hz. apply elem_of_free_nodes in Hz as (b & Hb & _ & ->). exact (Hin b Hb).
  - assert (Hp : mm1 ++ y :: mm2 ≡ₚ y :: mm1 ++ mm2) by (symmetry; apply Permutation_middle).
    by apply (all_apart_perm _ _ Hp) in H16 as [_ ?].
Qed.
End Steps.
