(* ===== verification/HeapOps.v ===== *)
(** * What the operations on small blocks do

    Specifications of [_find_sbrk_free_block], [_merge_sbrk_blocks],
    [_sbrk_malloc], [_sbrk_free] and [_sbrk_realloc] on the block list of the
    invariant: which block is chosen, how the list of blocks changes, that the
    bytes of the other blocks stay, and what the counters become.  The text of
    these functions is the same in [malloc_3.cpp] and [malloc_4.cpp]; the
    results hold for both [_sbrk]s through [BreakLaws]. *)

From S2P Require Import Prelude Memory Kernel Machine Malloc1 SbrkHeap FreeList HeapInv.

(** ** Payloads *)

(** The bytes of a block that belong to its user. *)
Definition pay (y : node) (x : Z) : Prop := y.1 + 32 ≤ x < y.1 + y.2 - 16.

(** The payloads of the blocks [N] have the same bytes in both memories. *)
Definition keeps (N : list node) (m m' : gmap Z Z) : Prop :=
  ∀ y x, y ∈ N → pay y x → rd m' x = rd m x.

(** The blocks in use. *)
Definition live (bs : list blk) : list node := nodes (List.filter (λ b, negb (bfree b)) bs).

Lemma keeps_refl N m : keeps N m m.
Proof. by intros y x _ _. Qed.

Lemma keeps_trans N m1 m2 m3 : keeps N m1 m2 → keeps N m2 m3 → keeps N m1 m3.
Proof. intros H1 H2 y x Hy Hx. by rewrite (H2 y x), (H1 y x). Qed.

Lemma keeps_sub N N' m m' : keeps N m m' → (∀ y, y ∈ N' → y ∈ N) → keeps N' m m'.
Proof. intros H Hs y x Hy. apply H. auto. Qed.

Lemma live_app l1 l2 : live (l1 ++ l2) = live l1 ++ live l2.
Proof. unfold live. by rewrite List.filter_app, nodes_app. Qed.

Lemma live_cons b l : live (b :: l) = (if bfree b then [] else [bnode b]) ++ live l.
Proof. unfold live. cbn. by destruct (bfree b). Qed.

Lemma elem_of_live y bs : y ∈ live bs ↔ ∃ b, b ∈ bs ∧ bfree b = false ∧ y = bnode b.
Proof.
  unfold live. rewrite elem_of_nodes. setoid_rewrite list_elem_of_In. setoid_rewrite filter_In.
  split; [intros (b & [? ?%negb_true_iff] & ?); eauto|intros (b & ? & ?%negb_true_iff & ?); eauto].
Qed.

Lemma live_in y bs mm : y ∈ live bs ++ mm → y ∈ nodes bs ++ mm.
Proof.
  rewrite !elem_of_app, elem_of_live, elem_of_nodes. intros [(b & ? & _ & ?)|?]; eauto.
Qed.

(** Bytes of the header or the tail of a block. *)
Definition is_meta (y : node) (x : Z) : Prop := y.1 ≤ x < y.1 + 32 ∨ y.1 + y.2 - 16 ≤ x < y.1 + y.2.

(** Writing metadata of the blocks, or outside all of them, keeps the payloads. *)
Lemma keeps_meta N (F : Z → Prop) m m' :
  all_apart N → (∀ y, y ∈ N → 48 ≤ y.2) → same_but F m m' →
  (∀ x, F x → (∃ z, z ∈ N ∧ is_meta z x) ∨ ¬ in_nodes N x) → keeps N m m'.
Proof.
  intros Hap Hmin Hs HF y x Hy Hx. apply Hs. intros Hf. unfold pay in Hx.
  destruct (HF x Hf) as [(z & Hz & Hm)|Hn]; [|apply Hn; exists y; split; [done|lia]].
  unfold is_meta in Hm. pose proof (Hmin z Hz).
  destruct (all_apart_in _ _ _ Hap Hy Hz) as [->|Ha]; [lia|unfold apart in Ha; lia].
Qed.

(** ** The free list as an ordered list *)

(** The free list without the block at [a]. *)
Definition fl_remove (a : Z) (l : list node) : list node := List.filter (λ y, negb (y.1 =? a)) l.

Lemma elem_of_fl_remove y a l : y ∈ fl_remove a l ↔ y ∈ l ∧ y.1 ≠ a.
Proof. unfold fl_remove. by rewrite !list_elem_of_In, filter_In, negb_true_iff, Z.eqb_neq. Qed.

Lemma fl_remove_sorted a l : fl_sorted l → fl_sorted (fl_remove a l).
Proof.
  unfold fl_sorted, fl_remove. induction 1 as [|x l Hs IH Hx]; cbn; [constructor|].
  destruct (negb _); [|done]. constructor; [done|]. rewrite Forall_forall in Hx |- *.
  intros y [Hy _]%list_elem_of_In%filter_In. apply Hx. by apply list_elem_of_In.
Qed.

Lemma fl_remove_id a l : (∀ y, y ∈ l → y.1 ≠ a) → fl_remove a l = l.
Proof.
  induction l as [|y l IH]; intros Hl; [done|]. cbn.
  destruct (Z.eqb_spec y.1 a) as [E|_]; [by destruct (Hl y ltac:(left))|]. cbn. f_equal. apply IH. set_solver.
Qed.

Lemma fl_remove_resize a n l : fl_remove a (resize a n l) = fl_remove a l.
Proof.
  induction l as [|y l IH]; [done|]. cbn. fold (resize a n l).
  destruct (Z.eqb_spec y.1 a) as [E|E]; cbn.
  - by rewrite Z.eqb_refl.
  - apply Z.eqb_neq in E. rewrite E. cbn. by f_equal.
Qed.

Lemma fl_remove_mid l1 y l2 :
  all_apart (l1 ++ y :: l2) → (∀ z, z ∈ l1 ++ y :: l2 → 0 < z.2) →
  fl_remove y.1 (l1 ++ y :: l2) = l1 ++ l2.
Proof.
  intros Hap Hmin. pose proof (all_apart_fst _ _ _ Hap Hmin) as Hne.
  unfold fl_remove. rewrite List.filter_app. cbn. rewrite Z.eqb_refl. cbn.
  rewrite <- List.filter_app. by apply fl_remove_id.
Qed.

(** The first block of the list that is large enough: the best fit when the
    list is ordered. *)
Definition best_fit (n : Z) (l : list node) : option node := List.find (λ y, n <=? y.2) l.

(** The free block that ends at the break. *)
Definition wilderness_of (pb : Z) (l : list node) : option node := List.find (λ y, y.1 + y.2 =? pb) l.

Definition addr_of (o : option node) (d : Z) : Z := match o with Some y => y.1 | None => d end.

Lemma best_fit_spec n l :
  fl_sorted l →
  match best_fit n l with
  | Some y => y ∈ l ∧ n ≤ y.2 ∧ ∀ z, z ∈ l → n ≤ z.2 → z = y ∨ key_lt y z = true
  | None => ∀ z, z ∈ l → z.2 < n
  end.
Proof.
  unfold best_fit, fl_sorted. induction 1 as [|x l Hs IH Hx]; cbn; [by intros z ?%not_elem_of_nil|].
  destruct (Z.leb_spec n x.2).
  - split; [left|]. split; [done|]. intros z [->|Hz]%elem_of_cons _; [by left|right].
    rewrite Forall_forall in Hx. auto.
  - destruct (List.find _ l) as [y|].
    + destruct IH as (? & ? & Hmin). split; [by right|]. split; [done|].
      intros z [->|Hz]%elem_of_cons ?; [lia|auto].
    + intros z [->|Hz]%elem_of_cons; [done|auto].
Qed.

Lemma nodes_cons b l : nodes (b :: l) = bnode b :: nodes l.
Proof. done. Qed.
Lemma payload_sum_cons y l : payload_sum (y :: l) = y.2 - 48 + payload_sum l.
Proof. done. Qed.

(** Lengths and sums of the block lists a step goes between. *)
Ltac count_blocks :=
  repeat (rewrite ?nodes_app, ?nodes_cons, ?free_nodes_app, ?free_nodes_cons, ?payload_sum_app, ?payload_sum_cons, ?length_app;
          cbn [bnode bfree ba bsz app length set_flag fst snd]);
  change (free_nodes []) with (@nil node); change (nodes []) with (@nil node);
  change (payload_sum []) with 0; cbn [length]; try lia.

(** Arithmetic of the counters. *)
Ltac cnt :=
  unfold _size_meta_data, SIZEOF_HEAD, SIZEOF_TAIL; rewrite ?u64_small by lia; lia.

Section Ops.
Context {os : OS} {laws : OSLaws os} {B : Break} {blaws : BreakLaws B}.

(** ** Search *)

(** Before the nodes [l] the loop of [_find_sbrk_free_block] has chosen [mn], a
    block no larger than any of [l], and seen [w] at the end of the heap. *)
Lemma find_loop_spec fuel n pb l mn w s (Q : Z * Z → heap → Prop) :
  fl_ok (kern (brk s)) (memory s) (global_rand_cookie s) l → fl_sorted l → (length l ≤ fuel)%nat →
  0 ≤ n → (mn ≠ NULL → accessible (kern (brk s)) mn 48 ∧ ∀ y, y ∈ l → load (memory s) mn 8 ≤ y.2) →
  (∀ y z, y ∈ l → z ∈ l → y.1 + y.2 = pb → z.1 + z.2 = pb → y = z) →
  Q (if mn =? NULL then addr_of (best_fit n l) NULL else mn, addr_of (wilderness_of pb l) w) s →
  wp (find_loop fuel n pb (head_or l NULL) mn w) Q s.
Proof.
  revert fuel mn w. induction l as [|[a sz] l IH]; intros fuel mn w Hfl Hso Hlen Hn Hmn Huniq HQ.
  { destruct fuel; cbn [find_loop head_or]; wp_steps; cbn in HQ; by destruct (Z.eqb_spec mn NULL) as [->|]. }
  pose proof (fo_blk _ _ _ _ Hfl (a, sz) ltac:(left)) as Hb. cbn in Hb. bk_facts Hb.
  destruct (fo_dll _ _ _ _ Hfl) as (Hnx & _ & _). apply StronglySorted_inv in Hso as [Hso Hhd].
  rewrite Forall_forall in Hhd.
  assert (Hle : ∀ y, y ∈ l → sz ≤ y.2) by (intros y Hy; specialize (Hhd y Hy); apply key_lt_iff in Hhd; cbn in Hhd; lia).
  destruct fuel as [|fuel]; [cbn in Hlen; lia|]. cbn [find_loop head_or length] in *.
  destruct (Z.eqb_spec a NULL) as [E|_]; [unfold NULL in E; lia|].
  wp_step. eapply check_cookie_spec; [exact Hb|]. wp_steps. rewrite (bk_size _ _ _ _ _ Hb).
  assert (Hnext : ∀ mn' w',
    (mn' ≠ NULL → accessible (kern (brk s)) mn' 48 ∧ ∀ y, y ∈ l → load (memory s) mn' 8 ≤ y.2) →
    (if mn' =? NULL then addr_of (best_fit n l) NULL else mn')
      = (if mn =? NULL then addr_of (best_fit n ((a, sz) :: l)) NULL else mn) →
    addr_of (wilderness_of pb l) w' = addr_of (wilderness_of pb ((a, sz) :: l)) w →
    wp (find_loop fuel n pb (load (memory s) (a + 16) 8) mn' w') Q s).
  { intros mn' w' Hm1 Hm2 Hm3. rewrite Hnx. apply IH; [by eapply fl_ok_tail|done|lia|done|done| |by rewrite Hm2, Hm3].
    intros y z Hy Hz. apply Huniq; by right. }
  assert (Hw : addr_of (wilderness_of pb l) (if u64 (a + sz) =? pb then a else w)
             = addr_of (wilderness_of pb ((a, sz) :: l)) w).
  { rewrite u64_small by lia. cbn. destruct (Z.eqb_spec (a + sz) pb) as [Ew|_]; [|done].
    unfold wilderness_of. destruct (List.find _ l) as [y|] eqn:Ef; [|done]. cbn.
    apply find_some in Ef as [Hy%list_elem_of_In Hye%Z.eqb_eq].
    by rewrite <- (Huniq (a, sz) y ltac:(left) ltac:(by right) Ew Hye). }
  destruct (Z.leb_spec n sz) as [Hns|Hns].
  - destruct (Z.eqb_spec mn NULL) as [->|Hmn0].
    + wp_steps. apply Hnext; [|cbn|done].
      * intros _. split; [intros x k ??; apply Hb; unfold _size_meta_data, SIZEOF_HEAD, SIZEOF_TAIL in *; lia|].
        by rewrite (bk_size _ _ _ _ _ Hb).
      * destruct (Z.eqb_spec a NULL) as [E|_]; [unfold NULL in E; lia|]. by destruct (Z.leb_spec n sz); [|lia].
    + destruct (Hmn Hmn0) as [Hacc Hmin]. wp_steps.
      destruct (Z.ltb_spec sz (load (memory s) mn 8)); [specialize (Hmin (a, sz) ltac:(left)); cbn in Hmin; lia|].
      apply Hnext; [|by apply Z.eqb_neq in Hmn0; rewrite Hmn0|done].
      intros _. split; [done|]. intros y Hy. apply Hmin. by right.
  - wp_steps. apply Hnext; [|cbn; by destruct (Z.leb_spec n sz); [lia|]|done].
    intros Hmn0. destruct (Hmn Hmn0) as [Hacc Hmin]. split; [done|]. intros y Hy. apply Hmin. by right.
Qed.

(** ** Counters *)

(** The counters are these numbers, modulo [2^64]. *)
Definition counted_by (s : heap) (n1 n2 n3 n4 : Z) : Prop :=
  free_blocks_num s = u64 n1 ∧ free_bytes_num s = u64 n2 ∧
  allocated_blocks_num s = u64 n3 ∧ allocated_bytes_num s = u64 n4.

Lemma counted_add n1 n2 n3 n4 d1 d2 d3 d4 s :
  counted_by s n1 n2 n3 n4 → counted_by (add_counts d1 d2 d3 d4 s) (n1 + d1) (n2 + d2) (n3 + d3) (n4 + d4).
Proof. intros (H1 & H2 & H3 & H4). unfold counted_by. hcbn. rewrite H1, H2, H3, H4. by u64_norm. Qed.

(** The counters of the file up to constant errors [o].  A refused [sbrk] can
    leave the counters wrong, so the structural results must not depend on them;
    every state has counters of this form for some [o]. *)
Record offsets := Offsets { o1 : Z; o2 : Z; o3 : Z; o4 : Z }.
Definition exact : offsets := Offsets 0 0 0 0.

Definition counted_off (o : offsets) (s : heap) (bs : list blk) (mm : list node) : Prop :=
  counted_by s (Z.of_nat (length (free_nodes bs)) + o1 o) (payload_sum (free_nodes bs) + o2 o)
    (Z.of_nat (length bs + length mm) + o3 o) (payload_sum (nodes bs) + payload_sum mm + o4 o).

Lemma counted_exact s bs mm : counted s bs mm ↔ counted_off exact s bs mm.
Proof.
  unfold counted_off, counted_by, exact. cbn [o1 o2 o3 o4]. rewrite !Z.add_0_r.
  split; [by intros []|intros (? & ? & ? & ?); by split].
Qed.

Lemma counted_some s bs fl mm : core s bs fl mm → ∃ o, counted_off o s bs mm.
Proof.
  intros Hc. destruct (co_counters _ _ _ _ Hc) as (H1 & H2 & H3 & H4).
  exists (Offsets (free_blocks_num s - Z.of_nat (length (free_nodes bs)))
            (free_bytes_num s - payload_sum (free_nodes bs))
            (allocated_blocks_num s - Z.of_nat (length bs + length mm))
            (allocated_bytes_num s - (payload_sum (nodes bs) + payload_sum mm))).
  unfold counted_off, counted_by. cbn [o1 o2 o3 o4]. rewrite !Zplus_minus, !u64_small by lia. done.
Qed.

Lemma counted_by_eq s n1 n2 n3 n4 k1 k2 k3 k4 :
  counted_by s n1 n2 n3 n4 → n1 = k1 → n2 = k2 → n3 = k3 → n4 = k4 → counted_by s k1 k2 k3 k4.
Proof. by intros ? -> -> -> ->. Qed.

Lemma core_add_counts d1 d2 d3 d4 s bs fl mm :
  core s bs fl mm → core (add_counts d1 d2 d3 d4 s) bs fl mm.
Proof. intros []. split; try done. hcbn. auto using u64_range. Qed.

(** ** Taking a block off the free list *)

Lemma upd_meta (N l : list node) a sz x :
  (a, sz) ∈ N → (∀ w, w ∈ l → w ∈ N) → upd_bytes a l x → ∃ z, z ∈ N ∧ is_meta z x.
Proof.
  intros Ha Hl [Hx|(y & Hy & Hx)].
  - exists (a, sz). split; [done|]. left. cbn. lia.
  - exists y. split; [auto|]. left. lia.
Qed.

Lemma core_keeps s bs fl mm (F : Z → Prop) m' :
  core s bs fl mm → same_but F (memory s) m' →
  (∀ x, F x → (∃ z, z ∈ nodes bs ++ mm ∧ is_meta z x) ∨ ¬ in_nodes (nodes bs ++ mm) x) →
  keeps (nodes bs ++ mm) (memory s) m'.
Proof.
  intros Hc Hs HF. eapply keeps_meta; [by eapply core_all_apart| |exact Hs|done].
  intros y. by eapply core_node_min.
Qed.

Lemma take_spec l1 b l2 fl mm s (Q : unit → heap → Prop) :
  core s (l1 ++ b :: l2) fl mm → bfree b = true →
  (∀ m', let s' := set_sbrk_free_head (head_or (fl_remove (ba b) fl) NULL) (set_memory m' s) in
     core s' (l1 ++ set_flag false b :: l2) (fl_remove (ba b) fl) mm →
     same_but (upd_bytes (ba b) (fl_remove (ba b) fl)) (memory s) m' →
     keeps (nodes (l1 ++ b :: l2) ++ mm) (memory s) m' →
     Q tt s') →
  wp (_remove_sbrk_free_block (ba b)) Q s.
Proof.
  intros Hc Hf HQ. eapply core_take; [exact Hc|done|]. intros fl1 fl2 m' -> s' Hc' Hs.
  pose proof (fo_apart _ _ _ _ (co_fl _ _ _ _ Hc)) as Hap.
  assert (Hrm : fl_remove (ba b) (fl1 ++ bnode b :: fl2) = fl1 ++ fl2).
  { apply (fl_remove_mid fl1 (bnode b) fl2 Hap). intros z Hz.
    pose proof (core_node_min _ _ _ _ z Hc (core_free_in _ _ _ _ z Hc Hz)). lia. }
  rewrite Hrm in HQ. apply HQ; [done|done|].
  eapply core_keeps; [exact Hc|exact Hs|]. intros x Hx. left.
  eapply (upd_meta _ (fl1 ++ fl2) (ba b) (bsz b)); [| |done].
  - apply elem_of_app. left. apply elem_of_nodes. exists b. split; [set_solver|done].
  - intros w Hw. eapply core_free_in; [exact Hc|set_solver].
Qed.

(** The free block at the break is the last block. *)
Lemma core_wilderness s bs fl mm y :
  core s bs fl mm → wilderness_of (cur_break (brk s)) fl = Some y →
  ∃ l1 b, bs = l1 ++ [b] ∧ bnode b = y ∧ bfree b = true.
Proof.
  intros Hc [Hy%list_elem_of_In He%Z.eqb_eq]%find_some. rewrite (co_perm _ _ _ _ Hc) in Hy.
  apply elem_of_free_nodes in Hy as (b & Hb & Hf & ->). apply list_elem_of_split in Hb as (l1 & l2 & ->).
  destruct (co_chain _ _ _ _ Hc) as [[_ Hn]|(_ & _ & Hch)]; [by destruct l1|].
  apply chain_mid in Hch as (_ & _ & H3). cbn in He. rewrite <- He in H3.
  exists l1, b. split; [|done]. destruct l2 as [|b' l2]; [done|]. destruct H3 as (? & ? & H3%chain_le). lia.
Qed.

Lemma core_end_unique s bs fl mm pb y z :
  core s bs fl mm → y ∈ fl → z ∈ fl → y.1 + y.2 = pb → z.1 + z.2 = pb → y = z.
Proof.
  intros Hc Hy Hz Ey Ez. pose proof (core_node_min _ _ _ _ y Hc (core_free_in _ _ _ _ y Hc Hy)).
  pose proof (core_node_min _ _ _ _ z Hc (core_free_in _ _ _ _ z Hc Hz)).
  destruct (all_apart_in _ _ _ (fo_apart _ _ _ _ (co_fl _ _ _ _ Hc)) Hy Hz) as [|Ha]; [done|].
  unfold apart in Ha. lia.
Qed.

Lemma core_head s bs fl mm y : core s bs fl mm → y ∈ fl → 0 < y.1 ∧ 48 ≤ y.2 ∧ y.1 + y.2 < 2 ^ 47.
Proof.
  intros Hc Hy. pose proof (fo_blk _ _ _ _ (co_fl _ _ _ _ Hc) y Hy) as Hb. bk_facts Hb. lia.
Qed.

Lemma addr_of_null o s bs fl mm :
  core s bs fl mm → (∀ y, o = Some y → y ∈ fl) →
  (addr_of o NULL =? NULL) = match o with Some _ => false | None => true end.
Proof.
  intros Hc Ho. destruct o as [y|]; [|done]. cbn. apply Z.eqb_neq.
  destruct (core_head _ _ _ _ y Hc (Ho y eq_refl)). unfold NULL. lia.
Qed.

(** [_find_sbrk_free_block]: the best fit; otherwise the free block at the break,
    grown to the size; otherwise nothing. *)
Lemma find_spec n s bs fl mm n1 n2 n3 n4 (Q : Z → heap → Prop) :
  core s bs fl mm → fl_sorted fl → 48 ≤ n < 2 ^ 32 → (brk_unit | n) → counted_by s n1 n2 n3 n4 →
  (∀ y s', best_fit n fl = Some y → core s' bs fl mm → memory s' = memory s → counted_by s' n1 n2 n3 n4 →
     Q y.1 s') →
  (∀ l1 b s', best_fit n fl = None → bs = l1 ++ [b] → bfree b = true → bsz b < n →
     core s' (l1 ++ [Blk (ba b) n true]) (resize (ba b) n fl) mm →
     same_but (widen_bytes (ba b) n) (memory s) (memory s') →
     counted_by s' n1 (n2 + (n - bsz b)) n3 (n4 + (n - bsz b)) → Q (ba b) s') →
  (∀ s' d, best_fit n fl = None → core s' bs fl mm → memory s' = memory s → sbrk_head s' = sbrk_head s →
     cur_break (brk s') = cur_break (brk s) → (grants (brk s) n → d = 0 ∧ grants (brk s') n) →
     counted_by s' n1 (n2 + d) n3 (n4 + d) → Q NULL s') →
  wp (_find_sbrk_free_block n) Q s.
Proof.
  intros Hc Hso Hn Hu Hct HQ1 HQ2 HQ3. unfold _find_sbrk_free_block. wp_steps.
  rewrite (co_fhead _ _ _ _ Hc).
  destruct (Z.eqb_spec (head_or fl NULL) NULL) as [E|E].
  { destruct fl as [|[a sz] fl]; [|cbn in E; destruct (core_head _ _ _ _ (a, sz) Hc ltac:(left)); unfold NULL in E; cbn in *; lia].
    wp_steps. apply (HQ3 s 0); [done..|by split|by rewrite !Z.add_0_r]. }
  wp_step. eapply sbrk_0_spec; [exact Hc|]. intros b' Hb' Hk Hcb Hc'. wp_steps.
  pose proof (best_fit_spec n fl Hso) as Hbf.
  eapply find_loop_spec; [apply Hc'|done|by eapply core_fuel|lia|done|intros y z; by eapply core_end_unique|].
  cbn [Z.eqb NULL]. change (0 =? 0) with true. cbv iota.
  rewrite (addr_of_null _ _ _ _ _ Hc); [|intros y Hy; rewrite Hy in Hbf; apply Hbf].
  destruct (best_fit n fl) as [y|] eqn:Ebf; cbn [negb addr_of]; [wp_steps; by apply HQ1|].
  rewrite (addr_of_null _ _ _ _ _ Hc); [|by intros y [Hy%list_elem_of_In _]%find_some].
  destruct (wilderness_of (cur_break (brk s)) fl) as [w|] eqn:Ew; cbn [negb addr_of].
  - destruct (core_wilderness _ _ _ _ _ Hc Ew) as (l1 & b & -> & <- & Hf). cbn [fst bnode].
    assert (Hbn : bsz b < n).
    { apply (Hbf (bnode b)). by apply find_some in Ew as [?%list_elem_of_In _]. }
    pose proof (gb_ok _ _ _ _ (co_blk _ _ _ _ Hc' b ltac:(set_solver))) as Hb. bk_facts Hb.
    do 3 wp_step. replace (load (memory s) (ba b) 8) with (bsz b). rewrite u64_small by lia. apply wp_bind, wp_modify.
    pose proof (counted_add _ _ _ _ 0 (n - bsz b) 0 (n - bsz b) _ Hct) as Hct'. rewrite !Z.add_0_r in Hct'.
    eapply (core_widen l1 b); [apply (core_add_counts 0 (n - bsz b) 0 (n - bsz b)), Hc'|lia|done| |].
    + intros b'' Hg Hng Hc''. apply (HQ3 _ (n - bsz b)); [done|exact Hc''|done|done|..|exact Hct'].
      * pose proof (cur_break_grows _ _ _ Hg) as Hcb'. hcbn. by rewrite Hcb', Hcb, Z.add_0_r.
      * intros Hgr. exfalso. apply Hng. intros k d Hks Hkm Hkb Hd Hle. hcbn. apply Hgr; [by rewrite <- Hk|by rewrite <- Hk|done|done|lia].
    + intros b'' pos m' s' Hg Hcw Hs. rewrite Hf in Hcw. by eapply (HQ2 l1 b).
  - wp_steps. apply (HQ3 _ 0); [done..|intros Hgr|by rewrite !Z.add_0_r]. split; [done|].
    intros k d Hks Hkm. hcbn. rewrite Hcb. apply Hgr; by rewrite <- Hk.
Qed.

(** ** Reusing a block *)

(** A free block given out for [n] bytes: split when enough is left. *)
Definition splits (n : Z) (b : blk) : bool := REDUNDANT_SIZE <=? bsz b - n.
Definition fit (n : Z) (b : blk) : list blk :=
  if splits n b then [Blk (ba b) n false; Blk (ba b + n) (bsz b - n) true] else [set_flag false b].
Definition fit_list (n : Z) (b : blk) (fl : list node) : list node :=
  if splits n b then fl_insert (ba b + n, bsz b - n) (fl_remove (ba b) fl) else fl_remove (ba b) fl.

(** The size of a block of the invariant can be read. *)
Lemma get_size_spec l1 b l2 fl mm s (Q : Z → heap → Prop) :
  core s (l1 ++ b :: l2) fl mm → Q (bsz b) s → wp (get_size (ba b)) Q s.
Proof.
  intros Hc HQ. pose proof (gb_ok _ _ _ _ (co_blk _ _ _ _ Hc b ltac:(set_solver))) as Hb. bk_facts Hb.
  wp_steps. by rewrite (bk_size _ _ _ _ _ Hb).
Qed.

Lemma core_range s l1 b l2 fl mm :
  core s (l1 ++ b :: l2) fl mm → 0 < ba b ∧ 48 ≤ bsz b ∧ ba b + bsz b < 2 ^ 47.
Proof.
  intros Hc. pose proof (gb_ok _ _ _ _ (co_blk _ _ _ _ Hc b ltac:(set_solver))) as Hb. bk_facts Hb. lia.
Qed.

(** The free blocks are others than a block in use. *)
Lemma core_free_other s l1 b l2 fl mm y :
  core s (l1 ++ b :: l2) fl mm → bfree b = false → y ∈ fl → y ∈ nodes (l1 ++ l2).
Proof.
  intros Hc Hf Hy. rewrite (co_perm _ _ _ _ Hc), free_nodes_app, free_nodes_cons, Hf in Hy. cbn in Hy.
  rewrite <- free_nodes_app in Hy. apply elem_of_free_nodes in Hy as (b' & ? & _ & ->).
  apply elem_of_nodes. by exists b'.
Qed.

(** The bytes outside the block and its headers. *)
Lemma split_keeps s l1 b l2 fl mm n m' :
  core s (l1 ++ b :: l2) fl mm → 48 ≤ n → 48 ≤ bsz b - n → (∀ y, y ∈ fl → y ∈ nodes (l1 ++ l2)) →
  same_but (λ x, meta_bytes (ba b) n x ∨ meta_bytes (ba b + n) (bsz b - n) x ∨ link_bytes fl x) (memory s) m' →
  keeps (nodes (l1 ++ l2) ++ mm) (memory s) m'.
Proof.
  intros Hc Hn1 Hn2 Hfl Hs.
  assert (Hp : nodes (l1 ++ b :: l2) ++ mm ≡ₚ bnode b :: nodes (l1 ++ l2) ++ mm).
  { rewrite !nodes_app. cbn. rewrite <- !app_assoc. cbn. symmetry. apply Permutation_middle. }
  pose proof (core_all_apart _ _ _ _ Hc) as Hap. apply (all_apart_perm _ _ Hp) in Hap as [Hb Hap].
  eapply keeps_meta; [done| |exact Hs|].
  - intros y Hy. eapply core_node_min; [exact Hc|]. rewrite Hp. by right.
  - intros x Hx. unfold meta_bytes in Hx. destruct Hx as [Hx|[Hx|(z & Hz & Hx)]].
    1,2: right; apply (apart_in_nodes (bnode b)); [exact Hb|cbn; lia].
    left. exists z. split; [apply elem_of_app; left; auto|left; lia].
Qed.

Lemma reuse_spec n l1 b l2 fl mm s n1 n2 n3 n4 (Q : Z → heap → Prop) :
  core s (l1 ++ b :: l2) fl mm → bfree b = true → 48 ≤ n ≤ bsz b → (brk_unit | n) → counted_by s n1 n2 n3 n4 →
  (∀ s', core s' (l1 ++ fit n b ++ l2) (fit_list n b fl) mm →
     keeps (nodes (l1 ++ l2) ++ mm) (memory s) (memory s') →
     (if splits n b then counted_by s' n1 (n2 - n) (n3 + 1) (n4 - 48)
      else counted_by s' (n1 - 1) (n2 - (bsz b - 48)) n3 n4) → Q (ba b) s') →
  wp (malloc_reuse (ba b) n) Q s.
Proof.
  intros Hc Hf Hn Hu Hct HQ. pose proof (core_range _ _ _ _ _ _ Hc) as Hr. unfold malloc_reuse.
  wp_step. eapply get_size_spec; [exact Hc|]. apply wp_bind, wp_modify. wp_step.
  eapply take_spec; [by apply core_add_counts|done|]. intros m1 s1 Hc1 _ Hk1.
  pose proof (counted_add _ _ _ _ (-1) (- u64 (bsz b - _size_meta_data)) 0 0 _ Hct) as Hct1.
  assert (Hct1' : counted_by s1 (n1 + -1) (n2 + - u64 (bsz b - _size_meta_data)) (n3 + 0) (n4 + 0)) by exact Hct1.
  assert (Hm1 : memory s1 = m1) by done. clearbody s1.
  change (memory (add_counts _ _ _ _ s)) with (memory s) in Hk1.
  wp_step. apply (get_size_spec l1 (set_flag false b) l2 _ _ _ _ Hc1). cbn [bsz set_flag].
  assert (Hsub : ∀ y, y ∈ nodes (l1 ++ l2) ++ mm → y ∈ nodes (l1 ++ b :: l2) ++ mm).
  { intros y. rewrite !nodes_app. cbn. set_solver. }
  unfold IS_REDUNDANT, fit, fit_list in *. unfold splits in *. rewrite u64_small by lia.
  unfold _size_meta_data, SIZEOF_HEAD, SIZEOF_TAIL in Hct1'. rewrite u64_small in Hct1' by lia.
  destruct (Z.leb_spec REDUNDANT_SIZE (bsz b - n)) as [Hsp|Hsp]; unfold REDUNDANT_SIZE, _size_meta_data, SIZEOF_HEAD, SIZEOF_TAIL in Hsp.
  - wp_step. apply wp_bind, wp_modify. wp_step.
    apply (get_size_spec l1 (set_flag false b) l2 _ _ _ _ (core_add_counts _ _ _ _ _ _ _ _ Hc1)). cbn [bsz set_flag].
    rewrite (u64_small (ba b + n)), (u64_small (bsz b - n)) by lia.
    apply (core_split l1 (set_flag false b) l2 n _ _ _ _ (core_add_counts _ _ _ _ _ _ _ _ Hc1));
      [done|lia|cbn; lia|done|]. intros pos m' rest s' Hc' Hs. cbn [ba bsz set_flag] in *.
    apply wp_ret, HQ; [exact Hc'|..].
    + eapply keeps_trans; [eapply keeps_sub; [exact Hk1|done]|].
      change (memory (add_counts _ _ _ _ s1)) with (memory s1) in Hs. rewrite Hm1 in Hs.
      rewrite <- Hm1 in Hs. rewrite <- Hm1. apply (split_keeps _ _ _ _ _ _ _ _ Hc1) in Hs; [done|lia|cbn; lia|].
      intros y Hy. apply (core_free_other _ _ _ _ _ _ _ Hc1 eq_refl Hy).
    + pose proof (counted_add _ _ _ _ 1 (u64 (bsz b - _size_meta_data - n)) 1 (- _size_meta_data) _ Hct1') as Hct2.
      eapply counted_by_eq; [exact Hct2|cnt..].
  - wp_steps. apply HQ; [done|by rewrite Hm1; eapply keeps_sub|]. eapply counted_by_eq; [exact Hct1'|lia..].
Qed.

(** ** Allocation *)

Lemma grants_same b b' n :
  kern b' = kern b → cur_break b' = cur_break b → grants b n → grants b' n.
Proof. intros Hk Hc Hg k d Hs Hm. rewrite Hc. apply Hg; by rewrite <- Hk. Qed.

Lemma fresh_spec n bs fl mm s n1 n2 n3 n4 (Q : Z → heap → Prop) :
  core s bs fl mm → sbrk_head s ≠ NULL → 48 ≤ n < 2 ^ 32 → (brk_unit | n) → counted_by s n1 n2 n3 n4 →
  (∀ s', ¬ grants (brk s) n → core s' bs fl mm → memory s' = memory s → Q NULL s') →
  (∀ s', core s' (bs ++ [Blk (cur_break (brk s)) n false]) fl mm →
     keeps (nodes bs ++ mm) (memory s) (memory s') →
     counted_by s' n1 n2 (n3 + 1) (n4 + (n - 48)) → Q (cur_break (brk s)) s') →
  wp (malloc_fresh n) Q s.
Proof.
  intros Hc Hh Hn Hu Hct HQ1 HQ2. unfold malloc_fresh. wp_step.
  eapply sbrk_0_spec; [exact Hc|]. intros b1 Hok Hk Hcb Hc1. wp_step. rewrite <- Hcb.
  assert (Hct1 : counted_by (set_brk b1 s) n1 n2 n3 n4) by exact Hct.
  eapply (core_append n _ _ _ _ _ Hc1); [done|done|done|..].
  - intros b2 _ Hng Hc2. apply wp_bind, wp_modify, wp_ret, HQ1; [|by apply core_add_counts|done].
    intros Hg. apply Hng. by eapply grants_same, Hg.
  - intros b2 pos c m' s' Hg Hc2 Hs. apply wp_bind, wp_modify, wp_ret.
    change (cur_break (brk (set_brk b1 s))) with (cur_break b1) in *. rewrite Hcb in *.
    apply HQ2; [by apply core_add_counts|..].
    + eapply core_keeps; [exact Hc|exact Hs|]. intros x Hx. right. intros (y & Hy & Hyx).
      pose proof (bo_lo _ (co_brk _ _ _ _ Hc)). pose proof (core_beyond _ _ _ _ _ _ Hc1 Hg y Hy) as Hby.
      change (brk (set_brk b1 s)) with b1 in Hby. rewrite Hcb, Hk in Hby. unfold meta_bytes in Hx. lia.
    + assert (Hct2 : counted_by s' n1 n2 n3 n4) by exact Hct.
      eapply counted_by_eq; [apply (counted_add _ _ _ _ 0 0 1 (u64 (n - _size_meta_data)) _ Hct2)|cnt..].
Qed.

(** How [_sbrk_malloc] for [n] bytes changes the list of blocks and the free
    list: the best fit is given out, split or whole; without one the free block
    at the break grows to [n]; without that a block is appended at the break
    [pb]; or the system refuses more memory. *)
Inductive small_alloc (n pb : Z) (bs : list blk) (fl : list node) : Z → list blk → list node → Prop :=
| sa_fit l1 b l2 :
    bs = l1 ++ b :: l2 → bfree b = true → best_fit n fl = Some (bnode b) →
    small_alloc n pb bs fl (ba b) (l1 ++ fit n b ++ l2) (fit_list n b fl)
| sa_grow l1 b :
    bs = l1 ++ [b] → bfree b = true → bsz b < n → best_fit n fl = None →
    small_alloc n pb bs fl (ba b) (l1 ++ [Blk (ba b) n false]) (fl_remove (ba b) fl)
| sa_append :
    best_fit n fl = None →
    small_alloc n pb bs fl pb (bs ++ [Blk pb n false]) fl
| sa_fail :
    best_fit n fl = None → small_alloc n pb bs fl NULL bs fl.

Lemma fit_list_sorted n b fl s l1 l2 mm :
  core s (l1 ++ b :: l2) fl mm → 48 ≤ n → bnode b ∈ fl → fl_sorted (fl_remove (ba b) fl) → fl_sorted (fit_list n b fl).
Proof.
  intros Hc Hn Hb Hso. pose proof (core_range _ _ _ _ _ _ Hc). unfold fit_list.
  destruct (splits n b) eqn:E; [|done]. apply Z.leb_le in E. unfold REDUNDANT_SIZE, _size_meta_data, SIZEOF_HEAD, SIZEOF_TAIL in E.
  apply fl_insert_sorted; [done|]. apply Forall_forall. intros y [Hy Hne]%elem_of_fl_remove. cbn.
  destruct (core_head _ _ _ _ y Hc Hy).
  destruct (all_apart_in _ _ _ (fo_apart _ _ _ _ (co_fl _ _ _ _ Hc)) Hb Hy) as [<-|Ha]; [done|].
  unfold apart in Ha. cbn in Ha. lia.
Qed.

Lemma free_node_in s bs fl mm n y :
  core s bs fl mm → best_fit n fl = Some y → ∃ l1 b l2, bs = l1 ++ b :: l2 ∧ y = bnode b ∧ bfree b = true ∧ y ∈ fl ∧ n ≤ bsz b.
Proof.
  intros Hc [Hy%list_elem_of_In Hn%Z.leb_le]%find_some. pose proof Hy as Hy'. rewrite (co_perm _ _ _ _ Hc) in Hy'.
  apply elem_of_free_nodes in Hy' as (b & (l1 & l2 & ->)%list_elem_of_split & Hf & ->). by exists l1, b, l2.
Qed.

Context (o : offsets).

(** What [_sbrk_malloc] for [n] bytes guarantees. *)
Definition malloc_post (n : Z) (s : heap) (bs : list blk) (fl mm : list node) (p : Z) (s' : heap) : Prop :=
  ∃ bs' fl',
    core s' bs' fl' mm ∧ fl_sorted fl' ∧ small_alloc n (cur_break (brk s)) bs fl p bs' fl' ∧
    keeps (live bs ++ mm) (memory s) (memory s') ∧
    (grants (brk s) n → p ≠ NULL ∧ counted_off o s' bs' mm).

(** The block at the break, after a search that found nothing. *)
Lemma fresh_post n s s1 bs fl mm d :
  core s1 bs fl mm → memory s1 = memory s → cur_break (brk s1) = cur_break (brk s) → sbrk_head s1 ≠ NULL →
  fl_sorted fl → best_fit n fl = None → 48 ≤ n < 2 ^ 32 → (brk_unit | n) →
  (grants (brk s) n → d = 0 ∧ grants (brk s1) n) →
  counted_by s1 (Z.of_nat (length (free_nodes bs)) + o1 o) (payload_sum (free_nodes bs) + o2 o + d)
    (Z.of_nat (length bs + length mm) + o3 o) (payload_sum (nodes bs) + payload_sum mm + o4 o + d) →
  wp (malloc_fresh n) (malloc_post n s bs fl mm) s1.
Proof.
  intros Hc Hm Hcb Hh Hso Hbf Hn Hu Hg Hct. pose proof (bo_lo _ (co_brk _ _ _ _ Hc)).
  pose proof (bo_start _ (co_brk _ _ _ _ Hc)).
  eapply fresh_spec; [exact Hc|done|done|done|exact Hct|..].
  - intros s' Hng Hc' Hm'. exists bs, fl. split; [done|]. split; [done|]. split; [by apply sa_fail|].
    rewrite Hm', Hm. split; [apply keeps_refl|]. intros Hgr. by destruct Hng, (Hg Hgr).
  - intros s' Hc' Hk Hct'. rewrite Hcb, Hm in *. exists (bs ++ [Blk (cur_break (brk s)) n false]), fl.
    split; [done|]. split; [done|]. split; [by apply sa_append|].
    split; [eapply keeps_sub; [exact Hk|intros y; apply live_in]|]. intros [-> _]%Hg.
    split; [unfold NULL; lia|]. eapply counted_by_eq; [exact Hct'|count_blocks..].
Qed.

(** Giving out a free block, chosen by the search or grown by it. *)
Lemma reuse_post n s s1 bs l1 b l2 fl fl0 mm :
  core s1 (l1 ++ b :: l2) fl0 mm → bfree b = true → bnode b ∈ fl0 → 48 ≤ n ≤ bsz b → (brk_unit | n) →
  fl_sorted (fl_remove (ba b) fl0) → counted_off o s1 (l1 ++ b :: l2) mm →
  keeps (live (l1 ++ l2) ++ mm) (memory s) (memory s1) → live bs = live (l1 ++ l2) →
  small_alloc n (cur_break (brk s)) bs fl (ba b) (l1 ++ fit n b ++ l2) (fit_list n b fl0) →
  wp (malloc_reuse (ba b) n) (malloc_post n s bs fl mm) s1.
Proof.
  intros Hc Hf Hin Hn Hu Hso Hct Hk Hl Hsa. pose proof (core_range _ _ _ _ _ _ Hc) as Hr.
  eapply reuse_spec; [exact Hc|done|lia|done|exact Hct|]. intros s' Hc' Hk' Hct'.
  exists (l1 ++ fit n b ++ l2), (fit_list n b fl0). split; [done|].
  split; [by eapply fit_list_sorted; [exact Hc|lia|..]|]. split; [done|]. rewrite Hl. split.
  - eapply keeps_trans; [exact Hk|]. eapply keeps_sub; [exact Hk'|intros y; apply live_in].
  - intros _. split; [unfold NULL; lia|]. revert Hct'. unfold fit.
    destruct (splits n b); intros Hct'; (eapply counted_by_eq; [exact Hct'|count_blocks; rewrite ?Hf; count_blocks..]).
Qed.

Lemma live_mid_free l1 b l2 : bfree b = true → live (l1 ++ b :: l2) = live (l1 ++ l2).
Proof. intros Hf. by rewrite !live_app, live_cons, Hf. Qed.

Lemma widen_keeps s s' l1 b fl fl' mm n f :
  core s (l1 ++ [b]) fl mm → core s' (l1 ++ [Blk (ba b) n f]) fl' mm → bsz b < n →
  same_but (widen_bytes (ba b) n) (memory s) (memory s') →
  keeps (nodes (l1 ++ [b]) ++ mm) (memory s) (memory s').
Proof.
  intros Hc Hc' Hn Hs y x Hy Hx. apply Hs. unfold pay in Hx. unfold widen_bytes.
  assert (Hp : ∀ b', nodes (l1 ++ [b']) ++ mm ≡ₚ bnode b' :: nodes l1 ++ mm).
  { intros b'. rewrite nodes_app, <- app_assoc. cbn. symmetry. apply Permutation_middle. }
  pose proof (core_all_apart _ _ _ _ Hc') as Hap. apply (all_apart_perm _ _ (Hp _)) in Hap as [Hb _].
  pose proof (core_range _ _ _ _ _ _ Hc). rewrite Hp in Hy. rewrite Forall_forall in Hb.
  apply elem_of_cons in Hy as [->|Hy]; [cbn in Hx; lia|]. specialize (Hb y Hy). unfold apart in Hb. cbn in Hb. lia.
Qed.

Lemma sbrk_malloc_spec n s bs fl mm :
  core s bs fl mm → fl_sorted fl → counted_off o s bs mm → 48 ≤ n < 2 ^ 32 → (brk_unit | n) →
  wp (_sbrk_malloc n) (malloc_post n s bs fl mm) s.
Proof.
  intros Hc Hso Hct Hn Hu. unfold _sbrk_malloc. wp_steps. pose proof Hct as Hct'. unfold counted_off in Hct'.
  destruct (Z.eqb_spec (sbrk_head s) NULL) as [E|E]; cbn [negb].
  - assert (bs = []) as -> by (destruct (co_chain _ _ _ _ Hc) as [[_ ?]|[? _]]; done).
    wp_step. eapply sbrk_0_spec; [exact Hc|]. intros b' Hok Hk Hcb Hc'. apply wp_bind, wp_modify.
    pose proof Hok as [O1 O2 O3 O4 _]. unfold ADDR_MAX in O4.
    destruct (Z.eqb_spec (cur_break (brk s)) FAILED) as [E'|_]; [unfold FAILED in E'; lia|].
    assert (fl = []) as -> by (apply Permutation_nil_r, (co_perm _ _ _ _ Hc)).
    eapply (fresh_post _ _ _ _ _ _ 0); [|done|done|unfold NULL; hcbn; lia|done|done|done|done|..].
    + destruct Hc' as [H1 H2 H3 H4 H5 H6 H7 H8 H9 H10 H11 H12]. split; hcbn; try done. right.
      unfold NULL. split; [lia|]. split; [lia|]. by cbn.
    + intros Hg. split; [done|]. by eapply grants_same, Hg.
    + eapply counted_by_eq; [exact Hct'|count_blocks..].
  - wp_step. eapply find_spec; [exact Hc|done|done|done|exact Hct'|..].
    + intros y s1 Hbf Hc1 Hm1 Hct1. destruct (free_node_in _ _ _ _ _ _ Hc Hbf) as (l1 & b & l2 & -> & -> & Hf & Hin & Hnb).
      pose proof (core_range _ _ _ _ _ _ Hc). cbn [fst bnode].
      destruct (Z.eqb_spec (ba b) NULL) as [E'|_]; [unfold NULL in E'; lia|]. cbn [negb].
      eapply (reuse_post n s s1 _ l1 b l2 fl fl); [done|done|done|lia|done|by apply fl_remove_sorted|done| | |].
      * rewrite Hm1. apply keeps_refl.
      * by apply live_mid_free.
      * by apply sa_fit.
    + intros l1 b s1 Hbf -> Hf Hlt Hc1 Hs Hct1. pose proof (core_range _ _ _ _ _ _ Hc).
      destruct (Z.eqb_spec (ba b) NULL) as [E'|_]; [unfold NULL in E'; lia|]. cbn [negb].
      eapply (reuse_post n s s1 _ l1 (Blk (ba b) n true) [] fl (resize (ba b) n fl));
        [exact Hc1|done| |cbn; lia|done| | | | |].
      * rewrite (co_perm _ _ _ _ Hc1). apply elem_of_free_nodes. exists (Blk (ba b) n true). split; [set_solver|done].
      * cbn [ba]. rewrite fl_remove_resize. by apply fl_remove_sorted.
      * eapply counted_by_eq; [exact Hct1|count_blocks; rewrite ?Hf; count_blocks..].
      * eapply keeps_sub; [by eapply widen_keeps; [exact Hc|exact Hc1|..]|]. intros y. rewrite <- (live_mid_free l1 b []) by done. apply live_in.
      * by apply live_mid_free.
      * cbn [ba]. unfold fit, fit_list, splits. cbn [bsz ba]. rewrite Z.sub_diag. cbn [Z.leb].
        rewrite fl_remove_resize. by apply sa_grow.
    + intros s1 d Hbf Hc1 Hm1 Hh1 Hcb1 Hg1 Hct1. cbn [Z.eqb NULL negb].
      by eapply fresh_post; [exact Hc1|done|done|by rewrite Hh1|..].
Qed.
End Ops.
