(* ===== verification/HeapMerge.v ===== *)
(** * Joining neighbours and freeing

    Specifications of [_merge_sbrk_blocks] and of [_sbrk_free], which joins the
    block with its free neighbours and puts the result on the free list. *)

From S2P Require Import Prelude Memory Kernel Machine Malloc1 SbrkHeap FreeList HeapInv HeapOps.

(** ** The neighbours that are joined *)

(** The free block at the end of the blocks before, if it is wanted. *)
Definition pop_left (want : bool) (l1 : list blk) : list blk * list blk :=
  match last l1 with
  | Some c => if want && bfree c then (removelast l1, [c]) else (l1, [])
  | None => (l1, [])
  end.

(** The free block at the start of the blocks after. *)
Definition pop_right (want : bool) (l2 : list blk) : list blk * list blk :=
  match l2 with
  | c :: t => if want && bfree c then ([c], t) else ([], l2)
  | [] => ([], l2)
  end.

Definition total (js : list blk) : Z := foldr (λ b acc, bsz b + acc) 0 js.
Definition fl_removes (js : list blk) (fl : list node) : list node :=
  foldr (λ b l, fl_remove (ba b) l) fl js.

(** The address of a run of blocks that starts with the optional [lc]. *)
Definition start_of (lc : list blk) (b : blk) : Z := match lc with c :: _ => ba c | [] => ba b end.

Lemma total_app js ks : total (js ++ ks) = total js + total ks.
Proof. induction js as [|b js IH]; cbn [app total foldr] in *; [done|]. fold total in *. unfold total in *. lia. Qed.

Lemma chain_total a js e : chain a js e → e = a + total js.
Proof.
  revert a. induction js as [|b js IH]; intros a; cbn; [lia|]. intros (_ & _ & ->%IH). unfold total. lia.
Qed.

Lemma pop_left_eq want l1 :
  let '(l, lc) := pop_left want l1 in
  l1 = l ++ lc ∧ (lc = [] ∨ ∃ c, lc = [c] ∧ bfree c = true ∧ want = true).
Proof.
  unfold pop_left. destruct (last l1) as [c|] eqn:E; [|by rewrite app_nil_r; auto].
  apply last_Some in E as [l ->]. destruct want, (bfree c) eqn:Ef; cbn; rewrite ?app_nil_r; auto.
  rewrite removelast_last. eauto 6.
Qed.

Lemma pop_right_eq want l2 :
  let '(rc, l) := pop_right want l2 in
  l2 = rc ++ l ∧ (rc = [] ∨ ∃ c, rc = [c] ∧ bfree c = true ∧ want = true).
Proof. unfold pop_right. destruct l2 as [|c t]; [by auto|]. destruct want, (bfree c) eqn:Ef; cbn; eauto 6. Qed.

Section Merge.
Context {os : OS} {laws : OSLaws os} {B : Break} {blaws : BreakLaws B}.

Lemma core_chain_at s l1 b l2 fl mm :
  core s (l1 ++ b :: l2) fl mm →
  chain (sbrk_head s) l1 (ba b) ∧ chain (ba b + bsz b) l2 (cur_break (brk s)) ∧ sbrk_head s ≠ NULL.
Proof.
  intros Hc. destruct (co_chain _ _ _ _ Hc) as [[_ Hn]|(? & _ & Hch)]; [by destruct l1|].
  by apply chain_mid in Hch as (? & _ & ?).
Qed.

Lemma check_spec s l1 c l2 fl mm (Q : unit → heap → Prop) :
  core s (l1 ++ c :: l2) fl mm → Q tt s → wp (_check_cookie (ba c)) Q s.
Proof. intros Hc HQ. eapply check_cookie_spec; [|done]. apply (co_blk _ _ _ _ Hc c). set_solver. Qed.

Lemma left_neighbour_spec s l1 b l2 fl mm (want : bool) (Q : Z → heap → Prop) :
  core s (l1 ++ b :: l2) fl mm →
  Q (if want then match last l1 with Some c => ba c | None => NULL end else NULL) s →
  wp (left_neighbour (ba b) want) Q s.
Proof.
  intros Hc HQ. unfold left_neighbour. wp_steps. destruct want; cbn [andb]; [|by wp_steps].
  destruct (core_chain_at _ _ _ _ _ _ Hc) as (Hl & _ & _).
  destruct l1 as [|c l1 _] using rev_ind.
  { cbn in Hl. rewrite Hl, Z.eqb_refl. by wp_steps. }
  rewrite last_snoc in HQ. apply chain_mid in Hl as (H1 & H2 & H3). cbn in H3. pose proof (chain_le _ _ _ H1).
  destruct (Z.eqb_spec (sbrk_head s) (ba b)); [lia|]. cbn [negb]. rewrite <- app_assoc in Hc. cbn in Hc.
  pose proof (gb_ok _ _ _ _ (co_blk _ _ _ _ Hc c ltac:(set_solver))) as Hb. bk_facts Hb.
  unfold SIZEOF_TAIL. wp_steps. cbv zeta. replace (ba b - 16 + 8) with (ba c + bsz c - 8) by lia.
  rewrite (bk_tail _ _ _ _ _ Hb). rewrite u64_small by lia. replace (ba b - bsz c) with (ba c) by lia.
  eapply check_spec; [exact Hc|]. by wp_steps.
Qed.

Lemma right_neighbour_spec s l1 b l2 fl mm (want : bool) (Q : Z → heap → Prop) :
  core s (l1 ++ b :: l2) fl mm →
  (∀ b', kern b' = kern (brk s) → cur_break b' = cur_break (brk s) → core (set_brk b' s) (l1 ++ b :: l2) fl mm →
     Q (if want then match l2 with c :: _ => ba c | [] => NULL end else NULL) (set_brk b' s)) →
  wp (right_neighbour (ba b) want) Q s.
Proof.
  intros Hc HQ. unfold right_neighbour. destruct want.
  2: { apply wp_ret. specialize (HQ (brk s) eq_refl eq_refl). destruct s. by apply HQ. }
  wp_step. eapply get_size_spec; [exact Hc|]. wp_step. eapply sbrk_0_spec; [exact Hc|].
  intros b' _ Hk Hcb Hc'. specialize (HQ b' Hk Hcb Hc').
  pose proof (core_range _ _ _ _ _ _ Hc). destruct (core_chain_at _ _ _ _ _ _ Hc) as (_ & Hr & _).
  rewrite u64_small by lia. destruct l2 as [|c l2].
  { cbn in Hr. rewrite Hr, Z.eqb_refl. by wp_steps. }
  destruct Hr as (Hca & Hcs & Hr%chain_le).
  destruct (Z.eqb_spec (ba b + bsz b) (cur_break (brk s))); [lia|]. cbv zeta. rewrite <- Hca.
  wp_step. replace (l1 ++ b :: c :: l2) with ((l1 ++ [b]) ++ c :: l2) in Hc' by (by rewrite <- app_assoc). eapply check_spec; [exact Hc'|]. by wp_steps.
Qed.

Lemma is_free_spec s l1 c l2 fl mm (Q : bool → heap → Prop) :
  core s (l1 ++ c :: l2) fl mm → Q (bfree c) s → wp (is_free_block (ba c)) Q s.
Proof.
  intros Hc HQ. pose proof (co_blk _ _ _ _ Hc c ltac:(set_solver)) as [Hb Hf _]. bk_facts Hb.
  unfold is_free_block. destruct (Z.eqb_spec (ba c) NULL) as [E|_]; [unfold NULL in E; lia|].
  wp_steps. rewrite Hf. by destruct (bfree c).
Qed.

(** ** Taking neighbours off the list *)

(** Restoring the bytes of [a, a + n) from another memory. *)
Definition patch (m0 m : gmap Z Z) (a n : Z) : gmap Z Z := wr_bytes m a (rd_bytes m0 a (Z.to_nat n)).

Lemma rd_patch_in m0 m a n x : a ≤ x < a + n → rd (patch m0 m a n) x = rd m0 x.
Proof.
  intros Hx. unfold patch. rewrite rd_wr_bytes_in by (rewrite length_rd_bytes; lia).
  rewrite lookup_rd_bytes by lia. cbn. f_equal. lia.
Qed.

Lemma rd_patch_out m0 m a n x : 0 ≤ n → ¬ (a ≤ x < a + n) → rd (patch m0 m a n) x = rd m x.
Proof. intros Hn Hx. unfold patch. apply rd_wr_bytes_out. rewrite length_rd_bytes. lia. Qed.

(** [_remove_sbrk_free_block] when the bytes of the blocks [js] may have been
    overwritten since the invariant held with [m0]. *)
Lemma take_mod l1 js b l2 a tot m0 fl mm s (Q : unit → heap → Prop) :
  core (set_memory m0 s) (l1 ++ js ++ b :: l2) fl mm → same_but (λ x, a ≤ x < a + tot) m0 (memory s) →
  js ≠ [] → Forall (λ c, bfree c = false) js → chain a js (a + tot) → bfree b = true →
  (∀ m0' m', let s' := set_sbrk_free_head (head_or (fl_remove (ba b) fl) NULL) (set_memory m' s) in
     core (set_memory m0' s') (l1 ++ js ++ set_flag false b :: l2) (fl_remove (ba b) fl) mm →
     same_but (λ x, a ≤ x < a + tot) m0' m' →
     same_but (upd_bytes (ba b) (fl_remove (ba b) fl)) (memory s) m' → Q tt s') →
  wp (_remove_sbrk_free_block (ba b)) Q s.
Proof.
  intros Hc Hm0 Hne Hnf Hj Hf HQ.
  destruct (core_inside _ _ _ _ _ _ _ _ (λ x, a ≤ x < a + tot) (memory s) Hc Hne Hj Hnf) as (_ & _ & Hfl & _ & Hap);
    [done|done|]. hcbn.
  destruct (core_outside _ _ _ _ _ _ _ _ Hc Hne Hj) as (_ & _ & _ & Htot & _ & _).
  rewrite (app_assoc l1 js) in Hc. destruct (core_free_split _ _ _ _ _ _ Hc Hf) as (fl1 & fl2 & ->).
  assert (Hrm : fl_remove (ba b) (fl1 ++ bnode b :: fl2) = fl1 ++ fl2).
  { apply (fl_remove_mid fl1 (bnode b) fl2 (fo_apart _ _ _ _ Hfl)). intros z Hz. destruct (core_head _ _ _ _ z Hc Hz). lia. }
  rewrite Hrm in HQ.
  eapply remove_free_spec; [exact Hfl|apply Hc|]. intros m' Hfl' Hb' H8 Hs. cbv zeta in HQ.
  set (m0' := patch m0 m' a tot).
  assert (Hout : ∀ y x, y ∈ fl1 ++ bnode b :: fl2 → y.1 ≤ x < y.1 + y.2 → ¬ (a ≤ x < a + tot)).
  { intros y x Hy Hx Hax. rewrite Forall_forall in Hap. specialize (Hap y Hy). unfold apart in Hap. cbn in Hap. lia. }
  assert (Hpat : same_but (λ x, a ≤ x < a + tot) m' m0').
  { intros x Hx. apply rd_patch_out; [lia|done]. }
  pose proof (bk_min _ _ _ _ _ Hb') as Hmin. unfold _size_meta_data, SIZEOF_HEAD, SIZEOF_TAIL in Hmin.
  apply (HQ m0' m').
  - rewrite (app_assoc l1 js). apply (core_taken _ _ _ _ _ _ (set_memory m0 s)); [exact Hc|done|..]; hcbn.
    + eapply fl_ok_keep; [exact Hfl'|exact Hpat|]. intros x Hx (y & Hy & Hyx). apply (Hout y x); [set_solver|done|done].
    + eapply blk_ok_frame; [exact Hb'|]. intros x Hx. apply Hpat. apply (Hout (bnode b)); [set_solver|].
      unfold core_bytes in Hx. cbn. lia.
    + rewrite <- H8. eapply same_but_load; [exact Hpat|]. intros x Hx. apply (Hout (bnode b)); [set_solver|]. cbn. lia.
    + intros x Hx. destruct (decide (a ≤ x < a + tot)) as [Hin|Hin]; [by apply rd_patch_in|].
      rewrite Hpat by done. by rewrite Hs, Hm0.
  - intros x Hx. symmetry. by apply Hpat.
  - done.
Qed.

Lemma absorb_count s n1 n2 n3 n4 sz :
  48 ≤ sz < 2 ^ 47 → counted_by s n1 n2 n3 n4 →
  counted_by (add_counts (-1) (- u64 (sz - _size_meta_data)) (-1) _size_meta_data s) (n1 - 1) (n2 - (sz - 48)) (n3 - 1) (n4 + 48).
Proof. intros Hsz Hct. eapply counted_by_eq; [apply counted_add, Hct|cnt..]. Qed.

Lemma absorb_spec l1 b l2 fl mm s n1 n2 n3 n4 (Q : Z → heap → Prop) :
  core s (l1 ++ b :: l2) fl mm → bfree b = true → counted_by s n1 n2 n3 n4 →
  (∀ s', core s' (l1 ++ set_flag false b :: l2) (fl_remove (ba b) fl) mm →
     keeps (nodes (l1 ++ b :: l2) ++ mm) (memory s) (memory s') → brk s' = brk s →
     counted_by s' (n1 - 1) (n2 - (bsz b - 48)) (n3 - 1) (n4 + 48) → Q (bsz b) s') →
  wp (absorb (ba b)) Q s.
Proof.
  intros Hc Hf Hct HQ. pose proof (core_range _ _ _ _ _ _ Hc). unfold absorb.
  wp_step. eapply get_size_spec; [exact Hc|]. apply wp_bind, wp_modify. wp_step.
  eapply take_spec; [by apply core_add_counts|done|]. intros m' s' Hc' _ Hk. apply wp_ret, HQ; [done|done|done|].
  assert (Hct' := absorb_count s n1 n2 n3 n4 (bsz b) ltac:(lia) Hct). exact Hct'.
Qed.

Lemma absorb_mod l1 js b l2 a tot m0 fl mm s n1 n2 n3 n4 (Q : Z → heap → Prop) :
  core (set_memory m0 s) (l1 ++ js ++ b :: l2) fl mm → same_but (λ x, a ≤ x < a + tot) m0 (memory s) →
  js ≠ [] → Forall (λ c, bfree c = false) js → chain a js (a + tot) → bfree b = true →
  counted_by s n1 n2 n3 n4 →
  (∀ m0' s', core (set_memory m0' s') (l1 ++ js ++ set_flag false b :: l2) (fl_remove (ba b) fl) mm →
     same_but (λ x, a ≤ x < a + tot) m0' (memory s') →
     same_but (upd_bytes (ba b) (fl_remove (ba b) fl)) (memory s) (memory s') → brk s' = brk s →
     counted_by s' (n1 - 1) (n2 - (bsz b - 48)) (n3 - 1) (n4 + 48) → Q (bsz b) s') →
  wp (absorb (ba b)) Q s.
Proof.
  intros Hc Hm0 Hne Hnf Hj Hf Hct HQ.
  destruct (core_inside _ _ _ _ _ _ _ _ (λ x, a ≤ x < a + tot) (memory s) Hc Hne Hj Hnf) as (Hblk & _ & _ & _ & _);
    [done|done|]. hcbn.
  pose proof (gb_ok _ _ _ _ (Hblk b ltac:(set_solver))) as Hb. bk_facts Hb.
  unfold absorb. do 3 wp_step. rewrite (bk_size _ _ _ _ _ Hb). apply wp_bind, wp_modify. wp_step.
  eapply (take_mod l1 js b l2 a tot m0); [apply (core_add_counts _ _ _ _ _ _ _ _ Hc)|done..|].
  intros m0' m' s' Hc' Hm' Hs. apply wp_ret, (HQ m0'); [exact Hc'|done|done|done|].
  assert (Hct' := absorb_count s n1 n2 n3 n4 (bsz b) ltac:(lia) Hct). exact Hct'.
Qed.

(** ** [_merge_sbrk_blocks] *)

(** The counters after [js] were taken off the list into another block. *)
Definition counted_less (s : heap) (n1 n2 n3 n4 : Z) (js : list blk) : Prop :=
  counted_by s (n1 - Z.of_nat (length js)) (n2 - payload_sum (nodes js))
    (n3 - Z.of_nat (length js)) (n4 + 48 * Z.of_nat (length js)).

(** The payload of [b] at the address [a] of another block. *)
Definition moved (b : blk) (a : Z) (m m' : gmap Z Z) : Prop :=
  ∀ i, 0 ≤ i < bsz b - 48 → rd m' (a + 32 + i) = rd m (ba b + 32 + i).

Definition left_addr (want : bool) (l1 : list blk) : Z :=
  if want then match last l1 with Some c => ba c | None => NULL end else NULL.
Definition right_addr (want : bool) (l2 : list blk) : Z :=
  if want then match l2 with c :: _ => ba c | [] => NULL end else NULL.

Lemma left_kept s l1 b l2 fl mm want (Q : bool → heap → Prop) :
  core s (l1 ++ b :: l2) fl mm → pop_left want l1 = (l1, []) → Q false s →
  wp (is_free_block (left_addr want l1)) Q s.
Proof.
  intros Hc Hpop HQ. unfold left_addr, pop_left in *. destruct want; [|done].
  destruct l1 as [|c l1 _] using rev_ind; [done|]. rewrite last_snoc in *.
  rewrite <- app_assoc in Hc. eapply is_free_spec; [exact Hc|]. cbn in Hpop. by destruct (bfree c).
Qed.

(** Two adjacent blocks: their range can be accessed, and writing inside it
    leaves the other payloads alone. *)
Lemma core_two_accessible s l1 c b l2 fl mm :
  core s (l1 ++ c :: b :: l2) fl mm → accessible (kern (brk s)) (ba c) (bsz c + bsz b).
Proof.
  intros Hc. destruct (co_chain _ _ _ _ Hc) as [[_ Hn]|(_ & Hs & Hch)]; [by destruct l1|].
  apply chain_mid in Hch as (H1%chain_le & H2 & (H3 & H4 & H5%chain_le)).
  eapply core_accessible; [exact Hc|lia|lia].
Qed.

Lemma move_keeps s l1 c b l2 fl mm dst src n :
  core s (l1 ++ c :: b :: l2) fl mm → 0 ≤ n → ba c ≤ dst → dst + n ≤ ba c + bsz c + bsz b →
  keeps (nodes (l1 ++ l2) ++ mm) (memory s) (memmove (memory s) dst src n).
Proof.
  intros Hc Hn H1 H2 y x Hy Hx. apply rd_memmove_out; [done|].
  destruct (core_outside s l1 [c; b] l2 fl mm (ba c) (bsz c + bsz b)) as (_ & _ & _ & _ & _ & Hout); [exact Hc|done| |].
  - destruct (core_chain_at _ _ _ _ _ _ Hc) as (_ & (H3 & H4 & _) & _). pose proof (core_range _ _ _ _ _ _ Hc).
    cbn. repeat split; lia.
  - specialize (Hout y Hy). unfold apart, pay in *. cbn in Hout. lia.
Qed.

(** The part of [_merge_sbrk_blocks] that deals with the left neighbour. *)
Lemma merge_left_spec l1 lc b l2 fl mm s (copy want : bool) n1 n2 n3 n4 (Q : Z * Z → heap → Prop) :
  core s ((l1 ++ lc) ++ b :: l2) fl mm → bfree b = false → pop_left want (l1 ++ lc) = (l1, lc) →
  counted_by s n1 n2 n3 n4 →
  (∀ m0 s', let a := start_of lc b in let tot := total (lc ++ [b]) in
     core (set_memory m0 s') (l1 ++ (map (set_flag false) lc ++ [b]) ++ l2) (fl_removes lc fl) mm →
     same_but (λ x, a ≤ x < a + tot) m0 (memory s') →
     keeps (nodes (l1 ++ l2) ++ mm) (memory s) (memory s') →
     (copy = true ∨ lc = [] → moved b a (memory s) (memory s')) →
     brk s' = brk s → counted_less s' n1 n2 n3 n4 lc → Q (a, tot) s') →
  wp (merge_left_block (left_addr want (l1 ++ lc)) (ba b) (bsz b) copy) Q s.
Proof.
  intros Hc Hnf Hpop Hct HQ. pose proof (pop_left_eq want (l1 ++ lc)) as Hpe. rewrite Hpop in Hpe.
  destruct Hpe as [_ [->|(c & -> & Hf & ->)]]; unfold merge_left_block; wp_step.
  - rewrite app_nil_r in *. eapply left_kept; [exact Hc|done|]. apply wp_ret.
    cbn in HQ. rewrite Z.add_0_r in HQ. apply (HQ (memory s)).
    + destruct s; exact Hc.
    + apply same_but_refl.
    + apply keeps_refl.
    + intros _ i Hi. done.
    + done.
    + eapply counted_by_eq; [exact Hct|cbn; lia..].
  - unfold left_addr. rewrite last_snoc. rewrite <- app_assoc in Hc. cbn in Hc.
    pose proof (core_range _ _ _ _ _ _ Hc). pose proof (core_range s (l1 ++ [c]) b l2 fl mm) as Hrb.
    rewrite <- app_assoc in Hrb. specialize (Hrb Hc).
    eapply is_free_spec; [exact Hc|]. rewrite Hf. wp_step.
    eapply absorb_spec; [exact Hc|done|exact Hct|]. intros s1 Hc1 Hk1 Hbrk1 Hct1.
    cbn in HQ. rewrite Z.add_0_r in HQ.
    assert (Hadj : ba b = ba c + bsz c).
    { destruct (core_chain_at _ _ _ _ _ _ Hc) as (_ & Hr & _). by destruct Hr. }
    assert (Hk : keeps (nodes (l1 ++ l2) ++ mm) (memory s) (memory s1)).
    { eapply keeps_sub; [exact Hk1|]. intros y. rewrite !nodes_app. cbn. set_solver. }
    assert (Hctl : counted_less s1 n1 n2 n3 n4 [c]).
    { eapply counted_by_eq; [exact Hct1|unfold payload_sum; cbn; cnt..]. }
    rewrite (Z.add_comm (bsz b) (bsz c)). rewrite (u64_small (bsz c + bsz b)) by lia.
    destruct copy; wp_step.
    + assert (Hc1' := Hc1). replace (l1 ++ set_flag false c :: b :: l2) with ((l1 ++ [set_flag false c]) ++ b :: l2) in Hc1'
        by (by rewrite <- app_assoc).
      wp_step. eapply get_size_spec; [exact Hc1'|].
      unfold _size_meta_data, SIZEOF_HEAD, SIZEOF_TAIL. rewrite u64_small by lia.
      pose proof (gb_ok _ _ _ _ (co_blk _ _ _ _ Hc1 (set_flag false c) ltac:(set_solver))) as Hbc.
      pose proof (gb_ok _ _ _ _ (co_blk _ _ _ _ Hc1 b ltac:(set_solver))) as Hbb.
      pose proof (core_two_accessible _ _ _ _ _ _ _ Hc1) as Hacc. cbn [ba bsz set_flag] in *.
      apply wp_memmove; [apply Hacc; lia|apply Hacc; lia|]. apply wp_ret.
      eapply (HQ (memory s1)).
      * destruct s1; exact Hc1.
      * intros x Hx. apply rd_memmove_out; [lia|]. hcbn. lia.
      * eapply keeps_trans; [exact Hk|]. eapply (move_keeps _ _ _ _ _ _ _ _ _ _ Hc1); cbn; lia.
      * intros _ i Hi. hcbn. rewrite rd_memmove_in by lia.
        apply (Hk1 (bnode b)); [rewrite !nodes_app; cbn; set_solver|]. unfold pay. cbn. lia.
      * done.
      * exact Hctl.
    + apply wp_ret. apply wp_ret. apply (HQ (memory s1)); [destruct s1; exact Hc1|apply same_but_refl|done| |done|done].
      intros [?|?]; done.
Qed.

(** The right neighbour, when the bytes of the blocks [js] before it may have
    been overwritten. *)
Lemma merge_right_spec l1 js rc l2 a tot m0 fl mm s (want : bool) n1 n2 n3 n4 (Q : Z → heap → Prop) :
  core (set_memory m0 s) (l1 ++ js ++ rc ++ l2) fl mm → same_but (λ x, a ≤ x < a + tot) m0 (memory s) →
  js ≠ [] → Forall (λ c, bfree c = false) js → chain a js (a + tot) →
  pop_right want (rc ++ l2) = (rc, l2) → counted_by s n1 n2 n3 n4 →
  (∀ m0' s', let tot' := tot + total rc in
     core (set_memory m0' s') (l1 ++ (js ++ map (set_flag false) rc) ++ l2) (fl_removes rc fl) mm →
     same_but (λ x, a ≤ x < a + tot') m0' (memory s') →
     keeps (nodes (l1 ++ l2) ++ mm) (memory s) (memory s') →
     (∀ x, a ≤ x < a + tot → rd (memory s') x = rd (memory s) x) →
     brk s' = brk s → counted_less s' n1 n2 n3 n4 rc → Q tot' s') →
  wp (merge_right_block (right_addr want (rc ++ l2)) tot) Q s.
Proof.
  intros Hc Hm0 Hne Hnf Hj Hpop Hct HQ.
  destruct (core_inside _ _ _ _ _ _ _ _ (λ x, a ≤ x < a + tot) (memory s) Hc Hne Hj Hnf) as (Hblk & _ & _ & _ & Hap);
    [done|done|]. hcbn.
  pose proof (pop_right_eq want (rc ++ l2)) as Hpe. rewrite Hpop in Hpe.
  destruct Hpe as [_ [->|(c & -> & Hf & ->)]]; unfold merge_right_block; wp_step.
  - assert (Hfree : wp (is_free_block (right_addr want ([] ++ l2))) (λ f s', f = false ∧ s' = s) s).
    { unfold right_addr, pop_right in *. destruct want; [|done]. destruct l2 as [|c l2]; [done|]. cbn in *.
      destruct (Hblk c ltac:(set_solver)) as [Hb Hfl _]. bk_facts Hb. unfold is_free_block.
      destruct (Z.eqb_spec (ba c) NULL); [done|]. wp_steps. rewrite Hfl. by destruct (bfree c). }
    eapply wp_mono; [exact Hfree|]. intros ? ? [-> ->]. apply wp_ret. cbn in HQ. rewrite Z.add_0_r in HQ.
    apply (HQ m0); [by rewrite app_nil_r|done|apply keeps_refl|done|done|].
    eapply counted_by_eq; [exact Hct|cbn; lia..].
  - cbn [app right_addr]. destruct (Hblk c ltac:(set_solver)) as [Hb Hfl _]. bk_facts Hb.
    unfold is_free_block. destruct (Z.eqb_spec (ba c) NULL) as [E|_]; [unfold NULL in E; lia|].
    wp_steps. rewrite Hfl, Hf. cbn [flag negb Z.eqb]. wp_step.
    eapply (absorb_mod l1 js c l2 a tot m0); [exact Hc|done..|exact Hct|].
    intros m0' s' Hc' Hm' Hs Hbrk Hct'. wp_steps.
    assert (Hend : a + tot + bsz c < 2 ^ 47).
    { destruct (core_chain_at _ _ _ _ _ _ (eq_rect _ (λ l, core _ l _ _) Hc _ (app_assoc l1 js _))) as (Hl & _ & _).
      apply chain_app in Hl as (x & _ & Hl). destruct (chain_start _ _ _ _ _ Hne Hj Hl). lia. }
    destruct (core_outside _ _ _ _ _ _ _ _ Hc Hne Hj) as (? & _ & _ & ? & _ & Hout).
    rewrite u64_small by lia. specialize (HQ m0' s'). cbn in HQ. rewrite Z.add_0_r in HQ. apply HQ.
    + by rewrite <- app_assoc.
    + eapply same_but_weaken; [|exact Hm']. cbn. lia.
    + eapply (keeps_sub (nodes (l1 ++ js ++ c :: l2) ++ mm)).
      * eapply keeps_meta; [exact (core_all_apart _ _ _ _ Hc)|intros y; exact (core_node_min _ _ _ _ y Hc)|exact Hs|].
        intros x Hx. left. eapply (upd_meta _ _ _ (bsz c)); [| |exact Hx].
        -- apply elem_of_app. left. apply elem_of_nodes. exists c. split; [set_solver|done].
        -- intros w [Hw _]%elem_of_fl_remove. by eapply core_free_in.
      * intros y. rewrite !nodes_app. cbn. set_solver.
    + intros x Hx. apply Hs. intros [Hu|(y & [Hy _]%elem_of_fl_remove & Hu)].
      * specialize (Hout (bnode c)). unfold apart in Hout. cbn in Hout.
        destruct Hout; [rewrite !nodes_app; cbn; set_solver|lia|lia].
      * rewrite Forall_forall in Hap. specialize (Hap y Hy). destruct (core_head _ _ _ _ y Hc Hy).
        unfold apart in Hap. cbn in Hap. lia.
    + done.
    + eapply counted_by_eq; [exact Hct'|unfold payload_sum; cbn; cnt..].
Qed.

Lemma counted_less_app s' n1 n2 n3 n4 js ks :
  counted_less s' (n1 - Z.of_nat (length js)) (n2 - payload_sum (nodes js))
    (n3 - Z.of_nat (length js)) (n4 + 48 * Z.of_nat (length js)) ks →
  counted_less s' n1 n2 n3 n4 (js ++ ks).
Proof.
  intros Hct. eapply counted_by_eq; [exact Hct|..]; rewrite ?nodes_app, ?payload_sum_app, ?length_app; lia.
Qed.

Lemma start_chain lc b : (lc = [] ∨ ∃ c, lc = [c] ∧ ba b = ba c + bsz c ∧ 48 ≤ bsz c) → 48 ≤ bsz b →
  chain (start_of lc b) (map (set_flag false) lc ++ [b]) (start_of lc b + total (lc ++ [b])).
Proof. intros [->|(c & -> & ? & ?)] Hb; cbn; repeat split; lia. Qed.

Lemma total_flag f l : total (map (set_flag f) l) = total l.
Proof. induction l as [|b l IH]; cbn in *; unfold total in *; [done|]. by rewrite IH. Qed.

Lemma flag_all f l : Forall (λ c, bfree c = f) (map (set_flag f) l).
Proof. apply Forall_forall. by intros c (d & -> & _)%list_elem_of_fmap. Qed.

(** A run of blocks of the list and the ones after it. *)
Lemma run_chain s l1 js rs l2 fl mm a tot :
  core s (l1 ++ (js ++ rs) ++ l2) fl mm → js ≠ [] → chain a js (a + tot) →
  chain a (js ++ rs) (a + tot + total rs) ∧ 0 ≤ total rs.
Proof.
  intros Hc Hne Hj. destruct (co_chain _ _ _ _ Hc) as [[_ Hn]|(_ & _ & Hch)]; [destruct l1; by destruct js|].
  apply chain_app in Hch as (x & _ & (y & (z & H1 & H2)%chain_app & _)%chain_app).
  destruct (chain_start _ _ _ _ _ Hne Hj H1) as [<- <-].
  pose proof (chain_total _ _ _ H2) as ->. apply chain_le in H2 as ?. split; [|lia]. apply chain_app. eauto.
Qed.

(** [_merge_sbrk_blocks]: the block and its free neighbours become one block in
    use. *)
Lemma merge_spec l1 lc b rc l2 fl mm s (ml mr copy : bool) n1 n2 n3 n4 (Q : Z → heap → Prop) :
  core s ((l1 ++ lc) ++ b :: rc ++ l2) fl mm → bfree b = false →
  pop_left ml (l1 ++ lc) = (l1, lc) → pop_right mr (rc ++ l2) = (rc, l2) → counted_by s n1 n2 n3 n4 →
  (∀ s', let a := start_of lc b in let tot := total (lc ++ [b] ++ rc) in
     core s' (l1 ++ Blk a tot false :: l2) (fl_removes rc (fl_removes lc fl)) mm →
     keeps (nodes (l1 ++ l2) ++ mm) (memory s) (memory s') →
     (copy = true ∨ lc = [] → moved b a (memory s) (memory s')) →
     kern (brk s') = kern (brk s) → cur_break (brk s') = cur_break (brk s) →
     counted_less s' n1 n2 n3 n4 (lc ++ rc) → Q a s') →
  wp (_merge_sbrk_blocks (ba b) ml mr copy) Q s.
Proof.
  intros Hc Hnf Hpl Hpr Hct HQ. unfold _merge_sbrk_blocks. pose proof (core_range _ _ _ _ _ _ Hc) as Hr.
  wp_step. eapply get_size_spec; [exact Hc|]. wp_step. eapply left_neighbour_spec; [exact Hc|].
  wp_step. eapply right_neighbour_spec; [exact Hc|]. intros b' Hk Hcb Hc'. wp_step.
  eapply merge_left_spec; [exact Hc'|done|exact Hpl|exact Hct|]. intros m0 s1 a tot Hc1 Hm1 Hk1 Hmv1 Hb1 Hct1.
  assert (Hch : chain a (map (set_flag false) lc ++ [b]) (a + tot)).
  { apply start_chain; [|lia]. pose proof (pop_left_eq ml (l1 ++ lc)) as Hpe. rewrite Hpl in Hpe.
    destruct Hpe as [_ [->|(c & -> & _ & _)]]; [by left|right]. exists c.
    rewrite <- app_assoc in Hc. pose proof (core_range _ _ _ _ _ _ Hc).
    destruct (core_chain_at _ _ _ _ _ _ Hc) as (_ & (? & _) & _). split; [done|]. split; [done|lia]. }
  assert (Hne : map (set_flag false) lc ++ [b] ≠ []) by (by destruct (map (set_flag false) lc)).
  assert (Hnfl : Forall (λ c, bfree c = false) (map (set_flag false) lc ++ [b])).
  { apply Forall_app. split; [apply flag_all|by repeat constructor]. }
  cbn [fst snd]. wp_step.
  eapply (merge_right_spec l1 _ rc l2 a tot m0); [exact Hc1|done..|exact Hct1|].
  intros m1 s2 tot' Hc2 Hm2 Hk2 Hsame2 Hb2 Hct2.
  assert (Htot : total (lc ++ [b] ++ rc) = tot') by (unfold tot', tot; rewrite app_assoc, (total_app (lc ++ [b])); done).
  set (js := map (set_flag false) lc ++ [b]) in *. set (rs := map (set_flag false) rc) in *.
  destruct (run_chain _ _ _ _ _ _ _ _ _ Hc2 Hne Hch) as [Hch2 Hle]. unfold rs in Hch2, Hle. rewrite total_flag in Hch2, Hle.
  rewrite <- Z.add_assoc in Hch2. fold rs tot' in Hch2.
  assert (Hne2 : js ++ rs ≠ []) by (by destruct js).
  assert (Hnfl2 : Forall (λ c, bfree c = false) (js ++ rs)) by (apply Forall_app; split; [done|apply flag_all]).
  destruct (core_outside _ _ _ _ _ _ _ _ Hc2 Hne2 Hch2) as (_ & _ & _ & ? & _ & Hout).
  eapply (core_join l1 (js ++ rs) l2 a tot' _ _ m1); [done..|].
  intros pos m' s' Hc3 Hs3. rewrite <- Htot in Hc3. apply HQ; [exact Hc3|..].
  - eapply keeps_trans; [eapply keeps_sub; [exact Hk1|]|eapply keeps_trans; [exact Hk2|]].
    + intros y. rewrite !nodes_app. set_solver.
    + intros y x Hy Hx. apply Hs3. specialize (Hout y Hy). unfold apart, pay, meta_bytes in *. cbn in Hout. lia.
  - intros Hcp i Hi. apply chain_mid in Hch as (Hl%chain_le & _ & Hend). cbn in Hend.
    change (memory s') with m'. change (start_of lc b) with a. rewrite (Hs3 (a + 32 + i)), Hsame2 by (unfold meta_bytes, tot' in *; lia).
    by apply (Hmv1 Hcp i).
  - change (brk s') with (brk s2). rewrite Hb2, Hb1. done.
  - change (brk s') with (brk s2). rewrite Hb2, Hb1. done.
  - by apply counted_less_app.
Qed.

(** ** [_sbrk_free] *)

Context (o : offsets).

Lemma fl_removes_sorted js fl : fl_sorted fl → fl_sorted (fl_removes js fl).
Proof. intros Hs. induction js as [|b js IH]; [done|]. by apply fl_remove_sorted. Qed.

Lemma put_spec l1 b l2 fl mm s (Q : unit → heap → Prop) :
  core s (l1 ++ b :: l2) fl mm → bfree b = false → fl_sorted fl →
  (∀ m', let s' := set_sbrk_free_head (head_or (fl_insert (bnode b) fl) NULL) (set_memory m' s) in
     core s' (l1 ++ set_flag true b :: l2) (fl_insert (bnode b) fl) mm → fl_sorted (fl_insert (bnode b) fl) →
     keeps (nodes (l1 ++ b :: l2) ++ mm) (memory s) m' → Q tt s') →
  wp (_add_sbrk_free_block (ba b)) Q s.
Proof.
  intros Hc Hf Hso HQ. eapply core_put; [exact Hc|done|]. intros m' s' Hc' Hs. apply HQ; [done|..].
  - apply fl_insert_sorted; [done|]. apply Forall_forall. intros y Hy.
    apply (all_apart_fst (nodes l1) (bnode b) (nodes l2)).
    + pose proof (core_all_apart _ _ _ _ Hc) as Hap. apply all_apart_app in Hap as [Hap _]. by rewrite nodes_app in Hap.
    + intros z Hz. pose proof (core_node_min _ _ _ _ z Hc) as Hmin. rewrite nodes_app in Hmin.
      assert (48 ≤ z.2); [|lia]. apply Hmin, elem_of_app. by left.
    + rewrite <- nodes_app. eapply core_free_other; [exact Hc|done|done].
  - eapply core_keeps; [exact Hc|exact Hs|]. intros x Hx. left. eapply (upd_meta _ fl (ba b) (bsz b)); [| |done].
    + apply elem_of_app. left. apply elem_of_nodes. exists b. split; [set_solver|done].
    + intros w. by eapply core_free_in.
Qed.

Lemma live_popped l lc rc r :
  (lc = [] ∨ ∃ c, lc = [c] ∧ bfree c = true ∧ true = true) → (rc = [] ∨ ∃ c, rc = [c] ∧ bfree c = true ∧ true = true) →
  live ((l ++ lc) ++ rc ++ r) = live (l ++ r).
Proof.
  intros [->|(c & -> & Hc & _)] [->|(d & -> & Hd & _)]; rewrite !live_app, ?live_cons, ?Hc, ?Hd; cbn; by rewrite ?app_nil_r.
Qed.

(** The blocks after [b] was freed: it is joined with its free neighbours. *)
Definition freed (l1 : list blk) (b : blk) (l2 : list blk) : list blk :=
  let '(l, lc) := pop_left true l1 in
  let '(rc, r) := pop_right true l2 in
  l ++ Blk (start_of lc b) (total (lc ++ [b] ++ rc)) true :: r.

Lemma sbrk_free_spec l1 b l2 fl mm s (Q : unit → heap → Prop) :
  core s (l1 ++ b :: l2) fl mm → bfree b = false → fl_sorted fl → counted_off o s (l1 ++ b :: l2) mm →
  (∀ s' fl', core s' (freed l1 b l2) fl' mm → fl_sorted fl' → counted_off o s' (freed l1 b l2) mm →
     keeps (live (l1 ++ l2) ++ mm) (memory s) (memory s') → Q tt s') →
  wp (_sbrk_free (ba b)) Q s.
Proof.
  intros Hc Hf Hso Hct HQ. unfold freed in HQ.
  pose proof (pop_left_eq true l1) as Hl. destruct (pop_left true l1) as [l lc] eqn:Epl.
  pose proof (pop_right_eq true l2) as Hr. destruct (pop_right true l2) as [rc r] eqn:Epr.
  destruct Hl as [-> Hl], Hr as [-> Hr]. unfold _sbrk_free. wp_step.
  eapply merge_spec; [exact Hc|done|exact Epl|exact Epr|exact Hct|]. intros s1 a tot Hc1 Hk1 _ _ _ Hct1.
  wp_step. eapply (get_size_spec l (Blk a tot false) r); [exact Hc1|]. apply wp_bind, wp_modify.
  pose proof (core_range _ _ _ _ _ _ Hc1) as Hrg. cbn [ba bsz] in Hrg |- *.
  eapply (put_spec l (Blk a tot false) r); [by apply core_add_counts|done|by do 2 apply fl_removes_sorted|].
  intros m' s' Hc' Hso' Hk'. eapply HQ; [exact Hc'|exact Hso'|..].
  - assert (Hct2 := counted_add _ _ _ _ 1 (u64 (tot - _size_meta_data)) 0 0 _ Hct1).
    eapply counted_by_eq; [exact Hct2|..]; unfold tot, _size_meta_data, SIZEOF_HEAD, SIZEOF_TAIL in *; rewrite ?u64_small by lia.
    all: destruct Hl as [->|(c & -> & Hcf & _)], Hr as [->|(d & -> & Hdf & _)];
      count_blocks; rewrite ?Hf, ?Hcf, ?Hdf; cbn [total foldr app bsz]; count_blocks.
  - rewrite (live_popped _ _ _ _ Hl Hr).
    eapply keeps_trans; [eapply keeps_sub; [exact Hk1|]|eapply keeps_sub; [exact Hk'|]].
    all: intros y Hy%live_in; revert Hy; rewrite !nodes_app; cbn; set_solver.
Qed.

(** ** [sfree] *)

Lemma u64_back a : 0 < a < 2 ^ 47 → u64 (a + 32 - SIZEOF_HEAD) = a.
Proof. intros. unfold SIZEOF_HEAD. rewrite u64_small by lia. lia. Qed.

(** A small block in use. *)
Lemma sfree_small_spec l1 b l2 fl mm s (Q : unit → heap → Prop) :
  core s (l1 ++ b :: l2) fl mm → bfree b = false → bsz b < SBRK_LIMIT → fl_sorted fl → counted_off o s (l1 ++ b :: l2) mm →
  (∀ s' fl', core s' (freed l1 b l2) fl' mm → fl_sorted fl' → counted_off o s' (freed l1 b l2) mm →
     keeps (live (l1 ++ l2) ++ mm) (memory s) (memory s') → Q tt s') →
  wp (sfree (ba b + 32)) Q s.
Proof.
  intros Hc Hf Hsz Hso Hct HQ. pose proof (core_range _ _ _ _ _ _ Hc). unfold sfree.
  destruct (Z.eqb_spec (ba b + 32) NULL) as [E|_]; [unfold NULL in E; lia|]. rewrite u64_back by lia.
  destruct (co_blk _ _ _ _ Hc b ltac:(set_solver)) as [Hb H8 _]. bk_facts Hb.
  wp_step. eapply check_spec; [exact Hc|]. wp_steps. rewrite H8, Hf. cbn [flag Z.eqb negb].
  wp_step. unfold IS_SBRK_ALLOC. wp_step. eapply get_size_spec; [exact Hc|]. wp_steps.
  destruct (Z.ltb_spec (bsz b) SBRK_LIMIT); [|lia]. by eapply sbrk_free_spec.
Qed.

(** A block that is free already. *)
Lemma sfree_twice_spec l1 b l2 fl mm s :
  core s (l1 ++ b :: l2) fl mm → bfree b = true → wp (sfree (ba b + 32)) (λ _ s', s' = s) s.
Proof.
  intros Hc Hf. pose proof (core_range _ _ _ _ _ _ Hc). unfold sfree.
  destruct (Z.eqb_spec (ba b + 32) NULL) as [E|_]; [done|]. rewrite u64_back by lia.
  destruct (co_blk _ _ _ _ Hc b ltac:(set_solver)) as [Hb H8 _]. bk_facts Hb.
  wp_step. eapply check_spec; [exact Hc|]. wp_steps. rewrite H8, Hf. by wp_steps.
Qed.

(** A large block: its mapping is given back. *)
Lemma sfree_large_spec mm1 y mm2 bs fl s (Q : unit → heap → Prop) :
  core s bs fl (mm1 ++ y :: mm2) → counted_off o s bs (mm1 ++ y :: mm2) →
  (∀ s', core s' bs fl (mm1 ++ mm2) → counted_off o s' bs (mm1 ++ mm2) → memory s' = memory s →
     kern (brk s') = (munmap y.1 y.2 (kern (brk s))).2 → Q tt s') →
  wp (sfree (y.1 + 32)) Q s.
Proof.
  intros Hc Hct HQ. destruct (co_mm _ _ _ _ Hc y ltac:(set_solver)) as [Hb H8 Hbig _]. bk_facts Hb.
  unfold sfree. destruct (Z.eqb_spec (y.1 + 32) NULL) as [E|_]; [unfold NULL in E; lia|]. rewrite u64_back by lia.
  wp_step. eapply check_cookie_spec; [exact Hb|]. wp_steps. rewrite H8. cbn [Z.eqb negb].
  wp_step. unfold IS_SBRK_ALLOC. wp_steps. rewrite (bk_size _ _ _ _ _ Hb).
  destruct (Z.ltb_spec y.2 SBRK_LIMIT); [lia|]. unfold _mmap_free. do 3 wp_step. rewrite (bk_size _ _ _ _ _ Hb).
  wp_steps. rewrite (bk_size _ _ _ _ _ Hb).
  apply HQ; [| |done|done].
  - apply (core_unmap (add_counts 0 0 (-1) (- u64 (y.2 - _size_meta_data)) s)), core_add_counts, Hc.
  - eapply counted_by_eq; [apply (counted_add _ _ _ _ 0 0 (-1) (- u64 (y.2 - _size_meta_data)) _ Hct)|..];
      unfold _size_meta_data, SIZEOF_HEAD, SIZEOF_TAIL; rewrite ?u64_small by lia; count_blocks.
Qed.
End Merge.
