(* ===== verification/HeapRealloc.v ===== *)
(** * Resizing small blocks

    Specification of [_sbrk_realloc], the in-place part of [srealloc]: splitting
    the block, joining it with its free neighbours, or growing it at the break. *)

From S2P Require Import Prelude Memory Kernel Machine Malloc1 SbrkHeap FreeList HeapInv HeapOps HeapMerge.

Section Realloc.
Context {os : OS} {laws : OSLaws os} {B : Break} {blaws : BreakLaws B} (o : offsets).

(** The first [k] payload bytes of the block at [a] are now at [a']. *)
Definition same_prefix (a a' k : Z) (m m' : gmap Z Z) : Prop :=
  ∀ i, 0 ≤ i < k → rd m' (a' + 32 + i) = rd m (a + 32 + i).

Lemma same_prefix_trans a1 a2 a3 k k' m1 m2 m3 :
  same_prefix a1 a2 k m1 m2 → same_prefix a2 a3 k' m2 m3 → k ≤ k' → same_prefix a1 a3 k m1 m3.
Proof. intros H1 H2 Hk i Hi. rewrite H2, H1; [done|lia|lia]. Qed.

(** The state of a resize in progress: the block is now [c], between [l1'] and
    [l2'], with the bytes it had when it was [b]. *)
Record resized (s : heap) (l1 : list blk) (b : blk) (l2 : list blk) (mm : list node)
    (s' : heap) (l1' : list blk) (c : blk) (l2' : list blk) (fl' : list node) (k : Z) : Prop := {
  rz_core : core s' (l1' ++ c :: l2') fl' mm;
  rz_sorted : fl_sorted fl';
  rz_count : counted_off o s' (l1' ++ c :: l2') mm;
  rz_used : bfree c = false;
  rz_others : live (l1' ++ l2') = live (l1 ++ l2);
  rz_keeps : keeps (live (l1 ++ l2) ++ mm) (memory s) (memory s');
  rz_bytes : same_prefix (ba b) (ba c) k (memory s) (memory s');
  rz_kern : kern (brk s') = kern (brk s);
  rz_break : cur_break (brk s') = cur_break (brk s)
}.

Lemma core_total s bs js fl mm : core s bs fl mm → (∀ b, b ∈ js → b ∈ bs) → 0 ≤ total js.
Proof.
  intros Hc Hin. induction js as [|b js IH]; [done|].
  pose proof (core_node_min _ _ _ _ (bnode b) Hc) as Hmin. cbn in *. unfold total in *.
  assert (48 ≤ bsz b); [apply Hmin, elem_of_app; left; apply elem_of_nodes; exists b; set_solver|].
  specialize (IH ltac:(set_solver)). lia.
Qed.

(** Joining keeps a resize going; the block grows by the neighbours that are free. *)
Lemma resized_merge s l1 b l2 mm s1 k1 c k2 fl (ml mr copy : bool) (Q : Z → heap → Prop) :
  resized s l1 b l2 mm s1 k1 c k2 fl (bsz b - 48) → bsz b ≤ bsz c → (ml = true → copy = true) →
  (∀ s' k1' c' k2' fl', resized s l1 b l2 mm s' k1' c' k2' fl' (bsz b - 48) → bsz c ≤ bsz c' →
     bsz c' = total (pop_left ml k1).2 + bsz c + total (pop_right mr k2).1 → k2' = (pop_right mr k2).2 → Q (ba c') s') →
  wp (_merge_sbrk_blocks (ba c) ml mr copy) Q s1.
Proof.
  intros [Hc Hso Hct Hf Hl Hk Hp Hkn Hcb] Hle Hcopy HQ.
  pose proof (pop_left_eq ml k1) as HL. destruct (pop_left ml k1) as [l lc] eqn:Epl.
  pose proof (pop_right_eq mr k2) as HR. destruct (pop_right mr k2) as [rc r] eqn:Epr.
  destruct HL as [-> HL], HR as [-> HR].
  eapply merge_spec; [exact Hc|done|exact Epl|exact Epr|exact Hct|]. intros s' a tot Hc' Hk' Hmv Hkn' Hcb' Hct'.
  assert (Hlive : live ((l ++ lc) ++ rc ++ r) = live (l ++ r)).
  { apply live_popped; [destruct HL as [->|(? & -> & ? & _)]|destruct HR as [->|(? & -> & ? & _)]]; eauto. }
  pose proof (core_range _ _ _ _ _ _ Hc) as Hrg.
  assert (Htot : bsz c ≤ tot).
  { unfold tot. rewrite !total_app. pose proof (core_total _ _ lc _ _ Hc ltac:(set_solver)).
    pose proof (core_total _ _ rc _ _ Hc ltac:(set_solver)). cbn. lia. }
  apply (HQ s' l (Blk a tot false) r (fl_removes rc (fl_removes lc fl))); [|exact Htot|cbn [bsz fst snd]; unfold tot; rewrite !total_app; unfold total at 2; cbn [foldr]; lia|done]. split; try done.
  - by do 2 apply fl_removes_sorted.
  - eapply counted_by_eq; [exact Hct'|..]; unfold tot.
    all: destruct HL as [->|(d & -> & Hdf & _)], HR as [->|(e & -> & Hef & _)];
      count_blocks; rewrite ?Hf, ?Hdf, ?Hef; cbn [total foldr app bsz]; count_blocks.
  - by rewrite <- Hlive.
  - eapply keeps_trans; [exact Hk|]. rewrite <- Hl, Hlive. eapply keeps_sub; [exact Hk'|intros y; apply live_in].
  - eapply same_prefix_trans; [exact Hp| |apply Z.sub_le_mono_r, Hle].
    apply Hmv. destruct HL as [->|(d & -> & _ & ->)]; auto.
  - by rewrite Hkn'.
  - by rewrite Hcb'.
Qed.

(** The size of a block with its free neighbours. *)
Definition room (l1 : list blk) (b : blk) (l2 : list blk) : Z :=
  total (pop_left true l1).2 + bsz b + total (pop_right true l2).1.

(** What a call to [_sbrk_realloc] for [n] bytes ends with: the block, of at
    least [n] bytes, has the first bytes of the old one; or it could not grow in
    place, the free neighbours being too small and not the last of the heap. *)
Definition realloc_post (n : Z) (s : heap) (l1 : list blk) (b : blk) (l2 : list blk) (mm : list node)
    (p : Z) (s' : heap) : Prop :=
  ∃ l1' c l2' fl',
    core s' (l1' ++ c :: l2') fl' mm ∧ fl_sorted fl' ∧ counted_off o s' (l1' ++ c :: l2') mm ∧ bfree c = false ∧
    live (l1' ++ l2') = live (l1 ++ l2) ∧ keeps (live (l1 ++ l2) ++ mm) (memory s) (memory s') ∧
    same_prefix (ba b) (ba c) (Z.min (bsz b) n - 48) (memory s) (memory s') ∧
    (n ≤ bsz b → ba c = ba b) ∧
    ((p = ba c + 32 ∧ n ≤ bsz c) ∨ (p = NULL ∧ room l1 b l2 < n ∧ (pop_right true l2).2 ≠ [])).

Lemma core_used_apart s l1 b l2 fl mm y :
  core s (l1 ++ b :: l2) fl mm → bfree b = false → y ∈ fl → apart (bnode b) y.
Proof.
  intros Hc Hf Hy. pose proof (core_free_other _ _ _ _ _ _ _ Hc Hf Hy) as Hn.
  pose proof (core_all_apart _ _ _ _ Hc) as Hap. apply all_apart_app in Hap as [Hap _]. rewrite nodes_app in *.
  assert (Hp : nodes l1 ++ nodes (b :: l2) ≡ₚ bnode b :: nodes l1 ++ nodes l2) by (symmetry; apply Permutation_middle).
  apply (all_apart_perm _ _ Hp) in Hap as [Hb _]. rewrite Forall_forall in Hb. auto.
Qed.

(** Splitting at the end of a resize. *)
Lemma resized_split n s l1 b l2 mm s1 k1 c k2 fl :
  resized s l1 b l2 mm s1 k1 c k2 fl (bsz b - 48) → 48 ≤ n ≤ bsz c → (brk_unit | n) → (n ≤ bsz b → ba c = ba b) →
  wp (split_block_if_needed (ba c) n) (realloc_post n s l1 b l2 mm) s1.
Proof.
  intros [Hc Hso Hct Hf Hl Hk Hp Hkn Hcb] Hn Hu Hsame. pose proof (core_range _ _ _ _ _ _ Hc) as Hr.
  unfold split_block_if_needed. wp_step. eapply get_size_spec; [exact Hc|]. unfold IS_REDUNDANT. rewrite u64_small by lia.
  wp_step. destruct (Z.leb_spec REDUNDANT_SIZE (bsz c - n)) as [Hsp|Hsp];
    unfold REDUNDANT_SIZE, _size_meta_data, SIZEOF_HEAD, SIZEOF_TAIL in Hsp.
  - apply wp_bind, wp_modify. wp_step. eapply get_size_spec; [apply core_add_counts, Hc|].
    rewrite (u64_small (ba c + n)), (u64_small (bsz c - n)) by lia.
    eapply core_split; [apply core_add_counts, Hc|done|lia|lia|done|]. intros pos m' rest s' Hc' Hs. apply wp_ret.
    exists k1, (Blk (ba c) n false), (Blk (ba c + n) (bsz c - n) true :: k2), (fl_insert rest fl).
    split; [done|]. split; [|split; [|split; [done|split; [|split; [|split; [|split; [done|]]]]]]].
    + apply fl_insert_sorted; [done|]. apply Forall_forall. intros y Hy. cbn.
      destruct (core_head _ _ _ _ y Hc Hy). pose proof (core_used_apart _ _ _ _ _ _ y Hc Hf Hy) as Ha. unfold apart in Ha. cbn in Ha. lia.
    +      eapply counted_by_eq; [apply (counted_add _ _ _ _ 1 (u64 (bsz c - n - _size_meta_data)) 1 (- _size_meta_data) _ Hct)|..];
      unfold _size_meta_data, SIZEOF_HEAD, SIZEOF_TAIL; rewrite ?u64_small by lia; count_blocks; rewrite ?Hf; count_blocks.
    + rewrite <- Hl, !live_app, live_cons. done.
    + eapply keeps_trans; [exact Hk|]. rewrite <- Hl. eapply keeps_sub; [|intros y; apply live_in].
      eapply (split_keeps _ _ _ _ _ _ n); [exact Hc|lia|lia| |exact Hs]. intros y Hy. eapply core_free_other; [exact Hc|done|done].
    + eapply (same_prefix_trans _ (ba c) _ _ (Z.min (bsz b) n - 48)); [|intros i Hi|lia].
      * intros i Hi. apply Hp. lia.
      * cbn [ba]. apply Hs. unfold meta_bytes. intros [?|[?|(y & Hy & Hyx)]]; [lia|lia|].
        pose proof (core_used_apart _ _ _ _ _ _ y Hc Hf Hy) as Ha. destruct (core_head _ _ _ _ y Hc Hy).
        unfold apart in Ha. cbn in Ha. lia.
    + left. cbn. unfold SIZEOF_HEAD. lia.
  - wp_steps. exists k1, c, k2, fl. repeat (split; [done|]). split; [intros i Hi; apply Hp; lia|]. split; [done|]. left. unfold SIZEOF_HEAD. lia.
Qed.

(** Growing at the break at the end of a resize. *)
Lemma resized_grow n s l1 b l2 mm s1 k1 c fl :
  resized s l1 b l2 mm s1 k1 c [] fl (bsz b - 48) → bsz b ≤ bsz c < n → n < 2 ^ 32 → (brk_unit | n) →
  grants (brk s) n → wp (realloc_wilderness (ba c) n) (realloc_post n s l1 b l2 mm) s1.
Proof.
  intros [Hc Hso Hct Hf Hl Hk Hp Hkn Hcb] Hn Hn' Hu Hg. pose proof (core_range _ _ _ _ _ _ Hc) as Hr.
  unfold realloc_wilderness. wp_step. eapply get_size_spec; [exact Hc|]. rewrite u64_small by lia.
  apply wp_bind, wp_modify. wp_step.
  eapply (core_widen k1 c n); [apply core_add_counts, Hc|lia|done|..].
  { intros b' _ Hng _. exfalso. apply Hng. intros k d Hks Hkm Hkb Hd Hle.
    change (brk (add_counts _ _ _ _ s1)) with (brk s1) in *. apply Hg; [by rewrite <- Hkn|by rewrite <- Hkn|done|done|lia]. }
  intros b' pos m' s' Hgr Hc' Hs. apply wp_ret.
  rewrite resize_id, Hf in Hc'.
  2: { intros y Hy. destruct (core_head _ _ _ _ y Hc Hy).
       pose proof (core_used_apart _ _ _ _ _ _ y Hc Hf Hy) as Ha. unfold apart in Ha. cbn in Ha. lia. }
  exists k1, (Blk (ba c) n false), [], fl. split; [done|]. split; [done|].
  split; [|split; [done|split; [done|split; [|split; [|split; [lia|]]]]]].
  -    eapply counted_by_eq; [apply (counted_add _ _ _ _ 0 0 0 (n - bsz c) _ Hct)|..]; count_blocks; rewrite ?Hf; count_blocks.
  - eapply keeps_trans; [exact Hk|]. rewrite <- Hl. eapply keeps_sub; [eapply widen_keeps; [exact Hc|exact Hc'|lia|exact Hs]|].
    intros y Hy%live_in. revert Hy. rewrite !nodes_app. cbn. set_solver.
  - intros i Hi. rewrite <- (Hp i) by lia. cbn [ba]. apply Hs. unfold widen_bytes. lia.
  - left. cbn. unfold SIZEOF_HEAD. lia.
Qed.

(** A resize that ends as it is. *)
Lemma resized_done n s l1 b l2 mm s' k1 c k2 fl p :
  resized s l1 b l2 mm s' k1 c k2 fl (bsz b - 48) → bsz b ≤ bsz c →
  bsz b < n → (p = ba c + 32 ∧ n ≤ bsz c) ∨ (p = NULL ∧ room l1 b l2 < n ∧ (pop_right true l2).2 ≠ []) →
  realloc_post n s l1 b l2 mm p s'.
Proof.
  intros [Hc Hso Hct Hf Hl Hk Hpre Hkn Hcb] Hle Hn Hp. exists k1, c, k2, fl. repeat (split; [done|]).
  split; [intros i Hi; apply Hpre; lia|]. split; [lia|done].
Qed.

Lemma core_at_break s l1 b l2 fl mm :
  core s (l1 ++ b :: l2) fl mm → (u64 (ba b + bsz b) =? cur_break (brk s)) = match l2 with [] => true | _ => false end.
Proof.
  intros Hc. pose proof (core_range _ _ _ _ _ _ Hc). destruct (core_chain_at _ _ _ _ _ _ Hc) as (_ & Hr & _).
  rewrite u64_small by lia. destruct l2 as [|c l2]; [by apply Z.eqb_eq|]. apply Z.eqb_neq.
  destruct Hr as (? & ? & Hr%chain_le). lia.
Qed.

Lemma pop_left_false l : pop_left false l = (l, []).
Proof. unfold pop_left. by destruct (last l). Qed.
Lemma pop_right_false l : pop_right false l = ([], l).
Proof. by destruct l. Qed.

Lemma sbrk_realloc_spec n l1 b l2 fl mm s :
  core s (l1 ++ b :: l2) fl mm → bfree b = false → fl_sorted fl → counted_off o s (l1 ++ b :: l2) mm →
  48 ≤ n < 2 ^ 32 → (brk_unit | n) → (room l1 b l2 < n → grants (brk s) n) →
  wp (_sbrk_realloc (ba b) n) (realloc_post n s l1 b l2 mm) s.
Proof.
  intros Hc Hf Hso Hct Hn Hu Hg. unfold _sbrk_realloc. wp_step. eapply sbrk_0_spec; [exact Hc|].
  intros b0 _ Hk0 Hcb0 Hc0. set (s0 := set_brk b0 s) in *.
  assert (Hz0 : resized s l1 b l2 mm s0 l1 b l2 fl (bsz b - 48)).
  { by split. }
  wp_step. eapply get_size_spec; [exact Hc0|].
  destruct (Z.leb_spec n (bsz b)); [by eapply resized_split; [exact Hz0|lia|..]|].
  wp_step. eapply resized_merge; [exact Hz0|lia|done|]. intros s1 k1 c1 k2 fl1 Hz1 Hle1 Hsz1 Hr1. rewrite pop_right_false in Hsz1, Hr1. cbn [total foldr fst snd] in Hsz1, Hr1. subst k2.
  wp_step. eapply get_size_spec; [apply Hz1|].
  destruct (Z.leb_spec n (bsz c1)); [by eapply resized_split; [exact Hz1|lia|done|lia]|].
  rewrite <- (rz_break _ _ _ _ _ _ _ _ _ _ _ Hz1), (core_at_break _ _ _ _ _ _ (rz_core _ _ _ _ _ _ _ _ _ _ _ Hz1)).
  assert (Hnil : l2 = [] → room l1 b l2 = bsz c1) by (intros ->; unfold room; cbn [pop_right total foldr fst]; lia).
  destruct l2 as [|e l2]; [by eapply resized_grow; [exact Hz1|lia|lia|done|apply Hg; rewrite Hnil]|].
  wp_step. eapply resized_merge; [exact Hz1|lia|done|]. intros s2 k1' c2 k2' fl2 Hz2 Hle2 Hsz2 Hr2.
  assert (Hrm : room l1 b (e :: l2) = bsz c2) by (unfold room; rewrite pop_left_false in Hsz2; cbn [total foldr snd] in Hsz2; lia).
  wp_step. eapply get_size_spec; [apply Hz2|].
  destruct (Z.leb_spec n (bsz c2)); [by eapply resized_split; [exact Hz2|lia|done|lia]|].
  wp_step. eapply resized_merge; [exact Hz2|lia|done|]. intros s3 k1'' c3 k2'' fl3 Hz3 Hle3 _ Hr3.
  wp_step. eapply get_size_spec; [apply Hz3|].
  destruct (Z.leb_spec n (bsz c3)).
  - apply wp_ret. eapply resized_done; [exact Hz3|lia|lia|]. left. unfold SIZEOF_HEAD. lia.
  - rewrite (rz_break _ _ _ _ _ _ _ _ _ _ _ Hz1), <- (rz_break _ _ _ _ _ _ _ _ _ _ _ Hz3), (core_at_break _ _ _ _ _ _ (rz_core _ _ _ _ _ _ _ _ _ _ _ Hz3)).
    destruct k2'' as [|e' k2'']; [by eapply resized_grow; [exact Hz3|lia|lia|done|apply Hg; lia]|].
    apply wp_ret. eapply resized_done; [exact Hz3|lia|lia|]. right. split; [done|]. split; [lia|]. rewrite <- Hr2. by intros ->.
Qed.
End Realloc.
