(* ===== verification/HeapTrace.v ===== *)
(** * Clients of the segregated heap

    What the entry points promise to a program that calls them: the class
    [Allocator] is the interface ([smalloc] as the other files implement it, and
    the sizes it is meant for), [AllocatorSpec] its contract.  Against this
    interface the file proves that every sequence of requests, releases and
    writes of a client to its own blocks is served without a fault, an abort or
    an endless loop, that its blocks are as large as asked for and keep their
    contents, and that they never overlap each other or what the allocator keeps of
    its own. *)

From S2P Require Import Prelude Memory Kernel Machine Malloc1 SbrkHeap FreeList HeapInv HeapOps HeapMerge.

(** ** Blocks in use after an allocation *)

(** The blocks of the data segment that are in use stay below the size from
    which [sfree] takes a block for a mapping. *)
Definition small_live (bs : list blk) : Prop := Forall (λ y, y.2 < SBRK_LIMIT) (live bs).

Lemma live_perm_mid l1 b l2 : bfree b = false → live (l1 ++ b :: l2) ≡ₚ bnode b :: live (l1 ++ l2).
Proof. intros Hf. rewrite !live_app, live_cons, Hf. cbn. symmetry. apply Permutation_middle. Qed.

Lemma fit_live n b : live (fit n b) = [(ba b, if splits n b then n else bsz b)].
Proof. unfold fit. by destruct (splits n b). Qed.

(** An allocation adds one block, which wastes less than [REDUNDANT_SIZE]. *)
Lemma small_alloc_live n pb bs fl p bs' fl' :
  small_alloc n pb bs fl p bs' fl' →
  (p = NULL ∧ bs' = bs ∧ fl' = fl) ∨
  (∃ sz, n ≤ sz < n + REDUNDANT_SIZE ∧ live bs' ≡ₚ (p, sz) :: live bs).
Proof.
  intros [l1 b l2 -> Hf Hbf|l1 b -> Hf Hlt Hbf|Hbf|Hbf]; [right|right|right|by left].
  - apply find_some in Hbf as [_ Hn%Z.leb_le]. cbn in Hn. exists (if splits n b then n else bsz b). split.
    + unfold splits. destruct (Z.leb_spec REDUNDANT_SIZE (bsz b - n)); unfold REDUNDANT_SIZE, _size_meta_data, SIZEOF_HEAD, SIZEOF_TAIL in *; lia.
    + rewrite live_mid_free by done. rewrite !live_app, fit_live. cbn. symmetry. apply Permutation_middle.
  - exists n. split; [unfold REDUNDANT_SIZE, _size_meta_data, SIZEOF_HEAD, SIZEOF_TAIL; lia|].
    rewrite (live_mid_free l1 b []) by done. by rewrite live_perm_mid.
  - exists n. split; [unfold REDUNDANT_SIZE, _size_meta_data, SIZEOF_HEAD, SIZEOF_TAIL; lia|].
    rewrite live_perm_mid by done. by rewrite app_nil_r.
Qed.

(** Freeing removes exactly the block. *)
Lemma freed_live l1 b l2 : live (freed l1 b l2) = live (l1 ++ l2).
Proof.
  unfold freed. pose proof (pop_left_eq true l1) as HL. destruct (pop_left true l1) as [l lc].
  pose proof (pop_right_eq true l2) as HR. destruct (pop_right true l2) as [rc r].
  destruct HL as [-> HL], HR as [-> HR]. rewrite (live_popped _ _ _ _ HL HR), !live_app, live_cons. done.
Qed.

(** ** No two free neighbours *)

Fixpoint coalesced (bs : list blk) : Prop :=
  match bs with
  | b :: t => match t with c :: _ => bfree b && bfree c = false | [] => True end ∧ coalesced t
  | [] => True
  end.

Lemma coalesced_app l1 l2 :
  coalesced (l1 ++ l2) ↔ coalesced l1 ∧ coalesced l2 ∧
    match last l1, l2 with Some b, c :: _ => bfree b && bfree c = false | _, _ => True end.
Proof.
  induction l1 as [|b l1 IH]; [cbn; tauto|]. destruct l1 as [|b' l1].
  - cbn. destruct l2; tauto.
  - transitivity (bfree b && bfree b' = false ∧ coalesced ((b' :: l1) ++ l2)); [done|]. rewrite IH.
    change (coalesced (b :: b' :: l1)) with (bfree b && bfree b' = false ∧ coalesced (b' :: l1)).
    change (last (b :: b' :: l1)) with (last (b' :: l1)). tauto.
Qed.

(** A block in use separates its neighbours. *)
Lemma coalesced_mid l1 b l2 :
  coalesced (l1 ++ b :: l2) ↔
  coalesced l1 ∧ coalesced l2 ∧
  (bfree b = true → (∀ c, last l1 = Some c → bfree c = false) ∧ (∀ c, head l2 = Some c → bfree c = false)).
Proof.
  rewrite coalesced_app. cbn [coalesced]. destruct (last l1) as [c|], l2 as [|d l2]; cbn; destruct (bfree b).
  all: rewrite ?andb_true_r, ?andb_false_r, ?andb_true_l, ?andb_false_l.
  all: split; [intros (? & ? & ?)|intros (? & ? & Hbc)]; repeat split; try tauto; try (by intros; simplify_eq).
  all: try (intros ? [= <-]; tauto).
  all: try (destruct (Hbc eq_refl) as [Hl Hr]; first [by apply Hl|by apply Hr]).
Qed.

Lemma small_alloc_coalesced n pb bs fl p bs' fl' :
  small_alloc n pb bs fl p bs' fl' → coalesced bs → coalesced bs'.
Proof.
  intros [l1 b l2 -> Hf Hbf|l1 b -> Hf Hlt Hbf|Hbf|Hbf]; rewrite ?coalesced_mid; cbn [bfree coalesced].
  - intros (H1 & H2 & Hb). destruct (Hb Hf) as [Hl Hr]. unfold fit. destruct (splits n b); cbn [app].
    + apply coalesced_mid. split; [done|]. split; [|done]. apply (coalesced_mid []). split; [done|]. split; [done|].
      intros _. by split.
    + apply coalesced_mid. by split.
  - intros (H1 & _ & _). by split.
  - intros H1. by split.
  - done.
Qed.

Lemma coalesced_snoc_free l c : coalesced (l ++ [c]) → bfree c = true → ∀ d, last l = Some d → bfree d = false.
Proof. intros (_ & _ & Hc)%coalesced_mid Hf. by destruct (Hc Hf). Qed.

Lemma freed_coalesced l1 b l2 : bfree b = false → coalesced (l1 ++ b :: l2) → coalesced (freed l1 b l2).
Proof.
  intros Hf (H1 & H2 & _)%coalesced_mid. unfold freed, pop_left, pop_right.
  assert (HL : let '(l, lc) := (match last l1 with
      | Some c => if true && bfree c then (removelast l1, [c]) else (l1, []) | None => (l1, []) end) in
      coalesced l ∧ ∀ d, last l = Some d → bfree d = false).
  { destruct l1 as [|c l1 _] using rev_ind; [done|]. rewrite last_snoc, removelast_last.
    destruct (bfree c) eqn:Ec; cbn [andb].
    - split; [apply coalesced_app in H1; tauto|]. by eapply coalesced_snoc_free.
    - split; [done|]. rewrite last_snoc. by intros d [= <-]. }
  assert (HR : let '(rc, r) := (match l2 with
      | c :: t => if true && bfree c then ([c], t) else ([], l2) | [] => ([], l2) end) in
      coalesced r ∧ ∀ d, head r = Some d → bfree d = false).
  { destruct l2 as [|c l2]; [done|]. destruct (bfree c) eqn:Ec; cbn [andb].
    - apply (coalesced_mid []) in H2 as (_ & H2 & Hc). by destruct (Hc Ec).
    - split; [done|]. by intros d [= <-]. }
  destruct (match last l1 with Some _ => _ | None => _ end) as [l lc].
  destruct (match l2 with _ :: _ => _ | [] => _ end) as [rc r].
  destruct HL as [HL1 HL2], HR as [HR1 HR2]. apply coalesced_mid. by split.
Qed.

(** ** Writes of the client *)

Section Client.
Context {os : OS} {laws : OSLaws os} {B : Break} {blaws : BreakLaws B}.

Lemma live_apart_free s bs fl mm y z :
  core s bs fl mm → y ∈ live bs ++ mm → z ∈ fl → apart y z.
Proof.
  intros Hc Hy Hz. rewrite (co_perm _ _ _ _ Hc) in Hz. apply elem_of_free_nodes in Hz as (c & Hcin & Hcf & ->).
  assert (Hz : bnode c ∈ nodes bs ++ mm) by (apply elem_of_app; left; apply elem_of_nodes; eauto).
  destruct (all_apart_in _ _ _ (core_all_apart _ _ _ _ Hc) (live_in _ _ _ Hy) Hz) as [->|]; [|done].
  apply elem_of_app in Hy as [(b & Hb & Hbf & Hbc)%elem_of_live|Hy].
  - (* two blocks of the chain with the same address are the same block *)
    apply list_elem_of_split in Hb as (l1 & l2 & ->). apply elem_of_app in Hcin as [Hcin|[->|Hcin]%elem_of_cons]; [|congruence|].
    all: pose proof (core_all_apart _ _ _ _ Hc) as Hap; apply all_apart_app in Hap as (Hap & _ & _); rewrite nodes_app in Hap.
    all: pose proof (all_apart_fst (nodes l1) (bnode b) (nodes l2) Hap) as Hne.
    all: exfalso; refine (Hne _ (bnode c) _ _); [|apply elem_of_app|by rewrite Hbc].
    1,3: intros z Hz'; assert (48 ≤ z.2); [|lia]; eapply core_node_min; [exact Hc|]; rewrite nodes_app; apply elem_of_app; by left.
    all: rewrite !elem_of_nodes; eauto.
  - pose proof (core_all_apart _ _ _ _ Hc) as Hap. apply all_apart_app in Hap as (_ & _ & Hx).
    apply Hx; [apply elem_of_nodes; eauto|done].
Qed.

Lemma nodes_live_free bs : nodes bs ≡ₚ free_nodes bs ++ live bs.
Proof.
  induction bs as [|b bs IH]; [done|]. rewrite nodes_cons, free_nodes_cons, live_cons, IH.
  destruct (bfree b); cbn; [done|]. apply Permutation_middle.
Qed.

Lemma live_all_apart s bs fl mm : core s bs fl mm → all_apart (live bs ++ mm).
Proof.
  intros Hap%core_all_apart. assert (Hp : nodes bs ++ mm ≡ₚ free_nodes bs ++ live bs ++ mm)
    by (by rewrite nodes_live_free, app_assoc).
  apply (all_apart_perm _ _ Hp), all_apart_app in Hap. tauto.
Qed.

(** Writing to payloads of blocks in use, and to their link fields, keeps the
    invariant. *)
Lemma core_user_write s bs fl mm m' :
  core s bs fl mm →
  same_but (λ x, ∃ y, y ∈ live bs ++ mm ∧ y.1 + 16 ≤ x < y.1 + y.2 - 16) (memory s) m' →
  core (set_memory m' s) bs fl mm.
Proof.
  intros Hc Hs. pose proof (core_all_apart _ _ _ _ Hc) as Hap.
  assert (Hmin := λ w, core_node_min _ _ _ _ w Hc).
  assert (Hbb : ∀ z, z ∈ nodes bs ++ mm → ∀ x, blk_bytes z x → rd m' x = rd (memory s) x).
  { intros z Hz x Hx. apply Hs. intros (y & Hy%live_in & Hyx). pose proof (Hmin y Hy). pose proof (Hmin z Hz).
    unfold blk_bytes in *. destruct (all_apart_in _ _ _ Hap Hy Hz) as [->|Ha]; [lia|unfold apart in Ha; lia]. }
  assert (Hfl : fl_ok (kern (brk s)) m' (global_rand_cookie s) fl).
  { eapply fl_ok_keep; [apply Hc|exact Hs|]. intros x (y & Hy & Hyx) (z & Hz & Hzx).
    pose proof (live_apart_free _ _ _ _ _ _ Hc Hy Hz) as Ha. unfold apart in *. lia. }
  destruct Hc as [H1 H2 H3 H4 H5 H6 H7 H8 H9 H10 H11 H12 H13]. split; hcbn; try done.
  - intros b Hb. eapply good_blk_frame; [by apply H7|]. apply Hbb, elem_of_app. left. apply elem_of_nodes. eauto.
  - intros y Hy. eapply good_map_frame; [by apply H11|]. apply Hbb, elem_of_app. by right.
Qed.

(** ** The contract of an allocator *)

Definition shape (s : heap) (bs : list blk) (fl mm : list node) : Prop :=
  core s bs fl mm ∧ fl_sorted fl ∧ small_live bs.

(** After a request for [size] bytes; [refusal] is a reason to return [NULL]. *)
Definition alloc_post (refusal : Prop) (size : Z) (s : heap) (bs : list blk) (mm : list node) (p : Z) (s' : heap) : Prop :=
  ∃ bs' fl' mm',
    shape s' bs' fl' mm' ∧ keeps (live bs ++ mm) (memory s) (memory s') ∧
    ((p = NULL ∧ refusal ∧ live bs' ++ mm' ≡ₚ live bs ++ mm) ∨
     (∃ y, p = y.1 + 32 ∧ size ≤ y.2 - 48 ∧ live bs' ++ mm' ≡ₚ y :: live bs ++ mm)).

Definition free_post (y : node) (s : heap) (bs : list blk) (mm : list node) (s' : heap) : Prop :=
  ∃ bs' fl' mm',
    shape s' bs' fl' mm' ∧ keeps (live bs' ++ mm') (memory s) (memory s') ∧
    y :: live bs' ++ mm' ≡ₚ live bs ++ mm.

Lemma live_split y bs mm :
  y ∈ live bs ++ mm →
  (∃ l1 b l2, bs = l1 ++ b :: l2 ∧ bfree b = false ∧ y = bnode b) ∨ (∃ mm1 mm2, mm = mm1 ++ y :: mm2).
Proof.
  intros [(b & (l1 & l2 & ->)%list_elem_of_split & Hf & ->)%elem_of_live|(m1 & m2 & ->)%list_elem_of_split]%elem_of_app;
    [left; eauto 6|right; eauto].
Qed.

(** [sfree] of any block in use. *)
Lemma sfree_live s bs fl mm y :
  shape s bs fl mm → y ∈ live bs ++ mm → wp (sfree (y.1 + 32)) (λ _ s', free_post y s bs mm s') s.
Proof.
  intros (Hc & Hso & Hsm) Hy. destruct (counted_some _ _ _ _ Hc) as [o Hct].
  destruct (live_split _ _ _ Hy) as [(l1 & b & l2 & -> & Hf & ->)|(mm1 & mm2 & ->)].
  - assert (Hlive := live_perm_mid l1 b l2 Hf). unfold small_live in Hsm. rewrite Hlive in Hsm. apply Forall_cons in Hsm as [Hb Hsm].
    eapply (sfree_small_spec o l1 b l2); [exact Hc|done|exact Hb|done|exact Hct|]. intros s' fl' Hc' Hso' _ Hk.
    exists (freed l1 b l2), fl', mm. unfold shape, small_live. rewrite freed_live. split; [done|]. split; [done|].
    by rewrite Hlive.
  - eapply (sfree_large_spec o mm1 y mm2); [exact Hc|exact Hct|]. intros s' Hc' _ Hm' _.
    exists bs, fl, (mm1 ++ mm2). split; [done|]. rewrite Hm'. split; [apply keeps_refl|].
    rewrite !app_assoc. apply Permutation_middle.
Qed.
End Client.

(** ** The interface *)

(** An implementation of [smalloc], the sizes a client may ask it for, and when it
    may refuse a size: the size is out of range, or the kernel gives no memory. *)
Class Allocator := {
  malloc : Z → M heap Z;
  served : Z → Prop;
  refused : Z → heap → Prop
}.

Class AllocatorSpec {os : OS} {B : Break} (A : Allocator) : Prop := {
  malloc_spec : ∀ size s bs fl mm, served size → shape s bs fl mm →
    wp (malloc size) (alloc_post (refused size s) size s bs mm) s
}.

Section Trace.
Context {os : OS} {laws : OSLaws os} {B : Break} {blaws : BreakLaws B} {A : Allocator} {spec : AllocatorSpec A}.

(** The number of bytes the header of the block behind [p] gives its user. *)
Definition usable (s : heap) (p : Z) : Z := load (memory s) (p - 32) 8 - 48.

(** A client: the blocks it has, each with the size it asked for, and what it knows
    the bytes of its blocks to be. *)
Record client := Client { c_heap : heap; c_blocks : list (Z * Z); c_view : Z → Z }.
Definition learn (p n : Z) (m : gmap Z Z) (view : Z → Z) (x : Z) : Z :=
  if (p <=? x) && (x <? p + n) then rd m x else view x.

(** It requests blocks and looks at what they hold, releases blocks it has, and
    writes inside blocks it has. *)
Inductive client_step : client → client → Prop :=
| cs_malloc size p s s' L view :
    served size → malloc size s = Ok p s' →
    client_step (Client s L view)
      (if p =? NULL then Client s' L view else Client s' ((p, size) :: L) (learn p (usable s' p) (memory s') view))
| cs_free p n s s' L1 L2 view :
    sfree p s = Ok tt s' → client_step (Client s (L1 ++ (p, n) :: L2) view) (Client s' (L1 ++ L2) view)
| cs_write p n i v s L view :
    (p, n) ∈ L → 0 ≤ i < usable s p →
    client_step (Client s L view)
      (Client (set_memory (<[p + i := v]> (memory s)) s) L (λ x, if x =? p + i then v else view x)).

(** The blocks of the client are the blocks in use, as large as it asked for and
    with the contents it knows. *)
Definition client_inv (c : client) : Prop :=
  ∃ bs fl mm, shape (c_heap c) bs fl mm ∧ map (λ y : node, y.1 + 32) (live bs ++ mm) ≡ₚ (c_blocks c).*1 ∧
    (∀ p n, (p, n) ∈ c_blocks c → n ≤ usable (c_heap c) p) ∧
    ∀ y x, y ∈ live bs ++ mm → pay y x → rd (memory (c_heap c)) x = c_view c x.

Lemma live_size s bs fl mm y :
  core s bs fl mm → y ∈ live bs ++ mm → usable s (y.1 + 32) = y.2 - 48 ∧ 0 < y.1 ∧ accessible (kern (brk s)) y.1 y.2.
Proof.
  intros Hc Hy. assert (Hb : blk_ok (kern (brk s)) (memory s) (global_rand_cookie s) y.1 y.2).
  { apply live_in, elem_of_app in Hy as [(b & Hb & ->)%elem_of_nodes|Hy]; [by apply (co_blk _ _ _ _ Hc)|by apply (co_mm _ _ _ _ Hc)]. }
  bk_facts Hb. unfold usable. replace (y.1 + 32 - 32) with y.1 by lia. split; [lia|done].
Qed.

Lemma block_live (N : list node) (L : list (Z * Z)) p n :
  map (λ y : node, y.1 + 32) N ≡ₚ L.*1 → (p, n) ∈ L → ∃ y, p = y.1 + 32 ∧ y ∈ N.
Proof.
  intros HL Hp. assert (Hin : p ∈ L.*1) by (apply list_elem_of_fmap; by exists (p, n)).
  rewrite <- HL in Hin. by apply list_elem_of_fmap in Hin.
Qed.

Lemma malloc_inv refusal size s L view bs fl mm p s' :
  shape s bs fl mm → map (λ y : node, y.1 + 32) (live bs ++ mm) ≡ₚ L.*1 → (∀ q n, (q, n) ∈ L → n ≤ usable s q) →
  (∀ y x, y ∈ live bs ++ mm → pay y x → rd (memory s) x = view x) → alloc_post refusal size s bs mm p s' →
  client_inv (if p =? NULL then Client s' L view else Client s' ((p, size) :: L) (learn p (usable s' p) (memory s') view)).
Proof.
  intros Hsh HL Hn Hv (bs' & fl' & mm' & Hsh' & Hk & Hcase). pose proof (proj1 Hsh) as Hc. pose proof (proj1 Hsh') as Hc'.
  assert (Hsub : ∀ y, y ∈ live bs ++ mm → y ∈ live bs' ++ mm').
  { intros y Hy. destruct Hcase as [(_ & _ & ->)|(z & _ & _ & ->)]; [done|by right]. }
  assert (Hold : ∀ q n, (q, n) ∈ L → n ≤ usable s' q).
  { intros q n Hq. destruct (block_live _ _ _ _ HL Hq) as (y & -> & Hy).
    destruct (live_size _ _ _ _ _ Hc' (Hsub y Hy)) as [-> _]. destruct (live_size _ _ _ _ _ Hc Hy) as [Hu _].
    specialize (Hn _ _ Hq). lia. }
  destruct Hcase as [(-> & _ & Hp)|(z & -> & Hz & Hp)].
  - exists bs', fl', mm'. cbn. split; [done|]. split; [by rewrite Hp|]. split; [done|].
    intros y x Hy. rewrite Hp in Hy. intros Hx. rewrite (Hk y x Hy Hx). by eapply Hv.
  - assert (Hzin : z ∈ live bs' ++ mm') by (rewrite Hp; left). destruct (live_size _ _ _ _ _ Hc' Hzin) as (Hu & Hpos & _).
    destruct (Z.eqb_spec (z.1 + 32) NULL) as [E|_]; [unfold NULL in E; lia|]. exists bs', fl', mm'. cbn.
    split; [done|]. split; [rewrite Hp; cbn; by rewrite HL|]. split.
    { intros q n [[= -> ->]|Hq]%elem_of_cons; [lia|by apply Hold]. }
    intros y x Hy Hx. unfold learn. rewrite Hu. rewrite Hp in Hy. apply elem_of_cons in Hy as [->|Hy].
    { unfold pay in Hx. destruct (Z.leb_spec (z.1 + 32) x), (Z.ltb_spec x (z.1 + 32 + (z.2 - 48))); cbn; lia. }
    pose proof (live_all_apart _ _ _ _ Hc') as Hap. apply (all_apart_perm _ _ Hp) in Hap as [Hap _]. rewrite Forall_forall in Hap.
    specialize (Hap y Hy). unfold apart in Hap. pose proof Hx as Hx'. unfold pay in Hx'.
    destruct (Z.leb_spec (z.1 + 32) x), (Z.ltb_spec x (z.1 + 32 + (z.2 - 48))); cbn; try lia; rewrite (Hk y x Hy Hx); by eapply Hv.
Qed.

Lemma free_inv s L1 L2 view bs fl mm y n s' :
  shape s bs fl mm → map (λ y : node, y.1 + 32) (live bs ++ mm) ≡ₚ (L1 ++ (y.1 + 32, n) :: L2).*1 →
  (∀ q k, (q, k) ∈ L1 ++ (y.1 + 32, n) :: L2 → k ≤ usable s q) →
  (∀ z x, z ∈ live bs ++ mm → pay z x → rd (memory s) x = view x) → free_post y s bs mm s' →
  client_inv (Client s' (L1 ++ L2) view).
Proof.
  intros Hsh HL Hn Hv (bs' & fl' & mm' & Hsh' & Hk & Hp).
  assert (Hsub : ∀ z, z ∈ live bs' ++ mm' → z ∈ live bs ++ mm) by (intros z Hz; rewrite <- Hp; by right).
  assert (HL' : map (λ z : node, z.1 + 32) (live bs' ++ mm') ≡ₚ (L1 ++ L2).*1).
  { apply (Permutation_cons_inv (a := y.1 + 32)). rewrite (fmap_app fst L1) in *. cbn [fmap list_fmap fst] in HL.
    rewrite Permutation_middle, <- HL, <- Hp. done. }
  exists bs', fl', mm'. cbn. split; [done|]. split; [done|]. split.
  - intros q k Hq. destruct (block_live _ _ _ _ HL' Hq) as (z & -> & Hz).
    destruct (live_size _ _ _ _ _ (proj1 Hsh') Hz) as [-> _]. destruct (live_size _ _ _ _ _ (proj1 Hsh) (Hsub z Hz)) as [Hu _].
    assert (k ≤ usable s (z.1 + 32)) by (apply Hn; set_solver). lia.
  - intros z x Hz Hx. rewrite (Hk z x Hz Hx). apply (Hv z); auto.
Qed.

Lemma client_step_inv c c' : client_inv c → client_step c c' → client_inv c'.
Proof.
  intros (bs & fl & mm & Hsh & HL & Hn & Hv) Hst.
  destruct Hst as [size p s s' L view Hserv Hrun|p n s s' L1 L2 view Hrun|p n i v s L view Hp Hi]; cbn in HL, Hn, Hv, Hsh.
  - pose proof (malloc_spec size s bs fl mm Hserv Hsh) as (p' & s'' & Hrun' & Hpost)%wp_run.
    rewrite Hrun in Hrun'. injection Hrun' as <- <-. by eapply malloc_inv.
  - destruct (block_live _ _ p n HL) as (y & -> & Hy); [apply elem_of_app; right; left|].
    pose proof (sfree_live s bs fl mm y Hsh Hy) as ([] & s'' & Hrun' & Hpost)%wp_run.
    rewrite Hrun in Hrun'. injection Hrun' as <-. by eapply free_inv.
  - destruct (block_live _ _ _ _ HL Hp) as (y & -> & Hy). destruct Hsh as (Hc & Hso & Hsm).
    destruct (live_size _ _ _ _ _ Hc Hy) as (Hu & _ & _).
    assert (Hc' : core (set_memory (<[y.1 + 32 + i := v]> (memory s)) s) bs fl mm).
    { apply core_user_write; [done|]. intros x Hx. apply rd_insert_ne. intros <-. apply Hx. exists y. split; [done|]. lia. }
    exists bs, fl, mm. split; [done|]. split; [done|]. cbn. split.
    + intros q k Hq. destruct (block_live _ _ _ _ HL Hq) as (z & -> & Hz).
      destruct (live_size _ _ _ _ _ Hc' Hz) as [-> _]. destruct (live_size _ _ _ _ _ Hc Hz) as [Hu' _].
      specialize (Hn _ _ Hq). lia.
    + intros z x Hz Hx. destruct (Z.eqb_spec x (y.1 + 32 + i)) as [->|Hne]; [apply rd_insert_eq|].
      rewrite rd_insert_ne by done. by eapply Hv.
Qed.

Lemma all_apart_lookup l i j y z : all_apart l → l !! i = Some y → l !! j = Some z → i ≠ j → apart y z.
Proof.
  revert i j. induction l as [|x l IH]; intros i j Hap Hi Hj Hij; [done|]. destruct Hap as [Hx Hap]. rewrite Forall_forall in Hx.
  destruct i as [|i], j as [|j]; cbn in *; [done| | |by eapply (IH i j); auto].
  - injection Hi as ->. apply Hx. by eapply list_elem_of_lookup_2.
  - injection Hj as ->. apply apart_sym, Hx. by eapply list_elem_of_lookup_2.
Qed.

(** What a client can rely on at any time.  Requests and releases return, and
    a request only fails for one of the reasons of [refused]; a block has
    the size that was asked for or more, and its bytes are mapped and hold what the
    client knows; two blocks are apart with their headers (32 bytes) and tails (16
    bytes); and the payloads are apart from the headers and tails of all blocks and
    from the free blocks. *)
Record client_safe (s : heap) (L : list (Z * Z)) (view : Z → Z) : Prop := {
  cf_malloc : ∀ size, served size → ∃ p s', malloc size s = Ok p s' ∧ (p = NULL → refused size s);
  cf_free : ∀ p n, (p, n) ∈ L → ∃ s', sfree p s = Ok tt s';
  cf_size : ∀ p n, (p, n) ∈ L → p ≠ NULL ∧ n ≤ usable s p ∧ mapped (kern (brk s)) p (usable s p) = true;
  cf_contents : ∀ p n x, (p, n) ∈ L → p ≤ x < p + usable s p → rd (memory s) x = view x;
  cf_disjoint : ∀ i j p q, L.*1 !! i = Some p → L.*1 !! j = Some q → i ≠ j →
    p + usable s p + 16 ≤ q - 32 ∨ q + usable s q + 16 ≤ p - 32;
  cf_metadata : ∃ bs fl mm, core s bs fl mm ∧ ∀ p n x, (p, n) ∈ L → p ≤ x < p + usable s p →
    (∀ z, z ∈ nodes bs ++ mm → ¬ z.1 ≤ x < z.1 + 32 ∧ ¬ z.1 + z.2 - 16 ≤ x < z.1 + z.2) ∧
    (∀ z, z ∈ fl → ¬ z.1 ≤ x < z.1 + z.2)
}.

Lemma client_disjoint s bs fl mm (L : list Z) :
  core s bs fl mm → map (λ y : node, y.1 + 32) (live bs ++ mm) ≡ₚ L →
  ∀ i j p q, L !! i = Some p → L !! j = Some q → i ≠ j → p + usable s p + 16 ≤ q - 32 ∨ q + usable s q + 16 ≤ p - 32.
Proof.
  intros Hc HL. symmetry in HL. apply Permutation_map_inv in HL as (N & -> & HN).
  assert (Hap : all_apart N) by (eapply all_apart_perm; [exact HN|]; by eapply live_all_apart).
  intros i j p q (y & -> & Hi)%list_lookup_fmap_Some (z & -> & Hj)%list_lookup_fmap_Some Hij.
  assert (HNin : ∀ k w, N !! k = Some w → w ∈ live bs ++ mm)
    by (intros k w Hk%list_elem_of_lookup_2; by rewrite HN).
  destruct (live_size _ _ _ _ _ Hc (HNin _ _ Hi)) as (-> & _ & _).
  destruct (live_size _ _ _ _ _ Hc (HNin _ _ Hj)) as (-> & _ & _).
  pose proof (all_apart_lookup _ _ _ _ _ Hap Hi Hj Hij) as Ha. unfold apart in Ha. lia.
Qed.

Lemma client_inv_safe c : client_inv c → client_safe (c_heap c) (c_blocks c) (c_view c).
Proof.
  destruct c as [s L view]. intros (bs & fl & mm & Hsh & HL & Hn & Hv). cbn in *. pose proof (proj1 Hsh) as Hc.
  assert (Hin := λ p n, block_live _ _ p n HL).
  assert (Hmin : ∀ z, z ∈ nodes bs ++ mm → 48 ≤ z.2) by (intros z Hz; by eapply core_node_min).
  split.
  - intros size Hserv. pose proof (malloc_spec size s bs fl mm Hserv Hsh) as (p & s' & Hrun & bs' & fl' & mm' & Hsh' & _ & Hcase)%wp_run.
    exists p, s'. split; [done|]. intros Hp. destruct Hcase as [(_ & ? & _)|(y & -> & _ & Hl)]; [done|].
    assert (Hy : y ∈ live bs' ++ mm') by (rewrite Hl; left). destruct (live_size _ _ _ _ _ (proj1 Hsh') Hy) as (_ & ? & _). unfold NULL in Hp. lia.
  - intros p n (y & -> & Hy)%Hin. pose proof (sfree_live s bs fl mm y Hsh Hy) as ([] & s' & Hrun & _)%wp_run. eauto.
  - intros p n Hp. pose proof (Hn _ _ Hp). destruct (Hin _ _ Hp) as (y & -> & Hy).
    destruct (live_size _ _ _ _ _ Hc Hy) as (Hu & Hpos & Hacc). specialize (Hmin y (live_in _ _ _ Hy)).
    rewrite Hu in *. split; [unfold NULL; lia|]. split; [lia|]. apply Hacc; lia.
  - intros p n x (y & -> & Hy)%Hin Hx. destruct (live_size _ _ _ _ _ Hc Hy) as [Hu _]. apply (Hv y); [done|]. unfold pay. lia.
  - by eapply client_disjoint.
  - exists bs, fl, mm. split; [done|]. intros p n x (y & -> & Hy)%Hin Hx. destruct (live_size _ _ _ _ _ Hc Hy) as [Hu _].
    rewrite Hu in Hx. pose proof (live_in _ _ _ Hy) as Hyn. split; intros z Hz.
    + destruct (all_apart_in _ _ _ (core_all_apart _ _ _ _ Hc) Hyn Hz) as [->|Ha]; [lia|].
      specialize (Hmin z Hz). unfold apart in Ha. lia.
    + pose proof (live_apart_free _ _ _ _ _ _ Hc Hy Hz) as Ha. unfold apart in Ha. lia.
Qed.

Lemma trace_safe c0 c : client_inv c0 → star client_step c0 c → client_safe (c_heap c) (c_blocks c) (c_view c).
Proof. intros Hinv Hst. apply client_inv_safe. eapply star_invariant; [exact client_step_inv|exact Hst|exact Hinv]. Qed.
End Trace.

(** ** The state before the first call *)

Definition init_heap (b : brk_state) : heap := Heap b ∅ 0 0 NULL NULL 0 0 0 0.

Lemma init_ok {B : Break} b :
  brk_ok b → k_holes (kern b) = [] → (brk_unit | cur_break b) → heap_ok (init_heap b) [] [] [].
Proof.
  intros Hb Hh Hu. split; [|constructor|by split].
  split; cbn; try done; try lia.
  - by left.
  - by intros [].
  - by intros ? ?%not_elem_of_nil.
  - by split; [intros ? ?%not_elem_of_nil|..].
  - by intros ? ?%not_elem_of_nil.
Qed.

Lemma init_client {B : Break} b :
  brk_ok b → k_holes (kern b) = [] → (brk_unit | cur_break b) → client_inv (Client (init_heap b) [] (λ _, 0)).
Proof.
  intros Hb Hh Hu. exists [], [], []. split; [|split; [done|split; by intros ?? ?%not_elem_of_nil]]. destruct (init_ok b Hb Hh Hu) as [Hc Hs _].
  split; [done|]. split; [done|]. constructor.
Qed.
