(* ===== verification/Malloc3.v ===== *)
(** * [hw4/wet_4/malloc_3.cpp]: the entry points *)

From S2P Require Import Prelude Memory Kernel Machine Malloc1 SbrkHeap FreeList HeapInv HeapOps HeapMerge HeapRealloc HeapTrace.

(** [_sbrk] of the file is the text of [malloc_1.cpp]. *)
#[export] Instance break3 {os : OS} : Break := {
  brk_move := Malloc1._sbrk;
  brk_unit := 1
}.

Section Malloc3.
Context {os : OS}.

Definition _mmap_malloc (block_size : Z) : M heap Z :=
  let* mmap_addr :=
    (λ s, let '(r, k) := mmap block_size false (kern (brk s)) in
          Ok r (set_brk (BrkState k (program_break (brk s))) s)) in
  if mmap_addr =? FAILED then ret NULL
  else
    _init_sbrk_alloc_block mmap_addr block_size false ;;;
    modify (add_counts 0 0 1 (u64 (block_size - _size_meta_data))) ;;;
    ret mmap_addr.

Definition smalloc (size : Z) : M heap Z :=
  if (size =? 0) || (SIZE_LIMIT <? size) then ret NULL
  else
    let block_size := u64 (size + _size_meta_data) in
    let* block :=
      (if ALLOC_SBRK block_size then _sbrk_malloc block_size else _mmap_malloc block_size) in
    ret (if block =? NULL then NULL else block + SIZEOF_HEAD).

Definition scalloc (num size : Z) : M heap Z :=
  let* alloc := smalloc (u64 (num * size)) in
  if alloc =? NULL then ret NULL
  else
    c_memset alloc 0 (u64 (num * size)) ;;;
    ret alloc.

Definition srealloc (oldp size : Z) : M heap Z :=
  if oldp =? NULL then smalloc size
  else
    let old_block := u64 (oldp - SIZEOF_HEAD) in
    if (size =? 0) || (SIZE_LIMIT <? size) then ret NULL
    else
      let block_size := u64 (size + _size_meta_data) in
      let* b := IS_SBRK_ALLOC old_block in
      let* newp := (if b then _sbrk_realloc old_block block_size else ret NULL) in
      if b && negb (newp =? NULL) then ret newp
      else
        let* osize := get_size old_block in
        if osize =? block_size then ret oldp
        else
          let* newp := smalloc size in
          if newp =? NULL then ret NULL
          else
            c_memmove newp oldp size ;;;
            sfree oldp ;;;
            ret newp.
End Malloc3.

(** ** [_sbrk] meets the contract of the heap *)

#[export] Instance break3_laws {os : OS} {laws : OSLaws os} : BreakLaws break3.
Proof.
  split; [done|..].
  - intros b _ _. apply _sbrk_0.
  - intros b d Hb _ Hd _. pose proof (_sbrk_spec d b Hb Hd) as Hs. cbn [brk_move break3].
    destruct (Malloc1._sbrk d b) as [r b']. destruct Hs as [(-> & Hg & Hng)|[-> Hg]]; [left|right]; eauto.
Qed.

Lemma unit3 {os : OS} n : (brk_unit | n).
Proof. apply Z.divide_1_l. Qed.

Section Specs.
Context {os : OS} {laws : OSLaws os}.

(** ** Large blocks *)

(** [mmap] as [_mmap_malloc] calls it; a large block gets a mapping of its own. *)
Lemma mmap_malloc_spec n s bs fl mm o (Q : Z → heap → Prop) :
  core s bs fl mm → SBRK_LIMIT ≤ n < 2 ^ 47 → counted_off o s bs mm →
  (∀ s', mmap_at (kern (brk s)) n false = None → core s' bs fl mm → memory s' = memory s → Q NULL s') →
  (∀ a s', mmap_at (kern (brk s)) n false = Some a → core s' bs fl ((a, n) :: mm) →
     counted_off o s' bs ((a, n) :: mm) → keeps (nodes bs ++ mm) (memory s) (memory s') → Q a s') →
  wp (_mmap_malloc n) Q s.
Proof.
  intros Hc Hn Hct HQ1 HQ2. unfold _mmap_malloc. wp_step. unfold wp at 1.
  destruct (mmap_at (kern (brk s)) n false) as [a|] eqn:Em.
  - pose proof (mmap_at_range _ _ _ _ Em) as (Ha & Hmax & _). unfold ADDR_MAX in Hmax.
    pose proof (map_len_ge n false).
    assert (Hmm : mmap n false (kern (brk s)) = (a, (mmap n false (kern (brk s))).2)) by (unfold mmap; by rewrite Em).
    rewrite Hmm. destruct (Z.eqb_spec a FAILED) as [E|_]; [unfold FAILED, SBRK_LIMIT, _size_meta_data, SIZEOF_HEAD, SIZEOF_TAIL in *; lia|].
    wp_step. eapply core_map_block; [exact Hc|lia|exact Em|]. intros pos c m' s' Hc' Hap Hs.
    apply wp_bind, wp_modify, wp_ret. apply HQ2; [done|by apply core_add_counts|..].
    + eapply counted_by_eq; [apply (counted_add _ _ _ _ 0 0 1 (u64 (n - _size_meta_data)) _ Hct)|..];
        unfold SBRK_LIMIT, _size_meta_data, SIZEOF_HEAD, SIZEOF_TAIL in *; rewrite ?u64_small by lia; count_blocks.
    + eapply core_keeps; [exact Hc|exact Hs|]. intros x Hx. right.
      apply (apart_in_nodes (a, n)); [exact Hap|]. unfold SBRK_LIMIT, _size_meta_data, SIZEOF_HEAD, SIZEOF_TAIL, meta_bytes in *. cbn. lia.
  - unfold mmap. rewrite Em. cbn [Z.eqb FAILED]. apply wp_ret, HQ1; [done| |done].
    eapply core_tick, Hc.
Qed.

(** ** [smalloc] *)

Lemma smalloc_small_wp size s bs fl mm o :
  core s bs fl mm → fl_sorted fl → counted_off o s bs mm → 0 < size → size + 48 < SBRK_LIMIT →
  wp (smalloc size) (λ p s', ∃ q, p = (if q =? NULL then NULL else q + 32) ∧ malloc_post o (size + 48) s bs fl mm q s') s.
Proof.
  intros Hc Hso Hct Hpos Hlim. unfold SBRK_LIMIT, _size_meta_data, SIZEOF_HEAD, SIZEOF_TAIL in Hlim. unfold smalloc, SIZE_LIMIT.
  destruct (Z.eqb_spec size 0); [lia|]. destruct (Z.ltb_spec 100000000 size); [lia|]. cbn [orb].
  unfold _size_meta_data, SIZEOF_HEAD, SIZEOF_TAIL. rewrite u64_small by lia. change (32 + 16) with 48.
  unfold ALLOC_SBRK, SBRK_LIMIT, _size_meta_data, SIZEOF_HEAD, SIZEOF_TAIL.
  destruct (Z.ltb_spec (size + 48) (128 * 1024 + (32 + 16))); [|lia]. wp_step.
  eapply wp_mono; [eapply (sbrk_malloc_spec o); [exact Hc|done|exact Hct|lia|apply unit3]|].
  intros q s' Hp. apply wp_ret. by exists q.
Qed.

Lemma smalloc_large_wp size s bs fl mm o (Q : Z → heap → Prop) :
  core s bs fl mm → counted_off o s bs mm → SBRK_LIMIT ≤ size + 48 → size ≤ SIZE_LIMIT →
  (∀ s', mmap_at (kern (brk s)) (size + 48) false = None → core s' bs fl mm → memory s' = memory s → Q NULL s') →
  (∀ a s', mmap_at (kern (brk s)) (size + 48) false = Some a → core s' bs fl ((a, size + 48) :: mm) →
     counted_off o s' bs ((a, size + 48) :: mm) → keeps (nodes bs ++ mm) (memory s) (memory s') → Q (a + 32) s') →
  wp (smalloc size) Q s.
Proof.
  intros Hc Hct Hbig Hlim HQ1 HQ2. pose proof Hbig as Hbig'.
  unfold SBRK_LIMIT, SIZE_LIMIT, _size_meta_data, SIZEOF_HEAD, SIZEOF_TAIL in Hbig', Hlim. unfold smalloc, SIZE_LIMIT.
  destruct (Z.eqb_spec size 0); [lia|]. destruct (Z.ltb_spec 100000000 size); [lia|]. cbn [orb].
  unfold _size_meta_data, SIZEOF_HEAD, SIZEOF_TAIL. rewrite u64_small by lia. change (32 + 16) with 48.
  unfold ALLOC_SBRK. destruct (Z.ltb_spec (size + 48) SBRK_LIMIT); [lia|]. wp_step.
  eapply mmap_malloc_spec; [exact Hc|lia|exact Hct|..].
  - intros s' Hn Hc' Hm. apply wp_ret. by apply HQ1.
  - intros a s' Ha Hc' Hct' Hk. pose proof (mmap_at_range _ _ _ _ Ha) as [? _].
    destruct (Z.eqb_spec a NULL) as [E|_]; [unfold NULL in E; lia|]. apply wp_ret. by apply HQ2.
Qed.

(** ** The allocator as its clients see it *)

(** Sizes whose blocks cannot reach [SBRK_LIMIT] by not being split, and large
    ones. *)
Definition served3 (size : Z) : Prop :=
  0 ≤ size ∧ (size + 48 + REDUNDANT_SIZE ≤ SBRK_LIMIT ∨ SBRK_LIMIT ≤ size + 48).

Lemma smalloc_refuses size s : size = 0 ∨ SIZE_LIMIT < size → smalloc size s = Ok NULL s.
Proof.
  intros Hs. unfold smalloc. destruct (Z.eqb_spec size 0); [done|]. destruct (Z.ltb_spec SIZE_LIMIT size); [done|lia].
Qed.

(** When [smalloc] gives nothing: the size is out of range, or the kernel has no
    memory for the block. *)
Definition refused3 (size : Z) (s : heap) : Prop :=
  size = 0 ∨ SIZE_LIMIT < size ∨
  (size + 48 < SBRK_LIMIT ∧ ¬ grants (brk s) (size + 48)) ∨
  (SBRK_LIMIT ≤ size + 48 ∧ mmap_at (kern (brk s)) (size + 48) false = None).

#[export] Instance allocator3 : Allocator := { malloc := smalloc; served := served3; refused := refused3 }.

(** [smalloc] of any size. *)
Lemma smalloc_wp size s bs fl mm :
  core s bs fl mm → fl_sorted fl → 0 ≤ size →
  wp (smalloc size) (λ p s', ∃ bs' fl' mm',
    core s' bs' fl' mm' ∧ fl_sorted fl' ∧ keeps (live bs ++ mm) (memory s) (memory s') ∧
    ((p = NULL ∧ refused3 size s ∧ live bs' ++ mm' ≡ₚ live bs ++ mm) ∨
     (∃ y, p = y.1 + 32 ∧ size ≤ y.2 - 48 ∧ live bs' ++ mm' ≡ₚ y :: live bs ++ mm)) ∧
    (small_live bs → served3 size → small_live bs')) s.
Proof.
  intros Hc Hso Hpos. destruct (counted_some _ _ _ _ Hc) as [o Hct].
  destruct (decide (size = 0 ∨ SIZE_LIMIT < size)) as [Hr|Hr].
  { eapply wp_pure_run; [by apply smalloc_refuses|]. exists bs, fl, mm. do 2 (split; [done|]). split; [apply keeps_refl|].
    split; [left|done]. split; [done|]. split; [unfold refused3; tauto|done]. }
  destruct (Z.lt_ge_cases (size + 48) SBRK_LIMIT) as [Hs|Hl].
  - eapply wp_mono; [eapply smalloc_small_wp; [exact Hc|done|exact Hct|lia|done]|].
    intros p s' (q & -> & bs' & fl' & Hc' & Hso' & Hsa & Hk & Hgr). exists bs', fl', mm. do 3 (split; [done|]).
    destruct (small_alloc_live _ _ _ _ _ _ _ Hsa) as [(-> & -> & ->)|(sz & Hsz & Hlv)].
    + split; [left|done]. split; [done|]. split; [|done]. do 2 right. left. split; [done|]. intros Hg. by destruct (Hgr Hg).
    + assert (Hq : q ≠ NULL).
      { assert (Hin : (q, sz) ∈ live bs' ++ mm) by (rewrite Hlv; left).
        destruct (live_size _ _ _ _ _ Hc' Hin) as (_ & ? & _). cbn in *. unfold NULL. lia. }
      apply Z.eqb_neq in Hq as ->. split.
      * right. exists (q, sz). cbn. split; [lia|]. split; [lia|]. by rewrite Hlv.
      * intros Hsm [_ Hserv]. unfold small_live. rewrite Hlv. constructor; [cbn; lia|done].
  - eapply smalloc_large_wp; [exact Hc|exact Hct|done|lia|..].
    + intros s' Hn Hc' Hm. exists bs, fl, mm. rewrite Hm. do 2 (split; [done|]). split; [apply keeps_refl|].
      split; [left|done]. split; [done|]. split; [unfold refused3; tauto|done].
    + intros a s' _ Hc' _ Hk. exists bs, fl, ((a, size + 48) :: mm). do 2 (split; [done|]).
      split; [eapply keeps_sub; [exact Hk|intros y; apply live_in]|]. split; [right|done]. exists (a, size + 48). cbn.
      split; [done|]. split; [lia|]. symmetry. apply Permutation_middle.
Qed.

#[export] Instance allocator3_spec : AllocatorSpec allocator3.
Proof.
  split. intros size s bs fl mm Hserv (Hc & Hso & Hsm). cbn [malloc allocator3].
  eapply wp_mono; [apply (smalloc_wp size s bs fl mm Hc Hso), Hserv|].
  intros p s' (bs' & fl' & mm' & Hc' & Hso' & Hk & Hcase & Hsm'). exists bs', fl', mm'.
  split; [split; [done|split; [done|by apply Hsm']]|]. done.
Qed.
End Specs.

Section Helpers.
Context {os : OS} {laws : OSLaws os}.

Lemma live_blk_ok s bs fl mm y :
  core s bs fl mm → y ∈ live bs ++ mm → blk_ok (kern (brk s)) (memory s) (global_rand_cookie s) y.1 y.2.
Proof.
  intros Hc [(b & Hb & ->)%elem_of_nodes|Hy]%live_in%elem_of_app; [by apply (co_blk _ _ _ _ Hc)|by apply (co_mm _ _ _ _ Hc)].
Qed.

(** The pages of a large block after [munmap]. *)
Lemma unmapped_after s bs fl mm1 y mm2 :
  core s bs fl (mm1 ++ y :: mm2) → Forall (λ r, r_huge r = false) (k_maps (kern (brk s))) →
  ∀ x, y.1 ≤ x < y.1 + round_up y.2 PAGE → mapped (munmap y.1 y.2 (kern (brk s))).2 x 1 = false.
Proof.
  intros Hc Hh x Hx. destruct (co_mm _ _ _ _ Hc y ltac:(set_solver)) as [Hb _ Hbig (r & Hr & Hlo & Hhi & Hal)]. bk_facts Hb.
  rewrite Forall_forall in Hh. specialize (Hh r Hr). rewrite Hh in Hhi. unfold map_len in Hhi.
  pose proof (co_brk _ _ _ _ Hc) as [B1 B2 B3 B4 B5 B6]. rewrite <- Hlo in *.
  pose proof (munmap_small r y.2 (kern (brk s)) B6 Hr Hh Hhi Hal ltac:(lia)) as [_ Hq].
  destruct (munmap_spec r (r_lo r) y.2 _ B6 Hr) as [U1 U2 U3 U4 U5 U6]; [lia|lia|by apply B5|lia|].
  unfold mapped. rewrite U1, U2. apply orb_false_iff. split.
  - apply andb_false_iff. left. apply andb_false_iff. specialize (B5 r Hr).
    destruct (Z.leb_spec (k_start (kern (brk s))) x); [right; apply Z.leb_gt; lia|by left].
  - apply not_true_iff_false. intros (q & Hqin%list_elem_of_In & Hqx)%existsb_exists. specialize (Hq q Hqin).
    rewrite andb_true_iff, !Z.leb_le in Hqx. unfold region_apart in Hq. lia.
Qed.

(** Releasing what was carved out of the free block [b] gives [b] back. *)
Lemma fit_undo l1 b l2 n :
  coalesced (l1 ++ b :: l2) → bfree b = true → n ≤ bsz b →
  ∃ c l2', l1 ++ fit n b ++ l2 = l1 ++ c :: l2' ∧ ba c = ba b ∧ bfree c = false ∧ bsz c < n + REDUNDANT_SIZE ∧
           freed l1 c l2' = l1 ++ b :: l2.
Proof.
  intros (_ & _ & Hb)%coalesced_mid Hf Hn. destruct (Hb Hf) as [Hl Hr].
  assert (Hpl : pop_left true l1 = (l1, [])).
  { unfold pop_left. destruct (last l1) as [c|]; [|done]. by rewrite (Hl c eq_refl). }
  assert (Hbb : Blk (ba b) (bsz b) true = b) by (rewrite <- Hf; by destruct b).
  unfold fit, splits. destruct (Z.leb_spec REDUNDANT_SIZE (bsz b - n)).
  - exists (Blk (ba b) n false), (Blk (ba b + n) (bsz b - n) true :: l2). split; [done|]. split; [done|]. split; [done|].
    split; [cbn; unfold REDUNDANT_SIZE, _size_meta_data, SIZEOF_HEAD, SIZEOF_TAIL; lia|].
    unfold freed. rewrite Hpl. cbn. rewrite Z.add_0_r. replace (n + (bsz b - n)) with (bsz b) by lia. by rewrite Hbb.
  - exists (set_flag false b), l2. split; [done|]. split; [done|]. split; [done|]. split; [cbn; lia|].
    unfold freed. rewrite Hpl. assert (Hpr : pop_right true l2 = ([], l2)).
    { unfold pop_right. destruct l2 as [|c l2]; [done|]. by rewrite (Hr c eq_refl). }
    rewrite Hpr. cbn. by rewrite Z.add_0_r, Hbb.
Qed.
(** The block an allocation gives out, and what releasing it leads to. *)
Lemma alloc_undo n pb bs fl q bs' fl' :
  small_alloc n pb bs fl q bs' fl' → fl_sorted fl → q ≠ NULL →
  ∃ l1 c l2, bs' = l1 ++ c :: l2 ∧ bfree c = false ∧ ba c = q ∧ bsz c < n + REDUNDANT_SIZE ∧
    live (l1 ++ l2) ≡ₚ live bs ∧
    (coalesced bs → (∃ y, y ∈ fl ∧ n ≤ y.2) → freed l1 c l2 = bs).
Proof.
  intros Hsa Hso Hq. pose proof (best_fit_spec n fl Hso) as Hbf.
  assert (H0 : n < n + REDUNDANT_SIZE) by (unfold REDUNDANT_SIZE, _size_meta_data, SIZEOF_HEAD, SIZEOF_TAIL; lia).
  destruct Hsa as [l1 b l2 -> Hf Hb|l1 b -> Hf Hlt Hn|Hn|Hn]; [| | |done].
  - apply find_some in Hb as [_ Hle%Z.leb_le]. cbn in Hle.
    assert (Hfit : ∃ c l2', l1 ++ fit n b ++ l2 = l1 ++ c :: l2' ∧ bfree c = false ∧ ba c = ba b ∧ bsz c < n + REDUNDANT_SIZE ∧
      live (l1 ++ l2') = live (l1 ++ b :: l2)).
    { unfold fit, splits. destruct (Z.leb_spec REDUNDANT_SIZE (bsz b - n)).
      - exists (Blk (ba b) n false), (Blk (ba b + n) (bsz b - n) true :: l2). rewrite !live_app, !live_cons, Hf. done.
      - exists (set_flag false b), l2. rewrite !live_app, live_cons, Hf. cbn. repeat split; lia. }
    destruct Hfit as (c & l2' & E & Hcf & Hcb & Hcs & Hlv). exists l1, c, l2'. do 4 (split; [done|]). split; [by rewrite Hlv|].
    intros Hco _. destruct (fit_undo l1 b l2 n Hco Hf) as (c' & l3 & E' & _ & _ & _ & Hfr); [lia|].
    rewrite E in E'. by apply app_inv_head in E' as [= -> ->].
  - exists l1, (Blk (ba b) n false), []. do 4 (split; [done|]). split; [by rewrite live_mid_free|].
    intros _ (y & Hy & Hle). rewrite Hn in Hbf. specialize (Hbf y Hy). lia.
  - eexists bs, _, []. do 4 (split; [done|]). split; [by rewrite app_nil_r|].
    intros _ (y & Hy & Hle). rewrite Hn in Hbf. specialize (Hbf y Hy). lia.
Qed.
End Helpers.

(** ** Properties *)

Section Properties.
Context {os : OS} {laws : OSLaws os}.

(** C1: every sequence of [smalloc], [sfree] and writes to its own blocks of a
    client that asks for the sizes of [served3] (all but those less than
    [REDUNDANT_SIZE] below the limit of small blocks) is served.  In every reachable
    state each further request and each release of a pointer the client holds
    returns (no fault, no cookie abort, no endless loop), a request with [NULL] only
    when its size is out of range or the kernel gives no memory; the blocks it holds are
    mapped, at least as large as asked for, and hold the bytes the client left in
    them; two blocks are apart with their headers and tails; and no byte of a block
    belongs to the header or the tail of any block or to a free block.  The kernel
    is one that keeps [OSLaws], with no mapping in the data segment before the
    first call. *)
Theorem malloc3_client_safe (b : brk_state) (c : client)
    (Hb : brk_ok b) (Hh : k_holes (kern b) = []) (Hst : star client_step (Client (init_heap b) [] (λ _, 0)) c) :
  client_safe (c_heap c) (c_blocks c) (c_view c).
Proof. eapply trace_safe; [|exact Hst]. by apply init_client, unit3. Qed.

(** C11: a small request for which the kernel grants memory gets a block: the
    invariant with exact counters holds again, the blocks in use are the old ones
    and the new one, which has at least [size] usable bytes and wastes less than
    [REDUNDANT_SIZE], the bytes of all other blocks are as before, and if no two
    free blocks were adjacent none are now. *)
Theorem smalloc_small_correct (size : Z) (s : heap) (bs : list blk) (fl mm : list node)
    (Hok : heap_ok s bs fl mm) (Hpos : 0 < size) (Hlim : size + 48 < SBRK_LIMIT) (Hg : grants (brk s) (size + 48)) :
  ∃ p s' bs' fl' sz,
    smalloc size s = Ok p s' ∧ heap_ok s' bs' fl' mm ∧ p ≠ NULL ∧
    size + 48 ≤ sz < size + 48 + REDUNDANT_SIZE ∧ live bs' ≡ₚ (p - 32, sz) :: live bs ∧
    keeps (live bs ++ mm) (memory s) (memory s') ∧ (coalesced bs → coalesced bs').
Proof.
  destruct Hok as [Hc Hso Hct%counted_exact].
  destruct (proj1 (wp_run _ _ _) (smalloc_small_wp size s bs fl mm exact Hc Hso Hct Hpos Hlim))
    as (p & s' & Hrun & q & -> & bs' & fl' & Hc' & Hso' & Hsa & Hk & Hgr).
  destruct (Hgr Hg) as [Hq Hct']. destruct (small_alloc_live _ _ _ _ _ _ _ Hsa) as [[? _]|(sz & Hsz & Hlv)]; [done|].
  apply Z.eqb_neq in Hq as Hq'. rewrite Hq' in Hrun. exists (q + 32), s', bs', fl', sz.
  assert (Hin : (q, sz) ∈ live bs' ++ mm) by (rewrite Hlv; left).
  destruct (live_size _ _ _ _ _ Hc' Hin) as (_ & Hpos' & _). cbn in Hpos'.
  split; [done|]. split; [split; [done|done|by apply counted_exact]|]. split; [unfold NULL; lia|]. split; [done|].
  replace (q + 32 - 32) with q by lia. split; [done|]. split; [done|]. by eapply small_alloc_coalesced.
Qed.

(** C7: when a free block is large enough, [smalloc] takes the smallest such
    block, the lowest one among equals, without asking the kernel: the block list
    changes only at that block, which is split exactly when at least
    [REDUNDANT_SIZE] bytes would be left over. *)
Theorem smalloc_best_fit (size : Z) (s : heap) (bs : list blk) (fl mm : list node) (y : node)
    (Hc : core s bs fl mm) (Hso : fl_sorted fl) (Hpos : 0 < size) (Hlim : size + 48 < SBRK_LIMIT)
    (Hy : y ∈ fl) (Hfit : size + 48 ≤ y.2) :
  ∃ l1 b l2 s', bs = l1 ++ b :: l2 ∧ bfree b = true ∧ size + 48 ≤ bsz b ∧
    (∀ z, z ∈ fl → size + 48 ≤ z.2 → z = bnode b ∨ key_lt (bnode b) z = true) ∧
    smalloc size s = Ok (ba b + 32) s' ∧
    core s' (l1 ++ (if REDUNDANT_SIZE <=? bsz b - (size + 48)
                    then [Blk (ba b) (size + 48) false; Blk (ba b + (size + 48)) (bsz b - (size + 48)) true]
                    else [Blk (ba b) (bsz b) false]) ++ l2) (fit_list (size + 48) b fl) mm.
Proof.
  destruct (counted_some _ _ _ _ Hc) as [o Hct].
  destruct (proj1 (wp_run _ _ _) (smalloc_small_wp size s bs fl mm o Hc Hso Hct Hpos Hlim))
    as (p & s' & Hrun & q & -> & bs' & fl' & Hc' & Hso' & Hsa & Hk & Hgr).
  pose proof (best_fit_spec (size + 48) fl Hso) as Hbf.
  destruct Hsa as [l1 b l2 -> Hf Hb|l1 b _ _ _ Hn|Hn|Hn]; [|rewrite Hn in Hbf; specialize (Hbf y Hy); lia..].
  rewrite Hb in Hbf. destruct Hbf as (_ & Hle & Hmin). pose proof (core_range _ _ _ _ _ _ Hc).
  exists l1, b, l2, s'. split; [done|]. split; [done|]. split; [done|]. split; [done|]. split; [|done].
  rewrite Hrun. destruct (Z.eqb_spec (ba b) NULL) as [E|_]; [unfold NULL in E; lia|done].
Qed.

(** C8: [sfree] of a small block in use: the invariant with exact counters holds
    again, the block is joined with its free neighbours, the other blocks in use
    and their bytes are as before, and if no two free blocks were adjacent none
    are now. *)
Theorem sfree_small_correct (s : heap) (l1 : list blk) (b : blk) (l2 : list blk) (fl mm : list node)
    (Hok : heap_ok s (l1 ++ b :: l2) fl mm) (Hf : bfree b = false) (Hlim : bsz b < SBRK_LIMIT) :
  ∃ s' fl',
    sfree (ba b + 32) s = Ok tt s' ∧ heap_ok s' (freed l1 b l2) fl' mm ∧
    live (freed l1 b l2) = live (l1 ++ l2) ∧ keeps (live (l1 ++ l2) ++ mm) (memory s) (memory s') ∧
    (coalesced (l1 ++ b :: l2) → coalesced (freed l1 b l2)).
Proof.
  destruct Hok as [Hc Hso Hct%counted_exact].
  assert (Hwp : wp (sfree (ba b + 32)) (λ _ s', ∃ fl', heap_ok s' (freed l1 b l2) fl' mm ∧
                  keeps (live (l1 ++ l2) ++ mm) (memory s) (memory s')) s).
  { eapply (sfree_small_spec exact); [exact Hc|done|done|done|exact Hct|]. intros s' fl' Hc' Hso' Hct' Hk.
    exists fl'. split; [|done]. split; [done|done|by apply counted_exact]. }
  apply wp_run in Hwp as ([] & s' & Hrun & fl' & Hok' & Hk). exists s', fl'. split; [done|]. split; [done|].
  split; [apply freed_live|]. split; [done|]. by apply freed_coalesced.
Qed.

(** releasing a block a second time, while its header is still that of a
    free block, changes nothing. *)
Theorem sfree_twice (s : heap) (bs : list blk) (fl mm : list node) (b : blk)
    (Hc : core s bs fl mm) (Hb : b ∈ bs) (Hf : bfree b = true) :
  sfree (ba b + 32) s = Ok tt s.
Proof.
  apply list_elem_of_split in Hb as (l1 & l2 & ->).
  pose proof (sfree_twice_spec _ _ _ _ _ _ Hc Hf) as ([] & s' & Hrun & ->)%wp_run. done.
Qed.

(** C29: a write past the end of a block that changes its cookie is detected when
    the block is released, whatever else above the block it overwrote: the
    process exits with [0xdeadbeef] and frees nothing. *)
Theorem sfree_detects_overflow (s : heap) (bs : list blk) (fl mm : list node) (y : node) (m' : gmap Z Z)
    (Hc : core s bs fl mm) (Hy : y ∈ live bs ++ mm) (Hs : same_but (λ x, y.1 + 32 ≤ x) (memory s) m')
    (Hck : load m' (y.1 + y.2 - 16) 4 ≠ global_rand_cookie s) :
  sfree (y.1 + 32) (set_memory m' s) = Exit 0xdeadbeef (set_memory m' s).
Proof.
  assert (Hck0 : global_rand_cookie s ≠ 0).
  { apply (co_cookie' _ _ _ _ Hc). destruct bs; [|by left]. destruct mm; [by apply not_elem_of_nil in Hy|by right]. }
  apply (live_blk_ok _ _ _ _ _ Hc) in Hy as Hb. bk_facts Hb.
  assert (Hsz : load m' y.1 8 = y.2).
  { rewrite <- (bk_size _ _ _ _ _ Hb). eapply same_but_load; [exact Hs|]. intros x Hx. cbn in *. lia. }
  assert (Hm : mapped (kern (brk s)) y.1 8 = true) by (apply Hb; unfold _size_meta_data, SIZEOF_HEAD, SIZEOF_TAIL in *; lia).
  assert (Hm' : mapped (kern (brk s)) (y.1 + y.2 - 16) 4 = true) by (apply Hb; unfold _size_meta_data, SIZEOF_HEAD, SIZEOF_TAIL in *; lia).
  unfold sfree. destruct (Z.eqb_spec (y.1 + 32) NULL) as [E|_]; [unfold NULL in E; lia|]. rewrite u64_back by lia.
  unfold _check_cookie, TAIL_METADATA, get_size, ld, gets, exit, bind, ret. hcbn. change (Z.of_nat 8) with 8. rewrite Hm. hcbn.
  rewrite Hsz. unfold SIZEOF_TAIL. rewrite (u64_small (y.2 - 16)) by lia. rewrite u64_small by lia.
  apply Z.eqb_neq in Hck0 as ->. hcbn. cbv beta iota. replace (y.1 + (y.2 - 16)) with (y.1 + y.2 - 16) by lia. change (Z.of_nat 4) with 4. rewrite Hm'.
  cbv beta iota. rewrite Z.eqb_sym. by apply Z.eqb_neq in Hck as ->.
Qed.

(** a large request either finds no room in the address space and changes no
    block, or gets a page aligned mapping of its own of at least that size,
    disjoint from everything else, with exact counters. *)
Theorem smalloc_large_correct (size : Z) (s : heap) (bs : list blk) (fl mm : list node)
    (Hok : heap_ok s bs fl mm) (Hbig : SBRK_LIMIT ≤ size + 48) (Hlim : size ≤ SIZE_LIMIT) :
  ∃ p s', smalloc size s = Ok p s' ∧ keeps (live bs ++ mm) (memory s) (memory s') ∧
    match mmap_at (kern (brk s)) (size + 48) false with
    | None => p = NULL ∧ core s' bs fl mm
    | Some a => p = a + 32 ∧ a mod PAGE = 0 ∧ heap_ok s' bs fl ((a, size + 48) :: mm) ∧
                all_apart ((a, size + 48) :: nodes bs ++ mm)
    end.
Proof.
  destruct Hok as [Hc Hso Hct%counted_exact]. apply wp_run2.
  eapply smalloc_large_wp; [exact Hc|exact Hct|done|done|..].
  - intros s' -> Hc' Hm. rewrite Hm. split; [apply keeps_refl|done].
  - intros a s' Ha Hc' Hct' Hk. rewrite Ha. split; [eapply keeps_sub; [exact Hk|intros y; apply live_in]|].
    split; [done|]. pose proof (mmap_at_range _ _ _ _ Ha) as (_ & _ & Hal & _). split; [done|].
    split; [split; [done|done|by apply counted_exact]|]. apply core_all_apart in Hc' as Hap.
    eapply all_apart_perm; [|exact Hap]. symmetry. apply Permutation_middle.
Qed.

(** [sfree] of a large block gives exactly its mapping back to the kernel:
    the invariant with exact counters holds without the block, and no address of
    its pages is mapped any more. *)
Theorem sfree_large_correct (s : heap) (bs : list blk) (fl mm1 : list node) (y : node) (mm2 : list node)
    (Hok : heap_ok s bs fl (mm1 ++ y :: mm2)) (Hr : Forall (λ r, r_huge r = false) (k_maps (kern (brk s)))) :
  ∃ s', sfree (y.1 + 32) s = Ok tt s' ∧ heap_ok s' bs fl (mm1 ++ mm2) ∧ memory s' = memory s ∧
    ∀ x, y.1 ≤ x < y.1 + round_up y.2 PAGE → mapped (kern (brk s')) x 1 = false.
Proof.
  destruct Hok as [Hc Hso Hct%counted_exact].
  assert (Hwp : wp (sfree (y.1 + 32)) (λ _ s', heap_ok s' bs fl (mm1 ++ mm2) ∧ memory s' = memory s ∧
    ∀ x, y.1 ≤ x < y.1 + round_up y.2 PAGE → mapped (kern (brk s')) x 1 = false) s).
  { eapply (sfree_large_spec exact); [exact Hc|exact Hct|]. intros s' Hc' Hct' Hm Hk.
    split; [split; [done|done|by apply counted_exact]|]. split; [done|]. rewrite Hk. by eapply unmapped_after. }
  apply wp_run in Hwp as ([] & s' & ? & ?). by exists s'.
Qed.

(** C31: [scalloc] asks for [num * size] bytes modulo [2 ^ 64].  It returns [NULL]
    only when that number is 0 or above the limit, or the kernel has no memory for
    the block; else a new block of at least as many bytes, as many of them zero from
    its start on.  The other blocks keep their contents in both cases, and the
    invariant of the heap holds again. *)
Theorem scalloc_zeroed (num size : Z) (s : heap) (bs : list blk) (fl mm : list node)
    (Hok : heap_ok s bs fl mm) :
  let n := u64 (num * size) in
  ∃ p s' bs' fl' mm', scalloc num size s = Ok p s' ∧ core s' bs' fl' mm' ∧ fl_sorted fl' ∧
    keeps (live bs ++ mm) (memory s) (memory s') ∧
    ((p = NULL ∧ refused3 n s ∧ live bs' ++ mm' ≡ₚ live bs ++ mm) ∨
     (p ≠ NULL ∧ ∃ sz, n ≤ sz - 48 ∧ live bs' ++ mm' ≡ₚ (p - 32, sz) :: live bs ++ mm ∧
            ∀ i, 0 ≤ i < n → rd (memory s') (p + i) = 0)).
Proof.
  intros n. apply wp_run2'. unfold scalloc. fold n. pose proof (u64_range (num * size)) as Hn. fold n in Hn. wp_step.
  destruct Hok as [Hc Hso _]. eapply wp_mono; [apply (smalloc_wp n s bs fl mm Hc Hso); lia|].
  intros p s' (bs' & fl' & mm' & Hc' & Hso' & Hk & Hcase & _). cbv beta.
  destruct Hcase as [(-> & Hp)|(y & -> & Hsz & Hp)].
  { apply wp_ret. exists bs', fl', mm'. do 3 (split; [done|]). by left. }
  assert (Hy : y ∈ live bs' ++ mm') by (rewrite Hp; left).
  destruct (live_size _ _ _ _ _ Hc' Hy) as (_ & Hpos & Hacc).
  destruct (Z.eqb_spec (y.1 + 32) NULL) as [E|Hnn]; [unfold NULL in E; lia|]. wp_step.
  apply wp_memset; [apply Hacc; lia|]. apply wp_ret. exists bs', fl', mm'. change (get_m s') with (memory s').
  assert (Hs : same_but (λ x, y.1 + 32 ≤ x < y.1 + y.2 - 16) (memory s') (memset (memory s') (y.1 + 32) 0 n)).
  { intros x Hx. apply rd_memset_out; [lia|]. lia. }
  split; [|split; [done|split]].
  - apply core_user_write; [done|]. intros x Hx. apply Hs. intros Hx'. apply Hx. exists y. split; [done|lia].
  - intros z x Hz Hx. rewrite <- (Hk z x Hz Hx). apply Hs.
    pose proof (live_all_apart _ _ _ _ Hc') as Hap. apply (all_apart_perm _ _ Hp) in Hap as [Hap _].
    rewrite Forall_forall in Hap. specialize (Hap z Hz). unfold apart, pay in *. lia.
  - right. split; [done|]. exists y.2. replace (y.1 + 32 - 32) with y.1 by lia. split; [done|]. split; [by destruct y|].
    intros i Hi. apply rd_memset_in. lia.
Qed.


(** C30: a small request that the kernel grants memory for, followed by the release
    of its block, leaves the heap well formed with exact counters, the same blocks in
    use and their contents.  When a free block was large enough and no two free
    blocks were neighbours, the list of all blocks and the free list are the old ones
    too.  (A block newly taken from the kernel stays in the heap as a free block.)
    Sizes less than [REDUNDANT_SIZE] below the limit of small blocks are left out. *)
Theorem smalloc_sfree_roundtrip (size : Z) (s : heap) (bs : list blk) (fl mm : list node)
    (Hok : heap_ok s bs fl mm) (Hpos : 0 < size)
    (Hlim : size + 48 + REDUNDANT_SIZE ≤ SBRK_LIMIT) (Hg : grants (brk s) (size + 48)) :
  ∃ p s1 s2 bs2 fl2, smalloc size s = Ok p s1 ∧ p ≠ NULL ∧ sfree p s1 = Ok tt s2 ∧ heap_ok s2 bs2 fl2 mm ∧
    live bs2 ≡ₚ live bs ∧ keeps (live bs ++ mm) (memory s) (memory s2) ∧
    (coalesced bs → (∃ y, y ∈ fl ∧ size + 48 ≤ y.2) → bs2 = bs ∧ fl2 = fl).
Proof.
  destruct Hok as [Hc Hso Hct%counted_exact].
  assert (Hlim' : size + 48 < SBRK_LIMIT) by (unfold REDUNDANT_SIZE, _size_meta_data, SIZEOF_HEAD, SIZEOF_TAIL in Hlim; lia).
  destruct (proj1 (wp_run _ _ _) (smalloc_small_wp size s bs fl mm exact Hc Hso Hct Hpos Hlim'))
    as (p & s1 & Hrun & q & -> & bs' & fl' & Hc' & Hso' & Hsa & Hk & Hgr). destruct (Hgr Hg) as [Hq Hct'].
  destruct (alloc_undo _ _ _ _ _ _ _ Hsa Hso Hq) as (l1 & c & l2 & -> & Hcf & <- & Hcs & Hlv & Hundo).
  assert (Hnn : ba c + 32 ≠ NULL) by (pose proof (core_range _ _ _ _ _ _ Hc'); unfold NULL; lia).
  apply Z.eqb_neq in Hq. rewrite Hq in Hrun. exists (ba c + 32), s1.
  assert (Hwp : wp (sfree (ba c + 32)) (λ _ s2, ∃ bs2 fl2, heap_ok s2 bs2 fl2 mm ∧ live bs2 ≡ₚ live bs ∧
    keeps (live bs ++ mm) (memory s) (memory s2) ∧
    (coalesced bs → (∃ y, y ∈ fl ∧ size + 48 ≤ y.2) → bs2 = bs ∧ fl2 = fl)) s1).
  { eapply (sfree_small_spec exact l1 c l2); [exact Hc'|done|lia|done|exact Hct'|].
    intros s2 fl2 Hc2 Hso2 Hct2%counted_exact Hk2. exists (freed l1 c l2), fl2. split; [by split|].
    rewrite freed_live. split; [done|]. split.
    - eapply keeps_trans; [exact Hk|]. eapply keeps_sub; [exact Hk2|]. intros y. by rewrite Hlv.
    - intros Hco Hy. rewrite Hundo in * by done. split; [done|]. apply (fl_sorted_unique fl2 fl Hso2 Hso).
      by rewrite (co_perm _ _ _ _ Hc2), (co_perm _ _ _ _ Hc). }
  apply wp_run in Hwp as ([] & s2 & Hrun2 & bs2 & fl2 & Hpost). by exists s2, bs2, fl2.
Qed.
End Properties.

(** ** A small heap to try the theorems on

    Two blocks are requested and the first is released:
    [4096, 4244) is then free and [4244, 4492) in use. *)

Definition os3 : OS := demo_os 1000000.

Definition d0 : heap := init_heap demo_brk.
Definition d1 : heap := after (smalloc (os := os3) 100) d0.
Definition d2 : heap := after (smalloc (os := os3) 200) d1.
Definition d3 : heap := after (sfree (os := os3) (B := break3 (os := os3)) 4128) d2.

Lemma d0_ok : heap_ok (B := break3 (os := os3)) d0 [] [] [].
Proof. apply init_ok; [apply demo_brk_ok|done|apply unit3]. Qed.

(** A request that nothing on the free list serves is appended. *)
Lemma demo_append size s bs :
  heap_ok (B := break3 (os := os3)) s bs [] [] → 0 < size → size + 48 < SBRK_LIMIT →
  grants (os := os3) (brk s) (size + 48) → (∀ l b, bs = l ++ [b] → bfree b = false) →
  heap_ok (B := break3 (os := os3)) (after (smalloc (os := os3) size) s)
    (bs ++ [Blk (cur_break (brk s)) (size + 48) false]) [] [].
Proof.
  intros [Hc Hso Hct%counted_exact] Hpos Hlim Hg Hlast.
  pose proof (smalloc_small_wp (os := os3) (laws := demo_laws _) size s bs [] [] exact Hc Hso Hct Hpos Hlim)
    as (p & q & -> & bs' & fl' & Hc' & Hso' & Hsa & _ & Hgr)%wp_after.
  destruct (Hgr Hg) as [Hq Hct'%counted_exact]. destruct Hsa as [l1 b l2 _ _ Hb|l1 b Hbs Hf _ _|_|_]; try done.
  by rewrite (Hlast _ _ Hbs) in Hf.
Qed.

Lemma d1_ok : heap_ok (B := break3 (os := os3)) d1 [Blk 4096 148 false] [] [].
Proof.
  apply (demo_append 100 d0 [] d0_ok); [done|done|apply demo_grants; [done|vm_compute; discriminate|done]|].
  intros l b E. by destruct l.
Qed.

Lemma d2_ok : heap_ok (B := break3 (os := os3)) d2 [Blk 4096 148 false; Blk 4244 248 false] [] [].
Proof.
  apply (demo_append 200 d1 [Blk 4096 148 false] d1_ok); [done|done|apply demo_grants; vm_compute; [done|discriminate|done]|].
  intros l b E. symmetry in E. apply app_singleton in E as [[-> ?]|[? ?]]; by simplify_eq.
Qed.

Lemma d3_ok : heap_ok (B := break3 (os := os3)) d3 [Blk 4096 148 true; Blk 4244 248 false] [(4096, 148)] [].
Proof.
  destruct d2_ok as [Hc Hso Hct%counted_exact].
  assert (Hwp : wp (sfree (os := os3) (B := break3 (os := os3)) 4128)
    (λ _ s', heap_ok (B := break3 (os := os3)) s' [Blk 4096 148 true; Blk 4244 248 false] [(4096, 148)] []) d2).
  { apply (sfree_small_spec (os := os3) (laws := demo_laws _) exact [] (Blk 4096 148 false) [Blk 4244 248 false]) with (fl := []) (mm := []);
      [exact Hc|done|done|done|exact Hct|].
    intros s' fl' Hc' Hso' Hct'%counted_exact _. change (freed [] _ _) with [Blk 4096 148 true; Blk 4244 248 false] in *.
    pose proof (co_perm _ _ _ _ Hc') as Hp. change (free_nodes _) with [(4096, 148)] in Hp.
    apply Permutation_singleton_r in Hp as ->. done. }
  by apply wp_after in Hwp as [_ ?].
Qed.

#[local] Opaque d0 d1 d2 d3.

(** The client writes to the second block before it releases the first. *)
Definition d2w : heap := set_memory (<[4276 + 5 := 7]> (memory d2)) d2.
Definition d3w : heap := after (sfree (os := os3) (B := break3 (os := os3)) 4128) d2w.
Definition demo_view : Z → Z :=
  λ x, if x =? 4276 + 5 then 7
       else learn 4276 (usable d2 4276) (memory d2) (learn 4128 (usable d1 4128) (memory d1) (λ _, 0)) x.

Lemma malloc3_client_safe_witness :
  client_safe (os := os3) (B := break3 (os := os3)) (A := allocator3 (os := os3)) d3w [(4276, 200)] demo_view ∧
  usable d3w 4276 = 200 ∧ demo_view 4281 = 7.
Proof.
  split; [|vm_compute; split; reflexivity].
  apply (malloc3_client_safe (os := os3) (laws := demo_laws _) demo_brk (Client d3w [(4276, 200)] demo_view) demo_brk_ok eq_refl).
  eapply star_step.
  { apply (cs_malloc 100 4128 d0 d1 [] (λ _, 0)); [split; [lia|left; vm_compute; discriminate]|vm_compute; reflexivity]. }
  eapply star_step.
  { eapply (cs_malloc 200 4276 d1 d2); [split; [lia|left; vm_compute; discriminate]|vm_compute; reflexivity]. }
  eapply star_step.
  { eapply (cs_write 4276 200 5 7); [left|vm_compute; split; [discriminate|reflexivity]]. }
  eapply star_step; [|apply star_refl].
  apply (cs_free 4128 100 d2w d3w [(4276, 200)] []). vm_compute. reflexivity.
Defined.

Lemma smalloc_small_correct_witness :
  ∃ p s' bs' fl' sz,
    smalloc (os := os3) 50 d3 = Ok p s' ∧ heap_ok (B := break3 (os := os3)) s' bs' fl' [] ∧ p ≠ NULL ∧
    50 + 48 ≤ sz < 50 + 48 + REDUNDANT_SIZE ∧
    live bs' ≡ₚ (p - 32, sz) :: live [Blk 4096 148 true; Blk 4244 248 false] ∧
    keeps (live [Blk 4096 148 true; Blk 4244 248 false] ++ []) (memory d3) (memory s') ∧
    (coalesced [Blk 4096 148 true; Blk 4244 248 false] → coalesced bs').
Proof.
  apply (smalloc_small_correct (os := os3) (laws := demo_laws _) 50 d3 _ _ _ d3_ok);
    [lia|vm_compute; reflexivity|apply demo_grants; vm_compute; [reflexivity|discriminate|reflexivity]].
Defined.

Lemma smalloc_best_fit_witness :
  ∃ l1 b l2 s', [Blk 4096 148 true; Blk 4244 248 false] = l1 ++ b :: l2 ∧ bfree b = true ∧ 50 + 48 ≤ bsz b ∧
    (∀ z, z ∈ [(4096, 148)] → 50 + 48 ≤ z.2 → z = bnode b ∨ key_lt (bnode b) z = true) ∧
    smalloc (os := os3) 50 d3 = Ok (ba b + 32) s' ∧
    core (B := break3 (os := os3)) s' (l1 ++ (if REDUNDANT_SIZE <=? bsz b - (50 + 48)
                    then [Blk (ba b) (50 + 48) false; Blk (ba b + (50 + 48)) (bsz b - (50 + 48)) true]
                    else [Blk (ba b) (bsz b) false]) ++ l2) (fit_list (50 + 48) b [(4096, 148)]) [].
Proof.
  apply (smalloc_best_fit (os := os3) (laws := demo_laws _) 50 d3 _ _ _ (4096, 148) (ho_core _ _ _ _ d3_ok) (ho_sorted _ _ _ _ d3_ok));
    [lia|vm_compute; reflexivity|left|cbn; lia].
Defined.

Lemma sfree_small_correct_witness :
  ∃ s' fl',
    sfree (os := os3) (B := break3 (os := os3)) (4244 + 32) d3 = Ok tt s' ∧
    heap_ok (B := break3 (os := os3)) s' [Blk 4096 396 true] fl' [] ∧ live [Blk 4096 396 true] = live [Blk 4096 148 true] ∧
    keeps (live [Blk 4096 148 true] ++ []) (memory d3) (memory s') ∧
    (coalesced [Blk 4096 148 true; Blk 4244 248 false] → coalesced [Blk 4096 396 true]).
Proof.
  apply (sfree_small_correct (os := os3) (laws := demo_laws _) d3 [Blk 4096 148 true] (Blk 4244 248 false) [] _ _ d3_ok);
    [reflexivity|vm_compute; reflexivity].
Defined.

Lemma sfree_twice_witness : sfree (os := os3) (B := break3 (os := os3)) (4096 + 32) d3 = Ok tt d3.
Proof.
  apply (sfree_twice (os := os3) (laws := demo_laws _) d3 _ _ _ (Blk 4096 148 true) (ho_core _ _ _ _ d3_ok));
    [left|reflexivity].
Defined.

(** One byte written just past the 200 usable bytes of the second block. *)
Lemma sfree_detects_overflow_witness :
  let m' := <[4476 := 7]> (memory d3) in
  sfree (os := os3) (B := break3 (os := os3)) (4244 + 32) (set_memory m' d3) = Exit 0xdeadbeef (set_memory m' d3).
Proof.
  apply (sfree_detects_overflow (os := os3) d3 _ _ _ (4244, 248) _ (ho_core _ _ _ _ d3_ok)).
  - left.
  - intros x Hx. apply rd_insert_ne. cbn in Hx. lia.
  - vm_compute. discriminate.
Defined.

Lemma scalloc_zeroed_witness :
  let n := u64 (5 * 10) in
  ∃ p s' bs' fl' mm', scalloc (os := os3) 5 10 d3 = Ok p s' ∧ core (B := break3 (os := os3)) s' bs' fl' mm' ∧ fl_sorted fl' ∧
    keeps (live [Blk 4096 148 true; Blk 4244 248 false] ++ []) (memory d3) (memory s') ∧
    ((p = NULL ∧ refused3 (os := os3) n d3 ∧ live bs' ++ mm' ≡ₚ live [Blk 4096 148 true; Blk 4244 248 false] ++ []) ∨
     (p ≠ NULL ∧ ∃ sz, n ≤ sz - 48 ∧ live bs' ++ mm' ≡ₚ (p - 32, sz) :: live [Blk 4096 148 true; Blk 4244 248 false] ++ [] ∧
            ∀ i, 0 ≤ i < n → rd (memory s') (p + i) = 0)).
Proof. apply (scalloc_zeroed (os := os3) (laws := demo_laws _) 5 10 d3 _ [(4096, 148)] [] d3_ok). Defined.

(** A third block is requested and released: the second block has two free
    neighbours. *)
Definition d5 : heap := after (smalloc (os := os3) 100) d2.
Definition d6 : heap := after (sfree (os := os3) (B := break3 (os := os3)) 4128) d5.
Definition d7 : heap := after (sfree (os := os3) (B := break3 (os := os3)) 4524) d6.

Lemma d5_ok : heap_ok (B := break3 (os := os3)) d5 [Blk 4096 148 false; Blk 4244 248 false; Blk 4492 148 false] [] [].
Proof.
  apply (demo_append 100 d2 [Blk 4096 148 false; Blk 4244 248 false] d2_ok);
    [done|done|apply demo_grants; vm_compute; [done|discriminate|done]|].
  intros l b E. destruct l as [|? [|? [|? ?]]]; cbn in E; by simplify_eq.
Qed.

Lemma demo_release s l1 b l2 fl :
  heap_ok (B := break3 (os := os3)) s (l1 ++ b :: l2) fl [] → bfree b = false → bsz b < SBRK_LIMIT →
  ∃ fl', heap_ok (B := break3 (os := os3)) (after (sfree (os := os3) (B := break3 (os := os3)) (ba b + 32)) s) (freed l1 b l2) fl' [].
Proof.
  intros [Hc Hso Hct%counted_exact] Hf Hs.
  assert (Hwp : wp (sfree (os := os3) (B := break3 (os := os3)) (ba b + 32))
    (λ _ s', ∃ fl', heap_ok (B := break3 (os := os3)) s' (freed l1 b l2) fl' []) s).
  { eapply (sfree_small_spec (os := os3) (laws := demo_laws _) exact l1 b l2); [exact Hc|done|done|done|exact Hct|].
    intros s' fl' Hc' Hso' Hct'%counted_exact _. by exists fl'. }
  by apply wp_after in Hwp as [_ ?].
Qed.

Lemma d7_ok : ∃ fl, heap_ok (B := break3 (os := os3)) d7 [Blk 4096 148 true; Blk 4244 248 false; Blk 4492 148 true] fl [].
Proof.
  destruct (demo_release d5 [] (Blk 4096 148 false) [Blk 4244 248 false; Blk 4492 148 false] [] d5_ok) as [fl6 H6]; [done|done|].
  by apply (demo_release d6 [Blk 4096 148 true; Blk 4244 248 false] (Blk 4492 148 false) [] fl6).
Qed.

#[local] Opaque d5 d6 d7.


Lemma smalloc_sfree_roundtrip_witness :
  ∃ p s1 s2 bs2 fl2, smalloc (os := os3) 50 d3 = Ok p s1 ∧ p ≠ NULL ∧ sfree (os := os3) (B := break3 (os := os3)) p s1 = Ok tt s2 ∧
    heap_ok (B := break3 (os := os3)) s2 bs2 fl2 [] ∧
    live bs2 ≡ₚ live [Blk 4096 148 true; Blk 4244 248 false] ∧
    keeps (live [Blk 4096 148 true; Blk 4244 248 false] ++ []) (memory d3) (memory s2) ∧
    (coalesced [Blk 4096 148 true; Blk 4244 248 false] → (∃ y, y ∈ [(4096, 148)] ∧ 50 + 48 ≤ y.2) →
      bs2 = [Blk 4096 148 true; Blk 4244 248 false] ∧ fl2 = [(4096, 148)]).
Proof.
  apply (smalloc_sfree_roundtrip (os := os3) (laws := demo_laws _) 50 d3 _ _ _ d3_ok);
    [lia|vm_compute; discriminate|apply demo_grants; vm_compute; [reflexivity|discriminate|reflexivity]].
Defined.

(** A large block is added to the example heap. *)
Definition d4 : heap := after (smalloc (os := os3) 200000) d3.

Lemma d3_mmap : mmap_at (OS := os3) (kern (brk d3)) (200000 + 48) false = Some (2 ^ 46).
Proof. vm_compute. reflexivity. Qed.

Lemma d4_ok :
  heap_ok (B := break3 (os := os3)) d4 [Blk 4096 148 true; Blk 4244 248 false] [(4096, 148)] [(2 ^ 46, 200048)].
Proof.
  destruct d3_ok as [Hc Hso Hct%counted_exact].
  assert (Hwp : wp (smalloc (os := os3) 200000) (λ _ s', heap_ok (B := break3 (os := os3)) s'
    [Blk 4096 148 true; Blk 4244 248 false] [(4096, 148)] [(2 ^ 46, 200048)]) d3).
  { eapply (smalloc_large_wp (os := os3) (laws := demo_laws _)); [exact Hc|exact Hct|vm_compute; discriminate|vm_compute; discriminate|..].
    - intros s' Hn. rewrite d3_mmap in Hn. discriminate Hn.
    - intros a s' Ha Hc' Hct'%counted_exact _. rewrite d3_mmap in Ha. injection Ha as <-. by split. }
  by apply wp_after in Hwp as [_ ?].
Qed.

Lemma smalloc_large_correct_witness :
  ∃ p s', smalloc (os := os3) 200000 d3 = Ok p s' ∧
    keeps (live [Blk 4096 148 true; Blk 4244 248 false] ++ []) (memory d3) (memory s') ∧
    match mmap_at (OS := os3) (kern (brk d3)) (200000 + 48) false with
    | None => p = NULL ∧ core (B := break3 (os := os3)) s' [Blk 4096 148 true; Blk 4244 248 false] [(4096, 148)] []
    | Some a => p = a + 32 ∧ a mod PAGE = 0 ∧
        heap_ok (B := break3 (os := os3)) s' [Blk 4096 148 true; Blk 4244 248 false] [(4096, 148)] [(a, 200000 + 48)] ∧
        all_apart ((a, 200000 + 48) :: nodes [Blk 4096 148 true; Blk 4244 248 false] ++ [])
    end.
Proof.
  apply (smalloc_large_correct (os := os3) (laws := demo_laws _) 200000 d3 _ _ _ d3_ok); vm_compute; discriminate.
Defined.

Lemma sfree_large_correct_witness :
  ∃ s', sfree (os := os3) (B := break3 (os := os3)) (2 ^ 46 + 32) d4 = Ok tt s' ∧
    heap_ok (B := break3 (os := os3)) s' [Blk 4096 148 true; Blk 4244 248 false] [(4096, 148)] [] ∧ memory s' = memory d4 ∧
    ∀ x, 2 ^ 46 ≤ x < 2 ^ 46 + round_up 200048 PAGE → mapped (kern (brk s')) x 1 = false.
Proof.
  apply (sfree_large_correct (os := os3) (laws := demo_laws _) d4 _ _ [] (2 ^ 46, 200048) [] d4_ok).
  vm_compute. repeat constructor.
Defined.

(** ** Where the code does not do what it means to *)

(** The kernel of these examples grants no break above 5000. *)
Definition os_tight : OS := demo_os 5000.

(** [_sbrk_malloc] counts the block before it looks whether there is one: a
    refused request leaves one allocated block of 1000 bytes in the statistics. *)
Theorem smalloc_refused_counts :
  observe (smalloc (os := os_tight) 1000) d0 (λ p s', (p, allocated_blocks_num s', allocated_bytes_num s'))
  = Some (NULL, 1, 1000).
Proof. vm_compute. reflexivity. Qed.

(** [_sbrk_realloc] does not look whether the last block could grow: the caller
    gets the pointer [0 + sizeof(head_metadata_t)] for a refused request. *)
Theorem srealloc_refused_pointer :
  observe (let* p := smalloc (os := os_tight) 100 in srealloc (os := os_tight) p 2000) d0 (λ p _, p) = Some 32.
Proof. vm_compute. reflexivity. Qed.

(** A block of the data segment that [srealloc] grew beyond [SBRK_LIMIT] is taken
    for a mapping by [sfree], which cuts a hole into the data segment; the next
    request then faults. *)
Theorem sfree_grown_block_faults :
  (let* p := smalloc (os := os3) 100 in
   let* q := srealloc (os := os3) p 200000 in
   sfree (os := os3) (B := break3 (os := os3)) q ;;;
   smalloc (os := os3) 10) d0 = Fault.
Proof. vm_compute. reflexivity. Qed.

(** [srealloc] copies the new size, not the smaller of the two sizes, and so reads
    beyond the old block, here beyond its mapping. *)
Theorem srealloc_grow_overread :
  (let* p := smalloc (os := os3) 200000 in srealloc (os := os3) p 3000000) d0 = Fault.
Proof. vm_compute. reflexivity. Qed.

(** [num * size] wraps around: a request for 2^64 + 16 bytes gets a block of 16. *)
Theorem scalloc_wraps :
  observe (scalloc (os := os3) (2 ^ 60 + 1) 16) d0 (λ p s', (p, usable s' p)) = Some (4128, 16).
Proof. vm_compute. reflexivity. Qed.

(** When joining with the left neighbour is not enough, [_sbrk_realloc] has moved
    the block already and [srealloc] goes on with the old address: the joined
    block of 296 bytes at 4096 stays in use for ever, and its second half is put
    on the free list. *)
Theorem srealloc_leaks_joined_block :
  observe (let* a := smalloc (os := os3) 100 in
           let* b := smalloc (os := os3) 100 in
           let* c := smalloc (os := os3) 100 in
           sfree (os := os3) (B := break3 (os := os3)) a ;;;
           srealloc (os := os3) b 5000) d0
    (λ p s', (p, load (memory s') 4096 8, load (memory s') (4096 + 8) 8, sbrk_free_head s', load (memory s') 4244 8))
  = Some (4572, 296, 0, 4244, 148).
Proof. vm_compute. reflexivity. Qed.
