(* ===== verification/Malloc4.v ===== *)
(** * [hw4/wet_4/malloc_4.cpp]: aligned blocks and huge pages

    The functions on the segregated heap are the text of [malloc_3.cpp]; here they
    are the definitions of [SbrkHeap] with the [_sbrk] of this file, which keeps
    the break a multiple of eight.  New are the rounding of the sizes and the
    mappings of huge pages. *)

From S2P Require Import Prelude Memory Kernel Machine Malloc1 SbrkHeap FreeList HeapInv HeapOps HeapMerge HeapRealloc HeapTrace.

Definition HUGE_PAGE_LIMIT : Z := 4 * 1024 * 1024.
Definition SCALLOC_HUGE_PAGE_LIMIT : Z := 2 * 1024 * 1024.

Inductive mmap_page_type_e := REGULAR_PAGE | HUGE_PAGE.
Definition page_code (t : mmap_page_type_e) : Z := match t with REGULAR_PAGE => 0 | HUGE_PAGE => 1 end.

Definition _8_bit_align (size : Z) : Z :=
  if negb (size mod 8 =? 0) then u64 (Z.land size (u64 (-8)) + 8) else size.

(** The static [program_break] and its adjustment at the start of [_sbrk]. *)
Definition align_break {os : OS} (b : brk_state) : Z * brk_state :=
  let '(pb, b) := init_program_break b in
  if negb (pb mod 8 =? 0) then
    let '(_, k) := sbrk (8 - pb mod 8) (kern b) in
    let '(r, k) := sbrk 0 k in
    (r, BrkState k (Some r))
  else (pb, b).

Definition _sbrk {os : OS} (delta : Z) (b : brk_state) : Z * brk_state :=
  let '(pb, b) := align_break b in
  sbrk_move pb delta b.

#[export] Instance break4 {os : OS} : Break := {
  brk_move := _sbrk;
  brk_unit := 8
}.

Section Malloc4.
Context {os : OS}.

(** The functions that are the same text as in [malloc_3.cpp]. *)
Definition _num_free_blocks : M heap Z := SbrkHeap._num_free_blocks.
Definition _num_free_bytes : M heap Z := SbrkHeap._num_free_bytes.
Definition _num_allocated_blocks : M heap Z := SbrkHeap._num_allocated_blocks.
Definition _num_allocated_bytes : M heap Z := SbrkHeap._num_allocated_bytes.
Definition _num_meta_data_bytes : M heap Z := SbrkHeap._num_meta_data_bytes.
Definition _set_tail : Z → M heap unit := SbrkHeap._set_tail.
Definition _check_cookie : Z → M heap unit := SbrkHeap._check_cookie.
Definition _init_sbrk_alloc_block : Z → Z → bool → M heap Z := SbrkHeap._init_sbrk_alloc_block.
Definition _wilderness_sbrk_block_increase : Z → Z → M heap Z := SbrkHeap._wilderness_sbrk_block_increase.
Definition _find_sbrk_free_block : Z → M heap Z := SbrkHeap._find_sbrk_free_block.
Definition _add_sbrk_free_block : Z → M heap unit := SbrkHeap._add_sbrk_free_block.
Definition _remove_sbrk_free_block : Z → M heap unit := SbrkHeap._remove_sbrk_free_block.
Definition _init_sbrk_free_block : Z → Z → M heap unit := SbrkHeap._init_sbrk_free_block.
Definition _merge_sbrk_blocks : Z → bool → bool → bool → M heap Z := SbrkHeap._merge_sbrk_blocks.
Definition _sbrk_malloc : Z → M heap Z := SbrkHeap._sbrk_malloc.
Definition _sbrk_free : Z → M heap unit := SbrkHeap._sbrk_free.
Definition _mmap_free : Z → M heap unit := SbrkHeap._mmap_free.
Definition sfree : Z → M heap unit := SbrkHeap.sfree.
Definition _sbrk_realloc : Z → Z → M heap Z := SbrkHeap._sbrk_realloc.

Definition is_huge (block_size : Z) (force_hugepage : bool) : bool :=
  force_hugepage || (HUGE_PAGE_LIMIT <=? block_size).

Definition _mmap_malloc (block_size : Z) (force_hugepage : bool) : M heap Z :=
  let* mmap_addr :=
    (λ s, let '(r, k) := mmap block_size (is_huge block_size force_hugepage) (kern (brk s)) in
          Ok r (set_brk (BrkState k (program_break (brk s))) s)) in
  if mmap_addr =? FAILED then ret NULL
  else
    _init_sbrk_alloc_block mmap_addr block_size false ;;;
    (if is_huge block_size force_hugepage
     then put_next mmap_addr (page_code HUGE_PAGE)
     else put_next mmap_addr (page_code REGULAR_PAGE)) ;;;
    modify (add_counts 0 0 1 (u64 (block_size - _size_meta_data))) ;;;
    ret mmap_addr.

Definition smalloc (size : Z) : M heap Z :=
  let size := _8_bit_align size in
  if (size =? 0) || (SIZE_LIMIT <? size) then ret NULL
  else
    let block_size := u64 (size + _size_meta_data) in
    let* block :=
      (if ALLOC_SBRK block_size then _sbrk_malloc block_size else _mmap_malloc block_size false) in
    ret (if block =? NULL then NULL else block + SIZEOF_HEAD).

Definition scalloc (num size : Z) : M heap Z :=
  let size := _8_bit_align (u64 (num * size)) in
  if (size =? 0) || (SIZE_LIMIT <? size) then ret NULL
  else
    let block_size := u64 (size + _size_meta_data) in
    let* alloc :=
      (if SCALLOC_HUGE_PAGE_LIMIT + _size_meta_data <? block_size then
         let* block := _mmap_malloc block_size true in
         ret (if block =? NULL then NULL else block + SIZEOF_HEAD)
       else smalloc size) in
    if alloc =? NULL then ret NULL
    else
      c_memset alloc 0 size ;;;
      ret alloc.

Definition srealloc (oldp size : Z) : M heap Z :=
  let size := _8_bit_align size in
  if oldp =? NULL then smalloc size
  else
    let old_block := u64 (oldp - SIZEOF_HEAD) in
    if (size =? 0) || (SIZE_LIMIT <? size) then ret NULL
    else
      let block_size := u64 (size + _size_meta_data) in
      let* b := IS_SBRK_ALLOC old_block in
      let* newp := (if b then _sbrk_realloc old_block block_size else ret NULL) in
      if b && negb (newp =? NULL) then ret newp
      else
        let* osize := get_size old_block in
        if osize =? block_size then ret oldp
        else
          let* b := IS_SBRK_ALLOC old_block in
          let* next := (if b then ret 0 else get_next old_block) in
          let* newp :=
            (if negb b && (next =? page_code HUGE_PAGE) then
               let* block := _mmap_malloc block_size true in
               ret (if block =? NULL then NULL else block + SIZEOF_HEAD)
             else smalloc size) in
          if newp =? NULL then ret NULL
          else
            c_memmove newp oldp size ;;;
            sfree oldp ;;;
            ret newp.
End Malloc4.

(** ** Rounding *)

Lemma land_minus_8 z : 0 ≤ z < 2 ^ 64 → Z.land z (u64 (-8)) = z - z mod 8.
Proof.
  intros Hz. replace (u64 (-8)) with (Z.ldiff (Z.ones 64) (Z.ones 3)) by done.
  rewrite Z.ldiff_land, Z.land_assoc, Z.land_ones, Z.mod_small by lia.
  rewrite <- Z.ldiff_land, Z.ldiff_ones_r, Z.shiftl_mul_pow2, Z.shiftr_div_pow2 by lia.
  change (2 ^ 3) with 8. pose proof (Z.div_mod z 8). lia.
Qed.

(** The rounded size is the next multiple of eight, as long as it can be
    represented. *)
Lemma align_spec z : 0 ≤ z ≤ 2 ^ 64 - 8 → (8 | _8_bit_align z) ∧ z ≤ _8_bit_align z < z + 8.
Proof.
  intros Hz. unfold _8_bit_align. pose proof (Z.mod_pos_bound z 8 ltac:(lia)).
  destruct (Z.eqb_spec (z mod 8) 0) as [E|E]; cbn [negb].
  - split; [by apply Z.mod_divide|lia].
  - rewrite land_minus_8 by lia.
    assert (Hd : (8 | z - z mod 8)) by (exists (z / 8); pose proof (Z.div_mod z 8); lia).
    assert (z - z mod 8 + 8 ≤ 2 ^ 64 - 8).
    { destruct Hd as [q Hq]. assert (z - z mod 8 < 2 ^ 64 - 8) by lia. rewrite Hq in *. lia. }
    rewrite u64_small by lia. split; [apply Z.divide_add_r; [done|apply Z.divide_refl]|lia].
Qed.

Lemma align_fix z : (8 | z) → _8_bit_align z = z.
Proof. intros [q ->]. unfold _8_bit_align. by rewrite Z.mod_mul. Qed.

(** ** [_sbrk] *)

#[export] Instance break4_laws {os : OS} {laws : OSLaws os} : BreakLaws break4.
Proof.
  assert (Hal : ∀ b, (8 | cur_break b) → align_break b = (cur_break b, BrkState (kern b) (Some (cur_break b)))).
  { intros b [q Hq]. unfold align_break. rewrite init_program_break_eq, Hq, Z.mod_mul by done. cbn. by rewrite <- Hq. }
  split; [done|..].
  - intros b _ Hu. cbn [brk_move break4]. unfold _sbrk. by rewrite Hal.
  - intros b d Hb Hu Hd _. pose proof (_sbrk_spec d b Hb Hd) as Hs. cbn [brk_move break4] in *.
    unfold _sbrk. rewrite Hal by done. unfold Malloc1._sbrk in Hs. rewrite init_program_break_eq in Hs.
    destruct (sbrk_move _ d _) as [r b']. destruct Hs as [(-> & Hg & Hng)|[-> Hg]]; [left|right]; eauto.
Qed.

(** The address of every block is a multiple of eight. *)
Lemma chain_aligned u a bs e b :
  chain a bs e → (u | e) → (∀ c, c ∈ bs → (u | bsz c)) → b ∈ bs → (u | ba b).
Proof.
  intros Hch He Hs (l1 & l2 & ->)%list_elem_of_split. apply chain_mid in Hch as (_ & Hmin & Hch).
  pose proof (chain_total _ _ _ Hch) as ->.
  assert (Hd : (u | bsz b + total l2)).
  { apply (chain_unit u (ba b) _ (b :: l2)); [|set_solver]. split; [done|]. split; [done|]. by rewrite Z.add_assoc. }
  replace (ba b) with (ba b + bsz b + total l2 - (bsz b + total l2)) by lia. by apply Z.divide_sub_r.
Qed.

Section Specs.
Context {os : OS} {laws : OSLaws os}.

Lemma core_aligned s bs fl mm y : core s bs fl mm → y ∈ nodes bs ++ mm → (8 | y.1).
Proof.
  intros Hc [(b & Hb & ->)%elem_of_nodes|Hy]%elem_of_app.
  - destruct (co_chain _ _ _ _ Hc) as [[_ ->]|(_ & _ & Hch)]; [by apply not_elem_of_nil in Hb|].
    eapply chain_aligned; [exact Hch|apply (co_unit _ _ _ _ Hc)| |done].
    intros c Hcin. apply (gb_unit _ _ _ _ (co_blk _ _ _ _ Hc c Hcin)).
  - destruct (gm_region _ _ _ _ (co_mm _ _ _ _ Hc y Hy)) as (r & _ & _ & _ & Hal).
    apply Z.mod_divide in Hal as [q ->]; [|done]. exists (q * 512). unfold PAGE. lia.
Qed.

(** ** Large blocks *)

Lemma mmap_malloc4_spec n force s bs fl mm o (Q : Z → heap → Prop) :
  core s bs fl mm → SBRK_LIMIT ≤ n < 2 ^ 47 → counted_off o s bs mm →
  (∀ s', mmap_at (kern (brk s)) n (is_huge n force) = None → core s' bs fl mm → memory s' = memory s → Q NULL s') →
  (∀ a s', mmap_at (kern (brk s)) n (is_huge n force) = Some a → core s' bs fl ((a, n) :: mm) →
     counted_off o s' bs ((a, n) :: mm) → keeps (nodes bs ++ mm) (memory s) (memory s') →
     load (memory s') (a + 16) 8 = (if is_huge n force then 1 else 0) →
     Region a (a + map_len n (is_huge n force)) (is_huge n force) ∈ k_maps (kern (brk s')) → Q a s') →
  wp (_mmap_malloc n force) Q s.
Proof.
  intros Hc Hn Hct HQ1 HQ2. unfold _mmap_malloc. wp_step. unfold wp at 1. pose proof Hn as Hn'.
  unfold SBRK_LIMIT, _size_meta_data, SIZEOF_HEAD, SIZEOF_TAIL in Hn'.
  set (huge := is_huge n force) in *.
  destruct (mmap_at (kern (brk s)) n huge) as [a|] eqn:Em.
  - pose proof (mmap_at_range _ _ _ _ Em) as (Ha & Hmax & _). unfold ADDR_MAX in Hmax. pose proof (map_len_ge n huge).
    assert (Hmm : mmap n huge (kern (brk s)) = (a, (mmap n huge (kern (brk s))).2)) by (unfold mmap; by rewrite Em).
    rewrite Hmm. destruct (Z.eqb_spec a FAILED) as [E|_]; [unfold FAILED in E; lia|].
    wp_step. eapply core_map_block; [exact Hc|lia|exact Em|]. intros pos c m' s' Hc' Hap Hs.
    assert (Hy : (a, n) ∈ live bs ++ (a, n) :: mm) by set_solver.
    assert (Hacc : accessible (kern (brk s')) a n).
    { apply (bk_acc _ _ _ _ _ (gm_ok _ _ _ _ (co_mm _ _ _ _ Hc' (a, n) ltac:(left)))). }
    assert (Hreg : Region a (a + map_len n huge) huge ∈ k_maps (kern (brk s'))).
    { change (kern (brk s')) with (mmap n huge (kern (brk s))).2. unfold mmap. rewrite Em. left. }
    assert (Hk' : keeps (nodes bs ++ mm) (memory s) m').
    { eapply core_keeps; [exact Hc|exact Hs|]. intros x Hx. right.
      apply (apart_in_nodes (a, n)); [exact Hap|]. unfold meta_bytes in Hx. cbn. lia. }
    assert (Hfin : ∀ v, 0 ≤ v < 2 ^ 64 → v = (if huge then 1 else 0) →
      wp (modify (add_counts 0 0 1 (u64 (n - _size_meta_data))) ;;; ret a) Q (set_memory (store (memory s') (a + 16) 8 v) s')).
    { intros v Hv Hvh. apply wp_bind, wp_modify, wp_ret, HQ2; [done|..].
      - apply core_add_counts, core_user_write; [done|]. apply same_but_store. intros x Hx. exists (a, n).
        split; [done|]. cbn. lia.
      - eapply counted_by_eq; [apply (counted_add _ _ _ _ 0 0 1 (u64 (n - _size_meta_data)) _ Hct)|..];
          unfold _size_meta_data, SIZEOF_HEAD, SIZEOF_TAIL in *; rewrite ?u64_small by lia; count_blocks.
      - eapply keeps_trans; [exact Hk'|]. intros y x Hyin Hx. apply rd_store_out.
        rewrite Forall_forall in Hap. specialize (Hap y Hyin). unfold apart, pay in *. cbn in *. lia.
      - change (memory (add_counts _ _ _ _ _)) with (store (memory s') (a + 16) 8 v). rewrite load_store8_eq; done.
      - exact Hreg. }
    wp_step. destruct huge; unfold put_next; (apply wp_st; [apply Hacc; cbn; lia|]); by apply Hfin.
  - unfold mmap. rewrite Em. cbn [Z.eqb FAILED]. apply wp_ret, HQ1; [done| |done]. eapply core_tick, Hc.
Qed.

(** ** [smalloc] *)

Lemma smalloc4_small_wp size s bs fl mm o :
  core s bs fl mm → fl_sorted fl → counted_off o s bs mm → 0 < size ≤ 2 ^ 64 - 8 → _8_bit_align size + 48 < SBRK_LIMIT →
  wp (smalloc size) (λ p s', ∃ q, p = (if q =? NULL then NULL else q + 32) ∧
    malloc_post o (_8_bit_align size + 48) s bs fl mm q s') s.
Proof.
  intros Hc Hso Hct Hpos Hlim. destruct (align_spec size ltac:(lia)) as [Hd Hle].
  unfold SBRK_LIMIT, _size_meta_data, SIZEOF_HEAD, SIZEOF_TAIL in Hlim. unfold smalloc, SIZE_LIMIT. cbv zeta.
  destruct (Z.eqb_spec (_8_bit_align size) 0); [lia|]. destruct (Z.ltb_spec 100000000 (_8_bit_align size)); [lia|]. cbn [orb].
  unfold _size_meta_data, SIZEOF_HEAD, SIZEOF_TAIL. rewrite u64_small by lia. change (32 + 16) with 48.
  unfold ALLOC_SBRK, SBRK_LIMIT, _size_meta_data, SIZEOF_HEAD, SIZEOF_TAIL.
  destruct (Z.ltb_spec (_8_bit_align size + 48) (128 * 1024 + (32 + 16))); [|lia]. wp_step. unfold _sbrk_malloc.
  eapply wp_mono; [eapply (sbrk_malloc_spec o); [exact Hc|done|exact Hct|lia|apply Z.divide_add_r; [done|by exists 6]]|].
  intros q s' Hp. apply wp_ret. by exists q.
Qed.

Lemma smalloc4_large_wp size s bs fl mm o (Q : Z → heap → Prop) :
  let n := _8_bit_align size + 48 in
  core s bs fl mm → counted_off o s bs mm → SBRK_LIMIT ≤ n → _8_bit_align size ≤ SIZE_LIMIT →
  (∀ s', mmap_at (kern (brk s)) n (is_huge n false) = None → core s' bs fl mm → memory s' = memory s → Q NULL s') →
  (∀ a s', mmap_at (kern (brk s)) n (is_huge n false) = Some a → core s' bs fl ((a, n) :: mm) →
     counted_off o s' bs ((a, n) :: mm) → keeps (nodes bs ++ mm) (memory s) (memory s') →
     load (memory s') (a + 16) 8 = (if is_huge n false then 1 else 0) →
     Region a (a + map_len n (is_huge n false)) (is_huge n false) ∈ k_maps (kern (brk s')) → Q (a + 32) s') →
  wp (smalloc size) Q s.
Proof.
  intros n Hc Hct Hbig Hlim HQ1 HQ2. pose proof Hbig as Hbig'. unfold n in Hbig'.
  unfold SBRK_LIMIT, SIZE_LIMIT, _size_meta_data, SIZEOF_HEAD, SIZEOF_TAIL in Hbig', Hlim. unfold smalloc, SIZE_LIMIT. cbv zeta.
  destruct (Z.eqb_spec (_8_bit_align size) 0); [lia|]. destruct (Z.ltb_spec 100000000 (_8_bit_align size)); [lia|]. cbn [orb].
  unfold _size_meta_data, SIZEOF_HEAD, SIZEOF_TAIL. rewrite u64_small by lia. change (32 + 16) with 48. fold n.
  unfold ALLOC_SBRK. destruct (Z.ltb_spec n SBRK_LIMIT); [lia|]. wp_step.
  eapply mmap_malloc4_spec; [exact Hc|unfold n in *; lia|exact Hct|..].
  - intros s' Hn Hc' Hm. apply wp_ret. by apply HQ1.
  - intros a s' Ha Hc' Hct' Hk Hnx Hreg. pose proof (mmap_at_range _ _ _ _ Ha) as [? _].
    destruct (Z.eqb_spec a NULL) as [E|_]; [unfold NULL in E; lia|]. apply wp_ret. by apply HQ2.
Qed.

(** ** The allocator as its clients see it *)

Definition served4 (size : Z) : Prop :=
  0 ≤ size ≤ 2 ^ 64 - 8 ∧
  (_8_bit_align size + 48 + REDUNDANT_SIZE ≤ SBRK_LIMIT ∨ SBRK_LIMIT ≤ _8_bit_align size + 48).

Definition refused4 (size : Z) (s : heap) : Prop :=
  let n := _8_bit_align size + 48 in
  _8_bit_align size = 0 ∨ SIZE_LIMIT < _8_bit_align size ∨
  (n < SBRK_LIMIT ∧ ¬ grants (brk s) n) ∨
  (SBRK_LIMIT ≤ n ∧ mmap_at (kern (brk s)) n (is_huge n false) = None).

#[export] Instance allocator4 : Allocator := { malloc := smalloc; served := served4; refused := refused4 }.

Lemma smalloc4_refuses size s : _8_bit_align size = 0 ∨ SIZE_LIMIT < _8_bit_align size → smalloc size s = Ok NULL s.
Proof.
  intros Hs. unfold smalloc. cbv zeta. destruct (Z.eqb_spec (_8_bit_align size) 0); [done|].
  destruct (Z.ltb_spec SIZE_LIMIT (_8_bit_align size)); [done|lia].
Qed.

#[export] Instance allocator4_spec : AllocatorSpec allocator4.
Proof.
  split. intros size s bs fl mm [Hpos Hserv] (Hc & Hso & Hsm). cbn [malloc allocator4].
  destruct (counted_some _ _ _ _ Hc) as [o Hct]. destruct (align_spec size Hpos) as [Hd Hle].
  destruct (decide (_8_bit_align size = 0 ∨ SIZE_LIMIT < _8_bit_align size)) as [Hr|Hr].
  { eapply wp_pure_run; [by apply smalloc4_refuses|]. exists bs, fl, mm. split; [done|]. split; [apply keeps_refl|].
    left. split; [done|]. split; [cbn [refused allocator4]; unfold refused4; tauto|done]. }
  assert (size ≠ 0) by (intros ->; by destruct Hr; left).
  destruct Hserv as [Hs|Hl].
  - eapply wp_mono; [eapply smalloc4_small_wp; [exact Hc|done|exact Hct|lia|
      unfold SBRK_LIMIT, REDUNDANT_SIZE, _size_meta_data, SIZEOF_HEAD, SIZEOF_TAIL in *; lia]|].
    intros p s' (q & -> & bs' & fl' & Hc' & Hso' & Hsa & Hk & Hgr). exists bs', fl', mm.
    destruct (small_alloc_live _ _ _ _ _ _ _ Hsa) as [(-> & -> & ->)|(sz & Hsz & Hlv)].
    + split; [done|]. split; [done|]. left. split; [done|]. split; [|done]. do 2 right. left.
      split; [unfold SBRK_LIMIT, REDUNDANT_SIZE, _size_meta_data, SIZEOF_HEAD, SIZEOF_TAIL in *; lia|]. intros Hg. by destruct (Hgr Hg).
    + assert (Hq : q ≠ NULL).
      { assert (Hin : (q, sz) ∈ live bs' ++ mm) by (rewrite Hlv; left).
        destruct (live_size _ _ _ _ _ Hc' Hin) as (_ & ? & _). cbn in *. unfold NULL. lia. }
      apply Z.eqb_neq in Hq as ->. split; [|split; [done|]].
      * split; [done|]. split; [done|]. unfold small_live. rewrite Hlv. constructor; [cbn; lia|done].
      * right. exists (q, sz). cbn. split; [lia|]. split; [lia|]. by rewrite Hlv.
  - eapply smalloc4_large_wp; [exact Hc|exact Hct|done|lia|..].
    + intros s' Hn Hc' Hm. exists bs, fl, mm. rewrite Hm. split; [done|]. split; [apply keeps_refl|].
      left. split; [done|]. split; [cbn [refused allocator4]; unfold refused4; tauto|done].
    + intros a s' _ Hc' _ Hk _ _. exists bs, fl, ((a, _8_bit_align size + 48) :: mm). split; [done|].
      split; [eapply keeps_sub; [exact Hk|intros y; apply live_in]|]. right. exists (a, _8_bit_align size + 48). cbn.
      split; [done|]. split; [lia|]. symmetry. apply Permutation_middle.
Qed.
End Specs.

(** ** Properties *)

Section Properties.
Context {os : OS} {laws : OSLaws os}.

(** C2: every sequence of requests, releases and writes of a client of the fourth
    allocator is served, as for the third: the calls return (a request with [NULL] only
    when its size is out of range or the kernel gives no memory), the blocks are mapped,
    as large as asked for, keep their contents, and are apart from each other and
    from headers, tails and free blocks.  In addition every pointer the client holds
    is a multiple of eight, which the third does not guarantee.  The break before the
    first call is a multiple of eight, and the client asks for the sizes of [served4]:
    up to [2 ^ 64 - 8], and not those that rounded up are less than [REDUNDANT_SIZE]
    below the limit of small blocks. *)
Theorem malloc4_client_safe_aligned (b : brk_state) (c : client)
    (Hb : brk_ok b) (Hh : k_holes (kern b) = []) (Hu : (8 | cur_break b))
    (Hst : star client_step (Client (init_heap b) [] (λ _, 0)) c) :
  client_safe (c_heap c) (c_blocks c) (c_view c) ∧ ∀ p n, (p, n) ∈ c_blocks c → p mod 8 = 0.
Proof.
  assert (Hinv : client_inv c).
  { eapply star_invariant; [exact client_step_inv|exact Hst|]. by apply init_client. }
  split; [by apply client_inv_safe|]. destruct Hinv as (bs & fl & mm & (Hc & _) & HL & _).
  intros p n Hp. destruct (block_live _ _ _ _ HL Hp) as (y & -> & Hy%live_in).
  destruct (core_aligned _ _ _ _ _ Hc Hy) as [q ->]. replace (q * 8 + 32) with ((q + 4) * 8) by lia. by apply Z.mod_mul.
Qed.

(** a small request of the fourth allocator: as in the third, with the size
    rounded up to a multiple of eight. *)
Theorem smalloc4_small_correct (size : Z) (s : heap) (bs : list blk) (fl mm : list node)
    (Hok : heap_ok s bs fl mm) (Hpos : 0 < size ≤ 2 ^ 64 - 8) (Hlim : _8_bit_align size + 48 < SBRK_LIMIT)
    (Hg : grants (brk s) (_8_bit_align size + 48)) :
  ∃ p s' bs' fl' sz,
    smalloc size s = Ok p s' ∧ heap_ok s' bs' fl' mm ∧ p ≠ NULL ∧ p mod 8 = 0 ∧
    size + 48 ≤ sz < size + 8 + 48 + REDUNDANT_SIZE ∧ live bs' ≡ₚ (p - 32, sz) :: live bs ∧
    keeps (live bs ++ mm) (memory s) (memory s').
Proof.
  destruct Hok as [Hc Hso Hct%counted_exact]. destruct (align_spec size ltac:(lia)) as [Hd Hle].
  destruct (proj1 (wp_run _ _ _) (smalloc4_small_wp size s bs fl mm exact Hc Hso Hct Hpos Hlim))
    as (p & s' & Hrun & q & -> & bs' & fl' & Hc' & Hso' & Hsa & Hk & Hgr).
  destruct (Hgr Hg) as [Hq Hct']. destruct (small_alloc_live _ _ _ _ _ _ _ Hsa) as [[? _]|(sz & Hsz & Hlv)]; [done|].
  apply Z.eqb_neq in Hq as Hq'. rewrite Hq' in Hrun. exists (q + 32), s', bs', fl', sz.
  assert (Hin : (q, sz) ∈ live bs' ++ mm) by (rewrite Hlv; left).
  destruct (live_size _ _ _ _ _ Hc' Hin) as (_ & Hpos' & _). cbn in Hpos'.
  destruct (core_aligned _ _ _ _ _ Hc' (live_in _ _ _ Hin)) as [k Hk8]. cbn in Hk8.
  split; [done|]. split; [split; [done|done|by apply counted_exact]|]. split; [unfold NULL; lia|].
  split; [rewrite Hk8; replace (k * 8 + 32) with ((k + 4) * 8) by lia; by apply Z.mod_mul|].
  split; [lia|]. replace (q + 32 - 32) with q by lia. done.
Qed.

(** the five functions of the statistics, in a state with exact counters: what is
    allocated is what is free plus the blocks in use and the mappings, in blocks and
    in bytes, and the metadata is 48 bytes for each of them. *)
Theorem statistics4_exact (s : heap) (bs : list blk) (fl mm : list node) (Hok : heap_ok s bs fl mm) :
  let free := free_nodes bs in
  let used := live bs ++ mm in
  let blocks := Z.of_nat (length free + length used) in
  _num_free_blocks s = Ok (u64 (Z.of_nat (length free))) s ∧ _num_free_bytes s = Ok (u64 (payload_sum free)) s ∧
  _num_allocated_blocks s = Ok (u64 blocks) s ∧ _num_allocated_bytes s = Ok (u64 (payload_sum free + payload_sum used)) s ∧
  _num_meta_data_bytes s = Ok (u64 (48 * blocks)) s.
Proof.
  intros free used blocks. destruct Hok as [_ _ [H1 H2 H3 H4]]. unfold _num_free_blocks, _num_free_bytes, _num_allocated_blocks,
    _num_allocated_bytes, _num_meta_data_bytes, SbrkHeap._num_free_blocks, SbrkHeap._num_free_bytes, SbrkHeap._num_allocated_blocks,
    SbrkHeap._num_allocated_bytes, SbrkHeap._num_meta_data_bytes, bind, gets, ret.
  pose proof (Permutation_length (nodes_live_free bs)) as Hl. unfold nodes at 1 in Hl. rewrite length_map, length_app in Hl. fold free in Hl.
  assert (Hb : Z.of_nat (length bs + length mm) = blocks) by (unfold blocks, used; rewrite length_app; lia).
  rewrite H1, H2, H3, H4, Hb, nodes_live_free, payload_sum_app. unfold used. rewrite payload_sum_app.
  split; [done|]. split; [done|]. split; [done|]. split; [by rewrite Z.add_assoc|]. f_equal. apply Zmult_mod_idemp_r.
Qed.

(** requests from 4 MB on are placed in huge pages, smaller large ones in
    normal pages; the [next] field of the header records which. *)
Theorem smalloc4_page_type (size : Z) (s : heap) (bs : list blk) (fl mm : list node) (a : Z)
    (Hc : core s bs fl mm) (Hbig : SBRK_LIMIT ≤ _8_bit_align size + 48) (Hlim : _8_bit_align size ≤ SIZE_LIMIT)
    (Hm : mmap_at (kern (brk s)) (_8_bit_align size + 48) (HUGE_PAGE_LIMIT <=? _8_bit_align size + 48) = Some a) :
  ∃ s' r, smalloc size s = Ok (a + 32) s' ∧ core s' bs fl ((a, _8_bit_align size + 48) :: mm) ∧
    r ∈ k_maps (kern (brk s')) ∧ r_lo r = a ∧ a + _8_bit_align size + 48 ≤ r_hi r ∧
    (r_huge r = true ↔ HUGE_PAGE_LIMIT ≤ _8_bit_align size + 48) ∧
    load (memory s') (a + 16) 8 = page_code (if r_huge r then HUGE_PAGE else REGULAR_PAGE).
Proof.
  destruct (counted_some _ _ _ _ Hc) as [o Hct].
  set (n := _8_bit_align size + 48) in *.
  assert (Hwp : wp (smalloc size) (λ p s', p = a + 32 ∧ core s' bs fl ((a, n) :: mm) ∧
    load (memory s') (a + 16) 8 = (if HUGE_PAGE_LIMIT <=? n then 1 else 0) ∧
    Region a (a + map_len n (HUGE_PAGE_LIMIT <=? n)) (HUGE_PAGE_LIMIT <=? n) ∈ k_maps (kern (brk s'))) s).
  { eapply smalloc4_large_wp; [exact Hc|exact Hct|done|done|..]; unfold is_huge; cbn [orb]; fold n.
    - intros s' Hn. congruence.
    - intros a' s' Ha Hc' _ _ Hnx Hr. assert (a' = a) as -> by congruence. done. }
  apply wp_run in Hwp as (p & s' & Hrun & -> & Hc' & Hnx & Hr).
  exists s', (Region a (a + map_len n (HUGE_PAGE_LIMIT <=? n)) (HUGE_PAGE_LIMIT <=? n)). split; [done|]. split; [done|].
  split; [done|]. split; [done|]. cbn [r_hi r_huge]. pose proof (map_len_ge n (HUGE_PAGE_LIMIT <=? n)).
  split; [unfold n in *; lia|]. split; [by rewrite Z.leb_le|]. rewrite Hnx. by destruct (HUGE_PAGE_LIMIT <=? n).
Qed.

(** the first call of [_sbrk] moves an unaligned break up to the next multiple
    of eight, provided the kernel grants the few bytes. *)
Theorem sbrk4_first_call_aligns (b : brk_state)
    (Hb : brk_ok b) (Hfirst : program_break b = None) (Hg : grants b 8) :
  let '(r, b') := _sbrk 0 b in
  (8 | r) ∧ cur_break b ≤ r < cur_break b + 8 ∧ cur_break b' = r ∧ brk_ok b'.
Proof.
  assert (Hcur : cur_break b = k_brk (kern b)) by (unfold cur_break; by rewrite Hfirst).
  pose proof Hb as [B1 B2 B3 B4 B5 B6]. unfold _sbrk, align_break. rewrite init_program_break_eq.
  pose proof (Z.mod_pos_bound (cur_break b) 8 ltac:(lia)).
  destruct (Z.eqb_spec (cur_break b mod 8) 0) as [E|E]; cbn [negb].
  - cbn. split; [by apply Z.mod_divide|]. split; [lia|]. split; [done|]. by split.
  - cbn [kern]. destruct (sbrk_cases (8 - cur_break b mod 8) (kern b)) as [[Hok ->]|[Hno _]]; [lia| |].
    + rewrite sbrk_0. cbn [k_brk]. pose proof (sbrk_ok_range _ _ Hok) as [Hr1 Hr2].
      unfold sbrk_move. cbn [Z.eqb]. rewrite Hcur in *.
      split; [|split; [lia|split; [done|]]].
      * exists (k_brk (kern b) / 8 + 1). pose proof (Z.div_mod (k_brk (kern b)) 8). lia.
      * split; unfold cur_break; cbn [kern program_break k_start k_brk k_maps]; [done|lia|lia|lia|exact Hr2|done].
    + rewrite (Hg (kern b)) in Hno; [done|done|done|lia|lia|lia].
Qed.
End Properties.

(** ** Examples *)

Definition os4 : OS := demo_os 1000000.
Definition e0 : heap := init_heap demo_brk.
Definition run4 {A} (c : M heap A) (s : heap) : heap := match c s with Ok _ s' => s' | _ => s end.
Definition e1 : heap := run4 (smalloc (os := os4) 101) e0.

Lemma e0_ok : heap_ok (B := break4 (os := os4)) e0 [] [] [].
Proof. apply init_ok; [apply demo_brk_ok|done|by exists 512]. Qed.

Lemma e0_grants n : n ≤ 900000 → grants (os := os4) (brk e0) n.
Proof.
  intros Hn k d Hs Hmk Hb Hd Hle. cbn [sbrk_ok os4 demo_os]. rewrite Hmk. cbn in Hle. unfold cur_break in Hle. cbn in *.
  rewrite !andb_true_iff, !Z.leb_le. lia.
Qed.

#[local] Opaque e0 e1.

Lemma malloc4_client_safe_aligned_witness :
  client_safe (os := os4) (B := break4 (os := os4)) (A := allocator4 (os := os4)) e1 [(4128, 101)]
    (learn 4128 (usable e1 4128) (memory e1) (λ _, 0)) ∧
  ∀ p n, (p, n) ∈ [(4128, 101)] → p mod 8 = 0.
Proof.
  apply (malloc4_client_safe_aligned (os := os4) (laws := demo_laws _) demo_brk
    (Client e1 [(4128, 101)] (learn 4128 (usable e1 4128) (memory e1) (λ _, 0))) demo_brk_ok eq_refl).
  - exists 512. reflexivity.
  - eapply star_step; [|apply star_refl].
    apply (cs_malloc 101 4128 e0 e1 [] (λ _, 0)); [split; [lia|left; vm_compute; discriminate]|vm_compute; reflexivity].
Defined.

Lemma smalloc4_small_correct_witness :
  ∃ p s' bs' fl' sz,
    smalloc (os := os4) 101 e0 = Ok p s' ∧ heap_ok (B := break4 (os := os4)) s' bs' fl' [] ∧ p ≠ NULL ∧ p mod 8 = 0 ∧
    101 + 48 ≤ sz < 101 + 8 + 48 + REDUNDANT_SIZE ∧ live bs' ≡ₚ (p - 32, sz) :: live [] ∧
    keeps (live [] ++ []) (memory e0) (memory s').
Proof.
  apply (smalloc4_small_correct (os := os4) (laws := demo_laws _) 101 e0 [] [] [] e0_ok); [lia|vm_compute; reflexivity|].
  apply e0_grants. vm_compute. discriminate.
Defined.

Lemma smalloc4_page_type_witness :
  ∃ s' r, smalloc (os := os4) 5000000 e0 = Ok (2 ^ 46 + 32) s' ∧
    core (B := break4 (os := os4)) s' [] [] [(2 ^ 46, _8_bit_align 5000000 + 48)] ∧
    r ∈ k_maps (kern (brk s')) ∧ r_lo r = 2 ^ 46 ∧ 2 ^ 46 + _8_bit_align 5000000 + 48 ≤ r_hi r ∧
    (r_huge r = true ↔ HUGE_PAGE_LIMIT ≤ _8_bit_align 5000000 + 48) ∧
    load (memory s') (2 ^ 46 + 16) 8 = page_code (if r_huge r then HUGE_PAGE else REGULAR_PAGE).
Proof.
  apply (smalloc4_page_type (os := os4) (laws := demo_laws _) 5000000 e0 [] [] [] (2 ^ 46) (ho_core _ _ _ _ e0_ok));
    [vm_compute; discriminate|vm_compute; discriminate|vm_compute; reflexivity].
Defined.

(** A program whose data segment ends at an odd address. *)
Lemma sbrk4_first_call_aligns_witness :
  let b := BrkState (Kernel 4096 4101 [] [] 0) None in
  let '(r, b') := _sbrk (os := os4) 0 b in
  (8 | r) ∧ cur_break b ≤ r < cur_break b + 8 ∧ cur_break b' = r ∧ brk_ok b'.
Proof.
  apply (sbrk4_first_call_aligns (os := os4) (laws := demo_laws _) (BrkState (Kernel 4096 4101 [] [] 0) None)).
  - split; cbn; unfold cur_break, ADDR_MAX; cbn; try lia; try done. by intros r ?%not_elem_of_nil.
  - reflexivity.
  - intros k d Hs Hmk Hb Hd Hle. cbn [sbrk_ok os4 demo_os]. rewrite Hmk. unfold cur_break in Hle. cbn in *.
    rewrite !andb_true_iff, !Z.leb_le. lia.
Defined.

(** ** Where the code does not do what it means to *)

(** [_mmap_free] passes the size of the block, not of its pages, to [munmap],
    which refuses it for huge pages: the mapping is never given back. *)
Theorem sfree_huge_leaks :
  observe (let* p := smalloc (os := os4) 5000000 in sfree (os := os4) p) e0
    (λ _ s', (allocated_blocks_num s', k_maps (kern (brk s'))))
  = Some (0, [Region (2 ^ 46) (2 ^ 46 + 3 * HUGE) true]).
Proof. vm_compute. reflexivity. Qed.

(** [srealloc] of a block in huge pages to a small size makes a small block in a
    mapping of its own; [sfree] takes it for a block of the data segment and puts
    it, an address outside the segment, on the free list. *)
Theorem srealloc_huge_to_small_corrupts :
  observe (let* p := smalloc (os := os4) 5000000 in
            let* q := srealloc (os := os4) p 100 in
            sfree (os := os4) q) e0
    (λ _ s', (k_brk (kern (brk s')) <? sbrk_free_head s', sbrk_free_head s' =? NULL))
  = Some (true, false).
Proof. vm_compute. reflexivity. Qed.
