(* ===== verification/ProcessWeights.v ===== *)
(** * [hw2/.../kernel/hw2.c]: the weight system calls

    The process table is a finite map from the address of a [task_struct] to the
    fields the system calls read and write; [current] is the calling task.  How
    tasks are created and reaped is kernel code outside the repository: the table
    is the state the system calls find. *)

From S2P Require Import Prelude.

(** The fields of [struct task_struct] the calls use; [children] are the tasks
    whose [sibling] member is linked into that list, in its order. *)
Record task_struct := Task {
  weight : Z;
  pid : Z;
  real_parent : Z;
  children : list Z
}.

Record kstate := KState {
  tasks : gmap Z task_struct;
  current : Z;
  klog : list string
}.

Definition EINVAL : Z := 22.
Definition ECHILD : Z := 10.

Definition set_weight (w : Z) (t : task_struct) : task_struct :=
  Task w (pid t) (real_parent t) (children t).
Definition put_task (a : Z) (t : task_struct) (s : kstate) : kstate :=
  KState (<[a := t]> (tasks s)) (current s) (klog s).
Definition printk (msg : string) (s : kstate) : kstate :=
  KState (tasks s) (current s) (klog s ++ [msg]).

(** Reading a task; an address that holds no task is an oops. *)
Definition deref (a : Z) : M kstate task_struct :=
  λ s, match tasks s !! a with Some t => Ok t s | None => Fault end.

Definition sys_hello : M kstate Z :=
  modify (printk "Hello, World!") ;;; ret 0.

Definition sys_set_weight (weight : Z) : M kstate Z :=
  if weight <? 0 then ret (- EINVAL)
  else
    let* cur := gets current in
    let* t := deref cur in
    modify (put_task cur (set_weight weight t)) ;;;
    ret 0.

Definition sys_get_weight : M kstate Z :=
  let* cur := gets current in
  let* t := deref cur in
  ret (weight t).

(** [list_for_each] with a body that updates an accumulator. *)
Fixpoint list_for_each {A} (body : Z → A → M kstate A) (l : list Z) (acc : A) : M kstate A :=
  match l with
  | [] => ret acc
  | x :: l' => let* acc' := body x acc in list_for_each body l' acc'
  end.

(** [sum] is the [long] behind the pointer argument; the kernel is built with
    wrapping signed arithmetic. *)
Fixpoint get_child_leaf_sum (fuel : nat) (root sum : Z) : M kstate Z :=
  match fuel with
  | O => nofuel
  | S fuel' =>
    let* t := deref root in
    if bool_decide (children t = []) then ret (i64 (sum + weight t))
    else list_for_each (get_child_leaf_sum fuel') (children t) sum
  end.

(** The recursion goes down a path of the process tree. *)
Definition tree_fuel (s : kstate) : nat := S (size (tasks s)).

Definition sys_get_leaf_children_sum : M kstate Z :=
  let* cur := gets current in
  let* t := deref cur in
  if bool_decide (children t = []) then ret (- ECHILD)
  else
    let* fuel := gets tree_fuel in
    get_child_leaf_sum fuel cur 0.

(** The [while] loop of [heaviest_ancestor_weight]. *)
Fixpoint heaviest_loop (fuel : nat) (current_task max_pid max_weight : Z) : M kstate Z :=
  let* t := deref current_task in
  if pid t =? 1 then ret max_pid
  else
    match fuel with
    | O => nofuel
    | S fuel' =>
      if max_weight <? weight t then heaviest_loop fuel' (real_parent t) (pid t) (weight t)
      else heaviest_loop fuel' (real_parent t) max_pid max_weight
    end.

Definition heaviest_ancestor_weight (fuel : nat) (current_task : Z) : M kstate Z :=
  heaviest_loop fuel current_task 1 (-1).

Definition sys_get_heaviest_ancestor : M kstate Z :=
  let* cur := gets current in
  let* fuel := gets tree_fuel in
  heaviest_ancestor_weight fuel cur.

(** [rest_init] of [init/main.c] gives the init task the weight 0. *)
Definition rest_init_weight (tsk : Z) : M kstate unit :=
  let* t := deref tsk in
  modify (put_task tsk (set_weight 0 t)).

(** ** The process tree *)

Section Tree.
Implicit Types (T : gmap Z task_struct).

(** Weights come from [sys_set_weight] or [rest_init]; a child is a task of the
    table and the child relation has no cycle. *)
Record table_ok T : Prop := {
  ok_weight : ∀ a t, T !! a = Some t → 0 ≤ weight t < 2 ^ 31;
  ok_child : ∀ a t c, T !! a = Some t → c ∈ children t → is_Some (T !! c);
  ok_rank : ∃ rank : Z → nat, ∀ a t c, T !! a = Some t → c ∈ children t → (rank c < rank a)%nat
}.

(** The weights of the leaves below a task, in the order of the lists. *)
Inductive leaf_weights T : Z → list Z → Prop :=
| lw_leaf a t : T !! a = Some t → children t = [] → leaf_weights T a [weight t]
| lw_node a t ws : T !! a = Some t → children t ≠ [] → forest_weights T (children t) ws → leaf_weights T a ws
with forest_weights T : list Z → list Z → Prop :=
| fw_nil : forest_weights T [] []
| fw_cons a ws l wl : leaf_weights T a ws → forest_weights T l wl → forest_weights T (a :: l) (ws ++ wl).

(** The tasks from [a] up to the init process, which is not counted. *)
Inductive ancestry T : Z → list (Z * task_struct) → Prop :=
| an_init a t : T !! a = Some t → pid t = 1 → ancestry T a []
| an_up a t l : T !! a = Some t → pid t ≠ 1 → ancestry T (real_parent t) l → ancestry T a ((a, t) :: l).

Definition sum_list_Z (l : list Z) : Z := foldr Z.add 0 l.

Lemma sum_list_Z_app l k : sum_list_Z (l ++ k) = sum_list_Z l + sum_list_Z k.
Proof. induction l as [|x l IH]; cbn in *; unfold sum_list_Z in *; lia. Qed.

Lemma sum_list_Z_bound l n : Forall (λ w, 0 ≤ w < n) l → 0 ≤ sum_list_Z l ≤ Z.of_nat (length l) * n.
Proof. induction 1; cbn in *; unfold sum_list_Z in *; nia. Qed.

Lemma i64_add_i64 a b : i64 (i64 a + b) = i64 (a + b).
Proof.
  unfold i64. destruct (Z.ltb_spec (a mod W64) (2 ^ 63)); [by rewrite Zplus_mod_idemp_l|].
  replace (a mod W64 - W64 + b) with (a mod W64 + b + (-1) * W64) by lia.
  by rewrite Z.mod_add, Zplus_mod_idemp_l.
Qed.

(** A task's rank can be taken to be the number of tasks of smaller rank. *)
Lemma rank_bound T (rank : Z → nat) a t :
  T !! a = Some t → (size (filter (λ x, (rank x < rank a)%nat) (dom T)) < size T)%nat.
Proof.
  intros Ha. rewrite <- size_dom. apply subset_size. split; [set_solver|].
  intros Hsub. specialize (Hsub a). rewrite elem_of_filter in Hsub.
  apply elem_of_dom_2 in Ha. specialize (Hsub Ha). lia.
Qed.

Lemma rank_child T (rank : Z → nat) a t c :
  T !! a = Some t → is_Some (T !! c) → (rank c < rank a)%nat →
  (size (filter (λ x, (rank x < rank c)%nat) (dom T)) < size (filter (λ x, (rank x < rank a)%nat) (dom T)))%nat.
Proof.
  intros Ha Hc%elem_of_dom Hlt. apply subset_size. split.
  - intros x. rewrite !elem_of_filter. intros [? ?]. split; [lia|done].
  - intros Hsub. specialize (Hsub c). rewrite !elem_of_filter in Hsub.
    destruct (Hsub (conj Hlt Hc)) as [? _]. lia.
Qed.

Lemma table_ok_insert T a t t' :
  table_ok T → T !! a = Some t → real_parent t' = real_parent t → children t' = children t →
  0 ≤ weight t' < 2 ^ 31 → table_ok (<[a := t']> T).
Proof.
  intros [Hw Hc [rank Hr]] Ha Hp Hch Hw'. split.
  - intros b u Hb. apply lookup_insert_Some in Hb as [[_ <-]|[_ Hb]]; eauto.
  - intros b u c Hb Hin. apply lookup_insert_is_Some'.
    apply lookup_insert_Some in Hb as [[<- <-]|[_ Hb]]; right; [rewrite Hch in Hin|]; eauto.
  - exists rank. intros b u c Hb Hin. apply lookup_insert_Some in Hb as [[<- <-]|[_ Hb]]; [rewrite Hch in Hin|]; eauto.
Qed.

(** With fuel above a task's rank the recursion adds up the leaves below it. *)
Lemma leaf_sum_spec s (rank : Z → nat) :
  (∀ a t c, tasks s !! a = Some t → c ∈ children t → is_Some (tasks s !! c) ∧ (rank c < rank a)%nat) →
  ∀ fuel a sum, is_Some (tasks s !! a) → (rank a < fuel)%nat →
  ∃ ws, leaf_weights (tasks s) a ws ∧ ws ≠ [] ∧
        get_child_leaf_sum fuel a (i64 sum) s = Ok (i64 (sum + sum_list_Z ws)) s.
Proof.
  intros Hr fuel. induction fuel as [|fuel IH]; intros a sum [t Ha] Hlt; [lia|].
  cbn [get_child_leaf_sum]. unfold bind at 1, deref. rewrite Ha.
  case_bool_decide as Hch.
  { exists [weight t]. split; [by apply lw_leaf|]. split; [done|]. unfold ret. rewrite i64_add_i64. cbn. by rewrite Z.add_0_r. }
  assert (Hfor : ∀ l sum, (∀ c, c ∈ l → c ∈ children t) →
    ∃ ws, forest_weights (tasks s) l ws ∧ (l ≠ [] → ws ≠ []) ∧
          list_for_each (get_child_leaf_sum fuel) l (i64 sum) s = Ok (i64 (sum + sum_list_Z ws)) s).
  { induction l as [|c l IHl]; intros sm Hl; cbn [list_for_each].
    - exists []. split; [constructor|]. split; [done|]. cbn. by rewrite Z.add_0_r.
    - destruct (Hr a t c Ha (Hl c ltac:(left))) as [Hc Hrk].
      destruct (IH c sm Hc ltac:(lia)) as (ws & Hws & Hne & Hrun).
      destruct (IHl (sm + sum_list_Z ws) ltac:(intros x Hx; apply Hl; by right)) as (wl & Hwl & _ & Hrunl).
      exists (ws ++ wl). split; [by constructor|]. split; [intros _; by destruct ws|].
      unfold bind. rewrite Hrun, Hrunl, sum_list_Z_app. do 2 f_equal. lia. }
  destruct (Hfor (children t) sum (λ c H, H)) as (ws & Hws & Hne & Hrun).
  exists ws. split; [by eapply lw_node|]. split; [by apply Hne|done].
Qed.

(** The fuel of the system call is enough. *)
Lemma leaf_sum_enough s a :
  table_ok (tasks s) → is_Some (tasks s !! a) →
  ∃ ws, leaf_weights (tasks s) a ws ∧ get_child_leaf_sum (tree_fuel s) a 0 s = Ok (i64 (sum_list_Z ws)) s.
Proof.
  intros [_ Hc [rank Hr]] Ha.
  destruct (leaf_sum_spec s (λ a, size (filter (λ x, (rank x < rank a)%nat) (dom (tasks s))))) with
    (fuel := tree_fuel s) (a := a) (sum := 0) as (ws & Hws & _ & Hrun); [| |unfold tree_fuel|by exists ws].
  - intros b t c Hb Hin. split; [eauto|]. eapply rank_child; eauto.
  - done.
  - destruct Ha as [t Ha]. pose proof (rank_bound (tasks s) rank a t Ha). lia.
Qed.

Scheme leaf_weights_mind := Induction for leaf_weights Sort Prop
  with forest_weights_mind := Induction for forest_weights Sort Prop.

(** Every summand is the weight of a task of the table. *)
Lemma leaf_weights_range T a ws :
  table_ok T → leaf_weights T a ws → Forall (λ w, 0 ≤ w < 2 ^ 31) ws.
Proof.
  intros Hok Hl. induction Hl using leaf_weights_mind with
    (P0 := λ l wl _, Forall (λ w, 0 ≤ w < 2 ^ 31) wl); eauto using Forall_app_2.
  constructor; [|done]. by eapply ok_weight.
Qed.

Lemma ancestry_det T a l l' : ancestry T a l → ancestry T a l' → l = l'.
Proof.
  intros H. revert l'. induction H as [a t Ha Hp|a t l Ha Hp H IH]; intros l' H'; inversion H'; simplify_eq; try done.
  f_equal. by apply IH.
Qed.

(** A task on the way up is met once, so the way up has no more steps than the
    table has tasks. *)
Lemma ancestry_suffix T a l b t l1 l2 : ancestry T a l → l = l1 ++ (b, t) :: l2 → T !! b = Some t ∧ ancestry T b ((b, t) :: l2).
Proof.
  intros H. revert l1. induction H as [|a u l Ha Hp H IH]; intros l1 E; [by destruct l1|].
  destruct l1 as [|x l1]; cbn in E; simplify_eq; [|by eapply IH]. split; [done|by constructor].
Qed.

Lemma ancestry_nodup T a l : ancestry T a l → NoDup l.*1.
Proof.
  induction 1 as [|a t l Ha Hp H IH]; [constructor|]. cbn. constructor; [|done].
  intros [[b u] [-> (l1 & l2 & ->)%list_elem_of_split]]%list_elem_of_fmap.
  destruct (ancestry_suffix T (real_parent t) _ b u l1 l2 H eq_refl) as [Hb Hsuf].
  cbn in Ha, Hb. simplify_eq. pose proof (an_up T b t _ Ha Hp H) as Hfull.
  pose proof (f_equal length (ancestry_det _ _ _ _ Hfull Hsuf)) as E. cbn in E. rewrite length_app in E. cbn in E. lia.
Qed.

Lemma ancestry_length T a l : ancestry T a l → (length l ≤ size T)%nat.
Proof.
  intros H. rewrite <- (length_fmap fst), <- size_dom.
  rewrite <- (size_list_to_set (C := gset Z)) by (by eapply ancestry_nodup).
  apply subseteq_size. intros b. rewrite elem_of_list_to_set, list_elem_of_fmap.
  intros ([c u] & -> & (l1 & l2 & ->)%list_elem_of_split). cbn.
  destruct (ancestry_suffix _ _ _ _ _ _ _ H eq_refl) as [Hc _]. by apply elem_of_dom_2 in Hc.
Qed.

(** [t] is the first of the heaviest tasks of [l]. *)
Definition first_heaviest (l : list task_struct) (t : task_struct) : Prop :=
  ∃ l1 l2, l = l1 ++ t :: l2 ∧ Forall (λ u, weight u < weight t) l1 ∧ Forall (λ u, weight u ≤ weight t) l2.

(** The loop from [a]: the answer is the first heaviest task above [a] that is
    heavier than [max_weight], or [max_pid] if there is none. *)
Lemma heaviest_loop_spec s a l :
  ancestry (tasks s) a l → ∀ fuel max_pid max_weight, (length l ≤ fuel)%nat →
  ∃ r, heaviest_loop fuel a max_pid max_weight s = Ok r s ∧
    ((r = max_pid ∧ Forall (λ x, weight x.2 ≤ max_weight) l) ∨
     ∃ t, r = pid t ∧ max_weight < weight t ∧ first_heaviest l.*2 t).
Proof.
  induction 1 as [a t Ha Hp|a t l Ha Hp H IH]; intros fuel mp mw Hf;
    destruct fuel as [|fuel]; cbn [length] in Hf; try lia; cbn [heaviest_loop]; unfold bind, deref; rewrite Ha.
  1, 2: rewrite Hp; exists mp; split; [done|by left].
  destruct (Z.eqb_spec (pid t) 1) as [?|_]; [done|].
  destruct (Z.ltb_spec mw (weight t)) as [Hw|Hw].
  - destruct (IH fuel (pid t) (weight t) ltac:(lia)) as (r & Hrun & Hr). exists r. split; [done|]. right.
    destruct Hr as [[-> Hall]|(u & -> & Hu & l1 & l2 & E & H1 & H2)].
    + exists t. split; [done|]. split; [done|]. exists [], l.*2. split; [done|]. split; [done|]. by apply Forall_fmap.
    + exists u. split; [done|]. split; [lia|]. exists (t :: l1), l2. cbn. rewrite E. split; [done|]. split; [by constructor|done].
  - destruct (IH fuel mp mw ltac:(lia)) as (r & Hrun & Hr). exists r. split; [done|].
    destruct Hr as [[-> Hall]|(u & -> & Hu & l1 & l2 & E & H1 & H2)]; [left; split; [done|by constructor]|right].
    exists u. split; [done|]. split; [done|]. exists (t :: l1), l2. cbn. rewrite E. split; [done|]. split; [constructor; [lia|done]|done].
Qed.
End Tree.

(** ** Properties *)

(** [sys_set_weight] stores a non-negative weight in the calling task, and
    only there, and [sys_get_weight] then reads it back; a negative weight is
    refused with [-EINVAL].  The table stays well formed. *)
Theorem set_get_weight (w : Z) (s : kstate) (t : task_struct)
    (Hok : table_ok (tasks s)) (Hw : - 2 ^ 31 ≤ w < 2 ^ 31) (Hc : tasks s !! current s = Some t) :
  (w < 0 ∧ sys_set_weight w s = Ok (-22) s) ∨
  (0 ≤ w ∧ ∃ s', sys_set_weight w s = Ok 0 s' ∧ sys_get_weight s' = Ok w s' ∧ table_ok (tasks s') ∧
     current s' = current s ∧ ∀ a, a ≠ current s → tasks s' !! a = tasks s !! a).
Proof.
  unfold sys_set_weight. destruct (Z.ltb_spec w 0) as [Hn|Hn]; [by left|right]. split; [done|].
  unfold bind, gets, deref. rewrite Hc. eexists. split; [reflexivity|].
  unfold sys_get_weight, bind, gets, deref. cbn. rewrite lookup_insert_eq. split; [done|].
  split; [apply (table_ok_insert _ _ t); [done..|cbn; lia]|]. split; [done|]. intros a Ha. by apply lookup_insert_ne.
Qed.

(** C33: [sys_get_leaf_children_sum] terminates on every well-formed process table
    and returns the sum of the weights of the leaves below the caller, without
    overflow as long as there are at most [2^32] of them; a caller without
    children gets [-ECHILD]. *)
Theorem leaf_children_sum_correct (s : kstate) (t : task_struct)
    (Hok : table_ok (tasks s)) (Hc : tasks s !! current s = Some t) :
  (children t = [] ∧ sys_get_leaf_children_sum s = Ok (-10) s) ∨
  (children t ≠ [] ∧ ∃ ws, leaf_weights (tasks s) (current s) ws ∧
     sys_get_leaf_children_sum s = Ok (i64 (sum_list_Z ws)) s ∧
     (Z.of_nat (length ws) ≤ 2 ^ 32 → i64 (sum_list_Z ws) = sum_list_Z ws ∧ 0 ≤ sum_list_Z ws)).
Proof.
  unfold sys_get_leaf_children_sum, bind, gets. unfold deref at 1 2. rewrite Hc. case_bool_decide as Hch; [by left|right].
  destruct (leaf_sum_enough s (current s) Hok ltac:(by exists t)) as (ws & Hws & Hrun).
  split; [done|]. exists ws. split; [done|]. split; [done|]. intros Hlen.
  pose proof (sum_list_Z_bound ws (2 ^ 31) (leaf_weights_range _ _ _ Hok Hws)) as Hb. split; [|lia].
  destruct (Z.eq_dec (Z.of_nat (length ws)) (2 ^ 32)) as [E|]; [|apply i64_small; nia].
  apply i64_small. pose proof (leaf_weights_range _ _ _ Hok Hws) as Hr. destruct ws as [|w ws]; [cbn in E; lia|].
  apply Forall_cons in Hr as [Hw Hr]. pose proof (sum_list_Z_bound ws (2 ^ 31) Hr). cbn [length sum_list_Z foldr] in *. unfold sum_list_Z in *. nia.
Qed.

(** C34: [sys_get_heaviest_ancestor] terminates for every task below the init
    process and returns the process id of the heaviest task from the caller up to
    init (the closest one if there are several); init itself is only returned to
    itself. *)
Theorem heaviest_ancestor_correct (s : kstate) (l : list (Z * task_struct))
    (Hok : table_ok (tasks s)) (Hl : ancestry (tasks s) (current s) l) :
  (l = [] ∧ sys_get_heaviest_ancestor s = Ok 1 s) ∨
  ∃ t, first_heaviest l.*2 t ∧ sys_get_heaviest_ancestor s = Ok (pid t) s.
Proof.
  pose proof (ancestry_length _ _ _ Hl) as Hlen.
  destruct (heaviest_loop_spec s (current s) l Hl (tree_fuel s) 1 (-1) ltac:(unfold tree_fuel; lia)) as (r & Hrun & Hr).
  change (sys_get_heaviest_ancestor s) with (heaviest_loop (tree_fuel s) (current s) 1 (-1) s).
  destruct Hr as [[-> Hall]|(t & -> & _ & Ht)]; [left|right; by exists t].
  split; [|done]. destruct l as [|[a t] l]; [done|]. apply Forall_cons in Hall as [Ht _]. cbn in Ht.
  destruct (ancestry_suffix _ _ _ a t [] l Hl eq_refl) as [Ha _]. pose proof (ok_weight _ Hok a t Ha). lia.
Qed.

(** a task whose ancestors do not include the init process (a user-mode helper
    below [kthreadd], whose parent is the swapper, its own parent) never gets an
    answer: the loop runs on whatever the fuel. *)
Theorem heaviest_ancestor_diverges (s : kstate) (X : gset Z) (a : Z)
    (HX : ∀ x, x ∈ X → ∃ t, tasks s !! x = Some t ∧ pid t ≠ 1 ∧ real_parent t ∈ X) (Ha : a ∈ X) (fuel : nat) :
  heaviest_ancestor_weight fuel a s = OutOfFuel.
Proof.
  unfold heaviest_ancestor_weight. generalize 1 at 1 as mp. generalize (-1) as mw. revert a Ha.
  induction fuel as [|fuel IH]; intros a Ha mw mp; destruct (HX a Ha) as (t & Ht & Hp & Hup);
    cbn [heaviest_loop]; unfold bind, deref; rewrite Ht; destruct (Z.eqb_spec (pid t) 1); try done.
  destruct (mw <? weight t); by apply IH.
Qed.

(** ** A small process table to try the theorems on

    init (100) has the children 200 and 300, 300 has the child 400; 500 is
    [kthreadd] with the helper 700, below the swapper 600. *)

Definition demo_entries : list (Z * task_struct) :=
  [ (100, Task 0 1 600 [200; 300]); (200, Task 5 10 100 []); (300, Task 9 11 100 [400]);
    (400, Task 9 12 300 []); (600, Task 0 0 600 [100; 500]); (500, Task 0 2 600 [700]); (700, Task 3 13 500 []) ].
Definition demo_tasks : gmap Z task_struct := list_to_map demo_entries.
Definition demo_state (cur : Z) : kstate := KState demo_tasks cur [].

Definition demo_rank (a : Z) : nat :=
  if a =? 600 then 4 else if a =? 100 then 3 else if (a =? 300) || (a =? 500) then 2 else 0.

(** A property of the tasks of the table is a property of its entries. *)
Lemma demo_lookup (f : Z → task_struct → bool) :
  forallb (λ x, f x.1 x.2) demo_entries = true → ∀ a t, demo_tasks !! a = Some t → f a t = true.
Proof.
  intros HF a t Ha%elem_of_list_to_map_2. by apply (proj1 (forallb_forall _ _) HF (a, t)), list_elem_of_In.
Qed.
Lemma demo_children (f : Z → Z → bool) :
  forallb (λ x, forallb (f x.1) (children x.2)) demo_entries = true →
  ∀ a t c, demo_tasks !! a = Some t → c ∈ children t → f a c = true.
Proof.
  intros HF a t c Ha Hc. apply (demo_lookup (λ a t, forallb (f a) (children t)) HF) in Ha.
  by apply (proj1 (forallb_forall _ _) Ha), list_elem_of_In.
Qed.

Lemma demo_table_ok : table_ok demo_tasks.
Proof.
  split.
  - intros a t Ha. apply (demo_lookup (λ _ t, (0 <=? weight t) && (weight t <? 2 ^ 31))) in Ha; [|reflexivity].
    apply andb_true_iff in Ha as [?%Z.leb_le ?%Z.ltb_lt]. done.
  - intros a t c Ha Hc.
    refine (bool_decide_eq_true_1 _ (demo_children (λ _ c, bool_decide (is_Some (demo_tasks !! c))) _ a t c Ha Hc)).
    vm_compute. reflexivity.
  - exists demo_rank. intros a t c Ha Hc. apply Nat.ltb_lt.
    by apply (demo_children (λ a c, Nat.ltb (demo_rank c) (demo_rank a)) eq_refl a t c Ha).
Qed.

Lemma set_get_weight_witness :
  (7 < 0 ∧ sys_set_weight 7 (demo_state 300) = Ok (-22) (demo_state 300)) ∨
  (0 ≤ 7 ∧ ∃ s', sys_set_weight 7 (demo_state 300) = Ok 0 s' ∧ sys_get_weight s' = Ok 7 s' ∧ table_ok (tasks s') ∧
     current s' = 300 ∧ ∀ a, a ≠ 300 → tasks s' !! a = demo_tasks !! a).
Proof. apply (set_get_weight 7 (demo_state 300) (Task 9 11 100 [400]) demo_table_ok); [lia|reflexivity]. Defined.

Lemma leaf_children_sum_correct_witness :
  ([200; 300] = [] ∧ sys_get_leaf_children_sum (demo_state 100) = Ok (-10) (demo_state 100)) ∨
  ([200; 300] ≠ [] ∧ ∃ ws, leaf_weights demo_tasks 100 ws ∧
     sys_get_leaf_children_sum (demo_state 100) = Ok (i64 (sum_list_Z ws)) (demo_state 100) ∧
     (Z.of_nat (length ws) ≤ 2 ^ 32 → i64 (sum_list_Z ws) = sum_list_Z ws ∧ 0 ≤ sum_list_Z ws)).
Proof. apply (leaf_children_sum_correct (demo_state 100) (Task 0 1 600 [200; 300]) demo_table_ok). reflexivity. Defined.

Lemma heaviest_ancestor_correct_witness :
  ([(400, Task 9 12 300 []); (300, Task 9 11 100 [400])] = [] ∧ sys_get_heaviest_ancestor (demo_state 400) = Ok 1 (demo_state 400)) ∨
  ∃ t, first_heaviest [Task 9 12 300 []; Task 9 11 100 [400]] t ∧
       sys_get_heaviest_ancestor (demo_state 400) = Ok (pid t) (demo_state 400).
Proof.
  apply (heaviest_ancestor_correct (demo_state 400) [(400, Task 9 12 300 []); (300, Task 9 11 100 [400])] demo_table_ok).
  apply an_up; [reflexivity|done|]. apply an_up; [reflexivity|done|]. by apply (an_init _ _ (Task 0 1 600 [200; 300])).
Defined.

Lemma heaviest_ancestor_diverges_witness : heaviest_ancestor_weight 1000 700 (demo_state 700) = OutOfFuel.
Proof.
  apply (heaviest_ancestor_diverges (demo_state 700) (list_to_set [700; 500; 600]) 700); [|set_solver].
  intros x [->|[->|[->|[]%not_elem_of_nil]%elem_of_cons]%elem_of_cons]%elem_of_list_to_set%elem_of_cons;
    (eexists; split; [reflexivity|split; [done|set_solver]]).
Defined.
