(* ===== verification/CyclicQueue.v ===== *)
(** * [hw3/wet/server.c]: the cyclic queue of waiting connections

    The array, [head] and [tail] as the code has them, the operations, and the
    refinement of a bounded list: [add_queue_element] appends, and
    [remove_queue_element] takes from either end. *)

From S2P Require Import Prelude.

Inductive remove_type := HEAD | TAIL.

Inductive retval := SUCCESS | MEMORY_ERROR | QUEUE_IS_FULL | QUEUE_IS_EMPTY | NOT_ENOUGH_ELEMENTS.

#[export] Instance retval_eq_dec : EqDecision retval.
Proof. solve_decision. Defined.

(** [struct timeval] as its two fields. *)
Record session := Session {
  connection_fd : Z;
  arrival_time : Z * Z
}.

(** [elements_array] is the allocated array: an access outside it is a fault. *)
Record cyclic_queue := Queue {
  q_size : Z;
  q_head : Z;
  q_tail : Z;
  elements_array : list session
}.

Definition SIZEOF_SESSION : Z := 24.

Definition set_head (h : Z) (q : cyclic_queue) : cyclic_queue :=
  Queue (q_size q) h (q_tail q) (elements_array q).
Definition set_tail (t : Z) (q : cyclic_queue) : cyclic_queue :=
  Queue (q_size q) (q_head q) t (elements_array q).

Definition get_element (i : Z) : M cyclic_queue session :=
  λ q, if i <? 0 then Fault
       else match elements_array q !! Z.to_nat i with Some x => Ok x q | None => Fault end.
Definition put_element (i : Z) (x : session) : M cyclic_queue unit :=
  λ q, if (0 <=? i) && (i <? Z.of_nat (length (elements_array q)))
       then Ok tt (Queue (q_size q) (q_head q) (q_tail q) (<[Z.to_nat i := x]> (elements_array q)))
       else Fault.

(** [malloc] is the C library's: [alloc n] is the array it returns for [n] bytes,
    with whatever contents, or nothing. *)
Definition init_cyclic_queue (alloc : Z → option (list session)) (size : Z) : M cyclic_queue retval :=
  match alloc (u64 (SIZEOF_SESSION * size)) with
  | None => λ q, Ok MEMORY_ERROR (Queue (q_size q) (q_head q) (q_tail q) [])
  | Some array => λ _, Ok SUCCESS (Queue size (-1) (-1) array)
  end.

(** After [free] no element can be accessed. *)
Definition free_cyclic_queue : M cyclic_queue unit :=
  modify (λ q, Queue (q_size q) (q_head q) (q_tail q) []).

Definition add_queue_element (element : session) : M cyclic_queue retval :=
  let* q := getS in
  if (q_tail q + 1 =? q_head q) || ((q_head q =? 0) && (u64 (q_tail q) =? u64 (q_size q - 1)))
  then ret QUEUE_IS_FULL
  else
    (if q_head q =? -1 then modify (set_head 0) else ret tt) ;;;
    if q_size q =? 0 then fault
    else
      let tail := i64 (u64 (q_tail q + 1) mod q_size q) in
      modify (set_tail tail) ;;;
      put_element tail element ;;;
      ret SUCCESS.

(** [element] is the variable behind the pointer argument, [None] for [NULL]. *)
Definition remove_queue_element (element : option session) (type : remove_type) : M cyclic_queue (retval * option session) :=
  let* q := getS in
  if q_head q =? -1 then ret (QUEUE_IS_EMPTY, element)
  else
    let* element' :=
      match element with
      | None => ret None
      | Some _ =>
        let* x := get_element (match type with HEAD => q_head q | TAIL => q_tail q end) in
        ret (Some x)
      end in
    (if q_head q =? q_tail q then
       modify (set_head (-1)) ;;; modify (set_tail (-1))
     else
       match type with
       | HEAD => if q_size q =? 0 then fault else modify (set_head (i64 (u64 (q_head q + 1) mod q_size q)))
       | TAIL => modify (set_tail (if q_tail q =? 0 then i64 (u64 (q_size q - 1)) else q_tail q - 1))
       end) ;;;
    ret (SUCCESS, element').

(** ** The abstract queue *)

(** The position of the [i]-th element. *)
Definition slot (q : cyclic_queue) (i : nat) : Z := (q_head q + Z.of_nat i) mod q_size q.

(** The array is the one that was allocated and the indices are in range. *)
Record queue_ok (q : cyclic_queue) : Prop := {
  qo_size : 0 ≤ q_size q < 2 ^ 63;
  qo_length : Z.of_nat (length (elements_array q)) = q_size q
}.

(** [q] holds the sessions [l], oldest first. *)
Record models (q : cyclic_queue) (l : list session) : Prop := {
  md_ok : queue_ok q;
  md_bound : Z.of_nat (length l) ≤ q_size q;
  md_empty : l = [] → q_head q = -1 ∧ q_tail q = -1;
  md_range : l ≠ [] → 0 ≤ q_head q < q_size q ∧ q_tail q = slot q (length l - 1);
  md_elem : ∀ i x, l !! i = Some x → elements_array q !! Z.to_nat (slot q i) = Some x
}.

(** Reducing modulo the size by comparing, for indices less than twice the size. *)
Lemma mod_once a n : 0 < n → 0 ≤ a < 2 * n → a mod n = if a <? n then a else a - n.
Proof.
  intros Hn Ha. destruct (Z.ltb_spec a n); [apply Z.mod_small; lia|].
  symmetry. apply (Z.mod_unique a n 1); lia.
Qed.

Lemma slot_range q i : 0 < q_size q → 0 ≤ slot q i < q_size q.
Proof. intros. by apply Z.mod_pos_bound. Qed.

Lemma slot_inj q i j :
  0 ≤ q_head q < q_size q → Z.of_nat i < q_size q → Z.of_nat j < q_size q → slot q i = slot q j → i = j.
Proof. unfold slot. intros Hh Hi Hj. rewrite !mod_once by lia. repeat zcase; lia. Qed.

(** The array position after the last element is free unless the queue is full. *)
Lemma slot_next q l :
  models q l → l ≠ [] → Z.of_nat (length l) < q_size q → slot q (length l) = (q_tail q + 1) mod q_size q.
Proof.
  intros Hm Hl Hlt. destruct (md_range _ _ Hm Hl) as [Hh ->]. destruct l as [|x l]; [done|].
  unfold slot. rewrite Zplus_mod_idemp_l. f_equal. cbn [length] in *. lia.
Qed.

(** The test of [add_queue_element] is exact. *)
Lemma full_test q l :
  models q l → 0 < q_size q →
  (q_tail q + 1 =? q_head q) || ((q_head q =? 0) && (u64 (q_tail q) =? u64 (q_size q - 1))) =
  (Z.of_nat (length l) =? q_size q).
Proof.
  intros Hm Hs. destruct (md_ok _ _ Hm) as [Hsz _].
  rewrite (u64_small (q_size q - 1)) by lia.
  destruct l as [|x l].
  { destruct (md_empty _ _ Hm eq_refl) as [-> ->]. cbn. symmetry. apply Z.eqb_neq. lia. }
  destruct (md_range _ _ Hm ltac:(done)) as [Hh Ht]. pose proof (md_bound _ _ Hm) as Hb.
  rewrite Ht. unfold slot. rewrite mod_once by lia. cbn [length] in *.
  apply eq_bool_prop_intro. rewrite !Is_true_true, orb_true_iff, andb_true_iff, !Z.eqb_eq.
  zcase; rewrite u64_small by lia; lia.
Qed.

Lemma empty_test q l : models q l → (q_head q =? -1) = bool_decide (l = []).
Proof.
  intros Hm. destruct l as [|x l].
  - by destruct (md_empty _ _ Hm eq_refl) as [-> _].
  - destruct (md_range _ _ Hm ltac:(done)) as [Hh _]. rewrite bool_decide_eq_false_2 by done. apply Z.eqb_neq. lia.
Qed.

Lemma i64_u64_mod a n : 0 ≤ a < 2 ^ 63 → 0 < n < 2 ^ 63 → i64 (u64 a mod n) = a mod n.
Proof. intros Ha Hn. rewrite u64_small by lia. pose proof (Z.mod_pos_bound a n). apply i64_small. lia. Qed.

(** ** Refinement lemmas *)

Lemma add_full q l x : models q l → 0 < q_size q → Z.of_nat (length l) = q_size q → add_queue_element x q = Ok QUEUE_IS_FULL q.
Proof.
  intros Hm Hs Hl. unfold add_queue_element, bind, getS. rewrite (full_test _ _ Hm Hs), Hl, Z.eqb_refl. done.
Qed.

(** The state in which the new element has been stored. *)
Lemma models_snoc q l x h :
  models q l → Z.of_nat (length l) < q_size q → 0 ≤ h < q_size q → (l ≠ [] → h = q_head q) →
  let t := (h + Z.of_nat (length l)) mod q_size q in
  models (Queue (q_size q) h t (<[Z.to_nat t := x]> (elements_array q))) (l ++ [x]).
Proof.
  intros Hm Hlt Hh Hhq t. destruct (md_ok _ _ Hm) as [Hsz Hlen].
  assert (Htr : 0 ≤ t < q_size q) by (apply Z.mod_pos_bound; lia).
  split; cbn -[Z.to_nat].
  - split; cbn -[Z.to_nat]; [done|]. by rewrite length_insert.
  - rewrite length_app. cbn. lia.
  - by destruct l.
  - intros _. split; [done|]. unfold t, slot. cbn. rewrite length_app. do 3 f_equal. cbn. lia.
  - intros i y Hi. unfold slot. cbn. apply lookup_app_Some in Hi as [Hi|[Hge Hi]].
    + assert (Hil : (i < length l)%nat) by (by apply lookup_lt_Some in Hi).
      specialize (Hhq ltac:(by destruct l)). subst h.
      rewrite list_lookup_insert_ne; [by apply (md_elem _ _ Hm i y Hi)|]. intros E.
      pose proof (Z.mod_pos_bound (q_head q + Z.of_nat i) (q_size q)).
      enough (i = length l) by lia. apply (slot_inj q); unfold slot; lia.
    + assert (i = length l) as -> by (apply lookup_lt_Some in Hi as Hlt'; cbn in Hlt'; lia).
      rewrite Nat.sub_diag in Hi. injection Hi as <-. fold t. apply list_lookup_insert_eq. lia.
Qed.

Lemma add_spec q l x (Q : retval → cyclic_queue → Prop) :
  models q l → Z.of_nat (length l) < q_size q →
  (∀ q', models q' (l ++ [x]) → q_size q' = q_size q → Q SUCCESS q') →
  wp (add_queue_element x) Q q.
Proof.
  intros Hm Hlt HQ. destruct (md_ok _ _ Hm) as [Hsz Hlen].
  set (h := if q_head q =? -1 then 0 else q_head q). set (t := (h + Z.of_nat (length l)) mod q_size q).
  assert (Hh : 0 ≤ h < q_size q ∧ (l ≠ [] → h = q_head q)).
  { unfold h. rewrite (empty_test _ _ Hm). case_bool_decide as E; [split; [lia|done]|]. by destruct (md_range _ _ Hm E). }
  assert (Ht : i64 (u64 (q_tail q + 1) mod q_size q) = t).
  { unfold t, h. rewrite (empty_test _ _ Hm). case_bool_decide as E.
    - destruct (md_empty _ _ Hm E) as [_ ->]. subst l. cbn. by rewrite Z.mod_0_l by lia.
    - destruct (md_range _ _ Hm E) as [_ Ht]. pose proof (slot_range q (length l - 1) ltac:(lia)).
      rewrite i64_u64_mod by lia. symmetry. by apply (slot_next q l). }
  assert (Htr : 0 ≤ t < q_size q) by (apply Z.mod_pos_bound; lia).
  unfold add_queue_element, wp, bind, getS. rewrite (full_test _ _ Hm) by lia.
  destruct (Z.eqb_spec (Z.of_nat (length l)) (q_size q)); [lia|].
  assert (Hhead : (if q_head q =? -1 then modify (set_head 0) else ret tt) q = Ok tt (set_head h q)).
  { unfold h. destruct (q_head q =? -1); [done|]. by destruct q. }
  rewrite Hhead. destruct (Z.eqb_spec (q_size q) 0); [lia|]. rewrite Ht.
  unfold modify, put_element. cbn -[Z.to_nat].
  destruct (Z.leb_spec 0 t), (Z.ltb_spec t (Z.of_nat (length (elements_array q)))); try lia. cbn -[Z.to_nat].
  apply HQ; [|done]. destruct Hh as [Hh Hhq]. by apply (models_snoc q l x h).
Qed.

Lemma remove_empty q e type : models q [] → remove_queue_element e type q = Ok (QUEUE_IS_EMPTY, e) q.
Proof. intros Hm. unfold remove_queue_element, bind, getS. by destruct (md_empty _ _ Hm eq_refl) as [-> _]. Qed.

(** One element left: [head] and [tail] meet exactly then. *)
Lemma single_test q l : models q l → l ≠ [] → (q_head q =? q_tail q) = (length l =? 1)%nat.
Proof.
  intros Hm Hne. destruct (md_range _ _ Hm Hne) as [Hh ->]. pose proof (md_bound _ _ Hm). destruct l as [|x l]; [done|].
  unfold slot. rewrite mod_once by (cbn [length] in *; lia). apply eq_bool_prop_intro. rewrite !Is_true_true, Z.eqb_eq, Nat.eqb_eq.
  cbn [length] in *. zcase; lia.
Qed.

Lemma models_nil q : queue_ok q → q_head q = -1 → q_tail q = -1 → models q [].
Proof. intros Hok ? ?. split; [done|cbn; by apply Hok|done|done|done]. Qed.

(** The states after an element has left at the head, or at the tail. *)
Lemma models_tail q x l : models q (x :: l) → l ≠ [] → models (set_head ((q_head q + 1) mod q_size q) q) l.
Proof.
  intros Hm Hne. pose proof (md_bound _ _ Hm) as Hb. destruct (md_range _ _ Hm ltac:(done)) as [Hh Ht].
  destruct l as [|y l]; [done|]. cbn [length] in *.
  assert (Hslot : ∀ i, ((q_head q + 1) mod q_size q + Z.of_nat i) mod q_size q = (q_head q + Z.of_nat (S i)) mod q_size q).
  { intros i. rewrite Zplus_mod_idemp_l. f_equal. lia. }
  split; cbn -[length]; try done.
  - split; apply (md_ok _ _ Hm).
  - cbn [length]. lia.
  - intros _. split; [apply Z.mod_pos_bound; lia|]. rewrite Ht. unfold slot. cbn -[length]. rewrite Hslot. do 3 f_equal. cbn. lia.
  - intros i z Hi. unfold slot. cbn -[Z.of_nat]. rewrite Hslot. by apply (md_elem _ _ Hm (S i) z).
Qed.

Lemma models_init q x l :
  models q (l ++ [x]) → l ≠ [] → models (set_tail (if q_tail q =? 0 then q_size q - 1 else q_tail q - 1) q) l.
Proof.
  intros Hm Hne. pose proof (md_bound _ _ Hm) as Hb. destruct (md_range _ _ Hm ltac:(by destruct l)) as [Hh Ht].
  rewrite length_app in *. cbn [length] in *. destruct l as [|y l]; [done|]. cbn [length] in *.
  split; cbn -[length]; try done.
  - split; apply (md_ok _ _ Hm).
  - cbn [length]. lia.
  - intros _. split; [done|]. unfold slot in *. cbn -[length]. rewrite mod_once in Ht by lia. rewrite mod_once by (cbn [length]; lia). cbn [length].
    revert Ht. repeat match goal with |- context [Z.ltb ?a ?b] => destruct (Z.ltb_spec a b) end; intros Ht; zcase; lia.
  - intros i z Hi. apply (md_elem _ _ Hm i z). by apply lookup_app_l_Some.
Qed.

Lemma remove_head_spec q x l e (Q : retval * option session → cyclic_queue → Prop) :
  models q (x :: l) →
  (∀ q', models q' l → q_size q' = q_size q → Q (SUCCESS, const x <$> e) q') →
  wp (remove_queue_element e HEAD) Q q.
Proof.
  intros Hm HQ. destruct (md_ok _ _ Hm) as [Hsz Hlen]. destruct (md_range _ _ Hm ltac:(done)) as [Hh Ht].
  unfold remove_queue_element, wp, bind, getS. rewrite (empty_test _ _ Hm). cbn [bool_decide].
  rewrite bool_decide_eq_false_2 by done.
  assert (Hel : (match e with None => ret None | Some _ => let* y := get_element (q_head q) in ret (Some y) end) q = Ok (const x <$> e) q).
  { destruct e as [y|]; [|done]. unfold bind, get_element. destruct (Z.ltb_spec (q_head q) 0); [lia|].
    pose proof (md_elem _ _ Hm 0 x eq_refl) as He. unfold slot in He. rewrite Z.add_0_r, Z.mod_small in He by lia. by rewrite He. }
  unfold bind in Hel. rewrite Hel, (single_test _ _ Hm) by done.
  destruct l as [|y l]; cbn [length Nat.eqb].
  - unfold modify. cbn. apply HQ; [|done]. by apply models_nil.
  - destruct (Z.eqb_spec (q_size q) 0); [lia|]. rewrite i64_u64_mod by lia. unfold modify. cbn. apply HQ; [|done]. by apply (models_tail q x).
Qed.

Lemma remove_tail_spec q x l e (Q : retval * option session → cyclic_queue → Prop) :
  models q (l ++ [x]) →
  (∀ q', models q' l → q_size q' = q_size q → Q (SUCCESS, const x <$> e) q') →
  wp (remove_queue_element e TAIL) Q q.
Proof.
  intros Hm HQ. destruct (md_ok _ _ Hm) as [Hsz Hlen]. destruct (md_range _ _ Hm ltac:(by destruct l)) as [Hh Ht].
  pose proof (slot_range q (length (l ++ [x]) - 1) ltac:(lia)) as Hr.
  unfold remove_queue_element, wp, bind, getS. rewrite (empty_test _ _ Hm), bool_decide_eq_false_2 by (by destruct l).
  assert (Hel : (match e with None => ret None | Some _ => let* y := get_element (q_tail q) in ret (Some y) end) q = Ok (const x <$> e) q).
  { destruct e as [y|]; [|done]. unfold bind, get_element. destruct (Z.ltb_spec (q_tail q) 0); [lia|]. rewrite Ht.
    rewrite (md_elem _ _ Hm (length (l ++ [x]) - 1) x); [done|]. rewrite length_app. cbn. replace (length l + 1 - 1)%nat with (length l) by lia.
    by rewrite lookup_app_r, Nat.sub_diag by lia. }
  unfold bind in Hel. rewrite Hel, (single_test _ _ Hm) by (by destruct l).
  destruct l as [|y l]; cbn [length app Nat.eqb].
  - unfold modify. cbn. apply HQ; [|done]. by apply models_nil.
  - rewrite length_app. replace (length l + length [x] =? 0)%nat with false by (symmetry; apply Nat.eqb_neq; cbn; lia).
    rewrite (u64_small (q_size q - 1)), (i64_small (q_size q - 1)) by lia. unfold modify. cbn. apply HQ; [|done]. by apply (models_init q x (y :: l)).
Qed.

(** ** The bounded list the queue implements *)

Inductive queue_op :=
| OpAdd (x : session)
| OpRemove (element : option session) (type : remove_type).

Definition queue_run (o : queue_op) : M cyclic_queue (retval * option session) :=
  match o with
  | OpAdd x => let* r := add_queue_element x in ret (r, None)
  | OpRemove e type => remove_queue_element e type
  end.

Definition list_run (cap : Z) (o : queue_op) (l : list session) : (retval * option session) * list session :=
  match o with
  | OpAdd x => if Z.of_nat (length l) =? cap then ((QUEUE_IS_FULL, None), l) else ((SUCCESS, None), l ++ [x])
  | OpRemove e HEAD => match l with [] => ((QUEUE_IS_EMPTY, e), []) | x :: l' => ((SUCCESS, const x <$> e), l') end
  | OpRemove e TAIL => match last l with None => ((QUEUE_IS_EMPTY, e), []) | Some x => ((SUCCESS, const x <$> e), removelast l) end
  end.

Fixpoint queue_runs (os : list queue_op) : M cyclic_queue (list (retval * option session)) :=
  match os with
  | [] => ret []
  | o :: os' => let* r := queue_run o in let* rs := queue_runs os' in ret (r :: rs)
  end.
Fixpoint list_runs (cap : Z) (os : list queue_op) (l : list session) : list (retval * option session) * list session :=
  match os with
  | [] => ([], l)
  | o :: os' => let '(r, l1) := list_run cap o l in let '(rs, l2) := list_runs cap os' l1 in (r :: rs, l2)
  end.

Lemma queue_run_refines o q l :
  models q l → 0 < q_size q →
  ∃ q', queue_run o q = Ok (list_run (q_size q) o l).1 q' ∧ models q' (list_run (q_size q) o l).2 ∧ q_size q' = q_size q.
Proof.
  intros Hm Hs. destruct o as [x|e []]; cbn [queue_run list_run].
  - destruct (Z.eqb_spec (Z.of_nat (length l)) (q_size q)) as [Hl|Hl].
    + exists q. unfold bind. by rewrite (add_full _ _ _ Hm Hs Hl).
    + pose proof (md_bound _ _ Hm). destruct (wp_run2 (add_queue_element x) (λ r q', r = SUCCESS ∧ models q' (l ++ [x]) ∧ q_size q' = q_size q) q)
        as (r & q' & Hrun & -> & ? & ?); [apply (add_spec q l x); [done|lia|by intros]|]. exists q'. unfold bind. by rewrite Hrun.
  - destruct l as [|x l]; [exists q; by rewrite remove_empty|].
    destruct (wp_run2 (remove_queue_element e HEAD) (λ r q', r = (SUCCESS, const x <$> e) ∧ models q' l ∧ q_size q' = q_size q) q)
      as (r & q' & Hrun & -> & ? & ?); [by apply (remove_head_spec q x l)|]. exists q'. by rewrite Hrun.
  - destruct l as [|x l _] using rev_ind; [exists q; by rewrite remove_empty|]. rewrite last_snoc, removelast_last.
    destruct (wp_run2 (remove_queue_element e TAIL) (λ r q', r = (SUCCESS, const x <$> e) ∧ models q' l ∧ q_size q' = q_size q) q)
      as (r & q' & Hrun & -> & ? & ?); [by apply (remove_tail_spec q x l)|]. exists q'. by rewrite Hrun.
Qed.

(** ** Properties *)

(** C9: the cyclic queue implements a bounded list: from a freshly initialised
    queue of any positive size, every sequence of operations returns what the
    list returns, wrap-around of the indices included, and never leaves the
    array. *)
Theorem cyclic_queue_refines_list (alloc : Z → option (list session)) (size : Z) (array : list session) (q0 : cyclic_queue) (os : list queue_op)
    (Hsize : 0 < size < 2 ^ 63) (Halloc : alloc (u64 (24 * size)) = Some array) (Hlen : Z.of_nat (length array) = size) :
  ∃ q1 q2, init_cyclic_queue alloc size q0 = Ok SUCCESS q1 ∧
    queue_runs os q1 = Ok (list_runs size os []).1 q2 ∧ models q2 (list_runs size os []).2.
Proof.
  unfold init_cyclic_queue, SIZEOF_SESSION. rewrite Halloc. set (q1 := Queue size (-1) (-1) array). exists q1.
  assert (Hm : models q1 []) by (apply models_nil; [split; cbn; lia|done|done]).
  assert (Hs : q_size q1 = size) by done.
  enough (∀ l q, models q l → q_size q = size → ∃ q2, queue_runs os q = Ok (list_runs size os l).1 q2 ∧ models q2 (list_runs size os l).2)
    as Hall by (destruct (Hall [] q1 Hm Hs) as (q2 & ? & ?); by exists q2).
  clear Hm Hs. induction os as [|o os IH]; intros l q Hm Hs; cbn [queue_runs list_runs]; [by exists q|].
  destruct (queue_run_refines o q l Hm ltac:(lia)) as (q' & Hrun & Hm' & Hs'). rewrite Hs in *.
  destruct (list_run size o l) as [r l1]. destruct (IH l1 q' Hm' Hs') as (q2 & Hrun2 & Hm2). exists q2.
  unfold bind. rewrite Hrun, Hrun2. by destruct (list_runs size os l1) as [rs l2].
Qed.

Lemma cyclic_queue_refines_list_witness :
  let s := λ n, Session n (0, 0) in
  let os := [OpAdd (s 4); OpAdd (s 5); OpAdd (s 6); OpRemove (Some (s 0)) HEAD; OpAdd (s 7); OpRemove (Some (s 0)) TAIL] in
  ∃ q1 q2, init_cyclic_queue (λ _, Some [s 0; s 0]) 2 (Queue 0 0 0 []) = Ok SUCCESS q1 ∧
    queue_runs os q1 = Ok [(SUCCESS, None); (SUCCESS, None); (QUEUE_IS_FULL, None); (SUCCESS, Some (s 4)); (SUCCESS, None); (SUCCESS, Some (s 7))] q2 ∧
    models q2 [s 5].
Proof.
  intros s os. apply (cyclic_queue_refines_list (λ _, Some [s 0; s 0]) 2 [s 0; s 0] (Queue 0 0 0 []) os); [lia|reflexivity|reflexivity].
Defined.
