(* ===== verification/JobsManager.v ===== *)
(** * [hw3/wet/server.c]: the jobs manager and its threads

    The critical sections of the main thread and of the worker threads are run
    one at a time, as the mutex makes them; the interleaving of the threads and
    the two condition variables are the step relation [server_step].  A thread
    that [pthread_cond_wait] puts to sleep returns to the test of its [while]
    loop, which is the start of its critical section. *)

From S2P Require Import Prelude CyclicQueue.

(** [SCHEDALG_UNSET] is any value outside the enumeration: [getargs] leaves the
    variable uninitialised for a name it does not know. *)
Inductive schedalg := BLOCK | DROP_TAIL | DROP_HEAD | DROP_RANDOM | SCHEDALG_UNSET.

#[export] Instance schedalg_eq_dec : EqDecision schedalg.
Proof. solve_decision. Defined.

(** The mutex, the condition variables and the thread handles are in the step
    relation below. *)
Record jobs_manager := JobsManager {
  schedalg_of : schedalg;
  max_accepted_count : Z;
  waiting_count : Z;
  running_count : Z;
  waiting_jobs : cyclic_queue
}.

(** [closed] records the connections that were closed, [rng] the state of
    [rand]. *)
Record shared := Shared {
  jm : jobs_manager;
  closed : list Z;
  rng : nat
}.

Definition set_jm (j : jobs_manager) (s : shared) : shared := Shared j (closed s) (rng s).
(** The counters are [size_t]. *)
Definition add_waiting (d : Z) (s : shared) : shared :=
  let j := jm s in
  set_jm (JobsManager (schedalg_of j) (max_accepted_count j) (u64 (waiting_count j + d)) (running_count j) (waiting_jobs j)) s.
Definition add_running (d : Z) (s : shared) : shared :=
  let j := jm s in
  set_jm (JobsManager (schedalg_of j) (max_accepted_count j) (waiting_count j) (u64 (running_count j + d)) (waiting_jobs j)) s.
Definition set_queue (q : cyclic_queue) (s : shared) : shared :=
  let j := jm s in
  set_jm (JobsManager (schedalg_of j) (max_accepted_count j) (waiting_count j) (running_count j) q) s.

(** The queue operations on [jobs_manager->waiting_jobs]. *)
Definition on_queue {A} (c : M cyclic_queue A) : M shared A :=
  λ s, match c (waiting_jobs (jm s)) with
       | Ok a q => Ok a (set_queue q s)
       | Exit n q => Exit n (set_queue q s)
       | Fault => Fault
       | OutOfFuel => OutOfFuel
       end.

(** How a call to [requestHandle] ends: it returns, it ends the process (an error
    in a wrapper of [segel.c]), or it never ends (a client that keeps the connection
    open, or closes it in the middle of the headers). *)
Inductive handling := Returns | EndsProcess | NeverReturns.

(** What the C library and the kernel provide: the generator behind [srand] and
    [rand], and the result of [close]; and what becomes of the request of a session,
    which depends on its client. *)
Class ServerEnv := {
  reseed : nat → nat;
  rand_at : nat → Z;
  sys_close : Z → Z;
  request_end : session → handling
}.

Section Code.
Context {env : ServerEnv}.

(** The wrapper of [segel.c]: a [close] that fails ends the process. *)
Definition Close (fd : Z) : M shared unit :=
  if sys_close fd <? 0 then exit 0
  else modify (λ s, Shared (jm s) (closed s ++ [fd]) (rng s)).

Definition srand : M shared unit := modify (λ s, Shared (jm s) (closed s) (reseed (rng s))).
Definition rand : M shared Z := λ s, Ok (rand_at (rng s)) (Shared (jm s) (closed s) (S (rng s))).

(** The loop of [random_drop_connections]; [temp] is the variable the removed
    session is copied to. *)
Fixpoint drop_loop (n : nat) (temp : session) : M shared unit :=
  match n with
  | O => ret tt
  | S n' =>
    let* r := rand in
    let* res := on_queue (remove_queue_element (Some temp) (if Z.rem r 2 =? 0 then HEAD else TAIL)) in
    let temp' := default temp res.2 in
    Close (connection_fd temp') ;;;
    drop_loop n' temp'
  end.

Definition random_drop_connections (temp_session : session) : M shared unit :=
  srand ;;;
  let* n := gets (λ s, waiting_count (jm s)) in
  let remove_elements_num := if n mod 2 =? 0 then n / 2 else n / 2 + 1 in
  modify (add_waiting (- remove_elements_num)) ;;;
  drop_loop (Z.to_nat remove_elements_num) temp_session.

Inductive add_result :=
| AddWait
| AddDone (signal_consume : bool).

Definition full (s : shared) : bool :=
  u64 (waiting_count (jm s) + running_count (jm s)) =? max_accepted_count (jm s).

(** [add_request] from the lock to the unlock, or to the wait on [produce];
    [head_session] is the local variable, uninitialised. *)
Definition finish_add (x : session) : M shared add_result :=
  on_queue (add_queue_element x) ;;;
  modify (add_waiting 1) ;;;
  ret (AddDone true).

Definition add_request (head_session : session) (x : session) : M shared add_result :=
  let* s := getS in
  if bool_decide (schedalg_of (jm s) = BLOCK) then
    if full s then ret AddWait else finish_add x
  else if full s then
    if waiting_count (jm s) =? 0 then Close (connection_fd x) ;;; ret (AddDone false)
    else
      match schedalg_of (jm s) with
      | DROP_TAIL => Close (connection_fd x) ;;; ret (AddDone false)
      | DROP_HEAD =>
        let* res := on_queue (remove_queue_element (Some head_session) HEAD) in
        Close (connection_fd (default head_session res.2)) ;;;
        modify (add_waiting (-1)) ;;;
        finish_add x
      | DROP_RANDOM => random_drop_connections head_session ;;; finish_add x
      | _ => finish_add x
      end
  else finish_add x.

(** [get_request]: nothing when it waits on [consume]; [x] is the worker's
    [session] variable. *)
Definition get_request (x : session) : M shared (option session) :=
  let* s := getS in
  if waiting_count (jm s) =? 0 then ret None
  else
    let* res := on_queue (remove_queue_element (Some x) HEAD) in
    modify (add_waiting (-1)) ;;;
    modify (add_running 1) ;;;
    ret (Some (default x res.2)).

Definition notify_request_finished : M shared unit := modify (add_running (-1)).

(** ** Threads *)

(** Where the main thread is: in [Accept], about to run or in the middle of
    [add_request], or asleep on [produce]. *)
Inductive main_pc :=
| MAccept
| MAdd (x : session)
| MWait (x : session).

(** Where a worker is: before [get_request], asleep on [consume], handling a
    request, or before [notify_request_finished]. *)
Inductive worker_pc :=
| WGet
| WWait
| WRun (x : session)
| WNotify.

Record server := Server {
  sh : shared;
  main_at : main_pc;
  workers : list worker_pc;
  accepted : list Z
}.

(** [pthread_cond_signal] wakes at least one of the sleeping threads. *)
Definition woken (w w' : worker_pc) : Prop := w' = w ∨ (w = WWait ∧ w' = WGet).
Definition signal_workers (ws ws' : list worker_pc) : Prop :=
  Forall2 woken ws ws' ∧ (WWait ∈ ws → ∃ i, ws !! i = Some WWait ∧ ws' !! i = Some WGet).
Definition signal_main (m : main_pc) : main_pc :=
  match m with MWait x => MAdd x | _ => m end.

(** The loop of [request_handle_thread].  A worker leaves [requestHandle] only when
    the request of its session returns; after one that ends the process there are no
    steps of a real run any more, and what holds of every state holds of the last.
    What [requestHandle] does is in [HttpRequest] and [ServerRun]. *)
Inductive worker_step : server → server → Prop :=
| st_get_wait s i x sh' :
    workers s !! i = Some WGet → get_request x (sh s) = Ok None sh' →
    worker_step s (Server sh' (main_at s) (<[i := WWait]> (workers s)) (accepted s))
| st_get s i x y sh' :
    workers s !! i = Some WGet → get_request x (sh s) = Ok (Some y) sh' →
    worker_step s (Server sh' (main_at s) (<[i := WRun y]> (workers s)) (accepted s))
| st_handled s i x sh' :
    workers s !! i = Some (WRun x) → request_end x = Returns → Close (connection_fd x) (sh s) = Ok tt sh' →
    worker_step s (Server sh' (main_at s) (<[i := WNotify]> (workers s)) (accepted s))
| st_notify s i sh' :
    workers s !! i = Some WNotify → notify_request_finished (sh s) = Ok tt sh' →
    worker_step s (Server sh' (signal_main (main_at s)) (<[i := WGet]> (workers s)) (accepted s)).

(** The loop of [main], and wake-ups without a signal. *)
Inductive server_step : server → server → Prop :=
| st_worker s s' : worker_step s s' → server_step s s'
| st_accept s fd t :
    main_at s = MAccept →
    server_step s (Server (sh s) (MAdd (Session fd t)) (workers s) (accepted s ++ [fd]))
| st_add_wait s x y sh' :
    main_at s = MAdd x → add_request y x (sh s) = Ok AddWait sh' →
    server_step s (Server sh' (MWait x) (workers s) (accepted s))
| st_add_done s x y sh' :
    main_at s = MAdd x → add_request y x (sh s) = Ok (AddDone false) sh' →
    server_step s (Server sh' MAccept (workers s) (accepted s))
| st_add_signal s x y sh' ws' :
    main_at s = MAdd x → add_request y x (sh s) = Ok (AddDone true) sh' →
    signal_workers (workers s) ws' →
    server_step s (Server sh' MAccept ws' (accepted s))
| st_spurious_main s x :
    main_at s = MWait x → server_step s (Server (sh s) (MAdd x) (workers s) (accepted s))
| st_spurious_worker s i :
    workers s !! i = Some WWait →
    server_step s (Server (sh s) (main_at s) (<[i := WGet]> (workers s)) (accepted s)).

(** [init_jobs_manager]: [alloc] is [malloc] for the queue, [alloc_threads] says
    whether the array of handles was allocated, [create i] is the result of the
    [i]-th [pthread_create]. *)
Fixpoint create_threads (create : nat → Z) (i n : nat) (ws : list worker_pc) : option (list worker_pc) :=
  match n with
  | O => Some ws
  | S n' => if create i =? 0 then create_threads create (S i) n' (ws ++ [WGet]) else None
  end.

Definition init_jobs_manager (alloc : Z → option (list session)) (alloc_threads : bool) (create : nat → Z)
    (max_accepted threads_num : Z) (alg : schedalg) : M server retval :=
  λ s,
    let q := waiting_jobs (jm (sh s)) in
    let start q := Server (Shared (JobsManager alg max_accepted 0 0 q) (closed (sh s)) (rng (sh s))) (main_at s) (workers s) (accepted s) in
    if negb alloc_threads then Ok MEMORY_ERROR (start q)
    else
      match init_cyclic_queue alloc max_accepted q with
      | Ok SUCCESS q' =>
        match create_threads create 0 (Z.to_nat threads_num) (workers s) with
        | Some ws => Ok SUCCESS (Server (sh (start q')) MAccept ws (accepted s))
        | None => Exit 1 (start q')
        end
      | Ok r q' => Ok r (start q')
      | _ => Fault
      end.
End Code.

(** ** What the critical sections do *)

Lemma wp_on_queue {A} (c : M cyclic_queue A) (Q : A → shared → Prop) s :
  wp c (λ a q, Q a (set_queue q s)) (waiting_jobs (jm s)) → wp (on_queue c) Q s.
Proof. unfold wp, on_queue. by destruct (c _). Qed.

(** The manager holds the sessions [l], with [r] requests being handled. *)
Record mgr_ok (s : shared) (l : list session) (r : Z) : Prop := {
  mo_models : models (waiting_jobs (jm s)) l;
  mo_size : q_size (waiting_jobs (jm s)) = max_accepted_count (jm s);
  mo_waiting : waiting_count (jm s) = Z.of_nat (length l);
  mo_running : running_count (jm s) = r;
  mo_bound : 0 ≤ r ∧ Z.of_nat (length l) + r ≤ max_accepted_count (jm s)
}.

Definition fds (l : list session) : list Z := connection_fd <$> l.

(** Nothing but the queue and the log of closed connections differs. *)
Record same_mgr (s s' : shared) : Prop := {
  sm_alg : schedalg_of (jm s') = schedalg_of (jm s);
  sm_max : max_accepted_count (jm s') = max_accepted_count (jm s);
  sm_waiting : waiting_count (jm s') = waiting_count (jm s);
  sm_running : running_count (jm s') = running_count (jm s);
  sm_size : q_size (waiting_jobs (jm s')) = q_size (waiting_jobs (jm s))
}.

Lemma same_mgr_refl s : same_mgr s s.
Proof. by split. Qed.
Lemma same_mgr_trans s1 s2 s3 : same_mgr s1 s2 → same_mgr s2 s3 → same_mgr s1 s3.
Proof. intros [] []. split; congruence. Qed.

Section Specs.
Context {env : ServerEnv}.

Lemma mgr_max s l r : mgr_ok s l r → max_accepted_count (jm s) < 2 ^ 63.
Proof. intros H. rewrite <- (mo_size _ _ _ H). apply (qo_size _ (md_ok _ _ (mo_models _ _ _ H))). Qed.

Lemma full_spec s l r : mgr_ok s l r → full s = (Z.of_nat (length l) + r =? max_accepted_count (jm s)).
Proof.
  intros H. pose proof (mgr_max _ _ _ H). destruct H as [_ _ H1 H2 H3]. unfold full.
  rewrite H1, H2, u64_small by lia. done.
Qed.

Lemma wpe_close fd (Q : unit → shared → Prop) s :
  Q tt (Shared (jm s) (closed s ++ [fd]) (rng s)) → wpe (Close fd) Q s.
Proof. unfold wpe, Close. by destruct (sys_close fd <? 0). Qed.

(** One session leaves the queue, from either end. *)
Lemma remove_any_spec s l temp type (Q : retval * option session → shared → Prop) :
  models (waiting_jobs (jm s)) l → l ≠ [] →
  (∀ x l' q', l ≡ₚ x :: l' → models q' l' → q_size q' = q_size (waiting_jobs (jm s)) →
     (match type with HEAD => l = x :: l' | TAIL => l = l' ++ [x] end) → Q (SUCCESS, Some x) (set_queue q' s)) →
  wp (on_queue (remove_queue_element (Some temp) type)) Q s.
Proof.
  intros Hm Hne HQ. apply wp_on_queue. destruct type.
  - destruct l as [|x l]; [done|]. eapply remove_head_spec; [exact Hm|]. intros q' Hq' Hs. by apply (HQ x l).
  - destruct l as [|x l _] using rev_ind; [done|]. eapply remove_tail_spec; [exact Hm|]. intros q' Hq' Hs.
    apply (HQ x l); [|done..]. symmetry. apply Permutation_cons_append.
Qed.

(** The sessions that [n] calls of [rand] from state [g] on take from the ends of
    the queue, and those that are left: an even number takes the first. *)
Fixpoint drop_ends (n g : nat) (l : list session) : list session * list session :=
  match n with
  | O => ([], l)
  | S n' =>
    match (if Z.rem (rand_at g) 2 =? 0 then head l else last l) with
    | Some x =>
      let '(d, k) := drop_ends n' (S g) (if Z.rem (rand_at g) 2 =? 0 then tail l else removelast l) in (x :: d, k)
    | None => ([], l)
    end
  end.

Lemma drop_ends_spec n g l :
  (n ≤ length l)%nat → l ≡ₚ (drop_ends n g l).1 ++ (drop_ends n g l).2 ∧ length (drop_ends n g l).1 = n.
Proof.
  revert g l. induction n as [|n IH]; intros g l Hn; [done|]. cbn [drop_ends]. destruct (Z.rem (rand_at g) 2 =? 0).
  - destruct l as [|x l]; cbn in Hn |- *; [lia|]. destruct (IH (S g) l ltac:(lia)) as [Hp Hl].
    destruct (drop_ends n (S g) l) as [d k]. cbn in *. by rewrite <- Hp, Hl.
  - destruct l as [|x l _] using rev_ind; cbn in Hn; [lia|]. rewrite last_snoc, removelast_last. rewrite length_app in Hn. cbn in Hn.
    destruct (IH (S g) l ltac:(lia)) as [Hp Hl]. destruct (drop_ends n (S g) l) as [d k]. cbn in *.
    rewrite <- Hp, Hl. split; [|done]. symmetry. apply Permutation_cons_append.
Qed.

Lemma drop_loop_spec n temp s l (Q : unit → shared → Prop) :
  models (waiting_jobs (jm s)) l → (n ≤ length l)%nat →
  (∀ s', models (waiting_jobs (jm s')) (drop_ends n (rng s) l).2 →
     closed s' = closed s ++ fds (drop_ends n (rng s) l).1 → same_mgr s s' → Q tt s') →
  wpe (drop_loop n temp) Q s.
Proof.
  revert temp s l Q. induction n as [|n IH]; intros temp s l Q Hm Hn HQ.
  { apply wpe_ret, HQ; [done|by rewrite app_nil_r|apply same_mgr_refl]. }
  cbn [drop_loop]. apply wpe_bind, wpe_wp. unfold wp at 1, rand. set (s1 := Shared (jm s) _ _).
  apply wpe_bind, wpe_wp. eapply (remove_any_spec s1 l); [exact Hm|by destruct l; cbn in Hn; [lia|]|].
  intros x l1 q1 Hp Hm1 Hs1 Hend. cbn [snd default]. apply wpe_bind, wpe_close.
  eapply IH; [exact Hm1|apply Permutation_length in Hp; cbn in Hp; lia|]. cbn [rng s1 set_queue set_jm]. intros s' Hm' Hc Hsame.
  assert (E : ∃ d k, drop_ends n (S (rng s)) l1 = (d, k)) by (destruct (drop_ends n (S (rng s)) l1); eauto).
  destruct E as (d & k & E). rewrite E in Hm', Hc.
  assert (Ed : drop_ends (S n) (rng s) l = (x :: d, k)).
  { cbn [drop_ends]. destruct (Z.rem (rand_at (rng s)) 2 =? 0); subst l; rewrite ?last_snoc, ?removelast_last; cbn [head tail]; by rewrite E. }
  rewrite Ed in HQ. apply HQ; [done|rewrite Hc; cbn; by rewrite <- app_assoc|]. eapply same_mgr_trans; [|exact Hsame]. by split.
Qed.

Lemma finish_add_spec x s l r (Q : add_result → shared → Prop) :
  mgr_ok s l r → Z.of_nat (length l) + r < max_accepted_count (jm s) →
  (∀ s', mgr_ok s' (l ++ [x]) r → closed s' = closed s → schedalg_of (jm s') = schedalg_of (jm s) →
     max_accepted_count (jm s') = max_accepted_count (jm s) → Q (AddDone true) s') →
  wp (finish_add x) Q s.
Proof.
  intros H Hlt HQ. pose proof (mgr_max _ _ _ H). destruct H as [Hm Hs Hw Hr Hb]. unfold finish_add.
  apply wp_bind, wp_on_queue. eapply add_spec; [exact Hm|lia|]. intros q' Hm' Hs'.
  apply wp_bind, wp_modify, wp_ret. apply HQ; [|done..]. split; cbn; [done|by rewrite Hs'|..].
  - rewrite Hw, length_app, u64_small by lia. cbn. lia.
  - done.
  - rewrite length_app. cbn. lia.
Qed.

Lemma get_request_empty x s r : mgr_ok s [] r → get_request x s = Ok None s.
Proof. intros [_ _ Hw _ _]. unfold get_request, bind, getS. by rewrite Hw. Qed.

(** [s'] is [s] with other contents, the algorithm and the bound being fixed. *)
Definition same_setup (s s' : shared) : Prop :=
  schedalg_of (jm s') = schedalg_of (jm s) ∧ max_accepted_count (jm s') = max_accepted_count (jm s).

Lemma get_request_spec x y s l r (Q : option session → shared → Prop) :
  mgr_ok s (y :: l) r →
  (∀ s', mgr_ok s' l (r + 1) → closed s' = closed s → same_setup s s' → Q (Some y) s') →
  wp (get_request x) Q s.
Proof.
  intros H HQ. pose proof (mgr_max _ _ _ H). destruct H as [Hm Hs Hw Hr Hb]. cbn [length] in *.
  unfold get_request. apply wp_bind. unfold wp at 1, getS. destruct (Z.eqb_spec (waiting_count (jm s)) 0); [lia|].
  apply wp_bind. eapply remove_any_spec; [exact Hm|done|]. intros z l' q' _ Hm' Hs' E. simplify_eq.
  apply wp_bind, wp_modify, wp_bind, wp_modify, wp_ret. cbn [snd default]. apply HQ; [|done..].
  split; cbn; [done|by rewrite Hs'|..]; [rewrite Hw, u64_small by lia; lia|rewrite u64_small by lia; lia|lia].
Qed.

Lemma notify_spec s l r (Q : unit → shared → Prop) :
  mgr_ok s l (r + 1) → 0 ≤ r →
  (∀ s', mgr_ok s' l r → closed s' = closed s → same_setup s s' → Q tt s') →
  wp notify_request_finished Q s.
Proof.
  intros H Hr0 HQ. pose proof (mgr_max _ _ _ H). destruct H as [Hm Hs Hw Hr Hb].
  apply wp_modify, HQ; [|done..]. split; cbn; [done|done|done|rewrite Hr, u64_small by lia; lia|lia].
Qed.

(** What [add_request] does with the session [x]. *)
Inductive add_effect (x : session) (s : shared) (l : list session) (r : Z) : add_result → shared → Prop :=
| ae_wait s' : Z.of_nat (length l) + r = max_accepted_count (jm s) → schedalg_of (jm s) = BLOCK → s' = s →
    add_effect x s l r AddWait s'
| ae_refused s' : Z.of_nat (length l) + r = max_accepted_count (jm s) → mgr_ok s' l r →
    closed s' = closed s ++ [connection_fd x] → same_setup s s' → add_effect x s l r (AddDone false) s'
| ae_added s' l' dropped : l ≡ₚ dropped ++ l' → mgr_ok s' (l' ++ [x]) r →
    closed s' = closed s ++ fds dropped → same_setup s s' →
    (dropped ≠ [] → Z.of_nat (length l) + r = max_accepted_count (jm s)) → add_effect x s l r (AddDone true) s'.

(** The queue after some sessions were dropped from it. *)
Lemma mgr_dropped s s' l l' r d :
  mgr_ok s l r → models (waiting_jobs (jm s')) l' → same_setup s s' →
  q_size (waiting_jobs (jm s')) = q_size (waiting_jobs (jm s)) →
  waiting_count (jm s') = u64 (waiting_count (jm s) - d) → running_count (jm s') = running_count (jm s) →
  Z.of_nat (length l') = Z.of_nat (length l) - d → 0 ≤ d → mgr_ok s' l' r.
Proof.
  intros H Hm [_ Hx] Hq Hw Hr Hl Hd. pose proof (mgr_max _ _ _ H). destruct H as [_ Hs Hw0 Hr0 Hb].
  split; [done|by rewrite Hq, Hx| |by rewrite Hr|rewrite Hx; lia]. rewrite Hw, Hw0, u64_small; lia.
Qed.

(** The number of connections [random_drop_connections] drops: half of them,
    rounded up. *)
Lemma drop_count n : 0 < n → (if n mod 2 =? 0 then n / 2 else n / 2 + 1) = (n + 1) / 2 ∧ 0 < (n + 1) / 2 ≤ n.
Proof. intros Hn. split; [zcase|]; Z.to_euclidean_division_equations; lia. Qed.

Lemma random_drop_spec temp s l r (Q : unit → shared → Prop) :
  mgr_ok s l r → l ≠ [] →
  (∀ s' l' dropped, (dropped, l') = drop_ends (Z.to_nat ((Z.of_nat (length l) + 1) / 2)) (reseed (rng s)) l →
     mgr_ok s' l' r → l ≡ₚ dropped ++ l' → Z.of_nat (length dropped) = (Z.of_nat (length l) + 1) / 2 →
     closed s' = closed s ++ fds dropped → same_setup s s' → Q tt s') →
  wpe (random_drop_connections temp) Q s.
Proof.
  intros H Hne HQ. pose proof (mgr_max _ _ _ H) as Hmax. pose proof H as [Hm Hs Hw Hr Hb].
  unfold random_drop_connections. apply wpe_bind, wpe_wp, wp_modify, wpe_bind, wpe_wp, wp_gets.
  change (waiting_count (jm (Shared (jm s) _ _))) with (waiting_count (jm s)). rewrite Hw.
  assert (0 < Z.of_nat (length l)) as Hl by (destruct l; [done|cbn; lia]).
  destruct (drop_count _ Hl) as [-> Hd]. cbv zeta. set (d := (_ + 1) / 2) in *.
  apply wpe_bind, wpe_wp, wp_modify. eapply drop_loop_spec; [exact Hm|lia|].
  change (rng (add_waiting _ _)) with (reseed (rng s)).
  destruct (drop_ends_spec (Z.to_nat d) (reseed (rng s)) l ltac:(lia)) as [Hp Hld].
  destruct (drop_ends (Z.to_nat d) (reseed (rng s)) l) as [dropped l'] eqn:Ed. cbn [fst snd] in *.
  intros s' Hm' Hc Hsm. assert (Hset : same_setup s s') by (split; apply Hsm).
  apply (HQ s' l' dropped); [by rewrite <- Ed| |done|lia|done|done].
  apply Permutation_length in Hp as Hlen. rewrite length_app in Hlen.
  eapply (mgr_dropped s s' l l' r d); [done|done|done|apply (sm_size _ _ Hsm)| |apply (sm_running _ _ Hsm)|lia|lia].
  rewrite (sm_waiting _ _ Hsm). cbn. by rewrite Hw, Z.add_opp_r.
Qed.

Lemma drop_head_spec temp s l r (Q : unit → shared → Prop) :
  mgr_ok s l r → l ≠ [] →
  (∀ s' l' dropped, mgr_ok s' l' r → l ≡ₚ dropped ++ l' → dropped ≠ [] → closed s' = closed s ++ fds dropped → same_setup s s' → Q tt s') →
  wpe (let* res := on_queue (remove_queue_element (Some temp) HEAD) in
       Close (connection_fd (default temp res.2)) ;;; modify (add_waiting (-1))) Q s.
Proof.
  intros H Hne HQ. pose proof H as [Hm Hs Hw Hr Hb].
  apply wpe_bind, wpe_wp. eapply remove_any_spec; [exact Hm|done|]. intros x l' q' Hp Hm' Hs' _. cbn [snd default].
  apply wpe_bind, wpe_close, wpe_wp, wp_modify. apply (HQ _ l' [x]); [|done|done|done|done].
  apply Permutation_length in Hp. cbn in Hp. eapply (mgr_dropped s _ l l' r 1); [done|done|done|done|done|done|lia|lia].
Qed.

(** The drop algorithms make room and then add the session. *)
Lemma drop_then_add (c : M shared unit) x s l r :
  mgr_ok s l r → Z.of_nat (length l) + r = max_accepted_count (jm s) →
  (∀ Q : unit → shared → Prop,
    (∀ s' l' dropped, mgr_ok s' l' r → l ≡ₚ dropped ++ l' → dropped ≠ [] → closed s' = closed s ++ fds dropped → same_setup s s' → Q tt s') →
    wpe c Q s) →
  wpe (c ;;; finish_add x) (add_effect x s l r) s.
Proof.
  intros H Hfull Hc. apply wpe_bind, Hc. intros s1 l1 dropped H1 Hp Hne Hcl Hset1.
  apply Permutation_length in Hp as Hlen. rewrite length_app in Hlen.
  apply wpe_wp. eapply finish_add_spec; [exact H1| |].
  - destruct Hset1 as [_ ->]. destruct dropped; [done|]. cbn in Hlen. lia.
  - intros s' H' Hcl' Ha Hx. eapply (ae_added _ _ _ _ s' l1 dropped); [done|done|by rewrite Hcl'| |done].
    destruct Hset1. split; congruence.
Qed.

Lemma add_request_spec temp x s l r :
  mgr_ok s l r → schedalg_of (jm s) ≠ SCHEDALG_UNSET → wpe (add_request temp x) (add_effect x s l r) s.
Proof.
  intros H Halg. pose proof H as [Hm Hs Hw Hr Hb]. unfold add_request. apply wpe_bind. unfold wpe at 1, getS.
  rewrite (full_spec _ _ _ H).
  assert (Hadd : Z.of_nat (length l) + r ≠ max_accepted_count (jm s) → wpe (finish_add x) (add_effect x s l r) s).
  { intros Hne. apply wpe_wp. eapply finish_add_spec; [exact H|lia|]. intros s' H' Hcl Ha Hx.
    eapply (ae_added _ _ _ _ s' l []); [done|done|by rewrite app_nil_r|done|done]. }
  assert (Hrefuse : Z.of_nat (length l) + r = max_accepted_count (jm s) →
    wpe (Close (connection_fd x) ;;; ret (AddDone false)) (add_effect x s l r) s).
  { intros Hf. apply wpe_bind, wpe_close, wpe_ret. by apply ae_refused. }
  destruct (Z.eqb_spec (Z.of_nat (length l) + r) (max_accepted_count (jm s))) as [Hf|Hf]; case_bool_decide as Hblk; auto.
  - apply wpe_ret. by apply ae_wait.
  - destruct (Z.eqb_spec (waiting_count (jm s)) 0) as [Hz|Hz]; [auto|].
    assert (Hne : l ≠ []) by (intros ->; cbn in Hw; lia).
    destruct (schedalg_of (jm s)) eqn:Ea; try done; [by auto| |].
    + apply (wpe_mono_eq ((let* res := on_queue (remove_queue_element (Some temp) HEAD) in
         Close (connection_fd (default temp res.2)) ;;; modify (add_waiting (-1))) ;;; finish_add x)).
      * rewrite bind_assoc. unfold bind. destruct (on_queue _ s) as [res s1| | |]; [|done..]. by destruct (Close _ s1).
      * apply drop_then_add; [done|done|]. intros Q. by apply drop_head_spec.
    + apply drop_then_add; [done|done|]. intros Q HQ. eapply random_drop_spec; [done|done|]. intros s' l' d _ Hm' Hp Hd. apply (HQ s' l' d); [done|done|].
      intros ->. cbn in Hd. assert (0 < Z.of_nat (length l)) by (destruct l; [done|cbn; lia]). destruct (drop_count (Z.of_nat (length l))); lia.
Qed.
End Specs.

(** ** The invariant of the threads *)

Definition busy (w : worker_pc) : bool := match w with WRun _ | WNotify => true | _ => false end.
Definition ready (w : worker_pc) : bool := match w with WGet => true | _ => false end.
Definition count (p : worker_pc → bool) (ws : list worker_pc) : Z := sum_by (λ w, Z.b2z (p w)) ws.

Definition worker_fds (w : worker_pc) : list Z := match w with WRun x => [connection_fd x] | _ => [] end.
Definition run_fds (ws : list worker_pc) : list Z := flat_map worker_fds ws.
Definition main_fds (m : main_pc) : list Z := match m with MAccept => [] | MAdd x | MWait x => [connection_fd x] end.

(** [l] is the queue; [si_ledger] says where every accepted connection is;
    [si_main] and [si_workers] that no wake-up is lost: the main thread sleeps
    only while there is no room, and when a worker sleeps at least as many workers
    are on their way to the queue as there are sessions in it. *)
Record server_inv (s : server) (l : list session) : Prop := {
  si_mgr : mgr_ok (sh s) l (count busy (workers s));
  si_alg : schedalg_of (jm (sh s)) ≠ SCHEDALG_UNSET;
  si_ledger : accepted s ≡ₚ closed (sh s) ++ fds l ++ run_fds (workers s) ++ main_fds (main_at s);
  si_main : ∀ x, main_at s = MWait x →
    schedalg_of (jm (sh s)) = BLOCK ∧
    Z.of_nat (length l) + count busy (workers s) = max_accepted_count (jm (sh s));
  si_workers : WWait ∈ workers s → Z.of_nat (length l) ≤ count ready (workers s)
}.

Lemma count_nonneg p ws : 0 ≤ count p ws.
Proof. apply sum_by_nonneg. intros w. by destruct (p w). Qed.

Lemma count_insert p ws i w w' :
  ws !! i = Some w → count p (<[i := w']> ws) = count p ws - Z.b2z (p w) + Z.b2z (p w').
Proof. apply (sum_by_insert (λ w, Z.b2z (p w))). Qed.

Lemma run_fds_insert ws i w w' :
  ws !! i = Some w → run_fds (<[i := w']> ws) ++ worker_fds w ≡ₚ run_fds ws ++ worker_fds w'.
Proof.
  revert i. induction ws as [|u ws IH]; intros [|i] H; [done|done|..].
  - cbn in *. simplify_eq. rewrite (Permutation_app_comm (_ ++ _) (worker_fds w')), <- app_assoc. apply Permutation_app_head, Permutation_app_comm.
  - change (<[S i := w']> (u :: ws)) with (u :: <[i := w']> ws). cbn [run_fds flat_map]. fold (run_fds (<[i := w']> ws)) (run_fds ws).
    rewrite <- !app_assoc. by rewrite (IH i H).
Qed.

Lemma signal_counts ws ws' :
  Forall2 woken ws ws' → count busy ws' = count busy ws ∧ run_fds ws' = run_fds ws ∧ count ready ws ≤ count ready ws' ∧
    (WWait ∈ ws' → WWait ∈ ws).
Proof.
  induction 1 as [|w w' ws ws' Hw _ (IH1 & IH2 & IH3 & IH4)]; [done|]. unfold count, sum_by, run_fds in *. cbn.
  rewrite !elem_of_cons. destruct Hw as [->|[-> ->]]; cbn; rewrite ?IH1, ?IH2; repeat split; naive_solver lia.
Qed.

(** A signal sent while some worker sleeps gets one of them going. *)
Lemma signal_ready ws ws' : signal_workers ws ws' → WWait ∈ ws → count ready ws + 1 ≤ count ready ws'.
Proof.
  intros [Hf Hs] Hin. destruct (Hs Hin) as (i & Hi & Hi'). clear Hs Hin. revert i Hi Hi'.
  induction Hf as [|w w' ws ws' Hw Hf IH]; intros [|i] Hi Hi'; cbn in *; simplify_eq.
  - destruct (signal_counts _ _ Hf) as (_ & _ & ? & _). unfold count, sum_by in *. cbn. lia.
  - specialize (IH i Hi Hi'). unfold count, sum_by in *. destruct Hw as [->|[-> ->]]; cbn; lia.
Qed.

(** Permutations of the ledger, by counting occurrences. *)
Lemma count_occ_split (a : Z) l x : count_occ Z.eq_dec (a :: l) x = (count_occ Z.eq_dec [a] x + count_occ Z.eq_dec l x)%nat.
Proof. cbn. by destruct (Z.eq_dec a x). Qed.

Ltac count_split :=
  match goal with
  | H : context [count_occ _ (_ ++ _) _] |- _ => rewrite count_occ_app in H
  | |- context [count_occ _ (_ ++ _) _] => rewrite count_occ_app
  | H : context [count_occ _ (?a :: ?l) _] |- _ => lazymatch l with [] => fail | _ => rewrite (count_occ_split a l) in H end
  | |- context [count_occ _ (?a :: ?l) _] => lazymatch l with [] => fail | _ => rewrite (count_occ_split a l) end
  end.
Ltac ledger :=
  apply (Permutation_count_occ Z.eq_dec); let x := fresh "x" in intros x;
  repeat match goal with
    | H : @Permutation Z _ _ |- _ =>
      let H' := fresh in pose proof (proj1 (Permutation_count_occ Z.eq_dec _ _) H x) as H'; clear H
    end;
  unfold fds in *; repeat rewrite fmap_app in *; repeat rewrite fmap_cons in *;
  repeat count_split; cbn [count_occ fmap list_fmap] in *; lia.

Section Invariant.
Context {env : ServerEnv}.

Lemma elem_of_insert_other (ws : list worker_pc) (i : nat) (w : worker_pc) : w ≠ WWait → WWait ∈ <[i := w]> ws → WWait ∈ ws.
Proof.
  intros Hw [j Hj]%list_elem_of_lookup. apply list_lookup_insert_Some in Hj as [(_ & ? & _)|[_ Hj]]; [congruence|].
  by apply list_elem_of_lookup_2 in Hj.
Qed.

Lemma get_wait_inv s l i x sh' :
  server_inv s l → workers s !! i = Some WGet → get_request x (sh s) = Ok None sh' →
  server_inv (Server sh' (main_at s) (<[i := WWait]> (workers s)) (accepted s)) l.
Proof.
  intros [Hm Ha Hl Hmain Hw] Hi Hg. destruct l as [|y l].
  - rewrite (get_request_empty x _ _ Hm) in Hg. injection Hg as <-.
    pose proof (run_fds_insert _ i WGet WWait Hi) as Hr. cbn [worker_fds] in Hr. rewrite !app_nil_r in Hr.
    split; cbn -[count run_fds fds]; rewrite ?(count_insert _ _ _ _ _ Hi); cbn -[count run_fds fds]; rewrite ?Z.sub_0_r, ?Z.add_0_r; try done.
    + ledger.
    + intros _. pose proof (count_nonneg ready (workers s)). pose proof (count_nonneg ready (<[i:=WWait]> (workers s))) as Hn.
      rewrite (count_insert _ _ _ _ _ Hi) in Hn. cbn in Hn. lia.
  - assert (Hf : wp (get_request x) (λ r _, r = Some y) (sh s)) by (by eapply get_request_spec).
    unfold wp in Hf. by rewrite Hg in Hf.
Qed.

Lemma get_inv s l i x y sh' :
  server_inv s l → workers s !! i = Some WGet → get_request x (sh s) = Ok (Some y) sh' →
  ∃ l', l = y :: l' ∧ server_inv (Server sh' (main_at s) (<[i := WRun y]> (workers s)) (accepted s)) l'.
Proof.
  intros [Hm Ha Hl Hmain Hw] Hi Hg. destruct l as [|z l]; [by rewrite (get_request_empty x _ _ Hm) in Hg|].
  assert (Hf : wp (get_request x) (λ r s', r = Some z ∧ mgr_ok s' l (count busy (workers s) + 1) ∧ closed s' = closed (sh s) ∧ same_setup (sh s) s') (sh s))
    by (by eapply get_request_spec).
  unfold wp in Hf. rewrite Hg in Hf. destruct Hf as ([= ->] & Hm' & Hc & Hs1 & Hs2). exists l. split; [done|].
  pose proof (run_fds_insert _ i WGet (WRun z) Hi) as Hr. cbn [worker_fds] in Hr. rewrite app_nil_r in Hr.
  split; cbn -[count run_fds fds]; rewrite ?(count_insert _ _ _ _ _ Hi); cbn -[count run_fds fds]; rewrite ?Hs1, ?Hs2, ?Hc; try done.
  - by rewrite Z.sub_0_r.
  - ledger.
  - intros u Hu. destruct (Hmain u Hu) as [? E]. split; [done|]. cbn in E. lia.
  - intros Hin%elem_of_insert_other; [|done]. specialize (Hw Hin). cbn in Hw. lia.
Qed.

Lemma close_ok fd s s' : Close fd s = Ok tt s' → s' = Shared (jm s) (closed s ++ [fd]) (rng s).
Proof. unfold Close. destruct (sys_close fd <? 0); [done|]. by intros [= <-]. Qed.

Lemma handled_inv s l i x sh' :
  server_inv s l → workers s !! i = Some (WRun x) → Close (connection_fd x) (sh s) = Ok tt sh' →
  server_inv (Server sh' (main_at s) (<[i := WNotify]> (workers s)) (accepted s)) l.
Proof.
  intros [Hm Ha Hl Hmain Hw] Hi ->%close_ok.
  pose proof (run_fds_insert _ i (WRun x) WNotify Hi) as Hr. cbn [worker_fds] in Hr. rewrite app_nil_r in Hr.
  split; cbn -[count run_fds fds]; rewrite ?(count_insert _ _ _ _ _ Hi); cbn -[count run_fds fds].
  - replace (count busy (workers s) - 1 + 1) with (count busy (workers s)) by lia. destruct Hm. by split.
  - done.
  - ledger.
  - intros u Hu. specialize (Hmain u Hu). split; [apply Hmain|lia].
  - intros Hin%elem_of_insert_other; [|done]. specialize (Hw Hin). lia.
Qed.

Lemma notify_inv s l i sh' :
  server_inv s l → workers s !! i = Some WNotify → notify_request_finished (sh s) = Ok tt sh' →
  server_inv (Server sh' (signal_main (main_at s)) (<[i := WGet]> (workers s)) (accepted s)) l.
Proof.
  intros [Hm Ha Hl Hmain Hw] Hi Hn.
  pose proof (count_nonneg busy (<[i := WGet]> (workers s))) as Hnn. rewrite (count_insert _ _ _ _ _ Hi) in Hnn. cbn [busy Z.b2z] in Hnn.
  assert (Hf : wp notify_request_finished (λ _ s', mgr_ok s' l (count busy (workers s) - 1) ∧ closed s' = closed (sh s) ∧ same_setup (sh s) s') (sh s)).
  { eapply (notify_spec _ l); [by replace (count busy (workers s) - 1 + 1) with (count busy (workers s)) by lia|lia|done]. }
  unfold wp in Hf. rewrite Hn in Hf. destruct Hf as (Hm' & Hc & Hs1 & Hs2).
  pose proof (run_fds_insert _ i WNotify WGet Hi) as Hr. cbn [worker_fds] in Hr. rewrite !app_nil_r in Hr.
  assert (Hmf : main_fds (signal_main (main_at s)) = main_fds (main_at s)) by (by destruct (main_at s)).
  split; cbn -[count run_fds fds]; rewrite ?(count_insert _ _ _ _ _ Hi), ?Hs1, ?Hs2, ?Hc, ?Hmf; cbn -[count run_fds fds]; try done.
  - by replace (count busy (workers s) - 1 + 0) with (count busy (workers s) - 1) by lia.
  - ledger.
  - intros u Hu. by destruct (main_at s).
  - intros Hin%elem_of_insert_other; [|done]. specialize (Hw Hin). lia.
Qed.

(** [add_request] as a step of the main thread. *)
Lemma add_inv s l temp x res sh' ws' :
  server_inv s l → main_at s = MAdd x → add_request temp x (sh s) = Ok res sh' →
  match res with AddDone true => signal_workers (workers s) ws' | _ => ws' = workers s end →
  ∃ l', server_inv (Server sh' (match res with AddWait => MWait x | AddDone _ => MAccept end) ws' (accepted s)) l'.
Proof.
  intros [Hm Ha Hl Hmain Hw] Hx Hadd Hsig. rewrite Hx in *. cbn [main_fds] in Hl.
  pose proof (wpe_run _ _ _ _ _ (add_request_spec temp x (sh s) l _ Hm Ha) Hadd) as Heff.
  destruct Heff as [s' Hfull Hblk ->|s' Hfull Hm' Hc Hset|s' l' dropped Hp Hm' Hc Hset Hd].
  - subst ws'. exists l. by split.
  - subst ws'. exists l. destruct Hset as [Hs1 Hs2]. split; cbn -[count run_fds fds]; rewrite ?Hs1, ?Hs2, ?Hc; try done. ledger.
  - exists (l' ++ [x]). destruct Hset as [Hs1 Hs2]. destruct (signal_counts _ _ (proj1 Hsig)) as (Hb & Hrf & _ & Hin).
    assert (Hpf : fds l ≡ₚ fds dropped ++ fds l') by (unfold fds; by rewrite Hp, fmap_app). apply Permutation_length in Hp. rewrite length_app in Hp.
    split; cbn -[count run_fds fds]; rewrite ?Hs1, ?Hb, ?Hrf, ?Hc; try done.
    + ledger.
    + intros Hww. specialize (Hin Hww). pose proof (signal_ready _ _ Hsig Hin). specialize (Hw Hin). rewrite length_app. cbn. lia.
Qed.

Lemma server_step_inv s s' l : server_inv s l → server_step s s' → ∃ l', server_inv s' l'.
Proof.
  intros Hi Hs. destruct Hs as [s s' Hw|s fd t Hm|s x y sh' Hm Hr|s x y sh' Hm Hr|s x y sh' ws' Hm Hr Hs|s x Hm|s i Hw].
  - destruct Hw as [s i x sh' ? ?|s i x y sh' ? ?|s i x sh' ? ? ?|s i sh' ? ?].
    + exists l. by eapply get_wait_inv.
    + destruct (get_inv s l i x y sh') as (l' & _ & ?); [done..|by exists l'].
    + exists l. by eapply handled_inv.
    + exists l. by eapply notify_inv.
  - exists l. destruct Hi as [H1 H2 H3 H4 H5]. rewrite Hm in *. split; cbn -[count run_fds fds]; try done. cbn [main_fds] in H3. ledger.
  - by apply (add_inv s l y x AddWait sh' (workers s)).
  - by apply (add_inv s l y x (AddDone false) sh' (workers s)).
  - by apply (add_inv s l y x (AddDone true) sh' ws').
  - exists l. destruct Hi as [H1 H2 H3 H4 H5]. rewrite Hm in *. by split.
  - exists l. destruct Hi as [H1 H2 H3 H4 H5]. pose proof (run_fds_insert _ i WWait WGet Hw) as Hr. cbn [worker_fds] in Hr. rewrite !app_nil_r in Hr.
    split; cbn -[count run_fds fds]; rewrite ?(count_insert _ _ _ _ _ Hw); cbn -[count run_fds fds]; rewrite ?Z.sub_0_r, ?Z.add_0_r; try done.
    + ledger.
    + intros Hin%elem_of_insert_other; [|done]. specialize (H5 Hin). lia.
Qed.

Lemma server_step_length s s' : server_step s s' → length (workers s') = length (workers s).
Proof.
  intros Hs. destruct Hs as [s s' Hw| | | | | |]; [destruct Hw|..]; cbn [workers]; rewrite ?length_insert; try done.
  match goal with H : signal_workers _ _ |- _ => destruct H as [H _]; by apply Forall2_length in H end.
Qed.

(** ** Progress *)

(** What is left to do: every session in the queue, and every worker by how far it
    is from going to sleep. *)
Definition weight (w : worker_pc) : Z := match w with WWait => 0 | WGet => 1 | WNotify => 2 | WRun _ => 3 end.
Definition load_of (ws : list worker_pc) : Z := sum_by weight ws.
Definition work (s : server) : Z := 5 * waiting_count (jm (sh s)) + load_of (workers s).

Lemma load_insert ws i w w' : ws !! i = Some w → load_of (<[i := w']> ws) = load_of ws - weight w + weight w'.
Proof. apply (sum_by_insert weight). Qed.

Lemma load_nonneg ws : 0 ≤ load_of ws.
Proof. apply sum_by_nonneg. by intros []. Qed.

Lemma work_nonneg s l : server_inv s l → 0 ≤ work s.
Proof. intros H. pose proof (load_nonneg (workers s)). unfold work. rewrite (mo_waiting _ _ _ (si_mgr _ _ H)). lia. Qed.

(** Every step of a worker leaves less to do. *)
Lemma worker_step_work s s' l :
  server_inv s l → worker_step s s' →
  work s' < work s ∧ main_fds (main_at s') = main_fds (main_at s) ∧ accepted s' = accepted s ∧ length (workers s') = length (workers s).
Proof.
  intros Hinv Hs. pose proof (si_mgr _ _ Hinv) as Hm. unfold work.
  destruct Hs as [s i x sh' Hi Hg|s i x y sh' Hi Hg|s i x sh' Hi _ Hg|s i sh' Hi Hg]; cbn -[load_of];
    rewrite (load_insert _ _ _ _ Hi), length_insert; cbn [weight].
  - destruct l as [|y l].
    + rewrite (get_request_empty x _ _ Hm) in Hg. injection Hg as <-. repeat split; lia.
    + assert (Hf : wp (get_request x) (λ r _, r = Some y) (sh s)) by (by eapply get_request_spec).
      unfold wp in Hf. by rewrite Hg in Hf.
  - destruct l as [|z l]; [by rewrite (get_request_empty x _ _ Hm) in Hg|].
    assert (Hf : wp (get_request x) (λ r s', mgr_ok s' l (count busy (workers s) + 1)) (sh s)) by (by eapply get_request_spec).
    unfold wp in Hf. rewrite Hg in Hf. rewrite (mo_waiting _ _ _ Hf), (mo_waiting _ _ _ Hm). cbn [length]. repeat split; lia.
  - apply close_ok in Hg as ->. cbn. repeat split; lia.
  - injection Hg as <-. cbn. repeat split; [lia|by destruct (main_at s)].
Qed.

(** A worker that is not asleep can always take its next step. *)
Lemma worker_can_step s l i w :
  (∀ fd, 0 ≤ sys_close fd) → (∀ x, request_end x = Returns) → server_inv s l → workers s !! i = Some w → w ≠ WWait →
  ∃ s', worker_step s s'.
Proof.
  intros Hclose Hreq Hinv Hi Hw. pose proof (si_mgr _ _ Hinv) as Hm. destruct w as [| |x|]; [|done|..].
  - destruct l as [|y l].
    + eexists. by eapply (st_get_wait s i (Session 0 (0, 0))); [|apply (get_request_empty _ _ _ Hm)].
    + assert (Hf : wp (get_request y) (λ r s', r = Some y) (sh s)) by (by eapply get_request_spec).
      apply wp_run in Hf as (r & sh' & Hg & ->). eexists. by eapply (st_get s i y).
  - eexists. eapply (st_handled s i x); [done|done|]. unfold Close. specialize (Hclose (connection_fd x)).
    by destruct (Z.ltb_spec (sys_close (connection_fd x)) 0); [lia|].
  - eexists. by eapply (st_notify s i).
Qed.

(** When every worker sleeps there is nothing in the queue and nothing running. *)
Lemma all_asleep s l :
  server_inv s l → workers s ≠ [] → (∀ i w, workers s !! i = Some w → w = WWait) → l = [] ∧ count busy (workers s) = 0 ∧ run_fds (workers s) = [].
Proof.
  intros Hinv Hne Hall.
  assert (Hc : ∀ ws, (∀ i w, ws !! i = Some w → w = WWait) → count ready ws = 0 ∧ count busy ws = 0 ∧ run_fds ws = []).
  { induction ws as [|w ws IH]; intros H; [done|]. rewrite (H 0%nat w eq_refl). apply IH. intros i u Hu. by apply (H (S i)). }
  destruct (Hc _ Hall) as (H1 & H2 & H3). split; [|done].
  assert (Hin : WWait ∈ workers s).
  { destruct (workers s) as [|w ws] eqn:E; [done|]. rewrite (Hall 0%nat w eq_refl). by left. }
  pose proof (si_workers _ _ Hinv Hin). rewrite H1 in *. destruct l; [done|cbn in *; lia].
Qed.

Lemma find_awake (ws : list worker_pc) :
  (∃ i w, ws !! i = Some w ∧ w ≠ WWait) ∨ ∀ i w, ws !! i = Some w → w = WWait.
Proof.
  induction ws as [|w ws [(i & u & Hi & Hu)|IH]]; [by right| |].
  - left. by exists (S i), u.
  - destruct w; [left; by exists 0%nat, WGet| |left; by eexists 0%nat, _|left; by exists 0%nat, WNotify].
    right. intros [|i] u Hu; cbn in Hu; [by simplify_eq|by eapply IH].
Qed.

(** What the workers keep while the main thread does nothing. *)
Definition worked (s s' : server) : Prop :=
  (∃ l, server_inv s' l) ∧ length (workers s') = length (workers s) ∧
  main_fds (main_at s') = main_fds (main_at s) ∧ accepted s' = accepted s.

Lemma worked_step s a b : worked s a → worker_step a b → worked s b ∧ work b < work a.
Proof.
  intros ((l & Hl) & Hlen & Hm & Ha) Hs. destruct (worker_step_work a b l Hl Hs) as (Hw & Hm' & Ha' & Hl').
  split; [|done]. split; [by eapply server_step_inv; [|apply st_worker]|]. split; [congruence|]. split; congruence.
Qed.

Lemma worked_nsteps k s a b : worked s a → nsteps worker_step k a b → Z.of_nat k + work b ≤ work a ∧ worked s b.
Proof.
  intros Ha Hk. revert Ha. induction Hk as [a|k a b c Hs _ IH]; intros Ha; [split; [lia|done]|].
  destruct (worked_step s a b Ha Hs) as [Hb Hlt]. destruct (IH Hb). split; [lia|done].
Qed.

(** The workers go on until nothing is left. *)
Lemma worked_on s s' :
  (∀ fd, 0 ≤ sys_close fd) → (∀ x, request_end x = Returns) → workers s ≠ [] → worked s s' →
  (∃ s'', worker_step s' s'') ∨
  (waiting_count (jm (sh s')) = 0 ∧ running_count (jm (sh s')) = 0 ∧ accepted s ≡ₚ closed (sh s') ++ main_fds (main_at s)).
Proof.
  intros Hclose Hreq Hne ((l & Hl) & Hlen & Hm & Ha). destruct (find_awake (workers s')) as [(i & w & Hi & Hw)|Hall].
  - left. by eapply worker_can_step.
  - right. destruct (all_asleep s' l Hl) as (-> & Hb & Hr); [by intros E; rewrite E in Hlen; destruct (workers s)|done|].
    destruct Hl as [[_ _ Hwt Hrun _] _ Hled _ _]. rewrite Hr, Hm, Ha in Hled. split; [done|]. split; [congruence|done].
Qed.

(** ** The state [main] starts in *)

Lemma create_threads_ok create i n ws ws' : create_threads create i n ws = Some ws' → ws' = ws ++ replicate n WGet.
Proof.
  revert i ws. induction n as [|n IH]; intros i ws; cbn; [intros [= <-]; by rewrite app_nil_r|].
  destruct (create i =? 0); [|done]. intros ->%IH. by rewrite <- app_assoc.
Qed.

(** The process before [main]: zeroed globals and no thread. *)
Definition boot : server := Server (Shared (JobsManager BLOCK 0 0 0 (Queue 0 0 0 [])) [] 0) MAccept [] [].

Lemma init_inv alloc create max n alg s :
  0 ≤ max < 2 ^ 63 → alg ≠ SCHEDALG_UNSET →
  (∀ array, alloc (u64 (24 * max)) = Some array → Z.of_nat (length array) = max) →
  init_jobs_manager alloc true create max n alg boot = Ok SUCCESS s →
  server_inv s [] ∧ workers s = replicate (Z.to_nat n) WGet ∧ max_accepted_count (jm (sh s)) = max ∧ accepted s = [].
Proof.
  intros Hmax Halg Hal. unfold init_jobs_manager. cbn [negb]. unfold init_cyclic_queue, SIZEOF_SESSION.
  destruct (alloc (u64 (24 * max))) as [array|] eqn:E; [|done]. specialize (Hal _ eq_refl).
  destruct (create_threads _ _ _ _) as [ws|] eqn:Ec; [|done]. apply create_threads_ok in Ec. cbn [workers boot app] in Ec. subst ws. intros [= <-].
  assert (Hz : ∀ k, count busy (replicate k WGet) = 0 ∧ run_fds (replicate k WGet) = [] ∧ WWait ∉ replicate k WGet).
  { induction k as [|k (H1 & H2 & H3)]; [split; [done|split; [done|apply not_elem_of_nil]]|]. split; [done|]. split; [done|].
    cbn. rewrite not_elem_of_cons. done. }
  destruct (Hz (Z.to_nat n)) as (H1 & H2 & H3). split; [|done]. split; cbn -[count run_fds]; rewrite ?H1, ?H2; try done.
  split; cbn; try done; try lia. apply models_nil; [by split|done|done].
Qed.

(** ** Runs that do not exit *)

Definition returns_or_faults {S A} (c : M S A) : Prop := ∀ s n s', c s ≠ Exit n s'.

Lemma noexit_bind {S A B} (c : M S A) (k : A → M S B) :
  returns_or_faults c → (∀ a, returns_or_faults (k a)) → returns_or_faults (bind c k).
Proof. intros Hc Hk s n s'. unfold bind. specialize (Hc s). destruct (c s) eqn:E; [apply Hk|by destruct (Hc code s0)|done..]. Qed.
Lemma noexit_ret {S A} (a : A) : returns_or_faults (S := S) (ret a).
Proof. done. Qed.
Lemma noexit_modify {S} (f : S → S) : returns_or_faults (modify f).
Proof. done. Qed.
Lemma noexit_gets {S A} (f : S → A) : returns_or_faults (gets f).
Proof. done. Qed.
Lemma noexit_getS {S} : returns_or_faults (getS (S := S)).
Proof. done. Qed.
Lemma noexit_on_queue {A} (c : M cyclic_queue A) : returns_or_faults c → returns_or_faults (on_queue c).
Proof. intros Hc s n s'. unfold on_queue. specialize (Hc (waiting_jobs (jm s))). destruct (c _) eqn:E; [done|by destruct (Hc code s0)|done..]. Qed.
Lemma noexit_add x : returns_or_faults (add_queue_element x).
Proof.
  intros q n q'. unfold add_queue_element, bind, getS, put_element. repeat case_match; simplify_eq; try done.
Qed.
Lemma noexit_remove e type : returns_or_faults (remove_queue_element e type).
Proof.
  intros q n q'. unfold remove_queue_element, bind, getS, get_element. repeat case_match; simplify_eq; try done.
Qed.
Lemma noexit_close fd : 0 ≤ sys_close fd → returns_or_faults (Close fd).
Proof. intros H s n s'. unfold Close. by destruct (Z.ltb_spec (sys_close fd) 0); [lia|]. Qed.
Lemma noexit_rand : returns_or_faults rand.
Proof. done. Qed.
End Invariant.

Create HintDb noexit.
#[export] Hint Resolve noexit_bind noexit_ret noexit_modify noexit_gets noexit_getS noexit_on_queue noexit_add noexit_remove
  noexit_close noexit_rand : noexit.

Section Policy.
Context {env : ServerEnv}.
Hypothesis close_works : ∀ fd, 0 ≤ sys_close fd.

Lemma noexit_drop_loop n temp : returns_or_faults (drop_loop n temp).
Proof. revert temp. induction n as [|n IH]; intros temp; cbn [drop_loop]; eauto 10 with noexit. Qed.
Hint Resolve noexit_drop_loop : noexit.

Lemma noexit_add_request temp x : returns_or_faults (add_request temp x).
Proof.
  unfold add_request, finish_add, random_drop_connections, srand. apply noexit_bind; [eauto with noexit|]. intros s.
  repeat case_match; eauto 20 with noexit.
Qed.

Lemma noexit_wp {A} (c : M shared A) Q s : returns_or_faults c → wpe c Q s → wp c Q s.
Proof. unfold wpe, wp. intros Hn. specialize (Hn s). destruct (c s) eqn:E; try done. by destruct (Hn code s0). Qed.

(** [add_request] on a full manager whose algorithm drops waiting sessions. *)
Lemma add_full_spec temp x s l r (Q : add_result → shared → Prop) :
  mgr_ok s l r → Z.of_nat (length l) + r = max_accepted_count (jm s) → schedalg_of (jm s) = DROP_RANDOM → l ≠ [] →
  (∀ s' l' dropped, (dropped, l') = drop_ends (Z.to_nat ((Z.of_nat (length l) + 1) / 2)) (reseed (rng s)) l →
     mgr_ok s' (l' ++ [x]) r → closed s' = closed s ++ fds dropped → same_setup s s' → Q (AddDone true) s') →
  wp (add_request temp x) Q s.
Proof.
  intros H Hf Ha Hne HQ. pose proof H as [Hm Hs Hw Hr Hb]. apply noexit_wp; [apply noexit_add_request|].
  assert (0 < Z.of_nat (length l)) as Hl by (destruct l; [done|cbn; lia]). destruct (drop_count _ Hl) as [_ Hd].
  unfold add_request. apply wpe_bind. unfold wpe at 1, getS. rewrite Ha, bool_decide_eq_false_2 by done.
  rewrite (full_spec _ _ _ H), Hf, Z.eqb_refl. destruct (Z.eqb_spec (waiting_count (jm s)) 0); [lia|].
  apply wpe_bind. eapply random_drop_spec; [done|done|]. intros s1 l1 dropped Hd1 H1 Hp Hld Hc [Hs1 Hs2].
  apply Permutation_length in Hp as Hlen. rewrite length_app in Hlen.
  apply wpe_wp. eapply finish_add_spec; [exact H1|lia|]. intros s' H' Hcl Ha' Hx. apply (HQ s' l1 dropped); [done|done|by rewrite Hcl|split; congruence].
Qed.

(** The same for the algorithm that drops the oldest one. *)
Lemma add_full_head_spec temp x y s l r (Q : add_result → shared → Prop) :
  mgr_ok s (y :: l) r → Z.of_nat (length (y :: l)) + r = max_accepted_count (jm s) → schedalg_of (jm s) = DROP_HEAD →
  (∀ s', mgr_ok s' (l ++ [x]) r → closed s' = closed s ++ [connection_fd y] → same_setup s s' → Q (AddDone true) s') →
  wp (add_request temp x) Q s.
Proof.
  intros H Hf Ha HQ. pose proof H as [Hm Hs Hw Hr Hb]. apply noexit_wp; [apply noexit_add_request|]. cbn [length] in *.
  unfold add_request. apply wpe_bind. unfold wpe at 1, getS. rewrite Ha, bool_decide_eq_false_2 by done.
  rewrite (full_spec _ _ _ H). cbn [length]. rewrite Hf, Z.eqb_refl. destruct (Z.eqb_spec (waiting_count (jm s)) 0); [lia|].
  apply wpe_bind, wpe_wp. eapply remove_any_spec; [exact Hm|done|]. intros z l' q' _ Hm' Hs' E. injection E as <- <-. cbn [snd default].
  apply wpe_bind, wpe_close, wpe_bind, wpe_wp, wp_modify, wpe_wp. eapply (finish_add_spec x _ l r).
  - eapply (mgr_dropped s _ (y :: l) l r 1); [done|done|done|done|done|done|cbn [length]; lia|lia].
  - cbn. lia.
  - intros s' H' Hcl Ha' Hx. apply HQ; [done|by rewrite Hcl|done].
Qed.

(** A full manager that closes the new connection: nothing is waiting, or the
    algorithm is [dt]. *)
Lemma add_refused temp x s l r :
  mgr_ok s l r → Z.of_nat (length l) + r = max_accepted_count (jm s) → schedalg_of (jm s) ≠ BLOCK →
  l = [] ∨ schedalg_of (jm s) = DROP_TAIL →
  ∃ s', add_request temp x s = Ok (AddDone false) s' ∧ closed s' = closed s ++ [connection_fd x] ∧ mgr_ok s' l r ∧ same_setup s s'.
Proof.
  intros Hm Hfull Hb Hl. unfold add_request, bind, getS. rewrite bool_decide_eq_false_2 by done.
  rewrite (full_spec _ _ _ Hm), Hfull, Z.eqb_refl, (mo_waiting _ _ _ Hm).
  assert (E : Close (connection_fd x) s = Ok tt (Shared (jm s) (closed s ++ [connection_fd x]) (rng s))).
  { unfold Close. specialize (close_works (connection_fd x)). by destruct (Z.ltb_spec (sys_close (connection_fd x)) 0); [lia|]. }
  exists (Shared (jm s) (closed s ++ [connection_fd x]) (rng s)). split; [|split; [done|split; [destruct Hm; by split|done]]].
  destruct Hl as [-> | ->]; [change (Z.of_nat (length []) =? 0) with true|destruct (Z.of_nat (length l) =? 0)]; cbv iota beta; by rewrite E.
Qed.
End Policy.

(** What is meant to happen to a new connection [x]: the result of [add_request],
    the connections it closes, and the queue afterwards.  [g] is the state of [rand]. *)
Definition admit_session {env : ServerEnv} (alg : schedalg) (is_full : bool) (g : nat) (x : session) (l : list session) :
    add_result * list session * list session :=
  if is_full then
    match alg, l with
    | BLOCK, _ => (AddWait, [], l)
    | _, [] => (AddDone false, [x], [])
    | DROP_TAIL, _ => (AddDone false, [x], l)
    | DROP_HEAD, y :: l' => (AddDone true, [y], l' ++ [x])
    | DROP_RANDOM, _ =>
      let '(dropped, kept) := drop_ends (Z.to_nat ((Z.of_nat (length l) + 1) / 2)) (reseed g) l in
      (AddDone true, dropped, kept ++ [x])
    | SCHEDALG_UNSET, _ => (AddDone true, [], l ++ [x])
    end
  else (AddDone true, [], l ++ [x]).

(** ** Properties *)

(** C3: the server keeps its bookkeeping straight under every interleaving of its
    threads: the counters are the lengths of the queue and the number of busy
    workers, their sum never exceeds the bound given on the command line, and
    every accepted connection is exactly once either closed, queued, being
    handled or in the hands of the main thread. *)
Theorem server_safe {env : ServerEnv} (alloc : Z → option (list session)) (create : nat → Z) (max n : Z) (alg : schedalg) (s0 s : server)
    (Hmax : 0 ≤ max < 2 ^ 63) (Halg : alg ≠ SCHEDALG_UNSET)
    (Halloc : ∀ array, alloc (u64 (24 * max)) = Some array → Z.of_nat (length array) = max)
    (Hinit : init_jobs_manager alloc true create max n alg boot = Ok SUCCESS s0)
    (Hrun : star server_step s0 s) :
  ∃ l, models (waiting_jobs (jm (sh s))) l ∧
    waiting_count (jm (sh s)) = Z.of_nat (length l) ∧ running_count (jm (sh s)) = count busy (workers s) ∧
    waiting_count (jm (sh s)) + running_count (jm (sh s)) ≤ max_accepted_count (jm (sh s)) ∧
    accepted s ≡ₚ closed (sh s) ++ fds l ++ run_fds (workers s) ++ main_fds (main_at s).
Proof.
  destruct (init_inv _ _ _ _ _ _ Hmax Halg Halloc Hinit) as (H0 & _ & _ & _).
  destruct (star_invariant server_step (λ s, ∃ l, server_inv s l)) with (a := s0) (b := s) as [l Hl]; [|done|by exists []|].
  - intros a b [l Hl] Hs. by eapply server_step_inv.
  - exists l. destruct Hl as [[] _ Hled _ _]. split; [done|]. split; [done|]. split; [done|]. split; [lia|done].
Qed.

(** C5: no wake-up is lost under any interleaving: the main thread sleeps in
    [add_request] only while the server is full, and while a worker sleeps in
    [get_request] at least as many workers as there are waiting connections are
    on their way to the queue. *)
Theorem server_no_lost_wakeup {env : ServerEnv} (alloc : Z → option (list session)) (create : nat → Z) (max n : Z) (alg : schedalg) (s0 s : server)
    (Hmax : 0 ≤ max < 2 ^ 63) (Halg : alg ≠ SCHEDALG_UNSET)
    (Halloc : ∀ array, alloc (u64 (24 * max)) = Some array → Z.of_nat (length array) = max)
    (Hinit : init_jobs_manager alloc true create max n alg boot = Ok SUCCESS s0)
    (Hrun : star server_step s0 s) :
  (∀ x, main_at s = MWait x →
     waiting_count (jm (sh s)) + running_count (jm (sh s)) = max_accepted_count (jm (sh s))) ∧
  (WWait ∈ workers s → waiting_count (jm (sh s)) ≤ count ready (workers s)).
Proof.
  destruct (init_inv _ _ _ _ _ _ Hmax Halg Halloc Hinit) as (H0 & _ & _ & _).
  destruct (star_invariant server_step (λ s, ∃ l, server_inv s l)) with (a := s0) (b := s) as [l Hl]; [|done|by exists []|].
  - intros a b [l Hl] Hs. by eapply server_step_inv.
  - destruct Hl as [[] _ _ Hm Hw]. split; [|intros Hin; specialize (Hw Hin); lia].
    intros x Hx. destruct (Hm x Hx). lia.
Qed.

(** C13: every connection the server has taken in is handled and closed, when every
    request returns, no [close] fails and there is a worker: from any reachable state
    the workers, in whatever order they run, take at most [work s] steps while the
    main thread does nothing; and as long as a connection is waiting or being handled
    one of them can take a step, so that every run of the workers ends with an empty
    queue, no running request, and everything accepted closed but for the connection
    in the hands of the main thread. *)
Theorem server_drains {env : ServerEnv} (alloc : Z → option (list session)) (create : nat → Z) (max n : Z) (alg : schedalg) (s0 s : server)
    (Hmax : 0 ≤ max < 2 ^ 63) (Halg : alg ≠ SCHEDALG_UNSET) (Hn : 0 < n)
    (Halloc : ∀ array, alloc (u64 (24 * max)) = Some array → Z.of_nat (length array) = max)
    (Hinit : init_jobs_manager alloc true create max n alg boot = Ok SUCCESS s0)
    (Hrun : star server_step s0 s) (Hclose : ∀ fd, 0 ≤ sys_close fd) (Hreq : ∀ x, request_end x = Returns) :
  ∀ k s', nsteps worker_step k s s' →
    Z.of_nat k ≤ work s ∧
    ((∃ s'', worker_step s' s'') ∨
     (waiting_count (jm (sh s')) = 0 ∧ running_count (jm (sh s')) = 0 ∧ accepted s ≡ₚ closed (sh s') ++ main_fds (main_at s))).
Proof.
  destruct (init_inv _ _ _ _ _ _ Hmax Halg Halloc Hinit) as (H0 & Hws & _ & _).
  destruct (star_invariant server_step (λ s, (∃ l, server_inv s l) ∧ length (workers s) = Z.to_nat n)) with (a := s0) (b := s) as [[l Hinv] Hlen].
  - intros a b [[l Hl] Ha] Hs. split; [by eapply server_step_inv|]. by rewrite (server_step_length _ _ Hs).
  - done.
  - split; [by exists []|]. by rewrite Hws, length_replicate.
  - intros k s' Hk. assert (Hw0 : worked s s) by (split; [by exists l|done]).
    destruct (worked_nsteps k s s s' Hw0 Hk) as [Hle Hw]. pose proof Hw as ((l' & Hl') & _). pose proof (work_nonneg _ _ Hl').
    split; [lia|]. apply worked_on; [done|done| |done]. intros E. rewrite E in Hlen. cbn in Hlen. lia.
Qed.

(** C17: what [add_request] does with a new connection, for every algorithm that the
    command line can name: it returns the result, closes exactly the connections and
    leaves exactly the queue of [admit_session], provided that no [close] fails.  A
    server that is not full queues it.  A full one waits ([block]); closes it when
    nothing is waiting, or the algorithm is [dt]; closes the oldest waiting one
    ([dh]); or closes half of the waiting ones, rounded up, from the ends that [rand]
    chooses ([random]); in the last two the new one joins the queue. *)
Theorem add_request_policy {env : ServerEnv} (temp x : session) (s : shared) (l : list session) (r : Z)
    (Hclose : ∀ fd, 0 ≤ sys_close fd) (Halg : schedalg_of (jm s) ≠ SCHEDALG_UNSET) (Hm : mgr_ok s l r) :
  let '(res, dropped, l') :=
    admit_session (schedalg_of (jm s)) (bool_decide (Z.of_nat (length l) + r = max_accepted_count (jm s))) (rng s) x l in
  ∃ s', add_request temp x s = Ok res s' ∧ closed s' = closed s ++ fds dropped ∧ mgr_ok s' l' r ∧ same_setup s s'.
Proof.
  case_bool_decide as Hfull; cbn [admit_session].
  - assert (Hne := add_refused Hclose temp x s l r Hm Hfull).
    destruct (schedalg_of (jm s)) eqn:Ea; [| | | |done].
    + exists s. rewrite app_nil_r. split; [|done]. unfold add_request, bind, getS. by rewrite Ea, (full_spec _ _ _ Hm), Hfull, Z.eqb_refl.
    + destruct l as [|y l]; apply Hne; auto.
    + destruct l as [|y l]; [apply Hne; auto|].
      destruct (wp_run2 (add_request temp x) (λ a s', a = AddDone true ∧ closed s' = closed s ++ [connection_fd y] ∧ mgr_ok s' (l ++ [x]) r ∧ same_setup s s') s)
        as (a & s' & Hrun & -> & ?); [by eapply add_full_head_spec|by exists s'].
    + destruct l as [|y l]; [apply Hne; auto|]. set (l0 := y :: l) in *.
      destruct (wp_run2 (add_request temp x) (λ a s', a = AddDone true ∧ ∃ l' dropped,
        (dropped, l') = drop_ends (Z.to_nat ((Z.of_nat (length l0) + 1) / 2)) (reseed (rng s)) l0 ∧
        closed s' = closed s ++ fds dropped ∧ mgr_ok s' (l' ++ [x]) r ∧ same_setup s s') s)
        as (a & s' & Hrun & -> & l' & dropped & E & ?).
      { eapply add_full_spec; [done|exact Hm|done|done|done|]. intros s' l' dropped H1 H2 H3 H4. split; [done|]. by exists l', dropped. }
      rewrite <- E. by exists s'.
  - destruct (wp_run2 (add_request temp x) (λ a s', a = AddDone true ∧ closed s' = closed s ∧ mgr_ok s' (l ++ [x]) r ∧ same_setup s s') s)
      as (a & s' & Hrun & -> & ?); [|exists s'; by rewrite app_nil_r].
    unfold add_request. apply wp_bind. unfold wp at 1, getS. rewrite (full_spec _ _ _ Hm), (proj2 (Z.eqb_neq _ _) Hfull).
    assert (Hfin : wp (finish_add x) (λ a s', a = AddDone true ∧ closed s' = closed s ∧ mgr_ok s' (l ++ [x]) r ∧ same_setup s s') s).
    { pose proof (mo_bound _ _ _ Hm). eapply finish_add_spec; [exact Hm|lia|]. done. }
    by case_bool_decide.
Qed.

(** ** A small run to try the theorems on

    Two places and one worker: a connection is accepted, queued, and fetched by
    the worker; a second and a third one fill the server up. *)

Definition demo_env : ServerEnv := {| reseed n := n; rand_at n := Z.of_nat n; sys_close _ := 0; request_end _ := Returns |}.
Definition demo_alloc (bytes : Z) : option (list session) := Some (replicate (Z.to_nat (bytes / 24)) (Session 0 (0, 0))).
Definition demo_init (alg : schedalg) : server :=
  after (init_jobs_manager demo_alloc true (λ _, 0) 2 1 alg) boot.

Definition conn (fd : Z) : session := Session fd (1, 0).
Definition run_add (fd : Z) (s : server) : server :=
  Server (after (add_request (env := demo_env) (conn 0) (conn fd)) (sh s)) MAccept (workers s) (accepted s ++ [fd]).
Definition run_get (s : server) (fd : Z) : server :=
  Server (after (get_request (conn 0)) (sh s)) (main_at s) [WRun (conn fd)] (accepted s).

Definition demo1 (alg : schedalg) : server := run_add 7 (demo_init alg).
Definition demo2 (alg : schedalg) : server := run_get (demo1 alg) 7.
Definition demo3 (alg : schedalg) : server := run_add 8 (demo2 alg).

Lemma demo_alloc_ok max array : 0 ≤ max < 2 ^ 32 → demo_alloc (u64 (24 * max)) = Some array → Z.of_nat (length array) = max.
Proof.
  intros Hm [= <-]. rewrite length_replicate, u64_small by lia. rewrite Z.mul_comm, Z.div_mul by done. lia.
Qed.

(** Accepting a connection and adding it, when no worker sleeps. *)
Lemma demo_add_steps fd s :
  main_at s = MAccept → Forall (λ w, w ≠ WWait) (workers s) →
  (match add_request (env := demo_env) (conn 0) (conn fd) (sh s) with Ok (AddDone true) _ => True | _ => False end) →
  star (server_step (env := demo_env)) s (run_add fd s).
Proof.
  intros Hm Hw Ha. eapply star_step; [by apply (st_accept (env := demo_env) s fd (1, 0))|]. unfold run_add, after.
  destruct (add_request _ _ _) as [[|[]] sh'| | |] eqn:E; try done.
  eapply star_step; [|apply star_refl].
  eapply (st_add_signal (env := demo_env) (Server (sh s) (MAdd (conn fd)) (workers s) (accepted s ++ [fd])) (conn fd) (conn 0)); [done|exact E|].
  split; [by apply Forall_Forall2_diag, Forall_true; left|]. cbn. intros Hin. rewrite Forall_forall in Hw. by specialize (Hw _ Hin).
Qed.

Lemma demo_run alg : star (server_step (env := demo_env)) (demo_init alg) (demo3 alg).
Proof.
  eapply star_trans; [|apply (demo_add_steps 8 (demo2 alg)); [by destruct alg|repeat constructor; done|destruct alg; vm_compute; done]].
  eapply star_trans; [apply (demo_add_steps 7 (demo_init alg)); [by destruct alg|destruct alg; repeat constructor; done|destruct alg; vm_compute; done]|].
  eapply star_step; [|apply star_refl]. apply st_worker.
  apply (st_get (env := demo_env) (demo1 alg) 0 (conn 0) (conn 7)); destruct alg; vm_compute; reflexivity.
Qed.

Lemma demo_star : star (server_step (env := demo_env)) (demo_init DROP_HEAD) (demo3 DROP_HEAD).
Proof. apply demo_run. Qed.

(** A third connection finds the server full: with [block] the main thread sleeps. *)
Definition demo_blocked : server := Server (sh (demo3 BLOCK)) (MWait (conn 9)) (workers (demo3 BLOCK)) [7; 8; 9].

Lemma demo_blocked_star : star (server_step (env := demo_env)) (demo_init BLOCK) demo_blocked.
Proof.
  eapply star_trans; [apply demo_run|].
  eapply star_step; [by apply (st_accept (env := demo_env) (demo3 BLOCK) 9 (1, 0))|].
  eapply star_step; [|apply star_refl].
  apply (st_add_wait (env := demo_env) (Server (sh (demo3 BLOCK)) (MAdd (conn 9)) (workers (demo3 BLOCK)) [7; 8; 9]) (conn 9) (conn 0));
    [reflexivity|vm_compute; reflexivity].
Qed.

Lemma server_safe_witness :
  let s := demo3 DROP_HEAD in
  ∃ l, models (waiting_jobs (jm (sh s))) l ∧
    waiting_count (jm (sh s)) = Z.of_nat (length l) ∧ running_count (jm (sh s)) = count busy (workers s) ∧
    waiting_count (jm (sh s)) + running_count (jm (sh s)) ≤ max_accepted_count (jm (sh s)) ∧
    accepted s ≡ₚ closed (sh s) ++ fds l ++ run_fds (workers s) ++ main_fds (main_at s).
Proof.
  apply (server_safe (env := demo_env) demo_alloc (λ _, 0) 2 1 DROP_HEAD (demo_init DROP_HEAD));
    [lia|done|intros array; apply demo_alloc_ok; lia|vm_compute; reflexivity|exact demo_star].
Defined.

Lemma server_no_lost_wakeup_witness :
  let s := demo_blocked in
  main_at s = MWait (conn 9) ∧
  (∀ x, main_at s = MWait x →
     waiting_count (jm (sh s)) + running_count (jm (sh s)) = max_accepted_count (jm (sh s))) ∧
  (WWait ∈ workers s → waiting_count (jm (sh s)) ≤ count ready (workers s)).
Proof.
  split; [reflexivity|].
  apply (server_no_lost_wakeup (env := demo_env) demo_alloc (λ _, 0) 2 1 BLOCK (demo_init BLOCK));
    [lia|done|intros array; apply demo_alloc_ok; lia|vm_compute; reflexivity|exact demo_blocked_star].
Defined.

(** The state [demo3] holds one waiting and one running connection. *)
Lemma demo3_models alg : alg ≠ SCHEDALG_UNSET → mgr_ok (sh (demo3 alg)) [conn 8] 1.
Proof.
  intros Ha. split; [|by destruct alg..|destruct alg; (split; [lia|vm_compute; discriminate])].
  split; [destruct alg; [| | | |done]; split; vm_compute; repeat split; discriminate|destruct alg; [| | | |done]; vm_compute; discriminate|done|intros _; destruct alg; [| | | |done]; vm_compute; repeat split; discriminate|].
  intros [|i] x Hx; [|by destruct i]. injection Hx as <-. by destruct alg.
Qed.

Lemma server_drains_witness :
  work (demo3 DROP_HEAD) = 8 ∧
  ∀ k s', nsteps (worker_step (env := demo_env)) k (demo3 DROP_HEAD) s' →
    Z.of_nat k ≤ work (demo3 DROP_HEAD) ∧
    ((∃ s'', worker_step (env := demo_env) s' s'') ∨
     (waiting_count (jm (sh s')) = 0 ∧ running_count (jm (sh s')) = 0 ∧
      accepted (demo3 DROP_HEAD) ≡ₚ closed (sh s') ++ main_fds (main_at (demo3 DROP_HEAD)))).
Proof.
  split; [vm_compute; reflexivity|].
  apply (server_drains (env := demo_env) demo_alloc (λ _, 0) 2 1 DROP_HEAD (demo_init DROP_HEAD));
    [lia|done|lia|intros array; apply demo_alloc_ok; lia|vm_compute; reflexivity|exact demo_star|done|done].
Defined.

Lemma add_request_policy_witness :
  ∃ s', add_request (env := demo_env) (conn 0) (conn 9) (sh (demo3 DROP_HEAD)) = Ok (AddDone true) s' ∧
        closed s' = closed (sh (demo3 DROP_HEAD)) ++ [8] ∧ mgr_ok s' [conn 9] 1 ∧ same_setup (sh (demo3 DROP_HEAD)) s'.
Proof.
  apply (add_request_policy (env := demo_env) (conn 0) (conn 9) (sh (demo3 DROP_HEAD)) [conn 8] 1);
    [done|vm_compute; discriminate|by apply demo3_models].
Defined.

(** ** Where the code does not do what it means to *)

(** For an algorithm [getargs] does not know, a full server takes the connection
    in all the same: three connections where two are allowed. *)
Theorem unknown_schedalg_overfills :
  let s := run_add 9 (demo3 SCHEDALG_UNSET) in
  max_accepted_count (jm (sh s)) = 2 ∧ waiting_count (jm (sh s)) + running_count (jm (sh s)) = 3.
Proof. split; vm_compute; reflexivity. Qed.
