(* ===== verification/CString.v ===== *)
(** * Strings of C and C++

    Strings are lists of characters, without the terminating zero.  The library
    functions the sources use: searching ([strstr], [index], [string::find]),
    trimming and splitting at white space ([operator>>], [sscanf "%s"]),
    [strcasecmp], [atoi], and the conversions [%ld], [%lu] and [%06ld] of
    [printf]. *)

From Stdlib Require Export Ascii.
From Stdlib Require String.
From S2P Require Import Prelude.

Abbreviation str := (list ascii).

(** A literal. *)
Definition lit (s : string) : str := String.list_ascii_of_string s.
#[global] Arguments lit !s /.
Definition NUL : ascii := Ascii.zero.
Definition LF : ascii := ascii_of_nat 10.
Definition CR : ascii := ascii_of_nat 13.
Definition CRLF : str := [CR; LF].
Definition DOUBLE_QUOTE : ascii := ascii_of_nat 34.

(** The string a [char*] buffer holds: up to the first zero. *)
Fixpoint cstr (l : str) : str :=
  match l with
  | [] => []
  | c :: l' => if bool_decide (c = NUL) then [] else c :: cstr l'
  end.

(** The white space of [isspace] and of [WHITESPACE]: space, and 9 to 13. *)
Definition isspace (c : ascii) : bool :=
  let n := nat_of_ascii c in ((n =? 32) || ((9 <=? n) && (n <=? 13)))%nat.
Definition isdigit (c : ascii) : bool :=
  let n := nat_of_ascii c in ((48 <=? n) && (n <=? 57))%nat.
Definition tolower (c : ascii) : ascii :=
  let n := nat_of_ascii c in if ((65 <=? n) && (n <=? 90))%nat then ascii_of_nat (n + 32) else c.

(** ** Searching *)

Fixpoint starts_with (pat s : str) : bool :=
  match pat, s with
  | [], _ => true
  | p :: pat', c :: s' => bool_decide (p = c) && starts_with pat' s'
  | _, _ => false
  end.

(** [strstr] and [string::find]: the first position of [pat]. *)
Fixpoint find_sub (pat s : str) : option nat :=
  if starts_with pat s then Some O
  else match s with [] => None | _ :: s' => S <$> find_sub pat s' end.

Definition contains (pat s : str) : bool := match find_sub pat s with Some _ => true | None => false end.

(** [string::find(pat, pos)]. *)
Definition find_sub_from (pat s : str) (pos : nat) : option nat :=
  if (pos <=? length s)%nat then (λ i, (pos + i)%nat) <$> find_sub pat (drop pos s) else None.

(** ** Trimming *)

Fixpoint trim_left (s : str) : str :=
  match s with
  | [] => []
  | c :: s' => if isspace c then trim_left s' else s
  end.
Definition trim_right (s : str) : str := reverse (trim_left (reverse s)).
Definition trim (s : str) : str := trim_right (trim_left s).

(** ** Words *)

(** [cur] is the word being read, last character first. *)
Fixpoint words_from (cur s : str) : list str :=
  match s with
  | [] => match cur with [] => [] | _ => [reverse cur] end
  | c :: s' =>
    if isspace c then
      match cur with [] => words_from [] s' | _ => reverse cur :: words_from [] s' end
    else words_from (c :: cur) s'
  end.
Definition words (s : str) : list str := words_from [] s.

(** ** Numbers *)

Fixpoint digits_value (s : str) (acc : Z) : Z :=
  match s with
  | [] => acc
  | c :: s' => if isdigit c then digits_value s' (10 * acc + Z.of_nat (nat_of_ascii c - 48)) else acc
  end.

(** [atoi]: white space, a sign, digits; the value of the type [int]. *)
Definition atoi (s : str) : Z :=
  i32 (match trim_left s with
       | c :: s' =>
         if bool_decide (nat_of_ascii c = 45%nat) then - digits_value s' 0
         else if bool_decide (nat_of_ascii c = 43%nat) then digits_value s' 0
         else digits_value (c :: s') 0
       | [] => 0
       end).

Definition digit (d : Z) : ascii := ascii_of_nat (48 + Z.to_nat d).
Fixpoint dec_digits (fuel : nat) (n : Z) : str :=
  match fuel with
  | O => []
  | S fuel' => if n <? 10 then [digit n] else dec_digits fuel' (n / 10) ++ [digit (n mod 10)]
  end.
(** [%ld], [%lu], [%d]; twenty digits are enough for 64 bits. *)
Definition dec (n : Z) : str :=
  if n <? 0 then "-"%char :: dec_digits 20 (- n) else dec_digits 20 n.
(** [%06ld] of a number that is not negative. *)
Definition dec06 (n : Z) : str :=
  let s := dec n in replicate (6 - length s) "0"%char ++ s.

(** [strcasecmp] as a test for equality. *)
Definition strcasecmp_eq (s t : str) : bool := bool_decide (tolower <$> s = tolower <$> t).

(** ** Facts *)

Lemma starts_with_spec pat s : starts_with pat s = true ↔ ∃ b, s = pat ++ b.
Proof.
  revert s. induction pat as [|p pat IH]; intros s; cbn.
  - split; [by exists s|done].
  - destruct s as [|c s]; cbn.
    + split; [done|]. by intros [b Hb].
    + rewrite andb_true_iff, bool_decide_eq_true, IH. split.
      * intros [-> [b ->]]. by exists b.
      * intros [b [= -> ->]]. split; [done|by exists b].
Qed.

Lemma find_sub_Some pat s i :
  find_sub pat s = Some i → ∃ a b, s = a ++ pat ++ b ∧ length a = i.
Proof.
  revert i. induction s as [|c s IH]; intros i; cbn.
  - destruct (starts_with pat []) eqn:E; [|done]. intros [= <-]. apply starts_with_spec in E as [b Hb]. by exists [], b.
  - destruct (starts_with pat (c :: s)) eqn:E.
    + intros [= <-]. apply starts_with_spec in E as [b Hb]. by exists [], b.
    + intros [j [Hj ->]]%fmap_Some. destruct (IH j Hj) as (a & b & -> & <-). by exists (c :: a), b.
Qed.

Lemma find_sub_None pat s : find_sub pat s = None ↔ ∀ a b, s ≠ a ++ pat ++ b.
Proof.
  induction s as [|c s IH]; cbn.
  - destruct (starts_with pat []) eqn:E.
    + apply starts_with_spec in E as [b Hb]. split; [done|]. intros H. by destruct (H [] b).
    + split; [|done]. intros _ a b Hab. destruct a as [|? a]; [|done]. cbn in Hab.
      enough (starts_with pat [] = true) by congruence. apply starts_with_spec. by exists b.
  - destruct (starts_with pat (c :: s)) eqn:E.
    + apply starts_with_spec in E as [b Hb]. split; [done|]. intros H. by destruct (H [] b).
    + rewrite fmap_None, IH. split.
      * intros H [|x a] b Hab; cbn in Hab; [|injection Hab as -> Hab; by destruct (H a b)].
        enough (starts_with pat (c :: s) = true) by congruence. apply starts_with_spec. by exists b.
      * intros H a b ->. by destruct (H (c :: a) b).
Qed.

(** The position found is the first one. *)
Lemma find_sub_first pat s i j : find_sub pat s = Some i → (j < i)%nat → starts_with pat (drop j s) = false.
Proof.
  revert i j. induction s as [|c s IH]; intros i j; cbn.
  - destruct (starts_with pat []); [|done]. intros [= <-] ?. lia.
  - destruct (starts_with pat (c :: s)) eqn:E; [intros [= <-] ?; lia|]. intros [k [Hk ->]]%fmap_Some Hj.
    destruct j as [|j]; [done|]. cbn. apply (IH k); [done|lia].
Qed.

Lemma contains_app_false pat a b : contains pat (a ++ b) = false → contains pat a = false ∧ contains pat b = false.
Proof.
  unfold contains. destruct (find_sub pat (a ++ b)) eqn:E; [done|]. rewrite find_sub_None in E. intros _. split.
  - destruct (find_sub pat a) eqn:Ea; [|done]. apply find_sub_Some in Ea as (u & v & -> & _). destruct (E u (v ++ b)). by rewrite <- !app_assoc.
  - destruct (find_sub pat b) eqn:Eb; [|done]. apply find_sub_Some in Eb as (u & v & -> & _). destruct (E (a ++ u) v). by rewrite <- !app_assoc.
Qed.

(** Words have no white space and are not empty. *)
Lemma words_from_ok cur s :
  Forall (λ c, isspace c = false) cur → Forall (λ w, w ≠ [] ∧ Forall (λ c, isspace c = false) w) (words_from cur s).
Proof.
  revert cur. induction s as [|c s IH]; intros cur Hc; cbn.
  - destruct cur as [|x cur]; [constructor|]. constructor; [|constructor]. split; [by rewrite reverse_cons; destruct (reverse cur)|by apply Forall_reverse].
  - destruct (isspace c) eqn:E.
    + destruct cur as [|x cur]; [by apply IH|]. constructor; [|by apply IH]. split; [by rewrite reverse_cons; destruct (reverse cur)|by apply Forall_reverse].
    + apply IH. by constructor.
Qed.

Lemma words_ok s : Forall (λ w, w ≠ [] ∧ Forall (λ c, isspace c = false) w) (words s).
Proof. by apply words_from_ok. Qed.

(** A two-character pattern does not straddle [a ++ b] when [b] does not start
    with its second character. *)
Lemma contains_app_2 x y a b :
  contains [x; y] a = false → contains [x; y] b = false → head b ≠ Some y → contains [x; y] (a ++ b) = false.
Proof.
  intros Ha Hb Hh. unfold contains in *. destruct (find_sub [x; y] (a ++ b)) as [i|] eqn:E; [|done].
  destruct (find_sub [x; y] a) eqn:Ea; [done|]. destruct (find_sub [x; y] b) eqn:Eb; [done|].
  rewrite find_sub_None in Ea, Eb. exfalso. apply find_sub_Some in E as (u & v & E & _).
  apply app_eq_app in E as (k & [[-> E]|[-> E]]).
  - destruct k as [|c [|d k]]; cbn in E.
    + by destruct (Eb [] v).
    + injection E as <- E. subst b. by cbn in Hh.
    + injection E as <- <- ->. by destruct (Ea u k).
  - by destruct (Eb k v).
Qed.

Lemma length_dec_digits fuel n : (length (dec_digits fuel n) ≤ fuel)%nat.
Proof. revert n. induction fuel as [|fuel IH]; intros n; cbn; [done|]. destruct (n <? 10); cbn; [lia|]. rewrite length_app. specialize (IH (n / 10)). cbn. lia. Qed.
Lemma length_dec n : (length (dec n) ≤ 21)%nat.
Proof. unfold dec. destruct (n <? 0); cbn [length]; [pose proof (length_dec_digits 20 (- n))|pose proof (length_dec_digits 20 n)]; lia. Qed.
Lemma length_dec06 n : (length (dec06 n) ≤ 27)%nat.
Proof. unfold dec06. rewrite length_app, length_replicate. pose proof (length_dec n). lia. Qed.

(** ** Printing and reading back *)

Lemma digit_ascii d : 0 ≤ d < 10 → nat_of_ascii (digit d) = (48 + Z.to_nat d)%nat.
Proof. intros Hd. unfold digit. apply nat_ascii_embedding. lia. Qed.
Lemma digit_isdigit d : 0 ≤ d < 10 → isdigit (digit d) = true.
Proof. intros Hd. unfold isdigit. rewrite digit_ascii by done. apply andb_true_iff. rewrite !Nat.leb_le. lia. Qed.

Lemma digits_value_app a b acc :
  Forall (λ c, isdigit c = true) a → digits_value (a ++ b) acc = digits_value b (digits_value a acc).
Proof. intros Ha. revert acc. induction Ha as [|c a Hc Ha IH]; intros acc; cbn; [done|]. rewrite Hc. apply IH. Qed.

Lemma dec_digits_ok fuel n : 0 ≤ n < 10 ^ Z.of_nat fuel →
  Forall (λ c, isdigit c = true) (dec_digits fuel n) ∧ digits_value (dec_digits fuel n) 0 = n ∧ (fuel ≠ 0%nat → dec_digits fuel n ≠ []).
Proof.
  revert n. induction fuel as [|fuel IH]; intros n Hn; cbn [dec_digits].
  { cbn in Hn. split; [constructor|]. split; [cbn; lia|done]. }
  destruct (Z.ltb_spec n 10).
  - split; [repeat constructor; apply digit_isdigit; lia|]. split; [|done]. cbn. rewrite digit_isdigit, digit_ascii by lia. lia.
  - assert (Hdiv : 0 ≤ n / 10 < 10 ^ Z.of_nat fuel).
    { split; [apply Z.div_pos; lia|]. apply Z.div_lt_upper_bound; [lia|]. replace (Z.of_nat (S fuel)) with (Z.of_nat fuel + 1) in Hn by lia.
      rewrite Z.pow_add_r in Hn by lia. lia. }
    destruct (IH (n / 10) Hdiv) as (H1 & H2 & _). pose proof (Z.mod_pos_bound n 10 ltac:(lia)).
    split; [apply Forall_app; split; [done|repeat constructor; by apply digit_isdigit]|]. split; [|by destruct (dec_digits fuel (n / 10))].
    rewrite digits_value_app, H2 by done. cbn. rewrite digit_isdigit, digit_ascii by done. pose proof (Z.div_mod n 10). lia.
Qed.

Lemma isdigit_not_space c : isdigit c = true → isspace c = false ∧ nat_of_ascii c ≠ 45%nat ∧ nat_of_ascii c ≠ 43%nat.
Proof.
  unfold isdigit, isspace. intros [H1%Nat.leb_le H2%Nat.leb_le]%andb_true_iff. split; [|lia].
  apply orb_false_iff. rewrite andb_false_iff, Nat.eqb_neq, !Nat.leb_gt. lia.
Qed.

Lemma i32_small z : - 2 ^ 31 ≤ z < 2 ^ 31 → i32 z = z.
Proof.
  intros Hz. unfold i32. destruct (Z.ltb_spec (z mod 2 ^ 32) (2 ^ 31)); Z.to_euclidean_division_equations; lia.
Qed.

(** [atoi] reads back what [%d] prints. *)
Lemma atoi_dec n : - 2 ^ 31 ≤ n < 2 ^ 31 → atoi (dec n) = n.
Proof.
  intros Hn. unfold atoi, dec. destruct (Z.ltb_spec n 0).
  - destruct (dec_digits_ok 20 (- n) ltac:(lia)) as (_ & H2 & _). cbn [trim_left]. change (isspace "-"%char) with false. cbv iota.
    rewrite bool_decide_eq_true_2 by done. rewrite H2. rewrite Z.opp_involutive. by apply i32_small.
  - destruct (dec_digits_ok 20 n ltac:(lia)) as (H1 & H2 & H3). destruct (dec_digits 20 n) as [|c l]; [by destruct H3|].
    apply Forall_cons in H1 as [Hc _]. destruct (isdigit_not_space c Hc) as (Hs & Hm & Hp). cbn [trim_left]. rewrite Hs.
    rewrite !bool_decide_eq_false_2 by done. rewrite H2. by apply i32_small.
Qed.
