(* ===== verification/Segel.v ===== *)
(** * [hw3/wet/segel.c]: error functions, wrappers of system calls, robust I/O

    The kernel and the C library are an oracle (class [Unix]): [call] gives the
    return value of a call and the new state of the world.  A wrapper returns the
    value of its call or ends the process.  The laws the robust I/O package relies
    on, those of [read] and [write] on a stream, are the class [UnixLaws]. *)

From S2P Require Import Prelude CString.

Inductive syscall :=
| sys_gethostname (len : Z)
| sys_setenv (name value : str) (overwrite : Z)
| sys_fork
| sys_execve (filename : str) (argv : list str)
| sys_wait
| sys_waitpid (pid options : Z)
| sys_open (pathname : str) (flags mode : Z)
| sys_read (fd count : Z)
| sys_write (fd : Z) (data : str)
| sys_lseek (fildes offset whence : Z)
| sys_close (fd : Z)
| sys_select (n : Z)
| sys_dup2 (fd1 fd2 : Z)
| sys_stat (filename : str)
| sys_fstat (fd : Z)
| sys_mmap (addr len prot flags fd offset : Z)
| sys_munmap (start length : Z)
| sys_socket (domain type protocol : Z)
| sys_setsockopt (s level optname optval : Z)
| sys_bind (sockfd addr port : Z)
| sys_listen (s backlog : Z)
| sys_accept (s : Z)
| sys_connect (sockfd addr port : Z)
| sys_gethostbyname (name : str)
| sys_gethostbyaddr (addr : str) (len type : Z).

(** [struct stat], as far as the server reads it. *)
Record file_stat := FileStat {
  st_regular : bool;
  st_mode : Z;
  st_size : Z
}.

(** [in_data] are the bytes the last [read] stored, [stat_buf] what the last
    [stat] or [fstat] stored, [mem_at] the bytes of a mapping. *)
Class Unix (W : Type) := {
  call : syscall → W → Z * W;
  errno : W → Z;
  h_errno : W → Z;
  in_data : W → str;
  stat_buf : W → file_stat;
  mem_at : W → Z → Z → str;
  strerror : Z → str
}.

(** A process: the world it runs in, and what it has printed. *)
Record proc (W : Type) := Proc {
  world : W;
  stderr : list str;
  stdout : list str
}.
Arguments Proc {W}.
Arguments world {W}.
Arguments stderr {W}.
Arguments stdout {W}.

Definition EINTR : Z := 4.
Definition AF_INET : Z := 2.
Definition SOCK_STREAM : Z := 1.
Definition SOL_SOCKET : Z := 1.
Definition SO_REUSEADDR : Z := 2.
Definition INADDR_ANY : Z := 0.
Definition LISTENQ : Z := 1024.
Definition RIO_BUFSIZE : Z := 8192.
Definition MAXLINE : Z := 8192.
Definition MAXBUF : Z := 8192.

(** Storing bytes at the start of a buffer. *)
Definition overwrite (buf bytes : str) : str := bytes ++ drop (length bytes) buf.

Record rio_t := Rio {
  rio_fd : Z;
  rio_cnt : Z;
  rio_bufptr : Z;
  rio_buf : str
}.

Section Code.
Context {W : Type} {unix : Unix W}.

Definition do_call (c : syscall) : M (proc W) Z :=
  λ s, let '(rc, w) := call c (world s) in Ok rc (Proc w (stderr s) (stdout s)).

Definition eprint (msg : str) : M (proc W) unit := modify (λ s, Proc (world s) (stderr s ++ [msg]) (stdout s)).
Definition print (msg : str) : M (proc W) unit := modify (λ s, Proc (world s) (stderr s) (stdout s ++ [msg])).

(** ** Error functions *)

Definition unix_error {A} (msg : str) : M (proc W) A :=
  let* e := gets (λ s, errno (world s)) in
  eprint (msg ++ lit ": " ++ strerror e ++ [LF]) ;;;
  exit 0.

Definition posix_error {A} (code : Z) (msg : str) : M (proc W) A :=
  eprint (msg ++ lit ": " ++ strerror code ++ [LF]) ;;;
  exit 0.

Definition dns_error {A} (msg : str) : M (proc W) A :=
  let* e := gets (λ s, h_errno (world s)) in
  eprint (msg ++ lit ": DNS error " ++ dec e ++ [LF]) ;;;
  exit 0.

Definition app_error {A} (msg : str) : M (proc W) A :=
  eprint (msg ++ [LF]) ;;;
  exit 0.

(** ** Wrappers: [if ((rc = call(...)) < 0) unix_error(msg); return rc;] *)

Definition checked (c : syscall) (msg : str) : M (proc W) Z :=
  let* rc := do_call c in
  if rc <? 0 then unix_error msg else ret rc.

Definition Gethostname (len : Z) : M (proc W) Z := checked (sys_gethostname len) (lit "Setenv error").
Definition Setenv (name value : str) (overwrite : Z) : M (proc W) Z := checked (sys_setenv name value overwrite) (lit "Setenv error").
Definition Fork : M (proc W) Z := checked sys_fork (lit "Fork error").
Definition Execve (filename : str) (argv : list str) : M (proc W) unit :=
  checked (sys_execve filename argv) (lit "Execve error") ;;; ret tt.
Definition Wait : M (proc W) Z := checked sys_wait (lit "Wait error").
Definition WaitPid (pid options : Z) : M (proc W) Z := checked (sys_waitpid pid options) (lit "Wait error").
Definition Open (pathname : str) (flags mode : Z) : M (proc W) Z := checked (sys_open pathname flags mode) (lit "Open error").
Definition Read (fd count : Z) : M (proc W) Z := checked (sys_read fd count) (lit "Read error").
Definition Write (fd : Z) (buf : str) : M (proc W) Z := checked (sys_write fd buf) (lit "Write error").
Definition Lseek (fildes offset whence : Z) : M (proc W) Z := checked (sys_lseek fildes offset whence) (lit "Lseek error").
Definition Close (fd : Z) : M (proc W) unit := checked (sys_close fd) (lit "Close error") ;;; ret tt.
Definition Select (n : Z) : M (proc W) Z := checked (sys_select n) (lit "Select error").
Definition Dup2 (fd1 fd2 : Z) : M (proc W) Z := checked (sys_dup2 fd1 fd2) (lit "Dup2 error").
Definition Stat (filename : str) : M (proc W) file_stat :=
  checked (sys_stat filename) (lit "Stat error") ;;; gets (λ s, stat_buf (world s)).
Definition Fstat (fd : Z) : M (proc W) file_stat :=
  checked (sys_fstat fd) (lit "Fstat error") ;;; gets (λ s, stat_buf (world s)).
(** [mmap] fails with [(void* )-1]. *)
Definition Mmap (addr len prot flags fd offset : Z) : M (proc W) Z :=
  let* ptr := do_call (sys_mmap addr len prot flags fd offset) in
  if ptr =? FAILED then unix_error (lit "mmap error") else ret ptr.
Definition Munmap (start length : Z) : M (proc W) unit := checked (sys_munmap start length) (lit "munmap error") ;;; ret tt.
Definition Socket (domain type protocol : Z) : M (proc W) Z := checked (sys_socket domain type protocol) (lit "Socket error").
Definition Setsockopt (s level optname optval : Z) : M (proc W) unit :=
  checked (sys_setsockopt s level optname optval) (lit "Setsockopt error") ;;; ret tt.
Definition Bind (sockfd addr port : Z) : M (proc W) unit := checked (sys_bind sockfd addr port) (lit "Bind error") ;;; ret tt.
Definition Listen (s backlog : Z) : M (proc W) unit := checked (sys_listen s backlog) (lit "Listen error") ;;; ret tt.
Definition Accept (s : Z) : M (proc W) Z := checked (sys_accept s) (lit "Accept error").
Definition Connect (sockfd addr port : Z) : M (proc W) unit :=
  checked (sys_connect sockfd addr port) (lit "Connect error") ;;; ret tt.
(** A [struct hostent*] as the address it points to. *)
Definition Gethostbyname (name : str) : M (proc W) Z :=
  let* p := do_call (sys_gethostbyname name) in
  if p =? NULL then dns_error (lit "Gethostbyname error") else ret p.
Definition Gethostbyaddr (addr : str) (len type : Z) : M (proc W) Z :=
  let* p := do_call (sys_gethostbyaddr addr len type) in
  if p =? NULL then dns_error (lit "Gethostbyaddr error") else ret p.

(** ** Robust I/O *)

(** [rio_readn]: the result and the bytes stored at [usrbuf]. *)
Fixpoint rio_readn_loop (fuel : nat) (fd n nleft : Z) (got : str) : M (proc W) (Z * str) :=
  if nleft <=? 0 then ret (n - nleft, got)
  else
    match fuel with
    | O => nofuel
    | S fuel' =>
      let* nread := do_call (sys_read fd nleft) in
      if nread <? 0 then
        let* e := gets (λ s, errno (world s)) in
        if e =? EINTR then rio_readn_loop fuel' fd n nleft got
        else ret (-1, got)
      else if nread =? 0 then ret (n - nleft, got)
      else
        let* bytes := gets (λ s, in_data (world s)) in
        rio_readn_loop fuel' fd n (nleft - nread) (got ++ bytes)
    end.
Definition rio_readn (fuel : nat) (fd n : Z) : M (proc W) (Z * str) := rio_readn_loop fuel fd n n [].

Fixpoint rio_writen_loop (fuel : nat) (fd n : Z) (bufp : str) : M (proc W) Z :=
  match bufp with
  | [] => ret n
  | _ =>
    match fuel with
    | O => nofuel
    | S fuel' =>
      let* nwritten := do_call (sys_write fd bufp) in
      if nwritten <=? 0 then
        let* e := gets (λ s, errno (world s)) in
        if e =? EINTR then rio_writen_loop fuel' fd n bufp
        else ret (-1)
      else rio_writen_loop fuel' fd n (drop (Z.to_nat nwritten) bufp)
    end
  end.
Definition rio_writen (fuel : nat) (fd : Z) (usrbuf : str) : M (proc W) Z :=
  rio_writen_loop fuel fd (Z.of_nat (length usrbuf)) usrbuf.

Definition rio_readinitb (buf : str) (fd : Z) : rio_t := Rio fd 0 0 buf.

(** The [while] loop of [rio_read]: [inl] is the value it returns early. *)
Fixpoint rio_refill (fuel : nat) (rp : rio_t) : M (proc W) ((Z * rio_t) + rio_t) :=
  if rio_cnt rp <=? 0 then
    match fuel with
    | O => nofuel
    | S fuel' =>
      let* cnt := do_call (sys_read (rio_fd rp) RIO_BUFSIZE) in
      let* bytes := gets (λ s, in_data (world s)) in
      if cnt <? 0 then
        let* e := gets (λ s, errno (world s)) in
        let rp' := Rio (rio_fd rp) cnt (rio_bufptr rp) (rio_buf rp) in
        if e =? EINTR then rio_refill fuel' rp' else ret (inl (-1, rp'))
      else if cnt =? 0 then ret (inl (0, Rio (rio_fd rp) 0 (rio_bufptr rp) (rio_buf rp)))
      else rio_refill fuel' (Rio (rio_fd rp) cnt 0 (overwrite (rio_buf rp) bytes))
    end
  else ret (inr rp).

(** The result, the bytes stored at [usrbuf], and the new state of [*rp]. *)
Definition rio_read (fuel : nat) (rp : rio_t) (n : Z) : M (proc W) (Z * str * rio_t) :=
  let* r := rio_refill fuel rp in
  match r with
  | inl (rc, rp') => ret (rc, [], rp')
  | inr rp' =>
    let cnt := if rio_cnt rp' <? n then rio_cnt rp' else n in
    if (rio_bufptr rp' <? 0) || (Z.of_nat (length (rio_buf rp')) <? rio_bufptr rp' + cnt) then fault
    else
      let bytes := take (Z.to_nat cnt) (drop (Z.to_nat (rio_bufptr rp')) (rio_buf rp')) in
      ret (cnt, bytes, Rio (rio_fd rp') (rio_cnt rp' - cnt) (rio_bufptr rp' + cnt) (rio_buf rp'))
  end.

Fixpoint rio_readnb_loop (fuel : nat) (rp : rio_t) (n nleft : Z) (got : str) : M (proc W) (Z * str * rio_t) :=
  if nleft <=? 0 then ret (n - nleft, got, rp)
  else
    match fuel with
    | O => nofuel
    | S fuel' =>
      let* r := rio_read fuel rp nleft in
      let '(nread, bytes, rp') := r in
      if nread <? 0 then
        let* e := gets (λ s, errno (world s)) in
        if e =? EINTR then rio_readnb_loop fuel' rp' n nleft got
        else ret (-1, got, rp')
      else if nread =? 0 then ret (n - nleft, got, rp')
      else rio_readnb_loop fuel' rp' n (nleft - nread) (got ++ bytes)
    end.
Definition rio_readnb (fuel : nat) (rp : rio_t) (n : Z) : M (proc W) (Z * str * rio_t) :=
  rio_readnb_loop fuel rp n n [].

(** The [for] loop of [rio_readlineb]: [k] iterations are left, [n] is the
    counter, [got] the bytes stored so far; the results are the value and what is
    stored in the buffer. *)
Fixpoint rio_readlineb_loop (fuel k : nat) (rp : rio_t) (n : Z) (got : str) : M (proc W) (Z * str * rio_t) :=
  match k with
  | O => ret (n, got ++ [NUL], rp)
  | S k' =>
    let* r := rio_read fuel rp 1 in
    let '(rc, c, rp') := r in
    if rc =? 1 then
      let got' := got ++ c in
      if bool_decide (c = [LF]) then ret (n, got' ++ [NUL], rp')
      else rio_readlineb_loop fuel k' rp' (n + 1) got'
    else if rc =? 0 then
      if n =? 1 then ret (0, got, rp') else ret (n, got ++ [NUL], rp')
    else ret (-1, got, rp')
  end.
Definition rio_readlineb (fuel : nat) (rp : rio_t) (usrbuf : str) (maxlen : Z) : M (proc W) (Z * str * rio_t) :=
  let* r := rio_readlineb_loop fuel (Z.to_nat (maxlen - 1)) rp 1 [] in
  let '(rc, bytes, rp') := r in
  ret (rc, overwrite usrbuf bytes, rp').

Definition Rio_readn (fuel : nat) (fd nbytes : Z) : M (proc W) (Z * str) :=
  let* r := rio_readn fuel fd nbytes in
  if r.1 <? 0 then unix_error (lit "Rio_readn error") else ret r.

Definition Rio_writen (fuel : nat) (fd : Z) (usrbuf : str) : M (proc W) unit :=
  let* n := rio_writen fuel fd usrbuf in
  if n =? Z.of_nat (length usrbuf) then ret tt else unix_error (lit "Rio_writen error").

Definition Rio_readinitb (buf : str) (fd : Z) : rio_t := rio_readinitb buf fd.

Definition Rio_readnb (fuel : nat) (rp : rio_t) (n : Z) : M (proc W) (Z * str * rio_t) :=
  let* r := rio_readnb fuel rp n in
  if r.1.1 <? 0 then unix_error (lit "Rio_readnb error") else ret r.

Definition Rio_readlineb (fuel : nat) (rp : rio_t) (usrbuf : str) (maxlen : Z) : M (proc W) (Z * str * rio_t) :=
  let* r := rio_readlineb fuel rp usrbuf maxlen in
  if r.1.1 <? 0 then unix_error (lit "Rio_readlineb error") else ret r.

(** ** Client and server helpers *)

Definition open_clientfd (hostname : str) (port : Z) : M (proc W) Z :=
  let* clientfd := do_call (sys_socket AF_INET SOCK_STREAM 0) in
  if clientfd <? 0 then ret (-1)
  else
    let* hp := do_call (sys_gethostbyname hostname) in
    if hp =? NULL then ret (-2)
    else
      let* rc := do_call (sys_connect clientfd hp (port mod 2 ^ 16)) in
      if rc <? 0 then ret (-1) else ret clientfd.

Definition open_listenfd (port : Z) : M (proc W) Z :=
  let* listenfd := do_call (sys_socket AF_INET SOCK_STREAM 0) in
  if listenfd <? 0 then eprint (lit "socket failed" ++ [LF]) ;;; ret (-1)
  else
    let* rc := do_call (sys_setsockopt listenfd SOL_SOCKET SO_REUSEADDR 1) in
    if rc <? 0 then eprint (lit "setsockopt failed" ++ [LF]) ;;; ret (-1)
    else
      let* rc := do_call (sys_bind listenfd INADDR_ANY (port mod 2 ^ 16)) in
      if rc <? 0 then eprint (lit "bind failed" ++ [LF]) ;;; ret (-1)
      else
        let* rc := do_call (sys_listen listenfd LISTENQ) in
        if rc <? 0 then eprint (lit "listen failed" ++ [LF]) ;;; ret (-1)
        else ret listenfd.

Definition Open_clientfd (hostname : str) (port : Z) : M (proc W) Z :=
  let* rc := open_clientfd hostname port in
  if rc <? 0 then
    if rc =? -1 then unix_error (lit "Open_clientfd Unix error")
    else dns_error (lit "Open_clientfd DNS error")
  else ret rc.

Definition Open_listenfd (port : Z) : M (proc W) Z :=
  let* rc := open_listenfd port in
  if rc <? 0 then unix_error (lit "Open_listenfd error") else ret rc.
End Code.

(** ** What the package relies on *)

(** [pending w fd] are the bytes that will still arrive on [fd], [output w fd] the
    bytes written to it so far; [patience w] bounds how often calls can still be
    interrupted by a signal. *)
Inductive read_result {W} `{Unix W} (pending output : W → Z → str) (patience : W → nat) (fd n : Z) (w : W) : Z → W → Prop :=
| rr_data w' : (0 < length (in_data w'))%nat → Z.of_nat (length (in_data w')) ≤ n →
    pending w fd = in_data w' ++ pending w' fd → output w' = output w → (patience w' ≤ patience w)%nat →
    read_result pending output patience fd n w (Z.of_nat (length (in_data w'))) w'
| rr_eof w' : pending w fd = [] → pending w' fd = [] → output w' = output w → (patience w' ≤ patience w)%nat →
    read_result pending output patience fd n w 0 w'
| rr_intr w' : errno w' = EINTR → pending w' fd = pending w fd → output w' = output w → (patience w' < patience w)%nat →
    read_result pending output patience fd n w (-1) w'
| rr_error w' : errno w' ≠ EINTR → output w' = output w → read_result pending output patience fd n w (-1) w'.

Inductive write_result {W} `{Unix W} (output : W → Z → str) (patience : W → nat) (fd : Z) (data : str) (w : W) : Z → W → Prop :=
| wr_some rc w' : 0 < rc ≤ Z.of_nat (length data) → output w' fd = output w fd ++ take (Z.to_nat rc) data →
    (patience w' ≤ patience w)%nat → write_result output patience fd data w rc w'
| wr_intr w' : errno w' = EINTR → output w' fd = output w fd → (patience w' < patience w)%nat → write_result output patience fd data w (-1) w'
| wr_error w' : errno w' ≠ EINTR → write_result output patience fd data w (-1) w'.

Class UnixLaws (W : Type) `{Unix W} := {
  pending : W → Z → str;
  output : W → Z → str;
  patience : W → nat;
  read_law : ∀ fd n w, 0 < n → read_result pending output patience fd n w (call (sys_read fd n) w).1 (call (sys_read fd n) w).2;
  write_law : ∀ fd data w, data ≠ [] → write_result output patience fd data w (call (sys_write fd data) w).1 (call (sys_write fd data) w).2
}.

(** The bytes of [*rp] not yet handed out, and the stream it reads from. *)
Definition unread (rp : rio_t) : str := take (Z.to_nat (rio_cnt rp)) (drop (Z.to_nat (rio_bufptr rp)) (rio_buf rp)).
Definition rio_ok (rp : rio_t) : Prop :=
  rio_cnt rp ≤ 0 ∨ (0 ≤ rio_bufptr rp ∧ rio_bufptr rp + rio_cnt rp ≤ Z.of_nat (length (rio_buf rp))).

Section Rio.
Context {W : Type} {unix : Unix W} {laws : UnixLaws W}.

(** The world after a [read] or a [write] that failed for good. *)
Definition read_failed (w' : W) : Prop := errno w' ≠ EINTR ∧ ∃ fd n w, call (sys_read fd n) w = (-1, w').
Definition write_failed (w' : W) : Prop := errno w' ≠ EINTR ∧ ∃ fd data w, call (sys_write fd data) w = (-1, w').

Definition stream (rp : rio_t) (w : W) : str := unread rp ++ pending w (rio_fd rp).

(** Reading neither prints nor writes. *)
Record quiet (s s' : proc W) : Prop := {
  qt_err : stderr s' = stderr s;
  qt_out : stdout s' = stdout s;
  qt_output : output (world s') = output (world s);
  qt_patience : (patience (world s') ≤ patience (world s))%nat
}.

Lemma quiet_refl s : quiet s s.
Proof. by split. Qed.
Lemma quiet_trans s1 s2 s3 : quiet s1 s2 → quiet s2 s3 → quiet s1 s3.
Proof. intros [] []. split; [congruence..|lia]. Qed.

Lemma unread_empty rp : rio_cnt rp ≤ 0 → unread rp = [].
Proof. intros H. unfold unread. by replace (Z.to_nat (rio_cnt rp)) with 0%nat by lia. Qed.

Lemma wp_read fd n (Q : Z → proc W → Prop) s :
  0 < n →
  (∀ rc w, read_result pending output patience fd n (world s) rc w → call (sys_read fd n) (world s) = (rc, w) →
     Q rc (Proc w (stderr s) (stdout s))) →
  wp (do_call (sys_read fd n)) Q s.
Proof.
  intros Hn HQ. unfold wp, do_call. pose proof (read_law fd n (world s) Hn). destruct (call _ _) as [rc w] eqn:E. by apply HQ.
Qed.

(** What a buffered read gives: some bytes of the stream, its end, or an error. *)
Inductive rio_result (rp : rio_t) (s : proc W) (n : Z) : Z → str → rio_t → proc W → Prop :=
| rio_data bytes rp' s' : bytes ≠ [] → Z.of_nat (length bytes) ≤ n → stream rp (world s) = bytes ++ stream rp' (world s') →
    rio_ok rp' → rio_fd rp' = rio_fd rp → quiet s s' → rio_result rp s n (Z.of_nat (length bytes)) bytes rp' s'
| rio_eof rp' s' : stream rp (world s) = [] → stream rp' (world s') = [] → rio_ok rp' → rio_fd rp' = rio_fd rp → quiet s s' →
    rio_result rp s n 0 [] rp' s'
| rio_error rp' s' : read_failed (world s') → stderr s' = stderr s → stdout s' = stdout s → output (world s') = output (world s) →
    rio_result rp s n (-1) [] rp' s'.

Lemma rio_refill_spec fuel rp s (Q : (Z * rio_t) + rio_t → proc W → Prop) :
  rio_ok rp → (patience (world s) < fuel)%nat →
  (∀ rp' s', 0 < rio_cnt rp' → rio_ok rp' → rio_fd rp' = rio_fd rp → stream rp' (world s') = stream rp (world s) → quiet s s' → Q (inr rp') s') →
  (∀ rc rp' s', rc ≤ 0 → rio_result rp s 1 rc [] rp' s' → Q (inl (rc, rp')) s') →
  wp (rio_refill fuel rp) Q s.
Proof.
  revert rp s. induction fuel as [|fuel IH]; intros rp s Hok Hf HQ1 HQ2; [lia|].
  cbn [rio_refill]. destruct (Z.leb_spec (rio_cnt rp) 0) as [Hc|Hc].
  2: { apply wp_ret, HQ1; [done..|apply quiet_refl]. }
  assert (Hst : stream rp (world s) = pending (world s) (rio_fd rp)) by (unfold stream; by rewrite unread_empty).
  apply wp_bind, wp_read; [done|]. intros rc w Hr Hcall. apply wp_bind, wp_gets. cbn [world].
  destruct Hr as [w' Hl Hn Hp Ho Hpt|w' Hp Hp' Ho Hpt|w' He Hp Ho Hpt|w' He Ho].
  - destruct (Z.ltb_spec (Z.of_nat (length (in_data w'))) 0); [lia|]. destruct (Z.eqb_spec (Z.of_nat (length (in_data w'))) 0); [lia|].
    set (rp1 := Rio _ _ _ _). assert (Hok1 : rio_ok rp1) by (right; cbn; unfold overwrite; rewrite length_app; lia).
    destruct fuel as [|fuel]; cbn [rio_refill rp1 rio_cnt]; (destruct (Z.leb_spec (Z.of_nat (length (in_data w'))) 0); [lia|]);
      (apply wp_ret, HQ1; [done|done|done| |by split; [..|cbn; lia]]).
    1, 2: rewrite Hst, Hp; unfold stream, unread, rp1; cbn [rio_cnt rio_fd rio_bufptr rio_buf world]; change (Z.to_nat 0) with 0%nat; rewrite Nat2Z.id, drop_0; unfold overwrite; by rewrite take_app_length.
  - apply wp_ret, HQ2; [done|]. apply rio_eof; [by rewrite Hst| |by left|done|by split; [..|cbn; lia]].
    unfold stream. by rewrite unread_empty.
  - cbn [Z.ltb Z.compare]. apply wp_bind, wp_gets. cbn [world]. rewrite He. cbn [Z.eqb EINTR Pos.eqb].
    assert (Hq : quiet s (Proc w' (stderr s) (stdout s))) by (split; [done..|cbn; lia]).
    assert (Hst' : stream (Rio (rio_fd rp) (-1) (rio_bufptr rp) (rio_buf rp)) w' = stream rp (world s)) by (rewrite Hst; unfold stream; by rewrite unread_empty).
    apply IH; [by left|cbn; lia| |].
    + intros rp' s' ? ? ? Hs' ?. apply HQ1; [done|done|done|by rewrite Hs'|by eapply quiet_trans].
    + intros rc rp' s' Hrc Hres. apply HQ2; [done|]. inversion Hres; subst.
      * done.
      * apply rio_eof; [by rewrite <- Hst'|done|done|done|by eapply quiet_trans].
      * apply rio_error; [done|done|done|]. etransitivity; [eassumption|done].
  - cbn [Z.ltb Z.compare]. apply wp_bind, wp_gets. cbn [world]. destruct (Z.eqb_spec (errno w') EINTR); [done|].
    apply wp_ret, HQ2; [done|]. apply rio_error; [|done..]. split; [done|]. by eexists _, _, _.
Qed.

(** Handing out the first [n] unread bytes. *)
Lemma unread_split rp k :
  0 ≤ k ≤ rio_cnt rp → 0 ≤ rio_bufptr rp →
  unread rp = take (Z.to_nat k) (drop (Z.to_nat (rio_bufptr rp)) (rio_buf rp)) ++
              unread (Rio (rio_fd rp) (rio_cnt rp - k) (rio_bufptr rp + k) (rio_buf rp)).
Proof.
  intros Hk Hp. unfold unread. cbn. replace (Z.to_nat (rio_bufptr rp + k)) with (Z.to_nat (rio_bufptr rp) + Z.to_nat k)%nat by lia.
  rewrite <- drop_drop. set (l := drop _ (rio_buf rp)).
  replace (Z.to_nat (rio_cnt rp)) with (Z.to_nat k + Z.to_nat (rio_cnt rp - k))%nat by lia. by rewrite take_take_drop.
Qed.

Lemma rio_read_spec fuel rp n s (Q : Z * str * rio_t → proc W → Prop) :
  rio_ok rp → (patience (world s) < fuel)%nat → 0 < n →
  (∀ rc bytes rp' s', rio_result rp s n rc bytes rp' s' → Q (rc, bytes, rp') s') →
  wp (rio_read fuel rp n) Q s.
Proof.
  intros Hok Hf Hn HQ. unfold rio_read. apply wp_bind. eapply rio_refill_spec; [done|done| |].
  - intros rp' s' Hc Hok' Hfd Hst Hq. destruct Hok' as [?|[Hp Hb]]; [lia|]. cbv zeta.
    set (k := if rio_cnt rp' <? n then rio_cnt rp' else n). assert (0 < k ≤ rio_cnt rp' ∧ k ≤ n) as [Hk Hkn] by (unfold k; zcase; lia).
    destruct (Z.ltb_spec (rio_bufptr rp') 0); [lia|]. destruct (Z.ltb_spec (Z.of_nat (length (rio_buf rp'))) (rio_bufptr rp' + k)); [lia|]. cbn [orb].
    apply wp_ret. set (bytes := take _ _). assert (Hlen : length bytes = Z.to_nat k) by (unfold bytes; rewrite length_take, length_drop; lia).
    replace k with (Z.of_nat (length bytes)) at 1 by lia. apply HQ. apply rio_data; [by intros E; rewrite E in Hlen; cbn in Hlen; lia|lia| | |done|done].
    + rewrite <- Hst. unfold stream. rewrite (unread_split rp' k) by lia. rewrite <- app_assoc. done.
    + right. cbn. lia.
  - intros rc rp' s' Hrc Hres. apply wp_ret, HQ. inversion Hres; subst; [done|by apply rio_eof|by apply rio_error].
Qed.

(** [rio_readnb] from the middle of its loop. *)
Lemma rio_readnb_loop_spec fuel rp n nleft got s (Q : Z * str * rio_t → proc W → Prop) :
  rio_ok rp → 0 ≤ nleft → (patience (world s) + Z.to_nat nleft < fuel)%nat →
  (∀ rp' s', stream rp' (world s') = drop (Z.to_nat nleft) (stream rp (world s)) → rio_ok rp' → quiet s s' →
     let bytes := take (Z.to_nat nleft) (stream rp (world s)) in Q (n - nleft + Z.of_nat (length bytes), got ++ bytes, rp') s') →
  (∀ bytes rp' s', read_failed (world s') → Q (-1, bytes, rp') s') →
  wp (rio_readnb_loop fuel rp n nleft got) Q s.
Proof.
  revert rp nleft got s. induction fuel as [|fuel IH]; intros rp nleft got s Hok Hn Hf HQ HE; [lia|].
  cbn [rio_readnb_loop]. destruct (Z.leb_spec nleft 0) as [Hz|Hz].
  { assert (nleft = 0) as -> by lia. apply wp_ret. specialize (HQ rp s). cbn in HQ. rewrite Z.sub_0_r, Z.add_0_r, app_nil_r, drop_0 in HQ.
    rewrite Z.sub_0_r. apply HQ; [done|done|apply quiet_refl]. }
  apply wp_bind, rio_read_spec; [done|lia|done|]. intros rc bytes rp' s' Hr.
  destruct Hr as [bytes rp' s' Hne Hl Hs Hok' Hfd Hq|rp' s' Hs Hs' Hok' Hfd Hq|rp' s' He He1 He2 He3].
  - assert (0 < Z.of_nat (length bytes)) by (destruct bytes; [done|cbn; lia]).
    destruct (Z.ltb_spec (Z.of_nat (length bytes)) 0); [lia|]. destruct (Z.eqb_spec (Z.of_nat (length bytes)) 0); [lia|].
    apply IH; [done|lia|pose proof (qt_patience _ _ Hq); lia| |done].
    intros rp2 s2 Hs2 Hok2 Hq2. specialize (HQ rp2 s2). rewrite Hs in HQ.
    rewrite take_app_ge, drop_app_ge in HQ by lia. cbv zeta in HQ. rewrite length_app in HQ.
    replace (Z.to_nat (nleft - Z.of_nat (length bytes))) with (Z.to_nat nleft - length bytes)%nat in * by lia.
    set (rest := take _ (stream rp' (world s'))) in *. cbv zeta. rewrite <- app_assoc.
    replace (n - (nleft - Z.of_nat (length bytes)) + Z.of_nat (length rest)) with (n - nleft + Z.of_nat (length bytes + length rest)) by lia.
    apply HQ; [done|done|by eapply quiet_trans].
  - cbn [Z.ltb Z.compare Z.eqb]. apply wp_ret. specialize (HQ rp' s'). rewrite Hs, take_nil, drop_nil in HQ. cbn in HQ.
    rewrite Z.add_0_r, app_nil_r in HQ. by apply HQ.
  - cbn [Z.ltb Z.compare]. apply wp_bind, wp_gets. destruct (Z.eqb_spec (errno (world s')) EINTR) as [E|_]; [by destruct He as [? _]|]. by apply wp_ret, HE.
Qed.

(** [rio_readn] from the middle of its loop. *)
Lemma rio_readn_loop_spec fuel fd n nleft got s (Q : Z * str → proc W → Prop) :
  0 ≤ nleft → (patience (world s) + Z.to_nat nleft < fuel)%nat →
  (∀ s', pending (world s') fd = drop (Z.to_nat nleft) (pending (world s) fd) → quiet s s' →
     let bytes := take (Z.to_nat nleft) (pending (world s) fd) in Q (n - nleft + Z.of_nat (length bytes), got ++ bytes) s') →
  (∀ bytes s', read_failed (world s') → Q (-1, bytes) s') →
  wp (rio_readn_loop fuel fd n nleft got) Q s.
Proof.
  revert nleft got s. induction fuel as [|fuel IH]; intros nleft got s Hn Hf HQ HE; [lia|].
  cbn [rio_readn_loop]. destruct (Z.leb_spec nleft 0) as [Hz|Hz].
  { assert (nleft = 0) as -> by lia. apply wp_ret. specialize (HQ s). cbn in HQ. rewrite Z.sub_0_r, Z.add_0_r, app_nil_r, drop_0 in HQ.
    rewrite Z.sub_0_r. apply HQ; [done|apply quiet_refl]. }
  apply wp_bind, wp_read; [done|]. intros rc w Hr Hcall.
  destruct Hr as [w' Hl Hn' Hp Ho Hpt|w' Hp Hp' Ho Hpt|w' He Hp Ho Hpt|w' He Ho].
  - destruct (Z.ltb_spec (Z.of_nat (length (in_data w'))) 0); [lia|]. destruct (Z.eqb_spec (Z.of_nat (length (in_data w'))) 0); [lia|].
    apply wp_bind, wp_gets. cbn [world]. apply IH; [lia|cbn; lia| |done]. cbn [world].
    intros s2 Hs2 Hq2. specialize (HQ s2). rewrite Hp, take_app_ge, drop_app_ge in HQ by lia. cbv zeta in HQ. rewrite length_app in HQ.
    replace (Z.to_nat (nleft - Z.of_nat (length (in_data w')))) with (Z.to_nat nleft - length (in_data w'))%nat in * by lia.
    set (rest := take _ (pending w' fd)) in *. cbv zeta. rewrite <- app_assoc.
    replace (n - (nleft - Z.of_nat (length (in_data w'))) + Z.of_nat (length rest)) with (n - nleft + Z.of_nat (length (in_data w') + length rest)) by lia.
    apply HQ; [done|]. eapply quiet_trans; [|exact Hq2]. split; [done..|cbn; lia].
  - cbn [Z.ltb Z.compare Z.eqb]. apply wp_ret. specialize (HQ (Proc w' (stderr s) (stdout s))). rewrite Hp, take_nil, drop_nil in HQ. cbn in HQ.
    rewrite Z.add_0_r, app_nil_r in HQ. apply HQ; [done|]. split; [done..|cbn; lia].
  - cbn [Z.ltb Z.compare]. apply wp_bind, wp_gets. cbn [world]. rewrite He. cbn [Z.eqb EINTR Pos.eqb].
    apply IH; [done|cbn; lia| |done]. cbn [world]. rewrite Hp. intros s2 Hs2 Hq2. apply HQ; [done|].
    eapply quiet_trans; [|exact Hq2]. split; [done..|cbn; lia].
  - cbn [Z.ltb Z.compare]. apply wp_bind, wp_gets. cbn [world]. destruct (Z.eqb_spec (errno w') EINTR); [done|].
    apply wp_ret, HE. split; [done|]. by eexists _, _, _.
Qed.

(** ** Lines *)

(** The first line of [s], its line feed included, cut after [k] bytes. *)
Fixpoint line_of (k : nat) (s : str) : str :=
  match k, s with
  | S k', c :: s' => if bool_decide (c = LF) then [c] else c :: line_of k' s'
  | _, _ => []
  end.
Definition ends_LF (l : str) : bool := bool_decide (last l = Some LF).

(** What [rio_readlineb] stores and returns for the line [l]: nothing at the end
    of the stream; the value counts one byte too many unless the line ends in a
    line feed. *)
Definition line_value (n : Z) (k : nat) (l : str) : Z :=
  if (n =? 1) && negb (k =? 0)%nat && bool_decide (l = []) then 0
  else n + Z.of_nat (length l) - (if ends_LF l then 1 else 0).
Definition line_bytes (n : Z) (k : nat) (l : str) : str :=
  if (n =? 1) && negb (k =? 0)%nat && bool_decide (l = []) then [] else l ++ [NUL].

Lemma ends_LF_cons c l : c ≠ LF → ends_LF (c :: l) = ends_LF l.
Proof.
  intros Hc. unfold ends_LF. destruct l as [|d l]; [|done].
  apply bool_decide_ext. cbn. split; [intros [= ->]; done|done].
Qed.

Lemma line_of_prefix k s : s = line_of k s ++ drop (length (line_of k s)) s.
Proof.
  revert k. induction s as [|c s IH]; intros [|k]; cbn; [done|done|done|]. case_bool_decide; [done|]. cbn. by rewrite <- IH.
Qed.

Lemma rio_readlineb_loop_spec fuel k rp n got s (Q : Z * str * rio_t → proc W → Prop) :
  rio_ok rp → (patience (world s) < fuel)%nat → 1 ≤ n → (n = 1 → got = []) →
  (∀ rp' s', let l := line_of k (stream rp (world s)) in
     stream rp' (world s') = drop (length l) (stream rp (world s)) → rio_ok rp' → rio_fd rp' = rio_fd rp → quiet s s' →
     Q (line_value n k l, got ++ line_bytes n k l, rp') s') →
  (∀ bytes rp' s', read_failed (world s') → Q (-1, bytes, rp') s') →
  wp (rio_readlineb_loop fuel k rp n got) Q s.
Proof.
  revert rp n got s. induction k as [|k IH]; intros rp n got s Hok Hf Hn Hg HQ HE; cbn [rio_readlineb_loop].
  { apply wp_ret. specialize (HQ rp s). cbn in HQ. unfold line_value, line_bytes in HQ. cbn in HQ. rewrite andb_false_r in HQ. cbn in HQ.
    change (ends_LF []) with false in HQ. cbv iota in HQ. replace (n + Z.of_nat 0 - 0) with n in HQ by lia. apply HQ; [by rewrite drop_0|done|done|apply quiet_refl]. }
  apply wp_bind, rio_read_spec; [done|done|done|]. intros rc bytes rp' s' Hr.
  destruct Hr as [bytes rp' s' Hne Hl Hs Hok' Hfd Hq|rp' s' Hs Hs' Hok' Hfd Hq|rp' s' He He1 He2 He3].
  - destruct bytes as [|c [|d bytes]]; [done| |cbn in Hl; lia]. cbn [length Z.of_nat]. change (Z.pos (Pos.of_succ_nat 0)) with 1. cbn [Z.eqb Pos.eqb].
    cbv zeta in HQ. rewrite Hs in HQ. cbn [line_of app] in HQ. pose proof (qt_patience _ _ Hq). destruct (decide (c = LF)) as [->|Hc].
    + rewrite bool_decide_eq_true_2 in HQ by done. rewrite bool_decide_eq_true_2 by done. apply wp_ret. specialize (HQ rp' s').
      unfold line_value, line_bytes in HQ. rewrite !andb_false_r in HQ. change (ends_LF [LF]) with true in HQ. cbn in HQ. cbv iota in HQ.
      rewrite <- app_assoc. replace (n + Z.of_nat 1 - 1) with n in HQ by lia. by apply HQ.
    + rewrite bool_decide_eq_false_2 in HQ by done. rewrite (bool_decide_eq_false_2 ([c] = [LF])) by congruence.
      apply IH; [done|lia|lia|lia| |done]. intros rp2 s2 l Hs2 Hok2 Hfd2 Hq2. specialize (HQ rp2 s2).
      unfold line_value, line_bytes in HQ. rewrite !andb_false_r in HQ. cbn [length drop] in HQ. rewrite ends_LF_cons in HQ by done.
      unfold line_value, line_bytes. destruct (Z.eqb_spec (n + 1) 1); [lia|]. cbn [andb]. fold l in HQ. rewrite <- app_assoc.
      replace (n + 1 + Z.of_nat (length l) - _) with (n + Z.of_nat (S (length l)) - (if ends_LF l then 1 else 0)) by lia.
      apply HQ; [done|done|congruence|by eapply quiet_trans].
  - cbn [Z.eqb]. cbv zeta in HQ. rewrite Hs in HQ. cbn [line_of length] in HQ. specialize (HQ rp' s').
    unfold line_value, line_bytes in HQ. rewrite bool_decide_eq_true_2, andb_true_r in HQ by done.
    destruct (Z.eqb_spec n 1); apply wp_ret; change (ends_LF []) with false in HQ; cbn in HQ; cbv iota in HQ;
      [rewrite app_nil_r in HQ|replace (n + Z.of_nat 0 - 0) with n in HQ by lia]; by apply HQ.
  - cbn [Z.eqb]. by apply wp_ret, HE.
Qed.

(** [rio_writen] from the middle of its loop. *)
Lemma rio_writen_loop_spec fuel fd n bufp s (Q : Z → proc W → Prop) :
  (patience (world s) + length bufp < fuel)%nat →
  (∀ s', output (world s') fd = output (world s) fd ++ bufp → stderr s' = stderr s → stdout s' = stdout s →
     (patience (world s') ≤ patience (world s))%nat → Q n s') →
  (∀ s', write_failed (world s') → Q (-1) s') →
  wp (rio_writen_loop fuel fd n bufp) Q s.
Proof.
  revert bufp s. induction fuel as [|fuel IH]; intros bufp s Hf HQ HE; [lia|].
  cbn [rio_writen_loop]. destruct bufp as [|c bufp]; [apply wp_ret, HQ; [by rewrite app_nil_r|done..]|].
  apply wp_bind. unfold wp at 1, do_call. pose proof (write_law fd (c :: bufp) (world s) ltac:(done)) as Hw.
  destruct (call (sys_write fd (c :: bufp)) (world s)) as [rc w] eqn:Hcall. cbn [fst snd] in Hw.
  destruct Hw as [rc w' Hrc Ho Hpt|w' He Ho Hpt|w' He].
  - destruct (Z.leb_spec rc 0); [lia|]. apply IH; [cbn [world]; rewrite length_drop; cbn [length] in *; lia| |done].
    intros s' Ho' He' Hs' Hp'. apply HQ; [|done|done|cbn in Hp'; lia]. cbn in Ho'. rewrite Ho', Ho, <- app_assoc. by rewrite take_drop.
  - cbn [Z.leb Z.compare]. apply wp_bind, wp_gets. cbn [world]. rewrite He. cbn [Z.eqb EINTR Pos.eqb].
    apply IH; [cbn [world]; lia| |done]. intros s' Ho' He' Hs' Hp'. apply HQ; [|done|done|cbn in Hp'; lia]. cbn in Ho'. by rewrite Ho', Ho.
  - cbn [Z.leb Z.compare]. apply wp_bind, wp_gets. cbn [world]. destruct (Z.eqb_spec (errno w') EINTR); [done|].
    apply wp_ret, HE. split; [done|]. by eexists _, _, _.
Qed.
End Rio.

(** ** A small world to try the theorems on

    One stream of incoming bytes with interruptions, writes that take at most
    five bytes at a time, and a table of files; an empty mapping is refused. *)

Inductive event := Byte (c : ascii) | Intr.

Record demo_world := DemoWorld {
  dw_in : list event;
  dw_out : str;
  dw_last : str;
  dw_errno : Z;
  dw_files : list (str * (file_stat * str));
  dw_file : file_stat * str
}.

Definition bytes_of (l : list event) : str := omap (λ e, match e with Byte c => Some c | Intr => None end) l.
Definition intrs_of (l : list event) : nat := length (List.filter (λ e, match e with Intr => true | _ => false end) l).

(** At most [n] bytes, up to the next interruption. *)
Fixpoint take_bytes (n : nat) (l : list event) : str * list event :=
  match n, l with
  | S n', Byte c :: l' => let '(b, r) := take_bytes n' l' in (c :: b, r)
  | _, _ => ([], l)
  end.

Definition no_file : file_stat * str := (FileStat false 0 0, []).

Definition demo_call (c : syscall) (w : demo_world) : Z * demo_world :=
  match c with
  | sys_read _ n =>
    match dw_in w with
    | [] => (0, DemoWorld [] (dw_out w) [] 0 (dw_files w) (dw_file w))
    | Intr :: l => (-1, DemoWorld l (dw_out w) [] EINTR (dw_files w) (dw_file w))
    | Byte c :: l =>
      let '(b, r) := take_bytes (Z.to_nat n) (Byte c :: l) in
      (Z.of_nat (length b), DemoWorld r (dw_out w) b 0 (dw_files w) (dw_file w))
    end
  | sys_write _ data =>
    let k := Nat.min 5 (length data) in
    (Z.of_nat k, DemoWorld (dw_in w) (dw_out w ++ take k data) (dw_last w) 0 (dw_files w) (dw_file w))
  | sys_stat f | sys_open f _ _ =>
    match List.find (λ e, bool_decide (e.1 = f)) (dw_files w) with
    | Some e => (3, DemoWorld (dw_in w) (dw_out w) (dw_last w) 0 (dw_files w) e.2)
    | None => (-1, DemoWorld (dw_in w) (dw_out w) (dw_last w) 2 (dw_files w) no_file)
    end
  | sys_mmap _ len _ _ _ _ => (if len =? 0 then FAILED else 4096, w)
  | _ => (7, w)
  end.

#[export] Instance demo_unix : Unix demo_world := {|
  call := demo_call;
  errno := dw_errno;
  h_errno _ := 0;
  in_data := dw_last;
  stat_buf w := (dw_file w).1;
  mem_at w _ n := take (Z.to_nat n) ((dw_file w).2 ++ replicate (Z.to_nat n) NUL);
  strerror e := dec e
|}.

Lemma take_bytes_spec n l : let '(b, r) := take_bytes n l in
  bytes_of l = b ++ bytes_of r ∧ intrs_of r = intrs_of l ∧ (length b ≤ n)%nat ∧ (n ≠ 0%nat → ∀ c l', l = Byte c :: l' → b ≠ []).
Proof.
  revert l. induction n as [|n IH]; intros [|[c|] l]; cbn; try (repeat split; (done || lia)).
  specialize (IH l). destruct (take_bytes n l) as [b r]. destruct IH as (H1 & H2 & H3 & _).
  unfold bytes_of, intrs_of in *. cbn. rewrite H1, H2. repeat split; [cbn; lia|done].
Qed.

#[export] Program Instance demo_unix_laws : UnixLaws demo_world := {|
  pending w _ := bytes_of (dw_in w);
  output w _ := dw_out w;
  patience w := intrs_of (dw_in w)
|}.
Next Obligation.
  intros fd n w Hn. destruct w as [[|[c|] l] o la e f1 f2]; cbn [call demo_unix demo_call dw_in].
  - by apply rr_eof.
  - pose proof (take_bytes_spec (Z.to_nat n) (Byte c :: l)) as H. destruct (take_bytes _ _) as [b r] eqn:E. destruct H as (H1 & H2 & H3 & H4).
    cbn [fst snd dw_out dw_files dw_file]. specialize (H4 ltac:(lia) c l eq_refl).
    change (Z.of_nat (length b)) with (Z.of_nat (length (in_data (DemoWorld r o b 0 f1 f2)))).
    apply rr_data; cbn [in_data demo_unix dw_last dw_in]; [by destruct b; [|cbn; lia]|lia|done|done|lia].
  - apply rr_intr; [done|done|done|]. cbn. unfold intrs_of. cbn. lia.
Qed.
Next Obligation.
  intros fd data w Hd. cbn [call demo_unix demo_call fst snd]. cbv zeta. assert (0 < length data)%nat by (destruct data; [done|cbn; lia]).
  apply wr_some; [lia| |done]. by rewrite Nat2Z.id.
Qed.

Definition incoming (s : string) : list event := Byte <$> String.list_ascii_of_string s.
Definition demo_proc (l : list event) : proc demo_world := Proc (DemoWorld l [] [] 0 [] no_file) [] [].

(** ** Properties *)

Section Properties.
Context {W : Type} {unix : Unix W} {laws : UnixLaws W}.

(** C22: however the kernel cuts the stream into reads and however often it
    interrupts them, [rio_readnb] returns the next [n] bytes of the stream, fewer
    only at its end, and leaves the rest for the next call; the only other outcome
    is an error of [read] reported as -1. *)
Theorem rio_readnb_correct (fuel : nat) (rp : rio_t) (n : Z) (s : proc W)
    (Hok : rio_ok rp) (Hn : 0 ≤ n) (Hf : (patience (world s) + Z.to_nat n < fuel)%nat) :
  ∃ rc bytes rp' s', rio_readnb fuel rp n s = Ok (rc, bytes, rp') s' ∧
    ((rc = -1 ∧ read_failed (world s')) ∨
     (bytes = take (Z.to_nat n) (stream rp (world s)) ∧ rc = Z.of_nat (length bytes) ∧
      stream rp' (world s') = drop (Z.to_nat n) (stream rp (world s)) ∧ rio_ok rp')).
Proof.
  assert (Hwp : wp (rio_readnb fuel rp n) (λ r s', (r.1.1 = -1 ∧ read_failed (world s')) ∨
    (r.1.2 = take (Z.to_nat n) (stream rp (world s)) ∧ r.1.1 = Z.of_nat (length r.1.2) ∧
     stream r.2 (world s') = drop (Z.to_nat n) (stream rp (world s)) ∧ rio_ok r.2)) s).
  { apply rio_readnb_loop_spec; [done|done|done| |by left]. intros rp' s' Hs Hok' _ bytes. right. cbn. split; [done|]. split; [|done]. fold bytes. lia. }
  apply wp_run in Hwp as ([[rc bytes] rp'] & s' & Hrun & H). by exists rc, bytes, rp', s'.
Qed.

(** C23: [rio_readlineb] stores the next line of the stream, cut after [maxlen - 1]
    bytes, and a zero; at the end of the stream it stores nothing and returns 0.
    The value is the length of the line when it ends in a line feed and one more
    when it does not. *)
Theorem rio_readlineb_correct (fuel : nat) (rp : rio_t) (buf : str) (maxlen : Z) (s : proc W)
    (Hok : rio_ok rp) (Hmax : 1 < maxlen) (Hf : (patience (world s) < fuel)%nat) :
  let line := line_of (Z.to_nat (maxlen - 1)) (stream rp (world s)) in
  ∃ rc buf' rp' s', rio_readlineb fuel rp buf maxlen s = Ok (rc, buf', rp') s' ∧
    ((rc = -1 ∧ read_failed (world s')) ∨
     (stream rp' (world s') = drop (length line) (stream rp (world s)) ∧ rio_ok rp' ∧
      ((stream rp (world s) = [] ∧ rc = 0 ∧ buf' = buf) ∨
       (stream rp (world s) ≠ [] ∧ rc = Z.of_nat (length line) + (if ends_LF line then 0 else 1) ∧ buf' = overwrite buf (line ++ [NUL]))))).
Proof.
  intros line.
  assert (Hwp : wp (rio_readlineb fuel rp buf maxlen) (λ r s', (r.1.1 = -1 ∧ read_failed (world s')) ∨
     (stream r.2 (world s') = drop (length line) (stream rp (world s)) ∧ rio_ok r.2 ∧
      ((stream rp (world s) = [] ∧ r.1.1 = 0 ∧ r.1.2 = buf) ∨
       (stream rp (world s) ≠ [] ∧ r.1.1 = Z.of_nat (length line) + (if ends_LF line then 0 else 1) ∧ r.1.2 = overwrite buf (line ++ [NUL]))))) s).
  { unfold rio_readlineb. apply wp_bind, rio_readlineb_loop_spec; [done|done|done|done| |by left].
    intros rp' s' l Hs Hok' _ _. apply wp_ret. right. cbn [fst snd]. split; [done|]. split; [done|].
    assert (Hk : Z.to_nat (maxlen - 1) = S (Z.to_nat (maxlen - 2))) by lia. unfold line_value, line_bytes. fold line in l. subst l.
    destruct (stream rp (world s)) as [|c t] eqn:Est; [left|right]; (split; [done|]); rewrite Hk; cbn [Z.eqb Pos.eqb Nat.eqb negb andb app].
    - unfold line. rewrite Hk. done.
    - assert (line ≠ []) as Hne by (unfold line; rewrite Hk; cbn; by case_bool_decide). unfold line in *. rewrite Hk in *.
      rewrite bool_decide_eq_false_2 by done. split; [|done]. destruct (ends_LF _); lia. }
  apply wp_run in Hwp as ([[rc buf'] rp'] & s' & Hrun & H). by exists rc, buf', rp', s'.
Qed.

(** C24: [rio_writen] writes the whole buffer whatever the kernel takes at a time
    and returns its length, or returns -1 after an error of [write]. *)
Theorem rio_writen_correct (fuel : nat) (fd : Z) (buf : str) (s : proc W)
    (Hf : (patience (world s) + length buf < fuel)%nat) :
  ∃ rc s', rio_writen fuel fd buf s = Ok rc s' ∧
    ((rc = -1 ∧ write_failed (world s')) ∨ (rc = Z.of_nat (length buf) ∧ output (world s') fd = output (world s) fd ++ buf)).
Proof.
  apply wp_run2, rio_writen_loop_spec; [done|intros s' Ho _ _ _; by right|by left].
Qed.

(** [rio_readn], the unbuffered one, returns the next [n] bytes, fewer only at
    the end of the stream. *)
Theorem rio_readn_correct (fuel : nat) (fd n : Z) (s : proc W)
    (Hn : 0 ≤ n) (Hf : (patience (world s) + Z.to_nat n < fuel)%nat) :
  ∃ rc bytes s', rio_readn fuel fd n s = Ok (rc, bytes) s' ∧
    ((rc = -1 ∧ read_failed (world s')) ∨ (bytes = take (Z.to_nat n) (pending (world s) fd) ∧ rc = Z.of_nat (length bytes) ∧
                pending (world s') fd = drop (Z.to_nat n) (pending (world s) fd))).
Proof.
  assert (Hwp : wp (rio_readn fuel fd n) (λ r s', (r.1 = -1 ∧ read_failed (world s')) ∨ (r.2 = take (Z.to_nat n) (pending (world s) fd) ∧
     r.1 = Z.of_nat (length r.2) ∧ pending (world s') fd = drop (Z.to_nat n) (pending (world s) fd))) s).
  { apply rio_readn_loop_spec; [done|done| |by left]. intros s' Hs _ bytes. right. cbn. split; [done|]. split; [|done]. fold bytes. lia. }
  apply wp_run in Hwp as ([rc bytes] & s' & Hrun & H). by exists rc, bytes, s'.
Qed.
End Properties.

Lemma rio_readnb_correct_witness :
  let s := demo_proc (incoming "hel" ++ [Intr] ++ incoming "lo") in
  ∃ rc bytes rp' s', rio_readnb 10 (rio_readinitb [] 4) 4 s = Ok (rc, bytes, rp') s' ∧
    ((rc = -1 ∧ read_failed (world s')) ∨ (bytes = lit "hell" ∧ rc = Z.of_nat (length bytes) ∧ stream rp' (world s') = lit "o" ∧ rio_ok rp')).
Proof.
  intros s. refine (rio_readnb_correct 10 (rio_readinitb [] 4) 4 s _ _ _); [by left|lia|vm_compute; lia].
Defined.

Lemma rio_readlineb_correct_witness :
  let s := demo_proc (incoming "GE" ++ [Intr] ++ incoming "T") in
  ∃ rc buf' rp' s', rio_readlineb 3 (rio_readinitb [] 4) [] 100 s = Ok (rc, buf', rp') s' ∧
    ((rc = -1 ∧ read_failed (world s')) ∨
     (stream rp' (world s') = [] ∧ rio_ok rp' ∧
      ((lit "GET" = [] ∧ rc = 0 ∧ buf' = []) ∨ (lit "GET" ≠ [] ∧ rc = 3 + 1 ∧ buf' = overwrite [] (lit "GET" ++ [NUL]))))).
Proof.
  intros s. refine (rio_readlineb_correct 3 (rio_readinitb [] 4) [] 100 s _ _ _); [by left|lia|vm_compute; lia].
Defined.

Lemma rio_writen_correct_witness :
  ∃ rc s', rio_writen 20 4 (lit "hello world") (demo_proc []) = Ok rc s' ∧
    ((rc = -1 ∧ write_failed (world s')) ∨ (rc = 11 ∧ output (world s') 4 = lit "hello world")).
Proof. refine (rio_writen_correct 20 4 (lit "hello world") (demo_proc []) _). vm_compute. lia. Defined.

Lemma rio_readn_correct_witness :
  let s := demo_proc (incoming "hel" ++ [Intr] ++ incoming "lo") in
  ∃ rc bytes s', rio_readn 12 4 9 s = Ok (rc, bytes) s' ∧
    ((rc = -1 ∧ read_failed (world s')) ∨ (bytes = lit "hello" ∧ rc = Z.of_nat (length bytes) ∧ pending (world s') 4 = [])).
Proof. intros s. refine (rio_readn_correct 12 4 9 s _ _); [lia|vm_compute; lia]. Defined.
