(* ===== verification/Request.v ===== *)
(** * [hw3/wet/request.c]: handling one HTTP request

    The functions of [request.c] over the world of [Segel.v].  The character
    arrays on the stack are uninitialised: their contents are arguments (record
    [locals]).  A [sprintf] or [strcat] that does not fit its array is a fault.
    [sprintf(buf, "%s...", buf)], which C does not define, is taken to append: this
    is an assumption on the C library, which has to write the result from left to
    right and so copies [buf] onto itself before anything else. *)

From S2P Require Import Prelude CString Segel.

(** [request.h]; a [struct timeval] as its two fields. *)
Record request_stat := RequestStat {
  thread_id : Z;
  arrival_time : Z * Z;
  dispatch_time : Z * Z;
  total_count : Z;
  static_count : Z;
  dynamic_count : Z
}.

(** The counters are [size_t]. *)
Definition bump (total static dynamic : Z) (r : request_stat) : request_stat :=
  RequestStat (thread_id r) (arrival_time r) (dispatch_time r) (u64 (total_count r + total))
    (u64 (static_count r + static)) (u64 (dynamic_count r + dynamic)).

(** The uninitialised arrays of [requestHandle] and [requestReadhdrs]. *)
Record locals := Locals {
  l_buf : str;
  l_method : str;
  l_uri : str;
  l_version : str;
  l_cgiargs : str;
  l_rio : str;
  l_hdr : str
}.

Definition O_RDONLY : Z := 0.
Definition PROT_READ : Z := 1.
Definition MAP_PRIVATE : Z := 2.
Definition STDOUT_FILENO : Z := 1.
Definition S_IRUSR : Z := 256.
Definition S_IXUSR : Z := 64.

(** The strings of [requestGetFiletype]. *)
Definition requestGetFiletype (filename : str) : str :=
  if contains (lit ".html") filename then lit "text/html"
  else if contains (lit ".gif") filename then lit "image/gif"
  else if contains (lit ".jpg") filename then lit "image/jpeg"
  else lit "text/plain".

(** The lines with the statistics, which end in [tail]. *)
Definition stat_lines (r : request_stat) (tail : str) : str :=
  lit "Stat-Req-Arrival:: " ++ dec (arrival_time r).1 ++ lit "." ++ dec06 (arrival_time r).2 ++ CRLF ++
  lit "Stat-Req-Dispatch:: " ++ dec (dispatch_time r).1 ++ lit "." ++ dec06 (dispatch_time r).2 ++ CRLF ++
  lit "Stat-Thread-Id:: " ++ dec (thread_id r) ++ CRLF ++
  lit "Stat-Thread-Count:: " ++ dec (total_count r) ++ CRLF ++
  lit "Stat-Thread-Static:: " ++ dec (static_count r) ++ CRLF ++
  lit "Stat-Thread-Dynamic:: " ++ dec (dynamic_count r) ++ tail.

(** The texts of [requestError]. *)
Definition error_body (cause errnum shortmsg longmsg : str) : str :=
  lit "<html><title>OS-HW3 Error</title>" ++
  lit "<body bgcolor=fffff>" ++ CRLF ++
  errnum ++ lit ": " ++ shortmsg ++ CRLF ++
  lit "<p>" ++ longmsg ++ lit ": " ++ cause ++ CRLF ++
  lit "<hr>OS-HW3 Web Server" ++ CRLF.
Definition error_status (errnum shortmsg : str) : str :=
  lit "HTTP/1.0 " ++ errnum ++ lit " " ++ shortmsg ++ CRLF.
Definition error_lengths (body : str) (r : request_stat) : str :=
  lit "Content-Length: " ++ dec (Z.of_nat (length body)) ++ CRLF ++ stat_lines r (CRLF ++ CRLF).

Definition static_header (filesize : Z) (filetype : str) (r : request_stat) : str :=
  lit "HTTP/1.0 200 OK" ++ CRLF ++
  lit "Server: OS-HW3 Web Server" ++ CRLF ++
  lit "Content-Length: " ++ dec filesize ++ CRLF ++
  lit "Content-Type: " ++ filetype ++ CRLF ++
  stat_lines r (CRLF ++ CRLF).

Definition dynamic_header (r : request_stat) : str :=
  lit "HTTP/1.0 200 OK" ++ CRLF ++ lit "Server: OS-HW3 Web Server" ++ CRLF ++ stat_lines r CRLF.

Section Code.
Context {W : Type} {unix : Unix W}.

(** The [fuel] of the robust I/O calls. *)
Context (fuel : nat).

(** A string written to an array of [cap] bytes, with its zero. *)
Definition fits (cap : Z) (s : str) : M (proc W) str :=
  if Z.of_nat (length s) <? cap then ret s else fault.

Definition requestError (fd : Z) (cause errnum shortmsg longmsg : str) (r : request_stat) : M (proc W) unit :=
  let* body := fits MAXBUF (error_body cause errnum shortmsg longmsg) in
  let* buf := fits MAXLINE (error_status errnum shortmsg) in
  Rio_writen fuel fd buf ;;;
  print buf ;;;
  let* buf := fits MAXLINE (lit "Content-Type: text/html" ++ CRLF) in
  Rio_writen fuel fd buf ;;;
  print buf ;;;
  let* buf := fits MAXLINE (error_lengths body r) in
  Rio_writen fuel fd buf ;;;
  print buf ;;;
  Rio_writen fuel fd body ;;;
  print body.

(** [requestReadhdrs]; [n] bounds the number of lines. *)
Fixpoint readhdrs_loop (n : nat) (rp : rio_t) (buf : str) : M (proc W) rio_t :=
  if bool_decide (cstr buf = CRLF) then ret rp
  else
    match n with
    | O => nofuel
    | S n' =>
      let* r := Rio_readlineb fuel rp buf MAXLINE in
      readhdrs_loop n' r.2 r.1.2
    end.
Definition requestReadhdrs (n : nat) (rp : rio_t) (buf : str) : M (proc W) rio_t :=
  let* r := Rio_readlineb fuel rp buf MAXLINE in
  readhdrs_loop n r.2 r.1.2.

(** [requestParseURI]: whether the content is static, and the new contents of
    [filename] and [cgiargs]. *)
Definition requestParseURI (uri cgiargs : str) : M (proc W) (bool * str * str) :=
  if contains (lit "..") uri then ret (true, lit "./public/home.html", cgiargs)
  else if negb (contains (lit "cgi") uri) then
    let* filename := fits MAXLINE (lit "./public/" ++ uri) in
    match last uri with
    | None => fault
    | Some c =>
      let* filename := (if bool_decide (c = "/"%char) then fits MAXLINE (filename ++ lit "home.html") else ret filename) in
      ret (true, filename, [])
    end
  else
    match find_sub (lit "?") uri with
    | Some i =>
      let* filename := fits MAXLINE (lit "./public/" ++ take i uri) in
      ret (false, filename, drop (S i) uri)
    | None =>
      let* filename := fits MAXLINE (lit "./public/" ++ uri) in
      ret (false, filename, [])
    end.

Definition requestServeDynamic (fd : Z) (filename cgiargs : str) (r : request_stat) : M (proc W) unit :=
  let* buf := fits MAXLINE (dynamic_header r) in
  Rio_writen fuel fd buf ;;;
  let* pid := Fork in
  (if pid =? 0 then
     Setenv (lit "QUERY_STRING") cgiargs 1 ;;;
     Dup2 fd STDOUT_FILENO ;;;
     Execve filename []
   else ret tt) ;;;
  do_call (sys_waitpid pid 0) ;;;
  ret tt.

(** [filesize] is an [int]. *)
Definition requestServeStatic (fd : Z) (filename : str) (filesize : Z) (r : request_stat) : M (proc W) unit :=
  let filetype := requestGetFiletype filename in
  let* srcfd := Open filename O_RDONLY 0 in
  let* srcp := Mmap 0 (u64 filesize) PROT_READ MAP_PRIVATE srcfd 0 in
  Close srcfd ;;;
  let* buf := fits MAXBUF (static_header filesize filetype r) in
  Rio_writen fuel fd buf ;;;
  let* content := gets (λ s, mem_at (world s) srcp (u64 filesize)) in
  Rio_writen fuel fd content ;;;
  Munmap srcp (u64 filesize).

(** [requestHandle] from [requestParseURI] on. *)
Definition serve (fd : Z) (uri : str) (cgiargs : str) (r : request_stat) : M (proc W) request_stat :=
  let* p := requestParseURI uri cgiargs in
  let '(is_static, filename, cgiargs) := p in
  let* rc := do_call (sys_stat filename) in
  let* sbuf := gets (λ s, stat_buf (world s)) in
  if rc <? 0 then
    requestError fd filename (lit "404") (lit "Not found") (lit "OS-HW3 Server could not find this file") r ;;; ret r
  else if (is_static : bool) then
    if negb (st_regular sbuf) || (Z.land S_IRUSR (st_mode sbuf) =? 0) then
      requestError fd filename (lit "403") (lit "Forbidden") (lit "OS-HW3 Server could not read this file") r ;;; ret r
    else
      let r := bump 0 1 0 r in
      requestServeStatic fd filename (i32 (st_size sbuf)) r ;;; ret r
  else
    if negb (st_regular sbuf) || (Z.land S_IXUSR (st_mode sbuf) =? 0) then
      requestError fd filename (lit "403") (lit "Forbidden") (lit "OS-HW3 Server could not run this CGI program") r ;;; ret r
    else
      let r := bump 0 0 1 r in
      requestServeDynamic fd filename cgiargs r ;;; ret r.

(** [sscanf(buf, "%s %s %s", ...)]: a string without its word keeps what it held. *)
Definition word (ws : list str) (i : nat) (old : str) : str := default (cstr old) (ws !! i).

Definition requestHandle (n : nat) (fd : Z) (junk : locals) (r : request_stat) : M (proc W) request_stat :=
  let r := bump 1 0 0 r in
  let rio := Rio_readinitb (l_rio junk) fd in
  let* res := Rio_readlineb fuel rio (l_buf junk) MAXLINE in
  let ws := words (cstr res.1.2) in
  let method := word ws 0 (l_method junk) in
  let uri := word ws 1 (l_uri junk) in
  let version := word ws 2 (l_version junk) in
  print (method ++ lit " " ++ uri ++ lit " " ++ version ++ [LF]) ;;;
  if negb (strcasecmp_eq method (lit "GET")) then
    requestError fd method (lit "501") (lit "Not Implemented") (lit "OS-HW3 Server does not implement this method") r ;;; ret r
  else
    requestReadhdrs n res.2 (l_hdr junk) ;;;
    serve fd uri (cstr (l_cgiargs junk)) r.
End Code.

(** ** Lengths of the texts *)

Lemma length_stat_lines r tail : (length (stat_lines r tail) ≤ 400 + length tail)%nat.
Proof.
  unfold stat_lines, CRLF. repeat rewrite length_app. cbn [length lit String.list_ascii_of_string].
  repeat match goal with |- context [length (dec ?n)] => let H := fresh in pose proof (length_dec n) as H; generalize dependent (length (dec n)); intros ? H end.
  repeat match goal with |- context [length (dec06 ?n)] => let H := fresh in pose proof (length_dec06 n) as H; generalize dependent (length (dec06 n)); intros ? H end.
  lia.
Qed.

Lemma length_error_lengths body r : (length (error_lengths body r) ≤ 500)%nat.
Proof.
  unfold error_lengths, CRLF. repeat rewrite length_app. pose proof (length_stat_lines r ([CR; LF] ++ [CR; LF])) as H. cbn [app length] in H.
  pose proof (length_dec (Z.of_nat (length body))). cbn [length lit String.list_ascii_of_string app]. lia.
Qed.

Lemma length_static_header size type r : (length (static_header size type r) ≤ 550 + length type)%nat.
Proof.
  unfold static_header, CRLF. repeat rewrite length_app. pose proof (length_stat_lines r ([CR; LF] ++ [CR; LF])) as H. cbn [app length] in H.
  pose proof (length_dec size). cbn [length lit String.list_ascii_of_string app]. lia.
Qed.

(** ** Calls that succeed *)

Section Specs.
Context {W : Type} {unix : Unix W} {laws : UnixLaws W}.

(** No descriptor fails for good: what remains of [read] and [write] is how they
    cut and interrupt the stream. *)
Definition reads_work : Prop := ∀ fd n w w', call (sys_read fd n) w = (-1, w') → errno w' = EINTR.
Definition writes_work : Prop := ∀ fd data w w', call (sys_write fd data) w = (-1, w') → errno w' = EINTR.

Lemma no_read_failed w : reads_work → ¬ read_failed w.
Proof. intros Hr [Hne (fd & n & w0 & Hc)]. by apply Hne, (Hr fd n w0). Qed.
Lemma no_write_failed w : writes_work → ¬ write_failed w.
Proof. intros Hr [Hne (fd & data & w0 & Hc)]. by apply Hne, (Hr fd data w0). Qed.

Lemma wp_fits cap (t : str) (Q : str → proc W → Prop) s : Z.of_nat (length t) < cap → Q t s → wp (fits cap t) Q s.
Proof. intros Ht HQ. unfold fits. by destruct (Z.ltb_spec (Z.of_nat (length t)) cap); [|lia]. Qed.

(** Some text has been written to [fd]. *)
Record wrote (fd : Z) (text : str) (s s' : proc W) : Prop := {
  wt_output : output (world s') fd = output (world s) fd ++ text;
  wt_err : stderr s' = stderr s;
  wt_patience : (patience (world s') ≤ patience (world s))%nat
}.

Lemma wrote_trans fd t1 t2 s1 s2 s3 : wrote fd t1 s1 s2 → wrote fd t2 s2 s3 → wrote fd (t1 ++ t2) s1 s3.
Proof. intros [H1 ? ?] [H2 ? ?]. split; [by rewrite H2, H1, app_assoc|congruence|lia]. Qed.

Lemma wp_writen fuel fd t (Q : unit → proc W → Prop) s :
  writes_work → (patience (world s) + length t < fuel)%nat → (∀ s', wrote fd t s s' → Q tt s') →
  wp (Rio_writen fuel fd t) Q s.
Proof.
  intros Hw Hf HQ. unfold Rio_writen. apply wp_bind. apply rio_writen_loop_spec; [done| |].
  - intros s' Ho He _ Hp. rewrite Z.eqb_refl. apply wp_ret, HQ. by split.
  - intros s' Hfail. by destruct (no_write_failed _ Hw Hfail).
Qed.

Definition error_text (cause errnum shortmsg longmsg : str) (r : request_stat) : str :=
  let body := error_body cause errnum shortmsg longmsg in
  error_status errnum shortmsg ++ (lit "Content-Type: text/html" ++ CRLF) ++ error_lengths body r ++ body.

Lemma requestError_spec fuel fd cause errnum shortmsg longmsg r (Q : unit → proc W → Prop) s :
  writes_work → Z.of_nat (patience (world s)) + 8192 < Z.of_nat fuel →
  Z.of_nat (length (error_body cause errnum shortmsg longmsg)) < MAXBUF → Z.of_nat (length (error_status errnum shortmsg)) < MAXLINE →
  (∀ s', wrote fd (error_text cause errnum shortmsg longmsg r) s s' → Q tt s') →
  wp (requestError fuel fd cause errnum shortmsg longmsg r) Q s.
Proof.
  intros Hw Hf Hb Hst HQ. unfold MAXBUF, MAXLINE in *. unfold requestError, MAXBUF, MAXLINE. set (body := error_body _ _ _ _) in *.
  pose proof (length_error_lengths body r) as Hl.
  apply wp_bind, wp_fits; [done|]. apply wp_bind, wp_fits; [done|].
  apply wp_bind, wp_writen; [done|lia|]. intros s1 H1. pose proof (wt_patience _ _ _ _ H1). apply wp_bind, wp_modify.
  apply wp_bind, wp_fits; [done|]. apply wp_bind, wp_writen; [done|cbn; lia|]. intros s2 H2. pose proof (wt_patience _ _ _ _ H2) as Hp2. cbn [world] in Hp2.
  apply wp_bind, wp_modify.
  apply wp_bind, wp_fits; [lia|]. apply wp_bind, wp_writen; [done|cbn [world]; lia|]. intros s3 H3. pose proof (wt_patience _ _ _ _ H3) as Hp3. cbn [world] in Hp3.
  apply wp_bind, wp_modify.
  apply wp_bind, wp_writen; [done|cbn [world]; lia|]. intros s4 H4. apply wp_modify, HQ.
  unfold error_text. fold body. destruct H1 as [A1 B1 C1], H2 as [A2 B2 C2], H3 as [A3 B3 C3], H4 as [A4 B4 C4]. cbn [world stderr] in *.
  split; cbn [world stderr]; [by rewrite A4, A3, A2, A1, <- !app_assoc|congruence|lia].
Qed.

(** ** Parsing the URI *)

Lemma public_no_dots x : contains (lit "..") (lit "./public/" ++ x) = contains (lit "..") x.
Proof. unfold contains. cbn. match goal with |- context [find_sub ?p x] => by destruct (find_sub p x) end. Qed.

(** What [requestParseURI] computes when everything fits. *)
Definition static_uri (uri : str) : bool := contains (lit "..") uri || negb (contains (lit "cgi") uri).
Definition uri_file (uri : str) : str :=
  if contains (lit "..") uri then lit "./public/home.html"
  else if negb (contains (lit "cgi") uri) then
    lit "./public/" ++ uri ++ (if bool_decide (last uri = Some "/"%char) then lit "home.html" else [])
  else lit "./public/" ++ default uri ((λ i, take i uri) <$> find_sub (lit "?") uri).
Definition uri_args (uri cgiargs : str) : str :=
  if contains (lit "..") uri then cgiargs
  else if negb (contains (lit "cgi") uri) then []
  else default [] ((λ i, drop (S i) uri) <$> find_sub (lit "?") uri).

Lemma requestParseURI_spec uri cgiargs (Q : bool * str * str → proc W → Prop) s :
  uri ≠ [] → Z.of_nat (length uri) < 8000 → Q (static_uri uri, uri_file uri, uri_args uri cgiargs) s →
  wp (requestParseURI uri cgiargs) Q s.
Proof.
  intros Hne Hlen HQ. unfold requestParseURI, static_uri, uri_file, uri_args in *.
  assert (Hpub : ∀ x, Z.of_nat (length x) ≤ 8010 → Z.of_nat (length (lit "./public/" ++ x)) < MAXLINE) by (intros x; rewrite length_app; cbn; unfold MAXLINE; lia).
  destruct (contains (lit "..") uri); [by apply wp_ret|]. cbn [orb] in HQ. destruct (contains (lit "cgi") uri); cbn [negb] in *.
  - destruct (find_sub (lit "?") uri) as [i|]; cbn [fmap option_fmap option_map default] in HQ;
      (apply wp_bind, wp_fits; [apply Hpub; rewrite ?length_take; lia|]); by apply wp_ret.
  - apply wp_bind, wp_fits; [apply Hpub; lia|]. destruct uri as [|c uri _] using rev_ind; [done|]. rewrite last_snoc in *.
    assert (Hb : bool_decide (Some c = Some "/"%char) = bool_decide (c = "/"%char)) by (apply bool_decide_ext; split; congruence). rewrite Hb in HQ.
    destruct (bool_decide (c = "/"%char)); apply wp_bind; [|apply wp_ret; rewrite app_nil_r in HQ; by apply wp_ret].
    rewrite <- app_assoc. apply wp_fits; [apply Hpub; rewrite length_app; cbn [length lit String.list_ascii_of_string]; lia|]. by apply wp_ret.
Qed.

Lemma uri_file_public uri : ∃ rest, uri_file uri = lit "./public/" ++ rest ∧ contains (lit "..") (uri_file uri) = false.
Proof.
  unfold uri_file. destruct (contains (lit "..") uri) eqn:Ed; [by exists (lit "home.html")|].
  destruct (contains (lit "cgi") uri); cbn [negb]; (eexists; split; [reflexivity|]); rewrite public_no_dots.
  - destruct (find_sub (lit "?") uri) as [i|]; [|done]. cbn [fmap option_fmap option_map default].
    rewrite <- (take_drop i uri) in Ed. by apply contains_app_false in Ed as [? _].
  - case_bool_decide; [|by rewrite app_nil_r]. by apply contains_app_2.
Qed.

(** ** Serving *)

(** The calls on files neither write to a client nor use up patience. *)
Definition file_call (c : syscall) : bool :=
  match c with sys_stat _ | sys_open _ _ _ | sys_mmap _ _ _ _ _ _ | sys_munmap _ _ | sys_close _ => true | _ => false end.
Definition files_quiet : Prop :=
  ∀ c w, file_call c = true → output (call c w).2 = output w ∧ (patience (call c w).2 ≤ patience w)%nat.
Lemma wp_file_call c (Q : Z → proc W → Prop) s :
  files_quiet → file_call c = true →
  (∀ s', world s' = (call c (world s)).2 → wrote 0 [] s s' → output (world s') = output (world s) → Q (call c (world s)).1 s') →
  wp (do_call c) Q s.
Proof.
  intros Hq Hc HQ. unfold wp, do_call. destruct (Hq c (world s) Hc) as [Ho Hp]. destruct (call c (world s)) as [rc w]. cbn in *.
  apply HQ; [done| |done]. split; cbn; [by rewrite Ho, app_nil_r|done|done].
Qed.

(** Nothing has been written to any client. *)
Record silent (s s' : proc W) : Prop := {
  sl_output : output (world s') = output (world s);
  sl_patience : (patience (world s') ≤ patience (world s))%nat
}.

Lemma length_filetype f : (length (requestGetFiletype f) ≤ 10)%nat.
Proof. unfold requestGetFiletype. repeat case_match; cbn; lia. Qed.

(** Reading the headers of a connection that has ended: the buffer keeps its old
    contents, which are not the empty line. *)
Lemma readlineb_eof fuel rp buf s (Q : Z * str * rio_t → proc W → Prop) :
  reads_work → rio_ok rp → (patience (world s) < fuel)%nat → stream rp (world s) = [] →
  (∀ rp' s', stream rp' (world s') = [] → rio_ok rp' → (patience (world s') ≤ patience (world s))%nat → Q (0, buf, rp') s') →
  wp (Rio_readlineb fuel rp buf MAXLINE) Q s.
Proof.
  intros Hr Hok Hf Hs HQ. unfold Rio_readlineb, rio_readlineb. apply wp_bind, wp_bind, rio_readlineb_loop_spec; [done|done|done|done| |].
  - intros rp' s' l Hs' Hok' _ Hq. apply wp_ret. unfold line_value, line_bytes, l in *. rewrite Hs in *. cbn [line_of] in *.
    replace (Z.to_nat (MAXLINE - 1)) with (S (Z.to_nat (MAXLINE - 2))) by (unfold MAXLINE; lia). cbn -[Z.to_nat].
    apply wp_ret, HQ; [done|done|apply Hq].
  - intros bytes rp' s' Hfail. by destruct (no_read_failed _ Hr Hfail).
Qed.

Lemma readhdrs_loop_eof fuel n rp buf s :
  reads_work → rio_ok rp → (patience (world s) < fuel)%nat → stream rp (world s) = [] → cstr buf ≠ CRLF →
  readhdrs_loop fuel n rp buf s = OutOfFuel.
Proof.
  intros Hr. revert rp s. induction n as [|n IH]; intros rp s Hok Hf Hs Hb; cbn [readhdrs_loop]; rewrite bool_decide_eq_false_2 by done; [done|].
  assert (Hwp : wp (Rio_readlineb fuel rp buf MAXLINE) (λ r s', r.1.2 = buf ∧ stream r.2 (world s') = [] ∧ rio_ok r.2 ∧
    (patience (world s') ≤ patience (world s))%nat) s) by (by apply readlineb_eof).
  apply wp_run in Hwp as (r & s' & Hrun & <- & Hs' & Hok' & Hp). unfold bind. rewrite Hrun. apply IH; [done|lia|done|done].
Qed.

(** The static branch of [serve], after the file has been looked up. *)
Lemma serve_static_eq fuel fd uri cgiargs r s :
  files_quiet → uri ≠ [] → Z.of_nat (length uri) < 8000 → static_uri uri = true →
  let filename := uri_file uri in
  let rc := (call (sys_stat filename) (world s)).1 in
  let sbuf := stat_buf (call (sys_stat filename) (world s)).2 in
  ∃ s1, silent s s1 ∧ serve fuel fd uri cgiargs r s =
    (if rc <? 0 then requestError fuel fd filename (lit "404") (lit "Not found") (lit "OS-HW3 Server could not find this file") r ;;; ret r
     else if negb (st_regular sbuf) || (Z.land S_IRUSR (st_mode sbuf) =? 0) then
       requestError fuel fd filename (lit "403") (lit "Forbidden") (lit "OS-HW3 Server could not read this file") r ;;; ret r
     else let r := bump 0 1 0 r in requestServeStatic fuel fd filename (i32 (st_size sbuf)) r ;;; ret r) s1.
Proof.
  intros Hq Hne Hlen Hst filename rc sbuf.
  assert (Hwp : wp (requestParseURI uri cgiargs) (λ p s', s' = s ∧ p = (static_uri uri, uri_file uri, uri_args uri cgiargs)) s) by (by apply requestParseURI_spec).
  apply wp_run in Hwp as (p & s' & Hrun & -> & ->). exists (Proc (call (sys_stat filename) (world s)).2 (stderr s) (stdout s)).
  destruct (Hq (sys_stat filename) (world s) eq_refl) as [Ho Hp]. split; [by split|].
  unfold serve. unfold bind at 1. rewrite Hrun, Hst. unfold bind at 1, do_call. fold filename.
  unfold rc, sbuf. destruct (call (sys_stat filename) (world s)) as [c w]. reflexivity.
Qed.

Lemma length_uri_file uri : (length (uri_file uri) ≤ length uri + 30)%nat.
Proof.
  unfold uri_file. repeat case_match; rewrite ?length_app; cbn [length lit String.list_ascii_of_string]; try lia.
  destruct (find_sub _ uri) as [i|]; cbn; rewrite ?length_take; lia.
Qed.

(** The error branches: the response, and the statistics as they were. *)
Lemma error_then_ret fuel fd filename errnum shortmsg longmsg r s s1 :
  writes_work → output (world s1) = output (world s) → Z.of_nat (patience (world s1)) + 8192 < Z.of_nat fuel →
  Z.of_nat (length filename + length errnum + length shortmsg + length longmsg) < 8000 →
  ∃ s', (requestError fuel fd filename errnum shortmsg longmsg r ;;; ret r) s1 = Ok r s' ∧
    output (world s') fd = output (world s) fd ++ error_text filename errnum shortmsg longmsg r.
Proof.
  intros Hw Ho Hf Hl.
  assert (Hwp : wp (requestError fuel fd filename errnum shortmsg longmsg r) (λ _ s', wrote fd (error_text filename errnum shortmsg longmsg r) s1 s') s1).
  { apply requestError_spec; [done|done| | |done]; unfold MAXBUF, MAXLINE, error_body, error_status, CRLF;
      repeat rewrite length_app; cbn [length lit String.list_ascii_of_string]; lia. }
  apply wp_run in Hwp as ([] & s' & Hrun & [Ho' _ _]). exists s'. unfold bind. rewrite Hrun. split; [done|]. by rewrite Ho', Ho.
Qed.

(** The statistics a request leaves behind. *)
Lemma serve_returns fuel fd uri cgiargs r :
  yields (serve fuel fd uri cgiargs r) (λ r', r' = r ∨ r' = bump 0 1 0 r ∨ r' = bump 0 0 1 r).
Proof.
  unfold serve. apply yields_bind. intros [[st fn] args]. do 2 (apply yields_bind; intros ?).
  destruct (_ <? 0); [|destruct st; destruct (_ || _)]; apply yields_bind; intros _; apply yields_ret; auto.
Qed.
Lemma handle_returns fuel n fd junk r :
  yields (requestHandle fuel n fd junk r)
    (λ r', r' = bump 1 0 0 r ∨ r' = bump 0 1 0 (bump 1 0 0 r) ∨ r' = bump 0 0 1 (bump 1 0 0 r)).
Proof.
  unfold requestHandle. do 2 (apply yields_bind; intros ?). destruct (negb _); apply yields_bind; intros _; [apply yields_ret; auto|].
  apply serve_returns.
Qed.
End Specs.

(** the array for the file name is just as long as the code needs: for every URI
    [requestParseURI] computes the file name, the arguments and the kind of content
    when the file name has less than 8192 bytes, and otherwise writes past the end
    of the array; a URI of 8183 bytes, which a request line may hold, is enough. *)
Theorem parse_uri_bounds {W} {unix : Unix W} (uri cgiargs : str) (s : proc W) :
  uri ≠ [] →
  requestParseURI uri cgiargs s =
    if Z.of_nat (length (uri_file uri)) <? 8192 then Ok (static_uri uri, uri_file uri, uri_args uri cgiargs) s else Fault.
Proof.
  intros Hne. unfold requestParseURI, static_uri, uri_file, uri_args. destruct (contains (lit "..") uri); [done|]. cbn [orb].
  destruct (contains (lit "cgi") uri); cbn [negb].
  - destruct (find_sub (lit "?") uri) as [i|]; cbn [fmap option_fmap option_map default]; unfold bind, fits, MAXLINE; by destruct (_ <? _).
  - destruct uri as [|c uri _] using rev_ind; [done|]. rewrite last_snoc.
    rewrite (bool_decide_ext (Some c = Some "/"%char) (c = "/"%char)) by (split; congruence). unfold bind, fits, MAXLINE.
    destruct (bool_decide (c = "/"%char)); [|rewrite app_nil_r; by destruct (_ <? _)].
    destruct (Z.ltb_spec (Z.of_nat (length (lit "./public/" ++ uri ++ [c]))) 8192) as [Hl|Hl]; unfold ret, fault; cbv iota beta.
    + rewrite <- !app_assoc. by destruct (_ <? _).
    + rewrite !length_app in *. cbn [length lit String.list_ascii_of_string] in *. zcase; [lia|done].
Qed.

(** ** Properties *)

Section Properties.
Context {W : Type} {unix : Unix W} {laws : UnixLaws W}.

(** C26: no request leaves the directory of the site: for every URI that is not empty
    and whose file name fits its array of 8192 bytes, [requestParseURI] returns, the
    file name it computes starts with [./public/] and contains no [..], and the
    content is dynamic exactly for a URI with [cgi] and without [..].  For every other
    URI it reads or writes outside an array. *)
Theorem parse_uri_confined (uri cgiargs : str) (s : proc W) :
  if bool_decide (uri ≠ []) && (Z.of_nat (length (uri_file uri)) <? 8192) then
    ∃ is_static args, requestParseURI uri cgiargs s = Ok (is_static, uri_file uri, args) s ∧
      (∃ rest, uri_file uri = lit "./public/" ++ rest) ∧ contains (lit "..") (uri_file uri) = false ∧
      is_static = contains (lit "..") uri || negb (contains (lit "cgi") uri)
  else requestParseURI uri cgiargs s = Fault.
Proof.
  case_bool_decide as Hne; cbn [andb].
  - rewrite (parse_uri_bounds uri cgiargs s Hne). destruct (Z.of_nat (length (uri_file uri)) <? 8192); [|done].
    destruct (uri_file_public uri) as (rest & Hr & Hd). eexists _, _. split; [reflexivity|]. split; [by exists rest|done].
  - subst uri. reflexivity.
Qed.

(** an error response reaches the client whole, and its [Content-Length] is the
    length of the body that follows. *)
Theorem request_error_response (fuel : nat) (fd : Z) (cause errnum shortmsg longmsg : str) (r : request_stat) (s : proc W)
    (Hw : writes_work) (Hf : Z.of_nat (patience (world s)) + 8192 < Z.of_nat fuel)
    (Hb : Z.of_nat (length (error_body cause errnum shortmsg longmsg)) < 8192)
    (Hst : Z.of_nat (length (error_status errnum shortmsg)) < 8192) :
  ∃ s' body, requestError fuel fd cause errnum shortmsg longmsg r s = Ok tt s' ∧
    output (world s') fd = output (world s) fd ++ error_status errnum shortmsg ++
      (lit "Content-Type: text/html" ++ CRLF) ++
      (lit "Content-Length: " ++ dec (Z.of_nat (length body)) ++ CRLF ++ stat_lines r (CRLF ++ CRLF)) ++ body ∧
    body = error_body cause errnum shortmsg longmsg.
Proof.
  assert (Hwp : wp (requestError fuel fd cause errnum shortmsg longmsg r) (λ _ s', wrote fd (error_text cause errnum shortmsg longmsg r) s s') s)
    by (by apply requestError_spec).
  apply wp_run in Hwp as ([] & s' & Hrun & [Ho _ _]). eexists s', _. split; [done|]. split; [exact Ho|done].
Qed.

(** a connection that ends before the empty line keeps its worker busy for
    ever: [rio_readlineb] then returns 0 and leaves the buffer alone, and
    [requestReadhdrs] only looks at the buffer; it asks for another line however
    many it has been refused. *)
Theorem readhdrs_never_ends (fuel n : nat) (rp : rio_t) (buf : str) (s : proc W)
    (Hr : reads_work) (Hok : rio_ok rp) (Hf : (patience (world s) < fuel)%nat)
    (Hend : stream rp (world s) = []) (Hbuf : cstr buf ≠ CRLF) :
  requestReadhdrs fuel n rp buf s = OutOfFuel.
Proof.
  assert (Hwp : wp (Rio_readlineb fuel rp buf MAXLINE) (λ r s', r.1.2 = buf ∧ stream r.2 (world s') = [] ∧ rio_ok r.2 ∧
    (patience (world s') ≤ patience (world s))%nat) s) by (by apply readlineb_eof).
  apply wp_run in Hwp as (r & s' & Hrun & <- & Hs' & Hok' & Hp). unfold requestReadhdrs, bind. rewrite Hrun.
  apply readhdrs_loop_eof; [done|done|lia|done|done].
Qed.

(** the statistics of a worker stay consistent: a handled request counts once in
    the total and at most once as static or dynamic. *)
Theorem request_counters (fuel n : nat) (fd : Z) (junk : locals) (r r' : request_stat) (s s' : proc W)
    (Hrun : requestHandle fuel n fd junk r s = Ok r' s')
    (Hr : 0 ≤ static_count r ∧ 0 ≤ dynamic_count r ∧ static_count r + dynamic_count r ≤ total_count r < 2 ^ 64 - 1) :
  total_count r' = total_count r + 1 ∧ static_count r' + dynamic_count r' ≤ total_count r' ∧
  static_count r ≤ static_count r' ≤ static_count r + 1 ∧ dynamic_count r ≤ dynamic_count r' ≤ dynamic_count r + 1.
Proof.
  assert (Hcase : r' = bump 1 0 0 r ∨ r' = bump 0 1 0 (bump 1 0 0 r) ∨ r' = bump 0 0 1 (bump 1 0 0 r)).
  { eapply (handle_returns fuel n fd junk r); exact Hrun. }
  destruct Hcase as [->|[->| ->]]; cbn; rewrite ?u64_u64_add; rewrite !u64_small by lia; lia.
Qed.
End Properties.

(** ** Where the code does not do what it means to *)

(** ** A small site to try the theorems on *)

Definition demo_request (uri : string) : list event :=
  incoming "GET " ++ incoming uri ++ [Intr] ++ incoming " HTTP/1.0" ++ [Byte CR; Byte LF; Byte CR; Byte LF].
Definition demo_site : list (str * (file_stat * str)) :=
  [ (lit "./public//a.html", (FileStat true 292 5, lit "hello")); (lit "./public//empty", (FileStat true 292 0, [])) ].
Definition demo_client (uri : string) : proc demo_world :=
  Proc (DemoWorld (demo_request uri) [] [] 0 demo_site no_file) [] [].
Definition demo_junk : locals := Locals [] [] [] [] [] [] [].
Definition demo_stat : request_stat := RequestStat 3 (10, 20) (1, 123456) 7 2 1.

(** [mmap] refuses a length of 0, so a request for an empty file ends the whole
    server, with the exit status of success. *)
Theorem empty_file_ends_server :
  match requestHandle 100 10 4 demo_junk demo_stat (demo_client "/empty") with
  | Exit code s => code = 0 ∧ stderr s = [lit "mmap error: 0" ++ [LF]]
  | _ => False
  end.
Proof. vm_compute. done. Qed.

Lemma demo_writes : writes_work (W := demo_world).
Proof. intros fd data w w' H. injection H as H _. lia. Qed.
Lemma demo_reads : reads_work (W := demo_world).
Proof.
  intros fd n w w' H. cbn in H. destruct (dw_in w) as [|[c|] l]; [done| |by injection H as <-].
  destruct (take_bytes _ _) as [b r]. injection H as H _. lia.
Qed.
Lemma demo_quiet : files_quiet (W := demo_world).
Proof. intros c w Hc. destruct c; try done; cbn; by repeat case_match. Qed.
Lemma request_error_response_witness :
  ∃ s' body, requestError 9000 4 (lit "PUT") (lit "501") (lit "Not Implemented") (lit "no such method") demo_stat (demo_client "") = Ok tt s' ∧
    output (world s') 4 = output (world (demo_client "")) 4 ++ error_status (lit "501") (lit "Not Implemented") ++
      (lit "Content-Type: text/html" ++ CRLF) ++
      (lit "Content-Length: " ++ dec (Z.of_nat (length body)) ++ CRLF ++ stat_lines demo_stat (CRLF ++ CRLF)) ++ body ∧
    body = error_body (lit "PUT") (lit "501") (lit "Not Implemented") (lit "no such method").
Proof.
  apply (request_error_response 9000 4 (lit "PUT") (lit "501") (lit "Not Implemented") (lit "no such method") demo_stat (demo_client ""));
    [exact demo_writes|vm_compute; reflexivity..].
Defined.

Lemma readhdrs_never_ends_witness : requestReadhdrs 5 1000 (rio_readinitb [] 4) [] (demo_proc []) = OutOfFuel.
Proof. apply (readhdrs_never_ends 5 1000 (rio_readinitb [] 4) [] (demo_proc []) demo_reads); [by left|vm_compute; lia|reflexivity|done]. Defined.

Lemma request_counters_witness :
  ∃ r' s', requestHandle 1000 10 4 demo_junk demo_stat (demo_client "/a.html") = Ok r' s' ∧
    total_count r' = 8 ∧ static_count r' + dynamic_count r' ≤ total_count r' ∧ 2 ≤ static_count r' ≤ 3 ∧ 1 ≤ dynamic_count r' ≤ 2.
Proof.
  destruct (requestHandle 1000 10 4 demo_junk demo_stat (demo_client "/a.html")) as [r' s'| | |] eqn:E; [|vm_compute in E; discriminate E..].
  exists r', s'. split; [done|]. apply (request_counters 1000 10 4 demo_junk demo_stat r' (demo_client "/a.html") s' E). vm_compute. repeat split; discriminate.
Defined.

Lemma parse_uri_bounds_witness :
  requestParseURI (replicate 8183 "a"%char) [] (demo_client "") = Fault.
Proof. rewrite (parse_uri_bounds (replicate 8183 "a"%char) [] (demo_client "")); [vm_compute; reflexivity|done]. Defined.
