(* ===== verification/HttpRequest.v ===== *)
(** * [hw3/wet/request.c]: a whole request, from its first byte to the response

    [requestHandle] on the text of a request: the request line and the header lines
    are read through the robust I/O package, whatever pieces the kernel hands them
    out in, and the rest is the work of [serve].  The text of a request is described
    by [request_text]; the directory of the site by a predicate on the worlds that
    reading a connection does not change. *)

From S2P Require Import Prelude CString Segel Request.

Create HintDb http.

(** ** The text of a request *)

(** A line as the server reads it: one line feed, at its end, no zero, and short
    enough for the buffer. *)
Definition http_line (l : str) : Prop :=
  ∃ c, l = c ++ [LF] ∧ (LF ∉ c) ∧ (NUL ∉ c) ∧ Z.of_nat (length l) < MAXLINE.
Definition http_header (l : str) : Prop := http_line l ∧ l ≠ CRLF.

(** A word of the request line. *)
Definition http_word (w : str) : Prop := w ≠ [] ∧ Forall (λ c, isspace c = false ∧ c ≠ NUL) w.

Definition request_line (method uri version : str) : str :=
  method ++ lit " " ++ uri ++ lit " " ++ version ++ CRLF.
Definition request_text (method uri version : str) (headers : list str) : str :=
  request_line method uri version ++ concat headers ++ CRLF.

Record http_request (method uri version : str) (headers : list str) : Prop := {
  hr_method : http_word method;
  hr_uri : http_word uri;
  hr_version : http_word version;
  hr_length : Z.of_nat (length (request_line method uri version)) < MAXLINE;
  hr_headers : Forall http_header headers
}.

(** ** Lines and words *)

Lemma line_of_line k c rest : (LF ∉ c) → (length c < k)%nat → line_of k (c ++ LF :: rest) = c ++ [LF].
Proof.
  revert k. induction c as [|a c IH]; intros [|k] Hc Hk; cbn in *; [lia|by rewrite bool_decide_eq_true_2|lia|].
  apply not_elem_of_cons in Hc as [Ha Hc]. rewrite bool_decide_eq_false_2 by done. f_equal. apply IH; [done|lia].
Qed.

Lemma cstr_NUL c rest : (NUL ∉ c) → cstr (c ++ NUL :: rest) = c.
Proof.
  induction c as [|a c IH]; cbn; [by rewrite bool_decide_eq_true_2|]. intros [Ha Hc]%not_elem_of_cons.
  rewrite bool_decide_eq_false_2 by done. f_equal. by apply IH.
Qed.

Lemma words_from_word cur w s :
  Forall (λ c, isspace c = false ∧ c ≠ NUL) w → words_from cur (w ++ s) = words_from (reverse w ++ cur) s.
Proof.
  revert cur. induction w as [|c w IH]; intros cur H; [done|]. apply Forall_cons in H as [[Hc _] H]. cbn [app words_from]. rewrite Hc.
  rewrite IH by done. by rewrite reverse_cons, <- app_assoc.
Qed.

Lemma words_word w c s : http_word w → isspace c = true → words (w ++ c :: s) = w :: words s.
Proof.
  intros [Hne Hw] Hc. unfold words. rewrite words_from_word, app_nil_r by done. cbn [words_from]. rewrite Hc.
  destruct (reverse w) as [|a l] eqn:E; [by apply (f_equal reverse) in E; rewrite reverse_involutive in E|].
  by rewrite <- E, reverse_involutive.
Qed.

Lemma words_request_line method uri version :
  http_word method → http_word uri → http_word version → words (request_line method uri version) = [method; uri; version].
Proof.
  intros Hm Hu Hv. unfold request_line. change (lit " ") with [" "%char]. cbn [app]. unfold CRLF. by rewrite !words_word.
Qed.

Lemma http_word_not w c : http_word w → isspace c = true ∨ c = NUL → c ∉ w.
Proof. intros [_ H] Hc Hin. rewrite Forall_forall in H. destruct (H c Hin), Hc; congruence. Qed.

Lemma request_line_ok method uri version :
  http_word method → http_word uri → http_word version → Z.of_nat (length (request_line method uri version)) < MAXLINE →
  http_line (request_line method uri version).
Proof.
  intros Hm Hu Hv Hl. exists (method ++ lit " " ++ uri ++ lit " " ++ version ++ [CR]). unfold request_line, CRLF in *.
  split; [by rewrite <- !app_assoc|].
  pose proof (λ w H, http_word_not w LF H (or_introl eq_refl)) as HLF. pose proof (λ w H, http_word_not w NUL H (or_intror eq_refl)) as HNUL.
  split; [|split; [|done]]; rewrite !not_elem_of_app; repeat split; auto;
    apply not_elem_of_cons; (split; [done|apply not_elem_of_nil]).
Qed.

Lemma CRLF_line : http_line CRLF.
Proof. by exists [CR]; repeat split; [apply not_elem_of_cons; split; [done|apply not_elem_of_nil]..]. Qed.

(** ** Reading the request *)

Section Reading.
Context {W : Type} {unix : Unix W} {laws : UnixLaws W}.

(** A predicate on the world that [read] keeps, and that so every part of the robust
    I/O package that only reads keeps. *)
Context (site : W → Prop).
Hypothesis site_read : ∀ fd n w, site w → site (call (sys_read fd n) w).2.

Definition undisturbed {A} (c : M (proc W) A) : Prop := ∀ s, site (world s) → wlp c (λ _ s', site (world s')) s.

Lemma undisturbed_ret {A} (a : A) : undisturbed (ret a).
Proof. by intros s Hs. Qed.
Lemma undisturbed_bind {A B} (c : M (proc W) A) (k : A → M (proc W) B) :
  undisturbed c → (∀ a, undisturbed (k a)) → undisturbed (bind c k).
Proof. intros Hc Hk s Hs. apply wlp_bind. eapply wlp_mono; [by apply Hc|]. intros a s' Hs'. by apply Hk. Qed.
Lemma undisturbed_gets {A} (f : proc W → A) : undisturbed (gets f).
Proof. by intros s Hs. Qed.
Lemma undisturbed_read fd n : undisturbed (do_call (sys_read fd n)).
Proof. intros s Hs. unfold wlp, do_call. pose proof (site_read fd n _ Hs). by destruct (call _ _). Qed.
Lemma undisturbed_error {A} msg : undisturbed (unix_error (A := A) msg).
Proof. by intros s Hs. Qed.
Hint Resolve undisturbed_ret undisturbed_bind undisturbed_gets undisturbed_read undisturbed_error : http.

Lemma undisturbed_refill fuel rp : undisturbed (rio_refill fuel rp).
Proof.
  revert rp. induction fuel as [|fuel IH]; intros rp; cbn [rio_refill]; destruct (_ <=? 0); auto with http; [done|].
  apply undisturbed_bind; [auto with http|]. intros cnt. apply undisturbed_bind; [auto with http|]. intros bytes.
  destruct (cnt <? 0); [apply undisturbed_bind; [auto with http|]; intros e; destruct (_ =? _)|destruct (cnt =? 0)]; auto with http.
Qed.
Lemma undisturbed_rio_read fuel rp n : undisturbed (rio_read fuel rp n).
Proof.
  apply undisturbed_bind; [apply undisturbed_refill|]. intros [[rc rp']|rp']; [auto with http|]. cbv zeta.
  by destruct (_ || _); [|auto with http].
Qed.
Lemma undisturbed_line_loop fuel k rp n got : undisturbed (rio_readlineb_loop fuel k rp n got).
Proof.
  revert rp n got. induction k as [|k IH]; intros rp n got; cbn [rio_readlineb_loop]; [auto with http|].
  apply undisturbed_bind; [apply undisturbed_rio_read|]. intros [[rc bytes] rp'].
  repeat match goal with |- undisturbed (if ?b then _ else _) => destruct b end; auto with http.
Qed.
Lemma undisturbed_readlineb fuel rp buf : undisturbed (Rio_readlineb fuel rp buf MAXLINE).
Proof.
  apply undisturbed_bind; [apply undisturbed_bind; [apply undisturbed_line_loop|]; intros [[rc bytes] rp']; auto with http|].
  intros r. destruct (_ <? 0); auto with http.
Qed.

Lemma wp_undisturbed {A} (c : M (proc W) A) (Q : A → proc W → Prop) s :
  undisturbed c → site (world s) → wp c (λ a s', site (world s') → Q a s') s → wp c Q s.
Proof. intros Hc Hs. specialize (Hc s Hs). unfold wlp, wp in *. destruct (c s); auto. Qed.

(** One line of the stream. *)
Lemma readlineb_line fuel rp buf l rest s (Q : Z * str * rio_t → proc W → Prop) :
  reads_work → rio_ok rp → (patience (world s) < fuel)%nat → site (world s) → http_line l → stream rp (world s) = l ++ rest →
  (∀ rc b rp' s', cstr b = l → stream rp' (world s') = rest → rio_ok rp' → quiet s s' → site (world s') → Q (rc, b, rp') s') →
  wp (Rio_readlineb fuel rp buf MAXLINE) Q s.
Proof.
  intros Hr Hok Hf Hsite (c & -> & HLF & HNUL & Hlen) Hs HQ. apply wp_undisturbed; [apply undisturbed_readlineb|done|].
  rewrite length_app in Hlen. cbn [length] in Hlen. rewrite <- app_assoc in Hs.
  assert (Hline : line_of (Z.to_nat (MAXLINE - 1)) (stream rp (world s)) = c ++ [LF]) by (rewrite Hs; apply line_of_line; [done|lia]).
  unfold Rio_readlineb, rio_readlineb. apply wp_bind, wp_bind, rio_readlineb_loop_spec; [done|done|done|done| |].
  2: { intros bytes rp' s' Hfail. by destruct (no_read_failed _ Hr Hfail). }
  intros rp' s' l Hs' Hok' _ Hq. subst l. rewrite Hline in *. apply wp_ret. cbn [fst snd]. unfold line_value, line_bytes.
  rewrite (bool_decide_eq_false_2 (c ++ [LF] = [])), andb_false_r by (by destruct c).
  assert (Hend : ends_LF (c ++ [LF]) = true) by (unfold ends_LF; rewrite last_snoc; by apply bool_decide_eq_true_2).
  rewrite Hend, length_app. cbn [length]. destruct (Z.ltb_spec (1 + Z.of_nat (length c + 1) - 1) 0); [lia|]. apply wp_ret. intros Hsite'.
  apply HQ; [|by rewrite Hs', Hs, length_app, app_assoc, drop_app_length'; [|rewrite length_app]|done|done|done].
  unfold overwrite. cbn [app]. rewrite <- (app_assoc (c ++ [LF])). cbn [app]. apply cstr_NUL. apply not_elem_of_app. split; [done|].
  apply not_elem_of_cons. split; [done|apply not_elem_of_nil].
Qed.

(** The header lines, up to the empty one. *)
Lemma readhdrs_spec fuel n rp buf headers rest s (Q : rio_t → proc W → Prop) :
  reads_work → rio_ok rp → (patience (world s) < fuel)%nat → site (world s) → Forall http_header headers → (length headers ≤ n)%nat →
  stream rp (world s) = concat headers ++ CRLF ++ rest →
  (∀ rp' s', stream rp' (world s') = rest → quiet s s' → site (world s') → Q rp' s') →
  wp (requestReadhdrs fuel n rp buf) Q s.
Proof.
  intros Hr. revert n rp buf s. induction headers as [|h headers IH]; intros n rp buf s Hok Hf Hsite Hh Hn Hs HQ; unfold requestReadhdrs.
  - apply wp_bind. eapply (readlineb_line _ _ _ CRLF rest); [done..|apply CRLF_line|done|]. intros rc b rp' s' Hb Hs' Hok' Hq Hsite'.
    cbn [fst snd]. destruct n; cbn [readhdrs_loop]; rewrite bool_decide_eq_true_2 by done; by apply wp_ret, HQ.
  - apply Forall_cons in Hh as [[Hl Hne] Hh]. cbn [concat] in Hs. rewrite <- app_assoc in Hs.
    apply wp_bind. eapply (readlineb_line _ _ _ h); [done..|]. intros rc b rp' s' Hb Hs' Hok' Hq Hsite'. cbn [fst snd].
    destruct n as [|n]; [cbn in Hn; lia|]. cbn [readhdrs_loop]. rewrite bool_decide_eq_false_2 by congruence.
    pose proof (qt_patience _ _ Hq). apply (IH n rp' b s'); [done|lia|done|done|cbn in Hn; lia|done|].
    intros rp2 s2 Hs2 Hq2 Hsite2. apply HQ; [done|by eapply quiet_trans|done].
Qed.
End Reading.

(** ** The response to a static request *)

Section Static.
Context {W : Type} {unix : Unix W} {laws : UnixLaws W}.

(** A readable file of the site, as its calls show it: [site] is what reading a
    connection leaves alone, [opened fd] that the descriptor is open on the file,
    [mapped fd p] that the file is also mapped at [p], [held p] that only the mapping
    is left.  A mapping outlives the descriptor and is not touched by writing to a
    client; its bytes are those of the file. *)
Record file_service (filename data : str) (site : W → Prop) (opened : Z → W → Prop) (mapped : Z → Z → W → Prop) (held : Z → W → Prop) : Prop := {
  fs_read : ∀ fd n w, site w → site (call (sys_read fd n) w).2;
  fs_stat : ∀ w, site w → let '(rc, w') := call (sys_stat filename) w in
    0 ≤ rc ∧ site w' ∧ st_regular (stat_buf w') = true ∧ Z.land S_IRUSR (st_mode (stat_buf w')) ≠ 0 ∧
    st_size (stat_buf w') = Z.of_nat (length data);
  fs_open : ∀ w, site w → let '(fd, w') := call (sys_open filename O_RDONLY 0) w in 0 ≤ fd ∧ opened fd w';
  fs_mmap : ∀ fd w, opened fd w →
    let '(p, w') := call (sys_mmap 0 (Z.of_nat (length data)) PROT_READ MAP_PRIVATE fd 0) w in p ≠ FAILED ∧ mapped fd p w';
  fs_close : ∀ fd p w, mapped fd p w → let '(rc, w') := call (sys_close fd) w in 0 ≤ rc ∧ held p w';
  fs_write : ∀ p fd t w, held p w → held p (call (sys_write fd t) w).2;
  fs_data : ∀ p w, held p w → mem_at w p (Z.of_nat (length data)) = data;
  fs_munmap : ∀ p w, held p w → 0 ≤ (call (sys_munmap p (Z.of_nat (length data))) w).1
}.

Lemma undisturbed_write (P : W → Prop) fuel fd t :
  (∀ fd t w, P w → P (call (sys_write fd t) w).2) → undisturbed P (Rio_writen fuel fd t).
Proof.
  intros HP.
  assert (Hloop : ∀ t n, undisturbed P (rio_writen_loop fuel fd n t)).
  { induction fuel as [|fuel' IH]; intros [|c u] n; cbn [rio_writen_loop]; try (by intros s Hs).
    apply undisturbed_bind; [intros s Hs; unfold wlp, do_call; pose proof (HP fd (c :: u) _ Hs); by destruct (call _ _)|].
    intros rc. destruct (rc <=? 0); [|apply IH]. apply undisturbed_bind; [by intros s Hs|]. intros e. destruct (_ =? _); [apply IH|by intros s Hs]. }
  apply undisturbed_bind; [apply Hloop|]. intros rc. destruct (_ =? _); by intros s Hs.
Qed.

(** A wrapper around a call that is known to succeed. *)
Lemma wp_checked c msg (post : Z → W → Prop) (Q : Z → proc W → Prop) s :
  files_quiet → file_call c = true → (let '(rc, w') := call c (world s) in 0 ≤ rc ∧ post rc w') →
  (∀ rc s', silent s s' → post rc (world s') → Q rc s') → wp (checked c msg) Q s.
Proof.
  intros Hq Hc Hpost HQ. unfold checked. apply wp_bind, wp_file_call; [done|done|]. intros s' Hw [_ _ Hp] Ho.
  destruct (call c (world s)) as [rc w]. cbn [fst snd] in *. destruct (Z.ltb_spec rc 0); [lia|].
  apply wp_ret, HQ; [by split|]. rewrite Hw. apply Hpost.
Qed.

Context (filename data : str) (site : W → Prop) (opened : Z → W → Prop) (mapped : Z → Z → W → Prop) (held : Z → W → Prop).
Hypothesis Hfs : file_service filename data site opened mapped held.

Lemma requestServeStatic_file fuel fd r s :
  writes_work → files_quiet → site (world s) →
  Z.of_nat (length data) < 2 ^ 31 → Z.of_nat (patience (world s)) + Z.of_nat (length data) + 8192 < Z.of_nat fuel →
  wp (requestServeStatic fuel fd filename (Z.of_nat (length data)) r) (λ _ s',
    output (world s') fd = output (world s) fd ++ static_header (Z.of_nat (length data)) (requestGetFiletype filename) r ++ data) s.
Proof.
  intros Hw Hq Hsite Hsize Hf. unfold requestServeStatic. cbv zeta. rewrite u64_small by lia. destruct Hfs as [_ _ Fo Fm Fc Fw Fd Fu].
  pose proof (length_static_header (Z.of_nat (length data)) (requestGetFiletype filename) r) as Hh. pose proof (length_filetype filename).
  apply wp_bind. eapply wp_checked; [done|done|by apply Fo|]. cbn beta. intros srcfd s1 [Ho1 Hp1] Hop.
  apply wp_bind. unfold Mmap. apply wp_bind, wp_file_call; [done|done|]. intros s2 Hw2 [_ _ Hp2] Ho2.
  specialize (Fm _ _ Hop). destruct (call _ (world s1)) as [srcp w2]. cbn [fst snd] in *. subst w2. destruct Fm as [Hne Hmp].
  destruct (Z.eqb_spec srcp FAILED); [done|]. apply wp_ret, wp_bind, wp_bind.
  eapply wp_checked; [done|done|by apply Fc|]. cbn beta. intros rc3 s3 [Ho3 Hp3] Hh3. apply wp_ret.
  apply wp_bind, wp_fits; [unfold MAXBUF; lia|].
  apply wp_bind. apply (wp_undisturbed (held srcp)); [apply undisturbed_write, Fw|done|].
  apply wp_writen; [done|lia|]. intros s4 [Ho4 _ Hp4] Hh4. apply wp_bind, wp_gets. rewrite Fd by done.
  apply wp_bind, (wp_undisturbed (held srcp)); [apply undisturbed_write, Fw|done|].
  apply wp_writen; [done|lia|]. intros s5 [Ho5 _ Hp5] Hh5.
  apply wp_bind, (wp_checked _ _ (λ _ _, True)); [done|done| |].
  - pose proof (Fu _ _ Hh5). by destruct (call _ _).
  - intros rc6 s6 [Ho6 Hp6] _. apply wp_ret. by rewrite Ho6, Ho5, Ho4, Ho3, Ho2, Ho1, <- app_assoc.
Qed.
End Static.

(** ** Serving a URI *)

Section Serve.
Context {W : Type} {unix : Unix W} {laws : UnixLaws W}.
Context (uri data : str) (site : W → Prop) (opened : Z → W → Prop) (mapped : Z → Z → W → Prop) (held : Z → W → Prop).
Hypothesis Hfs : file_service (uri_file uri) data site opened mapped held.

Lemma serve_file fuel fd cgiargs r s :
  writes_work → files_quiet → uri ≠ [] → Z.of_nat (length uri) < 8000 → static_uri uri = true → site (world s) →
  Z.of_nat (length data) < 2 ^ 31 → Z.of_nat (patience (world s)) + Z.of_nat (length data) + 8192 < Z.of_nat fuel →
  wp (serve fuel fd uri cgiargs r) (λ x s', x = bump 0 1 0 r ∧ output (world s') fd = output (world s) fd ++
    static_header (Z.of_nat (length data)) (requestGetFiletype (uri_file uri)) (bump 0 1 0 r) ++ data) s.
Proof.
  intros Hw Hq Hne Huri Hstatic Hsite Hsize Hf.
  assert (Hwp : wp (requestParseURI uri cgiargs) (λ p s', s' = s ∧ p = (static_uri uri, uri_file uri, uri_args uri cgiargs)) s)
    by (by apply requestParseURI_spec).
  apply wp_bind. eapply wp_mono; [exact Hwp|]. intros p s2 [-> ->]. rewrite Hstatic.
  apply wp_bind, wp_file_call; [done|done|]. intros s2 Hw2 [_ _ Hp2] Ho2.
  pose proof (fs_stat _ _ _ _ _ _ Hfs _ Hsite) as Hst. destruct (call _ (world s)) as [rc w2]. cbn [fst snd] in *. subst w2.
  destruct Hst as (Hrc & Hsite2 & Hreg & Hmode & Hsz). apply wp_bind, wp_gets. destruct (Z.ltb_spec rc 0); [lia|]. rewrite Hreg. cbn [negb orb].
  rewrite (proj2 (Z.eqb_neq _ _) Hmode). cbv zeta. rewrite Hsz, i32_small by lia. apply wp_bind.
  eapply wp_mono; [eapply requestServeStatic_file; [exact Hfs|done|done|done|done|lia]|]. intros ? s3 Ho3. apply wp_ret. split; [reflexivity|]. by rewrite Ho3, Ho2.
Qed.
End Serve.

(** ** The whole request *)

Section Handle.
Context {W : Type} {unix : Unix W} {laws : UnixLaws W}.

Lemma fresh_stream buf fd (w : W) : stream (Rio_readinitb buf fd) w = pending w fd.
Proof. unfold stream. by rewrite unread_empty. Qed.

(** [requestHandle] up to the test of the method. *)
Lemma requestHandle_line fuel n fd junk r method uri version rest (site : W → Prop) s :
  (∀ fd n w, site w → site (call (sys_read fd n) w).2) → reads_work → (patience (world s) < fuel)%nat → site (world s) →
  http_word method → http_word uri → http_word version → Z.of_nat (length (request_line method uri version)) < MAXLINE →
  pending (world s) fd = request_line method uri version ++ rest →
  ∃ rp s1, silent s s1 ∧ site (world s1) ∧ rio_ok rp ∧ stream rp (world s1) = rest ∧
    requestHandle fuel n fd junk r s =
      (if negb (strcasecmp_eq method (lit "GET")) then
         requestError fuel fd method (lit "501") (lit "Not Implemented") (lit "OS-HW3 Server does not implement this method") (bump 1 0 0 r) ;;;
         ret (bump 1 0 0 r)
       else requestReadhdrs fuel n rp (l_hdr junk) ;;; serve fuel fd uri (cstr (l_cgiargs junk)) (bump 1 0 0 r)) s1.
Proof.
  intros Hread Hr Hf Hsite Hm Hu Hv Hl Hp.
  assert (Hwp : wp (Rio_readlineb fuel (Rio_readinitb (l_rio junk) fd) (l_buf junk) MAXLINE) (λ res s',
    cstr res.1.2 = request_line method uri version ∧ stream res.2 (world s') = rest ∧ rio_ok res.2 ∧ quiet s s' ∧ site (world s')) s).
  { apply (readlineb_line site Hread _ _ _ (request_line method uri version) rest); [done|by left|done|done|by apply request_line_ok|by rewrite fresh_stream|done]. }
  apply wp_run in Hwp as ([[rc b] rp] & s1 & Hrun & Hb & Hs & Hok & [_ _ Ho Hpt] & Hsite1). cbn [fst snd] in *.
  exists rp, (Proc (world s1) (stderr s1) (stdout s1 ++ [method ++ lit " " ++ uri ++ lit " " ++ version ++ [LF]])).
  split; [by split|]. split; [done|]. split; [done|]. split; [done|].
  unfold requestHandle. unfold bind at 1. rewrite Hrun. cbn [fst snd]. rewrite Hb, words_request_line by done. reflexivity.
Qed.

(** [requestHandle] up to [requestParseURI]. *)
Lemma requestHandle_get fuel n fd junk r method uri version headers rest (site : W → Prop) s :
  (∀ fd n w, site w → site (call (sys_read fd n) w).2) → reads_work → (patience (world s) < fuel)%nat → site (world s) →
  http_request method uri version headers → (length headers ≤ n)%nat → strcasecmp_eq method (lit "GET") = true →
  pending (world s) fd = request_text method uri version headers ++ rest →
  ∃ s1, silent s s1 ∧ site (world s1) ∧
    requestHandle fuel n fd junk r s = serve fuel fd uri (cstr (l_cgiargs junk)) (bump 1 0 0 r) s1.
Proof.
  intros Hread Hr Hf Hsite [Hm Hu Hv Hl Hh] Hn Hget Hp. unfold request_text in Hp. rewrite <- app_assoc in Hp.
  destruct (requestHandle_line fuel n fd junk r method uri version ((concat headers ++ CRLF) ++ rest) site s) as (rp & s1 & [Ho1 Hp1] & Hsite1 & Hok & Hs & ->); [done..|].
  rewrite Hget. cbn [negb]. rewrite <- app_assoc in Hs.
  assert (Hwp : wp (requestReadhdrs fuel n rp (l_hdr junk)) (λ _ s', quiet s1 s' ∧ site (world s')) s1).
  { eapply (readhdrs_spec site Hread); [done|done|lia|done|done|done|exact Hs|done]. }
  apply wp_run in Hwp as (rp' & s2 & Hrun & [_ _ Ho2 Hp2] & Hsite2). exists s2. unfold bind. rewrite Hrun.
  split; [split; [congruence|lia]|done].
Qed.
(** The header of a dynamic response is written, then the process forks. *)
Definition after_fork (fd : Z) (filename args : str) (pid : Z) : M (proc W) unit :=
  (if pid =? 0 then
     Setenv (lit "QUERY_STRING") args 1 ;;;
     Dup2 fd STDOUT_FILENO ;;;
     Execve filename []
   else ret tt) ;;;
  do_call (sys_waitpid pid 0) ;;;
  ret tt.

Lemma length_dynamic_header r : (length (dynamic_header r) ≤ 500)%nat.
Proof.
  unfold dynamic_header, CRLF. repeat rewrite length_app. pose proof (length_stat_lines r [CR; LF]) as H. cbn [app length] in H.
  cbn [length lit String.list_ascii_of_string app]. lia.
Qed.

Lemma requestServeDynamic_spec fuel fd filename args r s :
  writes_work → Z.of_nat (patience (world s)) + 8192 < Z.of_nat fuel →
  ∃ s1, wrote fd (dynamic_header r) s s1 ∧
    requestServeDynamic fuel fd filename args r s = (let* pid := Fork in after_fork fd filename args pid) s1.
Proof.
  intros Hw Hf. pose proof (length_dynamic_header r).
  assert (Hwp : wp (Rio_writen fuel fd (dynamic_header r)) (λ _ s', wrote fd (dynamic_header r) s s') s) by (apply wp_writen; [done|lia|done]).
  apply wp_run in Hwp as ([] & s1 & Hrun & Hwr). exists s1. split; [done|]. unfold requestServeDynamic, fits, MAXLINE.
  destruct (Z.ltb_spec (Z.of_nat (length (dynamic_header r))) 8192); [|lia]. unfold bind at 1, ret at 1. unfold bind at 1. rewrite Hrun. reflexivity.
Qed.

(** The parent waits for the child; a child that cannot run the program ends. *)
Lemma after_fork_parent fd filename args pid s : pid ≠ 0 →
  ∃ s', after_fork fd filename args pid s = Ok tt s' ∧ world s' = (call (sys_waitpid pid 0) (world s)).2.
Proof.
  intros Hp. unfold after_fork. rewrite (proj2 (Z.eqb_neq _ _) Hp). unfold bind, ret, do_call.
  destruct (call _ _) as [rc w]. by eexists.
Qed.

Lemma checked_ok c msg (s : proc W) : 0 ≤ (call c (world s)).1 →
  checked c msg s = Ok (call c (world s)).1 (Proc (call c (world s)).2 (stderr s) (stdout s)).
Proof. intros H. unfold checked, bind, do_call. destruct (call c (world s)) as [rc w]. cbn [fst snd] in *. by destruct (Z.ltb_spec rc 0); [lia|]. Qed.
Lemma checked_fails c msg (s : proc W) : (call c (world s)).1 < 0 →
  ∃ s', checked c msg s = Exit 0 s' ∧ world s' = (call c (world s)).2.
Proof. intros H. unfold checked, bind, do_call. destruct (call c (world s)) as [rc w]. cbn [fst snd] in *. destruct (Z.ltb_spec rc 0); [|lia]. by eexists. Qed.

Lemma after_fork_child fd filename args s :
  let '(rc1, w1) := call (sys_setenv (lit "QUERY_STRING") args 1) (world s) in
  let '(rc2, w2) := call (sys_dup2 fd STDOUT_FILENO) w1 in
  let '(rc3, w3) := call (sys_execve filename []) w2 in
  0 ≤ rc1 → 0 ≤ rc2 → rc3 < 0 → ∃ s', after_fork fd filename args 0 s = Exit 0 s' ∧ world s' = w3.
Proof.
  destruct (call (sys_setenv _ _ _) (world s)) as [rc1 w1] eqn:E1. destruct (call (sys_dup2 _ _) w1) as [rc2 w2] eqn:E2.
  destruct (call (sys_execve _ _) w2) as [rc3 w3] eqn:E3. intros H1 H2 H3.
  destruct (checked_fails (sys_execve filename []) (lit "Execve error") (Proc w2 (stderr s) (stdout s))) as (s' & Hx & Hw); cbn [world] in *; [by rewrite E3|].
  exists s'. rewrite E3 in Hw. split; [|done]. unfold after_fork, Setenv, Dup2, Execve. cbn [Z.eqb].
  unfold bind at 1. unfold bind at 1. rewrite checked_ok by (by rewrite E1). unfold bind at 1. rewrite E1. cbn [fst snd].
  rewrite checked_ok by (cbn [world]; by rewrite E2). cbn [world stderr stdout]. rewrite E2. cbn [fst snd]. unfold bind at 1. by rewrite Hx.
Qed.

(** The dynamic branch of [serve], for a program that may be run. *)
Lemma serve_dynamic_eq fuel fd uri cgiargs r s :
  files_quiet → uri ≠ [] → Z.of_nat (length uri) < 8000 → static_uri uri = false →
  (let '(rc, w') := call (sys_stat (uri_file uri)) (world s) in
   0 ≤ rc ∧ st_regular (stat_buf w') = true ∧ Z.land S_IXUSR (st_mode (stat_buf w')) ≠ 0) →
  ∃ s1, silent s s1 ∧ serve fuel fd uri cgiargs r s =
    (requestServeDynamic fuel fd (uri_file uri) (uri_args uri cgiargs) (bump 0 0 1 r) ;;; ret (bump 0 0 1 r)) s1.
Proof.
  intros Hq Hne Hlen Hst Hstat.
  assert (Hwp : wp (requestParseURI uri cgiargs) (λ p s', s' = s ∧ p = (static_uri uri, uri_file uri, uri_args uri cgiargs)) s) by (by apply requestParseURI_spec).
  apply wp_run in Hwp as (p & s' & Hrun & -> & ->). destruct (Hq (sys_stat (uri_file uri)) (world s) eq_refl) as [Ho Hp].
  exists (Proc (call (sys_stat (uri_file uri)) (world s)).2 (stderr s) (stdout s)). split; [by split|].
  unfold serve. unfold bind at 1. rewrite Hrun, Hst. unfold bind at 1, do_call.
  destruct (call (sys_stat (uri_file uri)) (world s)) as [c w]. destruct Hstat as (Hc & Hreg & Hx). cbn [fst snd].
  unfold bind at 1, gets. cbn [world]. destruct (Z.ltb_spec c 0); [lia|]. rewrite Hreg, (proj2 (Z.eqb_neq _ _) Hx). reflexivity.
Qed.
End Handle.

(** ** Properties *)

Section Properties.
Context {W : Type} {unix : Unix W} {laws : UnixLaws W}.

(** a client that sends a well-formed [GET] request for a readable file of the site
    gets the header with the length and the type of the file, then the bytes of the
    file and nothing else, however the kernel cuts up what is read and written; the
    request is counted once in the total and once as static. *)
Theorem http_static_request (fuel n : nat) (fd : Z) (junk : locals) (r : request_stat)
    (method uri version : str) (headers : list str) (rest data : str)
    (site : W → Prop) (opened : Z → W → Prop) (mapped : Z → Z → W → Prop) (held : Z → W → Prop) (s : proc W)
    (Hr : reads_work) (Hw : writes_work) (Hq : files_quiet)
    (Hreq : http_request method uri version headers) (Hget : strcasecmp_eq method (lit "GET") = true)
    (Hpend : pending (world s) fd = request_text method uri version headers ++ rest) (Hn : (length headers ≤ n)%nat)
    (Hstatic : static_uri uri = true) (Huri : Z.of_nat (length uri) < 8000)
    (Hfs : file_service (uri_file uri) data site opened mapped held) (Hsite : site (world s))
    (Hsize : Z.of_nat (length data) < 2 ^ 31)
    (Hf : Z.of_nat (patience (world s)) + Z.of_nat (length data) + 8192 < Z.of_nat fuel) :
  let r' := bump 0 1 0 (bump 1 0 0 r) in
  ∃ s', requestHandle fuel n fd junk r s = Ok r' s' ∧
    output (world s') fd = output (world s) fd ++
      static_header (Z.of_nat (length data)) (requestGetFiletype (uri_file uri)) r' ++ data.
Proof.
  intros r'. destruct (requestHandle_get fuel n fd junk r method uri version headers rest site s) as (s1 & [Ho Hp] & Hsite1 & ->);
    [by apply (fs_read _ _ _ _ _ _ Hfs)|done|lia|done..|].
  pose proof (proj1 (hr_uri _ _ _ _ Hreq)) as Hne. set (r1 := bump 1 0 0 r) in *.
  assert (Hserve := serve_file _ _ _ _ _ _ Hfs fuel fd (cstr (l_cgiargs junk)) r1 s1 Hw Hq Hne Huri Hstatic Hsite1 Hsize ltac:(lia)).
  apply wp_run in Hserve as (x & s' & Hrun & -> & Hout). exists s'. split; [done|]. by rewrite Hout, Ho.
Qed.

(** C27: what the client of a static request gets, for a URI of less than 7000 bytes:
    404 for a file that is not there, 403 for one that is not regular or not readable;
    and for a file that can be opened and mapped (as [file_service] states) the header
    with the size and the type of the file, followed by the bytes of the file and
    nothing else, counted as one static request. *)
Theorem serve_static_response (fuel : nat) (fd : Z) (uri cgiargs : str) (r : request_stat) (s : proc W)
    (Hw : writes_work) (Hq : files_quiet)
    (Hne : uri ≠ []) (Hlen : Z.of_nat (length uri) < 7000) (Hstatic : static_uri uri = true)
    (Hf : Z.of_nat (patience (world s)) + 8192 < Z.of_nat fuel) :
  let filename := uri_file uri in
  let rc := (call (sys_stat filename) (world s)).1 in
  let sbuf := stat_buf (call (sys_stat filename) (world s)).2 in
  let run := serve fuel fd uri cgiargs r s in
  let out s' := output (world s') fd in
  (rc < 0 →
    ∃ s', run = Ok r s' ∧ out s' = out s ++ error_text filename (lit "404") (lit "Not found") (lit "OS-HW3 Server could not find this file") r) ∧
  (0 ≤ rc → st_regular sbuf = false ∨ Z.land S_IRUSR (st_mode sbuf) = 0 →
    ∃ s', run = Ok r s' ∧ out s' = out s ++ error_text filename (lit "403") (lit "Forbidden") (lit "OS-HW3 Server could not read this file") r) ∧
  (∀ data site opened mapped held, file_service filename data site opened mapped held → site (world s) →
    Z.of_nat (length data) < 2 ^ 31 → Z.of_nat (patience (world s)) + Z.of_nat (length data) + 8192 < Z.of_nat fuel →
    ∃ s', run = Ok (bump 0 1 0 r) s' ∧
      out s' = out s ++ static_header (Z.of_nat (length data)) (requestGetFiletype filename) (bump 0 1 0 r) ++ data).
Proof.
  intros filename rc sbuf run out. pose proof (length_uri_file uri) as Hfile. fold filename in Hfile.
  destruct (serve_static_eq fuel fd uri cgiargs r s Hq Hne ltac:(lia) Hstatic) as (s1 & [Ho1 Hp1] & Heq). fold filename rc sbuf run in Heq.
  split; [|split].
  - intros Hrc. rewrite Heq, (proj2 (Z.ltb_lt _ _) Hrc). apply error_then_ret; [done|done|lia|cbn [length lit String.list_ascii_of_string]; lia].
  - intros Hrc Hbad. rewrite Heq, (proj2 (Z.ltb_ge _ _) Hrc).
    assert (E : negb (st_regular sbuf) || (Z.land S_IRUSR (st_mode sbuf) =? 0) = true).
    { destruct Hbad as [-> | ->]; [done|apply orb_true_r]. }
    rewrite E. apply error_then_ret; [done|done|lia|cbn [length lit String.list_ascii_of_string]; lia].
  - intros data site opened mapped held Hfs Hsite Hsize Hf'.
    assert (Hs := serve_file _ _ _ _ _ _ Hfs fuel fd cgiargs r s Hw Hq Hne ltac:(lia) Hstatic Hsite Hsize Hf').
    apply wp_run in Hs as (x & s' & Hrun & -> & Hout). by exists s'.
Qed.

(** C28: a request with another method is answered with 501 and counted in the total
    only; its headers are left unread. *)
Theorem http_method_refused (fuel n : nat) (fd : Z) (junk : locals) (r : request_stat) (method uri version rest : str) (s : proc W)
    (Hr : reads_work) (Hw : writes_work)
    (Hm : http_word method) (Hu : http_word uri) (Hv : http_word version) (Hl : Z.of_nat (length (request_line method uri version)) < 7000)
    (Hget : strcasecmp_eq method (lit "GET") = false)
    (Hpend : pending (world s) fd = request_line method uri version ++ rest)
    (Hf : Z.of_nat (patience (world s)) + 8192 < Z.of_nat fuel) :
  ∃ s', requestHandle fuel n fd junk r s = Ok (bump 1 0 0 r) s' ∧
    output (world s') fd = output (world s) fd ++
      error_text method (lit "501") (lit "Not Implemented") (lit "OS-HW3 Server does not implement this method") (bump 1 0 0 r).
Proof.
  destruct (requestHandle_line fuel n fd junk r method uri version rest (λ _, True) s) as (rp & s1 & [Ho Hp] & _ & _ & _ & ->);
    [done|done|lia|done|done|done|done|unfold MAXLINE; lia|done|].
  rewrite Hget. cbn [negb]. apply error_then_ret; [done|done|lia|].
  unfold request_line in Hl. rewrite !length_app in Hl. cbn [length lit String.list_ascii_of_string] in *. lia.
Qed.
(** C25: a client that asks for an executable file of the site with [cgi] in its name
    gets the first header lines from the server; the server then forks, the child
    puts the arguments of the URI into [QUERY_STRING], its standard output on the
    connection and runs the file, and the parent waits for it and counts one dynamic
    request; a child that cannot run the file ends and never serves a request. *)
Theorem http_dynamic_request (fuel n : nat) (fd : Z) (junk : locals) (r : request_stat)
    (method uri version : str) (headers : list str) (rest : str) (site : W → Prop) (s : proc W)
    (Hr : reads_work) (Hw : writes_work) (Hq : files_quiet)
    (Hreq : http_request method uri version headers) (Hget : strcasecmp_eq method (lit "GET") = true)
    (Hpend : pending (world s) fd = request_text method uri version headers ++ rest) (Hn : (length headers ≤ n)%nat)
    (Hdynamic : static_uri uri = false) (Huri : Z.of_nat (length uri) < 8000)
    (Hread : ∀ fd n w, site w → site (call (sys_read fd n) w).2) (Hsite : site (world s))
    (Hstat : ∀ w, site w → let '(rc, w') := call (sys_stat (uri_file uri)) w in
       0 ≤ rc ∧ st_regular (stat_buf w') = true ∧ Z.land S_IXUSR (st_mode (stat_buf w')) ≠ 0)
    (Hf : Z.of_nat (patience (world s)) + 8192 < Z.of_nat fuel) :
  let r' := bump 0 0 1 (bump 1 0 0 r) in
  let run := requestHandle fuel n fd junk r s in
  ∃ s1, output (world s1) fd = output (world s) fd ++ dynamic_header r' ∧
    let '(pid, w2) := call sys_fork (world s1) in
    (0 < pid → ∃ s', run = Ok r' s' ∧ world s' = (call (sys_waitpid pid 0) w2).2) ∧
    (pid < 0 → ∃ s', run = Exit 0 s' ∧ world s' = w2) ∧
    (pid = 0 →
       let '(rc3, w3) := call (sys_setenv (lit "QUERY_STRING") (uri_args uri (cstr (l_cgiargs junk))) 1) w2 in
       let '(rc4, w4) := call (sys_dup2 fd STDOUT_FILENO) w3 in
       let '(rc5, w5) := call (sys_execve (uri_file uri) []) w4 in
       0 ≤ rc3 → 0 ≤ rc4 → rc5 < 0 → ∃ s', run = Exit 0 s' ∧ world s' = w5).
Proof.
  intros r' run. unfold run. clear run.
  destruct (requestHandle_get fuel n fd junk r method uri version headers rest site s) as (s1 & [Ho Hp] & Hsite1 & ->); [done|done|lia|done..|].
  pose proof (proj1 (hr_uri _ _ _ _ Hreq)) as Hne. set (args := cstr (l_cgiargs junk)). set (r1 := bump 1 0 0 r) in *.
  destruct (serve_dynamic_eq fuel fd uri args r1 s1) as (s2 & [Ho2 Hp2] & ->); [done|done|done|done|by apply Hstat|].
  destruct (requestServeDynamic_spec fuel fd (uri_file uri) (uri_args uri args) r' s2) as (s3 & [Ho3 _ Hp3] & Hrun); [done|lia|].
  exists s3. split; [by rewrite Ho3, Ho2, Ho|]. fold r'. unfold bind. rewrite Hrun. clear Hrun. unfold bind, Fork.
  destruct (call sys_fork (world s3)) as [pid w2] eqn:E. split; [|split].
  - intros Hpid. rewrite checked_ok by (rewrite E; cbn; lia). rewrite E. cbn [fst snd].
    destruct (after_fork_parent fd (uri_file uri) (uri_args uri args) pid (Proc w2 (stderr s3) (stdout s3)) ltac:(lia)) as (s' & -> & Hw').
    by exists s'.
  - intros Hpid. destruct (checked_fails sys_fork (lit "Fork error") s3) as (s' & -> & Hw'); [by rewrite E|]. rewrite E in Hw'. by exists s'.
  - intros ->. rewrite checked_ok by (rewrite E; cbn; lia). rewrite E. cbn [fst snd].
    pose proof (after_fork_child fd (uri_file uri) (uri_args uri args) (Proc w2 (stderr s3) (stdout s3))) as Hchild. cbn [world] in Hchild.
    destruct (call (sys_setenv _ _ _) w2) as [rc3 w3]. destruct (call (sys_dup2 _ _) w3) as [rc4 w4]. destruct (call (sys_execve _ _) w4) as [rc5 w5].
    intros H3 H4 H5. destruct (Hchild H3 H4 H5) as (s' & -> & Hw'). by exists s'.
Qed.
End Properties.

(** ** The theorems on the small site *)

Definition http_site : list (str * (file_stat * str)) :=
  (lit "./public//x.cgi", (FileStat true 320 9, lit "#!program")) :: demo_site.
Definition http_client (uri : string) : proc demo_world :=
  let text := incoming "GET " ++ incoming uri ++ [Intr] ++ incoming " HTTP/1.0" ++ [Byte CR; Intr; Byte LF] ++
    incoming "Host: here" ++ [Byte CR; Byte LF] ++ [Byte CR; Byte LF] in
  Proc (DemoWorld text [] [] 0 http_site no_file) [] [].
Definition on_site (w : demo_world) : Prop := dw_files w = http_site.
Definition hello_file (w : demo_world) : Prop := dw_file w = (FileStat true 292 5, lit "hello").

Lemma on_site_read fd n w : on_site w → on_site (call (sys_read fd n) w).2.
Proof. unfold on_site. cbn. destruct (dw_in w) as [|[c|] l]; [done| |done]. by destruct (take_bytes _ _). Qed.

Lemma hello_service : file_service (lit "./public//a.html") (lit "hello") on_site (λ _, hello_file) (λ _ _, hello_file) (λ _, hello_file).
Proof.
  split.
  - apply on_site_read.
  - intros w Hw. unfold on_site in Hw. cbn [call demo_unix demo_call]. rewrite Hw. vm_compute. repeat split; discriminate.
  - intros w Hw. unfold on_site in Hw. cbn [call demo_unix demo_call]. rewrite Hw. vm_compute. split; [discriminate|reflexivity].
  - by intros fd w Hw.
  - by intros fd p w Hw.
  - by intros p fd t w Hw.
  - intros p w Hw. unfold hello_file in Hw. cbn [mem_at demo_unix]. by rewrite Hw.
  - by intros p w Hw.
Qed.

Lemma demo_http_request (uri : str) : http_word uri → Z.of_nat (length (request_line (lit "GET") uri (lit "HTTP/1.0"))) < MAXLINE →
  http_request (lit "GET") uri (lit "HTTP/1.0") [lit "Host: here" ++ CRLF].
Proof.
  intros Hu Hl. split; [split; [done|by repeat constructor]|done|split; [done|by repeat constructor]|done|].
  apply Forall_cons. split; [|done]. split; [|done]. exists (lit "Host: here" ++ [CR]).
  split; [reflexivity|]. split; [|split; [|vm_compute; reflexivity]]; apply (bool_decide_unpack _); vm_compute; exact I.
Qed.

Lemma http_static_request_witness :
  let r' := bump 0 1 0 (bump 1 0 0 demo_stat) in
  ∃ s', requestHandle 9000 5 4 demo_junk demo_stat (http_client "/a.html") = Ok r' s' ∧
    output (world s') 4 = output (world (http_client "/a.html")) 4 ++ static_header 5 (lit "text/html") r' ++ lit "hello".
Proof.
  refine (http_static_request 9000 5 4 demo_junk demo_stat (lit "GET") (lit "/a.html") (lit "HTTP/1.0") [lit "Host: here" ++ CRLF] []
    (lit "hello") on_site (λ _, hello_file) (λ _ _, hello_file) (λ _, hello_file) (http_client "/a.html") demo_reads demo_writes demo_quiet _ _ _ _ _ _ hello_service _ _ _).
  - apply demo_http_request; [split; [done|by repeat constructor]|vm_compute; reflexivity].
  - reflexivity.
  - vm_compute. reflexivity.
  - cbn. lia.
  - reflexivity.
  - vm_compute. reflexivity.
  - reflexivity.
  - vm_compute. reflexivity.
  - vm_compute. reflexivity.
Defined.

(** The file that is there, and one that is not. *)
Lemma serve_static_response_witness :
  (∃ s', serve 9000 4 (lit "/a.html") [] demo_stat (http_client "") = Ok (bump 0 1 0 demo_stat) s' ∧
    output (world s') 4 = output (world (http_client "")) 4 ++ static_header 5 (lit "text/html") (bump 0 1 0 demo_stat) ++ lit "hello") ∧
  (∃ s', serve 9000 4 (lit "/b.html") [] demo_stat (http_client "") = Ok demo_stat s' ∧
    output (world s') 4 = output (world (http_client "")) 4 ++
      error_text (lit "./public//b.html") (lit "404") (lit "Not found") (lit "OS-HW3 Server could not find this file") demo_stat).
Proof.
  split.
  - refine (proj2 (proj2 (serve_static_response 9000 4 (lit "/a.html") [] demo_stat (http_client "") demo_writes demo_quiet _ _ _ _))
      _ _ _ _ _ hello_service _ _ _); [done|vm_compute; reflexivity|reflexivity|vm_compute; reflexivity|reflexivity|vm_compute; reflexivity|vm_compute; reflexivity].
  - refine (proj1 (serve_static_response 9000 4 (lit "/b.html") [] demo_stat (http_client "") demo_writes demo_quiet _ _ _ _) _);
      [done|vm_compute; reflexivity|reflexivity|vm_compute; reflexivity|vm_compute; reflexivity].
Defined.

Lemma http_method_refused_witness :
  let s := Proc (DemoWorld (incoming "PUT /a HTTP/1.0" ++ [Byte CR; Byte LF; Byte CR; Byte LF]) [] [] 0 [] no_file) [] [] in
  ∃ s', requestHandle 9000 5 4 demo_junk demo_stat s = Ok (bump 1 0 0 demo_stat) s' ∧
    output (world s') 4 = output (world s) 4 ++
      error_text (lit "PUT") (lit "501") (lit "Not Implemented") (lit "OS-HW3 Server does not implement this method") (bump 1 0 0 demo_stat).
Proof.
  intros s. refine (http_method_refused 9000 5 4 demo_junk demo_stat (lit "PUT") (lit "/a") (lit "HTTP/1.0") CRLF s demo_reads demo_writes _ _ _ _ _ _ _);
    [split; [done|by repeat constructor]..|vm_compute; reflexivity|reflexivity|vm_compute; reflexivity|vm_compute; reflexivity].
Defined.

Lemma http_dynamic_request_witness :
  let s := http_client "/x.cgi?a=1" in
  let r' := bump 0 0 1 (bump 1 0 0 demo_stat) in
  let run := requestHandle 9000 5 4 demo_junk demo_stat s in
  ∃ s1, output (world s1) 4 = output (world s) 4 ++ dynamic_header r' ∧
    let '(pid, w2) := call sys_fork (world s1) in
    (0 < pid → ∃ s', run = Ok r' s' ∧ world s' = (call (sys_waitpid pid 0) w2).2) ∧
    (pid < 0 → ∃ s', run = Exit 0 s' ∧ world s' = w2) ∧
    (pid = 0 →
       let '(rc3, w3) := call (sys_setenv (lit "QUERY_STRING") (lit "a=1") 1) w2 in
       let '(rc4, w4) := call (sys_dup2 4 STDOUT_FILENO) w3 in
       let '(rc5, w5) := call (sys_execve (lit "./public//x.cgi") []) w4 in
       0 ≤ rc3 → 0 ≤ rc4 → rc5 < 0 → ∃ s', run = Exit 0 s' ∧ world s' = w5).
Proof.
  intros s. refine (http_dynamic_request 9000 5 4 demo_junk demo_stat (lit "GET") (lit "/x.cgi?a=1") (lit "HTTP/1.0") [lit "Host: here" ++ CRLF] []
    on_site s demo_reads demo_writes demo_quiet _ _ _ _ _ _ on_site_read _ _ _).
  - apply demo_http_request; [split; [done|by repeat constructor]|vm_compute; reflexivity].
  - reflexivity.
  - vm_compute. reflexivity.
  - cbn. lia.
  - reflexivity.
  - vm_compute. reflexivity.
  - reflexivity.
  - intros w Hw. unfold on_site in Hw. cbn [call demo_unix demo_call]. rewrite Hw. vm_compute. repeat split; discriminate.
  - vm_compute. reflexivity.
Defined.
