(* ===== verification/ServerMain.v ===== *)
(** * [hw3/wet/server.c]: command line, start-up and the body of a worker

    [getargs], [main] up to its loop, and what a worker does between
    [get_request] and [notify_request_finished]; the loops of the threads are the
    step relation of [JobsManager.v]. *)

From S2P Require Import Prelude CString Segel CyclicQueue JobsManager Request.

(** [timersub] of [sys/time.h]. *)
Definition timersub (a b : Z * Z) : Z * Z :=
  let sec := a.1 - b.1 in
  let usec := a.2 - b.2 in
  if usec <? 0 then (sec - 1, usec + 1000000) else (sec, usec).

Record server_args := ServerArgs {
  port : Z;
  threads_num : Z;
  queue_size : Z;
  sched : schedalg
}.

Section Code.
Context {W : Type} {unix : Unix W}.

(** [uninit] is what the variable [schedalg] of [main] holds. *)
Definition getargs (uninit : schedalg) (argv : list str) : M (proc W) server_args :=
  match argv with
  | prog :: a1 :: a2 :: a3 :: a4 :: _ =>
    let alg :=
      if bool_decide (a4 = lit "block") then BLOCK
      else if bool_decide (a4 = lit "dt") then DROP_TAIL
      else if bool_decide (a4 = lit "dh") then DROP_HEAD
      else if bool_decide (a4 = lit "random") then DROP_RANDOM
      else uninit in
    ret (ServerArgs (atoi a1) (atoi a2) (atoi a3) alg)
  | _ =>
    eprint (lit "Usage: " ++ default [] (head argv) ++ lit " <port> <threads> <queue_size> <schedalg>" ++ [LF]) ;;;
    exit 1
  end.

(** [main] up to its loop: the server as it starts, and the listening socket. *)
Definition server_main (alloc : Z → option (list session)) (alloc_threads : bool) (create : nat → Z)
    (uninit : schedalg) (argv : list str) : M (proc W) (server * Z) :=
  let* args := getargs uninit argv in
  match init_jobs_manager alloc alloc_threads create (u64 (queue_size args)) (u64 (threads_num args)) (sched args) boot with
  | Ok SUCCESS s =>
    let* listenfd := Open_listenfd (port args) in
    ret (s, listenfd)
  | Ok _ _ => eprint (lit "Error: init_jobs_manager" ++ [LF]) ;;; exit 1
  | Exit code _ => eprint (lit "Error: pthread_create" ++ [LF]) ;;; exit code
  | Fault => fault
  | OutOfFuel => nofuel
  end.

(** One round of [request_handle_thread] after [get_request]; [now] is what
    [gettimeofday] returns. *)
Definition handle_session (fuel n : nat) (junk : locals) (now : Z * Z) (x : session) (r : request_stat) : M (proc W) request_stat :=
  let arrival := CyclicQueue.arrival_time x in
  let r := RequestStat (thread_id r) arrival (timersub now arrival) (total_count r) (static_count r) (dynamic_count r) in
  let* r := requestHandle fuel n (connection_fd x) junk r in
  Segel.Close (connection_fd x) ;;;
  ret r.
End Code.

(** The name of an algorithm on the command line. *)
Definition alg_name (a : schedalg) : str :=
  match a with
  | BLOCK => lit "block"
  | DROP_TAIL => lit "dt"
  | DROP_HEAD => lit "dh"
  | DROP_RANDOM => lit "random"
  | SCHEDALG_UNSET => []
  end.

(** ** Properties *)

(** started with printed numbers and the name of an algorithm, [main] listens on
    that port and starts a server with that bound, that many workers and that
    algorithm, in a state that satisfies the invariant of its threads. *)
Theorem server_main_starts {W} {unix : Unix W} (alloc : Z → option (list session)) (create : nat → Z)
    (uninit a : schedalg) (prog : str) (p t q : Z) (w : proc W) (s : server) (fd : Z) (w' : proc W)
    (Ha : a ≠ SCHEDALG_UNSET) (Hp : - 2 ^ 31 ≤ p < 2 ^ 31) (Ht : 0 ≤ t < 2 ^ 31) (Hq : 0 ≤ q < 2 ^ 31)
    (Halloc : ∀ array, alloc (u64 (24 * q)) = Some array → Z.of_nat (length array) = q)
    (Hrun : server_main alloc true create uninit [prog; dec p; dec t; dec q; alg_name a] w = Ok (s, fd) w') :
  Open_listenfd p w = Ok fd w' ∧ server_inv s [] ∧ schedalg_of (jm (sh s)) = a ∧
  max_accepted_count (jm (sh s)) = q ∧ workers s = replicate (Z.to_nat t) WGet.
Proof.
  unfold server_main, getargs, bind, ret in Hrun. rewrite !atoi_dec in Hrun by lia. cbn [queue_size threads_num sched port] in Hrun.
  assert (Halg : (if bool_decide (alg_name a = lit "block") then BLOCK
      else if bool_decide (alg_name a = lit "dt") then DROP_TAIL
      else if bool_decide (alg_name a = lit "dh") then DROP_HEAD
      else if bool_decide (alg_name a = lit "random") then DROP_RANDOM
      else uninit) = a) by (by destruct a).
  rewrite Halg, !u64_small in Hrun by lia. destruct (init_jobs_manager _ _ _ _ _ _ _) as [[] s1| | |] eqn:E; try done.
  destruct (Open_listenfd p w) as [fd1 w1| | |] eqn:Eo; try done. injection Hrun as -> -> ->.
  destruct (init_inv alloc create q t a s ltac:(lia) Ha Halloc E) as (H1 & H2 & H3 & _). split; [done|]. split; [done|]. split; [|done].
  clear -E. unfold init_jobs_manager in E. repeat case_match; simplify_eq; try done.
Qed.

Lemma server_main_starts_witness :
  let argv := [lit "server"; dec 8080; dec 4; dec 10; alg_name DROP_HEAD] in
  ∃ s fd w', server_main (unix := demo_unix) demo_alloc true (λ _, 0) BLOCK argv (demo_proc []) = Ok (s, fd) w' ∧
    Open_listenfd 8080 (demo_proc []) = Ok fd w' ∧ server_inv s [] ∧ schedalg_of (jm (sh s)) = DROP_HEAD ∧
    max_accepted_count (jm (sh s)) = 10 ∧ workers s = replicate 4 WGet.
Proof.
  intros argv. destruct (server_main (unix := demo_unix) demo_alloc true (λ _, 0) BLOCK argv (demo_proc [])) as [[s fd] w'| | |] eqn:E; [|vm_compute in E; discriminate E..].
  exists s, fd, w'. split; [done|].
  apply (server_main_starts demo_alloc (λ _, 0) BLOCK DROP_HEAD (lit "server") 8080 4 10 (demo_proc []) s fd w'); [done|lia|lia|lia| |exact E].
  intros array. apply demo_alloc_ok. lia.
Defined.
