(* ===== verification/ServerRun.v ===== *)
(** * [hw3/wet/server.c]: the whole server

    The threads of [JobsManager.v] composed with what they do outside the critical
    sections: the main thread accepts connections from the world, a worker runs
    [requestHandle] on its session with statistics of its own and closes the
    connection, and the connections a critical section gives up are closed in the
    world.  A run of the whole server is a run of the threads (a simulation), so what
    holds of the threads holds of it; the statistics of the workers account for every
    accepted connection.  A worker handles a session in one step; a call that ends
    the process has no successor. *)

From S2P Require Import Prelude CString Segel CyclicQueue JobsManager Request ServerMain HttpRequest.

(** [request_stat_t request_stat = { 0 }; request_stat.thread_id = thread_id;] *)
Definition worker_stat (thread_id : nat) : request_stat := RequestStat (Z.of_nat thread_id) (0, 0) (0, 0) 0 0 0.

(** [stats] are the variables [request_stat] of the workers; [handled] records which
    worker has closed which connection, [dropped] the connections that were closed
    without an answer. *)
Record machine (W : Type) := Machine {
  srv : server;
  stats : list request_stat;
  process : proc W;
  handled : list (nat * Z);
  dropped : list Z
}.
Arguments Machine {W}.
Arguments srv {W}.
Arguments stats {W}.
Arguments process {W}.
Arguments handled {W}.
Arguments dropped {W}.

Section Code.
Context {W : Type} {unix : Unix W}.
Context (seed : nat → nat) (random : nat → Z) (listenfd : Z).

(** The generator of the C library; the result of [close] and what becomes of a
    request come from the world ([mc_handle]). *)
#[local] Instance world_env : ServerEnv := {| reseed := seed; rand_at := random; JobsManager.sys_close _ := 0; request_end _ := Returns |}.

(** The closes of a critical section, on the world. *)
Fixpoint close_all (l : list Z) : M (proc W) unit :=
  match l with
  | [] => ret tt
  | fd :: l' => Segel.Close fd ;;; close_all l'
  end.
Definition new_closes (s s' : server) : list Z := drop (length (closed (sh s))) (closed (sh s')).

(** A connection that a worker has finished with. *)
Definition log_close (fd : Z) (s : shared) : shared := Shared (jm s) (closed s ++ [fd]) (rng s).

(** [mc_manager]: a critical section or a wake-up, which neither accepts a connection
    nor ends the handling of one.  [now] and [t] are what [gettimeofday] gives. *)
Inductive machine_step : machine W → machine W → Prop :=
| mc_manager m s' p' :
    server_step (srv m) s' → accepted s' = accepted (srv m) →
    (∀ i x, workers (srv m) !! i = Some (WRun x) → workers s' !! i = Some (WRun x)) →
    close_all (new_closes (srv m) s') (process m) = Ok tt p' →
    machine_step m (Machine s' (stats m) p' (handled m) (dropped m ++ new_closes (srv m) s'))
| mc_accept m fd t p' :
    main_at (srv m) = MAccept → Accept listenfd (process m) = Ok fd p' →
    machine_step m (Machine (Server (sh (srv m)) (MAdd (Session fd t)) (workers (srv m)) (accepted (srv m) ++ [fd]))
      (stats m) p' (handled m) (dropped m))
| mc_handle m i x r fuel n junk now r' p' :
    workers (srv m) !! i = Some (WRun x) → stats m !! i = Some r →
    handle_session fuel n junk now x r (process m) = Ok r' p' →
    machine_step m (Machine (Server (log_close (connection_fd x) (sh (srv m))) (main_at (srv m)) (<[i := WNotify]> (workers (srv m))) (accepted (srv m)))
      (<[i := r']> (stats m)) p' (handled m ++ [(i, connection_fd x)]) (dropped m)).

Definition machine_start (s : server) (p : proc W) : machine W :=
  Machine s (worker_stat <$> seq 0 (length (workers s))) p [] [].
End Code.

(** ** Statistics *)

(** The statistics of worker [id] after [k] requests. *)
Record stat_ok (id : nat) (k : Z) (r : request_stat) : Prop := {
  sk_id : thread_id r = Z.of_nat id;
  sk_total : total_count r = k;
  sk_static : 0 ≤ static_count r;
  sk_dynamic : 0 ≤ dynamic_count r;
  sk_parts : static_count r + dynamic_count r ≤ total_count r
}.

Definition requests_of (id : nat) (l : list (nat * Z)) : Z := sum_by (λ e, if decide (e.1 = id) then 1 else 0) l.

Lemma requests_of_snoc id l j fd : requests_of id (l ++ [(j, fd)]) = requests_of id l + (if decide (j = id) then 1 else 0).
Proof. unfold requests_of. rewrite sum_by_app. unfold sum_by. cbn [foldr fst]. lia. Qed.
Lemma requests_of_length id l : 0 ≤ requests_of id l ≤ Z.of_nat (length l).
Proof.
  unfold requests_of, sum_by. induction l as [|e l IH]; cbn [foldr length]; [lia|]. destruct (decide _); lia.
Qed.

Lemma worker_stat_ok id : stat_ok id 0 (worker_stat id).
Proof. by split. Qed.

Lemma stat_ok_handle {W} {unix : Unix W} fuel n junk now x (r r' : request_stat) (p p' : proc W) id k :
  stat_ok id k r → k + 1 < 2 ^ 64 → handle_session fuel n junk now x r p = Ok r' p' → stat_ok id (k + 1) r'.
Proof.
  intros [Hid Ht Hs Hd Hp] Hk Hrun. unfold handle_session in Hrun. cbv zeta in Hrun. unfold bind at 1 in Hrun.
  destruct (requestHandle _ _ _ _ _ p) as [r1 p1| | |] eqn:E; try done.
  assert (r' = r1) as -> by (unfold bind in Hrun; destruct (Segel.Close _ p1); try done; by injection Hrun).
  apply handle_returns in E. destruct E as [->|[->| ->]]; split; cbn; rewrite ?u64_u64_add; rewrite ?u64_small by lia; lia.
Qed.

(** ** What a step of the threads closes *)

Section Closes.
Context {env : ServerEnv}.

(** With [block] the main thread closes nothing. *)
Lemma add_block temp x s res s' : schedalg_of (jm s) = BLOCK → add_request temp x s = Ok res s' → closed s' = closed s.
Proof.
  intros Hb. unfold add_request, bind at 1, getS. rewrite bool_decide_eq_true_2 by done. destruct (full s); [by intros [= _ <-]|].
  unfold finish_add, bind, on_queue, modify, ret. destruct (add_queue_element x (waiting_jobs (jm s))); try done. by intros [= _ <-].
Qed.

Lemma add_closes s l temp x res sh' :
  server_inv s l → add_request temp x (sh s) = Ok res sh' →
  ∃ d, closed sh' = closed (sh s) ++ d ∧ same_setup (sh s) sh' ∧ (schedalg_of (jm (sh s)) = BLOCK → d = []).
Proof.
  intros [Hm Ha _ _ _] Hadd. pose proof (wpe_run _ _ _ _ _ (add_request_spec temp x (sh s) l _ Hm Ha) Hadd) as Heff.
  assert (Hd : ∃ d, closed sh' = closed (sh s) ++ d ∧ same_setup (sh s) sh').
  { destruct Heff as [s' _ _ ->|s' _ _ Hc Hset|s' l' d _ _ Hc Hset _]; [exists []; by rewrite app_nil_r|by eexists..]. }
  destruct Hd as (d & Hc & Hset). exists d. split; [done|]. split; [done|]. intros Hb.
  rewrite (add_block _ _ _ _ _ Hb Hadd) in Hc. apply (f_equal length) in Hc. rewrite length_app in Hc. destruct d; [done|cbn in Hc; lia].
Qed.

Lemma get_closes s l x res sh' : server_inv s l → get_request x (sh s) = Ok res sh' → closed sh' = closed (sh s) ∧ same_setup (sh s) sh'.
Proof.
  intros [Hm _ _ _ _] Hg. destruct l as [|y l]; [rewrite (get_request_empty x _ _ Hm) in Hg; by injection Hg as _ <-|].
  assert (Hf : wp (get_request x) (λ _ s', closed s' = closed (sh s) ∧ same_setup (sh s) s') (sh s)) by (by eapply get_request_spec).
  unfold wp in Hf. by rewrite Hg in Hf.
Qed.

(** The log grows; a step in which no worker finishes adds nothing under [block]. *)
Lemma step_closes s s' l :
  server_inv s l → server_step s s' → (∀ i x, workers s !! i = Some (WRun x) → workers s' !! i = Some (WRun x)) →
  ∃ d, closed (sh s') = closed (sh s) ++ d ∧ same_setup (sh s) (sh s') ∧ (schedalg_of (jm (sh s)) = BLOCK → d = []).
Proof.
  intros Hi Hs Hrun.
  assert (Hsame : closed (sh s') = closed (sh s) ∧ same_setup (sh s) (sh s') →
    ∃ d, closed (sh s') = closed (sh s) ++ d ∧ same_setup (sh s) (sh s') ∧ (schedalg_of (jm (sh s)) = BLOCK → d = [])).
  { intros [Hc Hset]. exists []. by rewrite app_nil_r. }
  destruct Hs as [s s' Hw|s fd t Hm|s x y sh' Hm Hr|s x y sh' Hm Hr|s x y sh' ws' Hm Hr Hs|s x Hm|s i Hw]; [|by apply Hsame|by eapply add_closes..|by apply Hsame|by apply Hsame].
  destruct Hw as [s i x sh' ? Hg|s i x y sh' ? Hg|s i x sh' Hw _ _|s i sh' ? Hn].
  - apply Hsame. by eapply get_closes.
  - apply Hsame. by eapply get_closes.
  - specialize (Hrun i x Hw). cbn in Hrun. rewrite list_lookup_insert_eq in Hrun by (by eapply lookup_lt_Some). done.
  - apply Hsame. by injection Hn as <-.
Qed.
End Closes.

(** ** Runs of the whole server *)

Section Runs.
Context {W : Type} {unix : Unix W}.
Context (seed : nat → nat) (random : nat → Z) (listenfd : Z).
#[local] Existing Instance world_env.
#[local] Abbreviation env := (world_env seed random).
#[local] Abbreviation step := (machine_step (W := W) seed random listenfd).

(** Every step of the whole server is a step of its threads. *)
Lemma machine_simulates m m' : step m m' → server_step (env := env) (srv m) (srv m').
Proof.
  intros [s s' p' Hs _ _ _|s fd t p' Hm _|s i x r fuel n junk now r' p' Hw _ _]; cbn [srv]; [done|by apply st_accept|].
  by apply st_worker, (st_handled (env := env) (srv s) i x).
Qed.

Record machine_inv (m : machine W) (l : list session) : Prop := {
  mi_server : server_inv (srv m) l;
  mi_length : length (stats m) = length (workers (srv m));
  mi_stats : Z.of_nat (length (accepted (srv m))) < 2 ^ 64 →
    ∀ i r, stats m !! i = Some r → stat_ok i (requests_of i (handled m)) r;
  mi_total : Z.of_nat (length (accepted (srv m))) < 2 ^ 64 → sum_by total_count (stats m) = Z.of_nat (length (handled m));
  mi_closed : closed (sh (srv m)) ≡ₚ (handled m).*2 ++ dropped m;
  mi_block : schedalg_of (jm (sh (srv m))) = BLOCK → dropped m = []
}.

(** There are no more answers than accepted connections. *)
Lemma handled_accepted m l : machine_inv m l →
  length (accepted (srv m)) = (length (handled m) + length (dropped m) + length l + length (run_fds (workers (srv m))) + length (main_fds (main_at (srv m))))%nat.
Proof.
  intros [[_ _ Hl _ _] _ _ _ Hc _]. apply Permutation_length in Hl, Hc. rewrite !length_app in Hl. rewrite !length_app in Hc. unfold fds in Hl. rewrite length_fmap in Hl. rewrite length_fmap in Hc. lia.
Qed.

Lemma manager_inv m l s' p' :
  machine_inv m l → server_step (env := env) (srv m) s' → accepted s' = accepted (srv m) →
  (∀ i x, workers (srv m) !! i = Some (WRun x) → workers s' !! i = Some (WRun x)) →
  ∃ l', machine_inv (Machine s' (stats m) p' (handled m) (dropped m ++ new_closes (srv m) s')) l'.
Proof.
  intros [Hs Hlen Hst Htot Hc Hb] Hstep Hacc Hrun. destruct (server_step_inv _ _ _ Hs Hstep) as [l' Hs'].
  destruct (step_closes _ _ _ Hs Hstep Hrun) as (d & Hd & [Halg _] & Hblk). exists l'.
  assert (Hnew : new_closes (srv m) s' = d) by (unfold new_closes; by rewrite Hd, drop_app_length).
  split; cbn [srv stats handled dropped]; rewrite ?Hacc, ?Hnew; [done| |done|done| |].
  - by rewrite (server_step_length _ _ Hstep).
  - by rewrite Hd, Hc, app_assoc.
  - intros Ha. rewrite Halg in Ha. by rewrite (Hb Ha), (Hblk Ha).
Qed.

Lemma accept_inv m l fd t p' :
  machine_inv m l → main_at (srv m) = MAccept →
  ∃ l', machine_inv (Machine (Server (sh (srv m)) (MAdd (Session fd t)) (workers (srv m)) (accepted (srv m) ++ [fd])) (stats m) p' (handled m) (dropped m)) l'.
Proof.
  intros [Hs Hlen Hst Htot Hc Hb] Hm. destruct (server_step_inv _ _ _ Hs (st_accept (env := env) (srv m) fd t Hm)) as [l' Hs']. exists l'.
  split; cbn [srv stats handled dropped accepted workers sh]; try done; rewrite length_app; cbn [length]; intros ?; [apply Hst|apply Htot]; lia.
Qed.

Lemma handle_inv m l i x r fuel n junk now r' p' :
  machine_inv m l → workers (srv m) !! i = Some (WRun x) → stats m !! i = Some r →
  handle_session fuel n junk now x r (process m) = Ok r' p' →
  machine_inv (Machine (Server (log_close (connection_fd x) (sh (srv m))) (main_at (srv m)) (<[i := WNotify]> (workers (srv m))) (accepted (srv m)))
    (<[i := r']> (stats m)) p' (handled m ++ [(i, connection_fd x)]) (dropped m)) l.
Proof.
  intros Hinv Hw Hr Hrun. pose proof (handled_accepted _ _ Hinv) as Hacc. destruct Hinv as [Hs Hlen Hst Htot Hc Hb].
  pose proof (handled_inv (env := env) _ _ _ _ _ Hs Hw eq_refl) as Hs'.
  assert (Hk : ∀ k, requests_of k (handled m) ≤ Z.of_nat (length (handled m))) by (intros k; apply requests_of_length).
  assert (Hone : (0 < length (run_fds (workers (srv m))))%nat).
  { apply list_elem_of_split_length in Hw as (a & b & -> & _). unfold run_fds. rewrite flat_map_app, length_app. cbn. lia. }
  assert (Hok : Z.of_nat (length (accepted (srv m))) < 2 ^ 64 → stat_ok i (requests_of i (handled m) + 1) r').
  { intros Hlt. eapply stat_ok_handle; [by apply Hst| |exact Hrun]. specialize (Hk i). lia. }
  split; cbn [srv stats handled dropped accepted workers sh log_close closed jm]; [done|by rewrite !length_insert| | | |done].
  - intros Hlt j r0 Hj. rewrite requests_of_snoc. apply list_lookup_insert_Some in Hj as [(<- & <- & _)|[Hne Hj]].
    + rewrite decide_True by done. by apply Hok.
    + rewrite decide_False by done. rewrite Z.add_0_r. by apply Hst.
  - intros Hlt. rewrite (sum_by_insert _ _ _ _ _ Hr), (Htot Hlt), length_app, (sk_total _ _ _ (Hok Hlt)), (sk_total _ _ _ (Hst Hlt _ _ Hr)). cbn [length]. lia.
  - rewrite fmap_app, Hc. cbn. rewrite <- !app_assoc. apply Permutation_app_head, Permutation_app_comm.
Qed.

Lemma machine_step_inv m m' : (∃ l, machine_inv m l) → step m m' → ∃ l, machine_inv m' l.
Proof.
  intros Hm Hstep. revert Hm. destruct Hstep as [m s' p' Hs Ha Hw _|m fd t p' Hm _|m i x r fuel n junk now r' p' Hw Hr Hrun]; intros [l Hinv].
  - by eapply manager_inv.
  - by eapply accept_inv.
  - exists l. by eapply handle_inv.
Qed.

Lemma machine_start_inv s p : server_inv s [] → closed (sh s) = [] → machine_inv (machine_start s p) [].
Proof.
  intros Hs Hc. split; cbn [machine_start srv stats handled dropped]; [done|by rewrite length_fmap, length_seq| | |by rewrite Hc|done].
  - intros _ i r Hi. apply list_lookup_fmap_Some in Hi as (j & -> & Hj). apply lookup_seq in Hj as [-> _]. apply worker_stat_ok.
  - intros _. generalize 0%nat. induction (length (workers s)) as [|k IH]; intros j; [done|]. cbn [seq fmap list_fmap]. unfold sum_by in *. cbn [foldr]. by rewrite IH.
Qed.

(** The policy never changes. *)
Lemma block_step_inv m m' :
  (∃ l, machine_inv m l) ∧ schedalg_of (jm (sh (srv m))) = BLOCK → step m m' →
  (∃ l, machine_inv m' l) ∧ schedalg_of (jm (sh (srv m'))) = BLOCK.
Proof.
  intros [Hinv Hb] Hstep. split; [by eapply machine_step_inv|]. revert Hinv Hb.
  destruct Hstep as [m s' p' Hs Ha Hw _|m fd t p' Hm _|m i x r fuel n junk now r' p' Hw Hr Hrun]; intros [l Hinv] Hb; [|done|done].
  destruct (step_closes _ _ _ (mi_server _ _ Hinv) Hs Hw) as (d & _ & [Halg _] & _). cbn [srv]. congruence.
Qed.
End Runs.

Lemma init_closed alloc create max n alg s :
  0 ≤ max < 2 ^ 63 → alg ≠ SCHEDALG_UNSET →
  (∀ array, alloc (u64 (24 * max)) = Some array → Z.of_nat (length array) = max) →
  init_jobs_manager alloc true create max n alg boot = Ok SUCCESS s → server_inv s [] ∧ closed (sh s) = [].
Proof.
  intros Hmax Halg Halloc Hinit. destruct (init_inv _ _ _ _ _ _ Hmax Halg Halloc Hinit) as (H0 & _ & _ & Ha). split; [done|].
  pose proof (si_ledger _ _ H0) as Hl. rewrite Ha in Hl. apply Permutation_nil_l in Hl. by symmetry in Hl; apply app_eq_nil in Hl as [? _].
Qed.

Lemma init_alg alloc create max n alg s :
  init_jobs_manager alloc true create max n alg boot = Ok SUCCESS s → schedalg_of (jm (sh s)) = alg.
Proof. intros E. unfold init_jobs_manager in E. repeat case_match; simplify_eq; done. Qed.

(** ** Properties *)

Section Properties.
Context {W : Type} {unix : Unix W}.

(** the whole server, with its requests, its world and its statistics, is an
    implementation of its threads: whatever it does is a run of the threads, so
    that the invariants of the counters, of the queue and of the wake-ups hold of it. *)
Theorem server_run_refines (seed : nat → nat) (random : nat → Z) (listenfd : Z) (s0 : server) (p : proc W) (m : machine W)
    (Hrun : star (machine_step seed random listenfd) (machine_start s0 p) m) :
  star (server_step (env := world_env seed random)) s0 (srv m).
Proof.
  apply (star_map _ (server_step (env := world_env seed random)) srv) in Hrun; [exact Hrun|]. intros a b Hs.
  eapply star_step; [|apply star_refl]. by eapply machine_simulates.
Qed.

(** C15: the statistics account for every connection: under every interleaving worker [i]
    reports the thread number [i], the number of requests it has handled as its
    total, and no more static and dynamic ones than that; and the accepted
    connections are, counted, the totals of the workers, the dropped ones, those in
    the queue, those being handled and the one in the hands of the main thread. *)
Theorem server_accounts (seed : nat → nat) (random : nat → Z) (listenfd : Z)
    (alloc : Z → option (list session)) (create : nat → Z) (max n : Z) (alg : schedalg) (s0 : server) (p : proc W) (m : machine W)
    (Hmax : 0 ≤ max < 2 ^ 63) (Halg : alg ≠ SCHEDALG_UNSET)
    (Halloc : ∀ array, alloc (u64 (24 * max)) = Some array → Z.of_nat (length array) = max)
    (Hinit : init_jobs_manager alloc true create max n alg boot = Ok SUCCESS s0)
    (Hrun : star (machine_step seed random listenfd) (machine_start s0 p) m)
    (Hfew : Z.of_nat (length (accepted (srv m))) < 2 ^ 64) :
  (∀ i r, stats m !! i = Some r → thread_id r = Z.of_nat i ∧ total_count r = requests_of i (handled m) ∧
     0 ≤ static_count r ∧ 0 ≤ dynamic_count r ∧ static_count r + dynamic_count r ≤ total_count r) ∧
  Z.of_nat (length (accepted (srv m))) =
    sum_by total_count (stats m) + Z.of_nat (length (dropped m)) + waiting_count (jm (sh (srv m))) +
    Z.of_nat (length (run_fds (workers (srv m)))) + Z.of_nat (length (main_fds (main_at (srv m)))).
Proof.
  destruct (init_closed _ _ _ _ _ _ Hmax Halg Halloc Hinit) as [H0 Hc0].
  destruct (star_invariant _ (λ m, ∃ l, machine_inv m l) (machine_step_inv seed random listenfd) _ _ Hrun) as [l Hinv];
    [by exists []; apply machine_start_inv|].
  pose proof (handled_accepted _ _ Hinv) as Hacc. destruct Hinv as [[Hm _ _ _ _] _ Hst Htot _ _]. split.
  - intros i r Hi. by destruct (Hst Hfew i r Hi).
  - rewrite Hacc, (Htot Hfew), (mo_waiting _ _ _ Hm). lia.
Qed.

(** C16: with the policy [block] nobody is turned away: no connection is closed without
    an answer, and every accepted one has been answered by a worker exactly once, is
    waiting, is being answered or is in the hands of the main thread. *)
Theorem block_answers_everyone (seed : nat → nat) (random : nat → Z) (listenfd : Z)
    (alloc : Z → option (list session)) (create : nat → Z) (max n : Z) (s0 : server) (p : proc W) (m : machine W)
    (Hmax : 0 ≤ max < 2 ^ 63)
    (Halloc : ∀ array, alloc (u64 (24 * max)) = Some array → Z.of_nat (length array) = max)
    (Hinit : init_jobs_manager alloc true create max n BLOCK boot = Ok SUCCESS s0)
    (Hrun : star (machine_step seed random listenfd) (machine_start s0 p) m) :
  dropped m = [] ∧ ∃ l, models (waiting_jobs (jm (sh (srv m)))) l ∧
    accepted (srv m) ≡ₚ (handled m).*2 ++ fds l ++ run_fds (workers (srv m)) ++ main_fds (main_at (srv m)).
Proof.
  destruct (init_closed _ _ _ _ BLOCK _ Hmax ltac:(done) Halloc Hinit) as [H0 Hc0].
  destruct (star_invariant _ (λ m, (∃ l, machine_inv m l) ∧ schedalg_of (jm (sh (srv m))) = BLOCK) (block_step_inv seed random listenfd) _ _ Hrun)
    as [[l Hinv] Hblk]; [split; [by exists []; apply machine_start_inv|by eapply init_alg]|].
  destruct Hinv as [[Hm _ Hled _ _] _ _ _ Hc Hb]. specialize (Hb Hblk). split; [done|]. exists l. split; [by apply mo_models in Hm|].
  by rewrite Hb, app_nil_r in Hc; rewrite <- Hc.
Qed.

(** C14: what a worker does for a session whose client asks for a readable file of the
    site: the client gets the header and the file, the header carries the arrival
    time of the session, the time it waited, the number of the worker and the
    counters with this request included, and the connection is closed. *)
Theorem worker_serves_file {laws : UnixLaws W} (fuel n : nat) (junk : locals) (now : Z * Z) (x : session) (r : request_stat)
    (method uri version : str) (headers : list str) (rest data : str)
    (site : W → Prop) (opened : Z → W → Prop) (mapped : Z → Z → W → Prop) (held : Z → W → Prop) (s : proc W)
    (Hr : reads_work) (Hw : writes_work) (Hq : files_quiet) (Hclose : ∀ w, 0 ≤ (call (Segel.sys_close (connection_fd x)) w).1)
    (Hreq : http_request method uri version headers) (Hget : strcasecmp_eq method (lit "GET") = true)
    (Hpend : pending (world s) (connection_fd x) = request_text method uri version headers ++ rest) (Hn : (length headers ≤ n)%nat)
    (Hstatic : static_uri uri = true) (Huri : Z.of_nat (length uri) < 8000)
    (Hfs : file_service (uri_file uri) data site opened mapped held) (Hsite : site (world s))
    (Hsize : Z.of_nat (length data) < 2 ^ 31)
    (Hf : Z.of_nat (patience (world s)) + Z.of_nat (length data) + 8192 < Z.of_nat fuel) :
  let arrival := CyclicQueue.arrival_time x in
  let r' := RequestStat (thread_id r) arrival (timersub now arrival)
              (u64 (total_count r + 1)) (u64 (static_count r + 1)) (u64 (dynamic_count r)) in
  ∃ s1 s', handle_session fuel n junk now x r s = Ok r' s' ∧
    world s' = (call (Segel.sys_close (connection_fd x)) (world s1)).2 ∧
    output (world s') (connection_fd x) = output (world s) (connection_fd x) ++
      static_header (Z.of_nat (length data)) (requestGetFiletype (uri_file uri)) r' ++ data.
Proof.
  intros arrival r'. set (r0 := RequestStat (thread_id r) arrival (timersub now arrival) (total_count r) (static_count r) (dynamic_count r)).
  destruct (http_static_request fuel n (connection_fd x) junk r0 method uri version headers rest data site opened mapped held s) as (s1 & Hrun & Ho); [done..|].
  assert (Hr' : bump 0 1 0 (bump 1 0 0 r0) = r').
  { unfold bump, r0, r'. cbn [thread_id Request.arrival_time dispatch_time total_count static_count dynamic_count].
    f_equal; rewrite !u64_u64_add; f_equal; lia. }
  rewrite Hr' in Hrun, Ho. specialize (Hclose (world s1)).
  destruct (Hq (Segel.sys_close (connection_fd x)) (world s1) eq_refl) as [Hoc _].
  exists s1, (Proc (call (Segel.sys_close (connection_fd x)) (world s1)).2 (stderr s1) (stdout s1)). split; [|split; [done|]].
  - unfold handle_session. cbv zeta. fold arrival r0. unfold bind at 1. rewrite Hrun. unfold Segel.Close, bind. by rewrite checked_ok.
  - cbn [world]. by rewrite Hoc, Ho.
Qed.
End Properties.

(** ** A server with one worker and one client *)

(** The client is accepted, queued, taken by the worker and answered. *)
Lemma one_client_run {W} {unix : Unix W} seed random listenfd (sh1 sh2 sh3 : shared) (fd : Z) (t : Z * Z) (temp : session)
    fuel n junk now r (p p1 p' : proc W) :
  let x := Session fd t in
  closed sh1 = [] → closed sh2 = [] → closed sh3 = [] → Accept listenfd p = Ok fd p1 →
  add_request (env := world_env seed random) temp x sh1 = Ok (AddDone true) sh2 → get_request temp sh2 = Ok (Some x) sh3 →
  handle_session fuel n junk now x (worker_stat 0) p1 = Ok r p' →
  star (machine_step seed random listenfd) (machine_start (Server sh1 MAccept [WGet] []) p)
    (Machine (Server (log_close fd sh3) MAccept [WNotify] [fd]) [r] p' [(0%nat, fd)] []).
Proof.
  intros x Hc1 Hc2 Hc3 Hacc Hadd Hget Hrun.
  eapply star_step; [by apply (mc_accept _ _ _ _ fd t p1)|].
  assert (Hno : ∀ s s' : server, closed (sh s') = [] → new_closes s s' = []) by (intros s s' Hc; unfold new_closes; by rewrite Hc, drop_nil).
  set (s2 := Server sh2 MAccept [WGet] [fd]). set (s3 := Server sh3 MAccept [WRun x] [fd]).
  eapply star_step; [apply (mc_manager _ _ _ _ s2 p1)|]; cbn [srv process].
  - eapply st_add_signal; [done|exact Hadd|]. split; [apply Forall_Forall2_diag, Forall_true; by left|]. cbn. by intros [[=]|?%elem_of_nil]%elem_of_cons.
  - done.
  - by intros [|[]] y Hy.
  - by rewrite Hno.
  - rewrite Hno by done. eapply star_step; [apply (mc_manager _ _ _ _ s3 p1)|]; cbn [srv process].
    + apply st_worker, (st_get (env := world_env seed random) s2 0 temp x sh3); done.
    + done.
    + by intros [|[]] y Hy.
    + by rewrite Hno.
    + rewrite Hno by done. eapply star_step; [|apply star_refl].
      by apply (mc_handle _ _ _ (Machine s3 [worker_stat 0] p1 [] []) 0%nat x (worker_stat 0) fuel n junk now r p').
Qed.

Definition demo_client_proc : proc demo_world := http_client "/a.html".
Definition demo_machine (alg : schedalg) : machine demo_world := machine_start (demo_init alg) demo_client_proc.
Definition demo_added (alg : schedalg) : shared :=
  after (add_request (env := world_env (λ n, n) Z.of_nat) (conn 0) (conn 7)) (sh (demo_init alg)).
Definition demo_taken (alg : schedalg) : shared := after (get_request (conn 0)) (demo_added alg).
#[local] Abbreviation demo_handle := (handle_session 2000 5 demo_junk (2, 0) (Session 7 (1, 0)) (worker_stat 0) demo_client_proc).

(** The world gives the client the descriptor 7. *)
Definition demo_served (alg : schedalg) : machine demo_world :=
  match demo_handle with
  | Ok r p' => Machine (Server (log_close 7 (demo_taken alg)) MAccept [WNotify] [7]) [r] p' [(0%nat, 7)] []
  | _ => demo_machine alg
  end.

Lemma demo_machine_run alg : alg = BLOCK ∨ alg = DROP_HEAD →
  star (machine_step (λ n, n) Z.of_nat 3) (demo_machine alg) (demo_served alg).
Proof.
  intros Halg. unfold demo_served. destruct demo_handle as [r p'| | |] eqn:E; [|vm_compute in E; discriminate E..].
  assert (Hinit : demo_machine alg = machine_start (Server (sh (demo_init alg)) MAccept [WGet] []) demo_client_proc) by (by destruct Halg as [-> | ->]).
  rewrite Hinit.
  apply (one_client_run (λ n, n) Z.of_nat 3 (sh (demo_init alg)) (demo_added alg) (demo_taken alg) 7 (1, 0) (conn 0)
    2000 5 demo_junk (2, 0) r demo_client_proc demo_client_proc p').
  - destruct Halg as [-> | ->]; vm_compute; reflexivity.
  - destruct Halg as [-> | ->]; vm_compute; reflexivity.
  - destruct Halg as [-> | ->]; vm_compute; reflexivity.
  - vm_compute. reflexivity.
  - destruct Halg as [-> | ->]; vm_compute; reflexivity.
  - destruct Halg as [-> | ->]; vm_compute; reflexivity.
  - exact E.
Qed.

Lemma server_run_refines_witness :
  star (server_step (env := world_env (λ n, n) Z.of_nat)) (demo_init BLOCK) (srv (demo_served BLOCK)).
Proof.
  apply (server_run_refines (λ n, n) Z.of_nat 3 (demo_init BLOCK) demo_client_proc (demo_served BLOCK)). apply demo_machine_run. by left.
Defined.

Lemma server_accounts_witness :
  let m := demo_served DROP_HEAD in
  (∀ i r, stats m !! i = Some r → thread_id r = Z.of_nat i ∧ total_count r = requests_of i (handled m) ∧
     0 ≤ static_count r ∧ 0 ≤ dynamic_count r ∧ static_count r + dynamic_count r ≤ total_count r) ∧
  Z.of_nat (length (accepted (srv m))) =
    sum_by total_count (stats m) + Z.of_nat (length (dropped m)) + waiting_count (jm (sh (srv m))) +
    Z.of_nat (length (run_fds (workers (srv m)))) + Z.of_nat (length (main_fds (main_at (srv m)))).
Proof.
  apply (server_accounts (λ n, n) Z.of_nat 3 demo_alloc (λ _, 0) 2 1 DROP_HEAD (demo_init DROP_HEAD) demo_client_proc (demo_served DROP_HEAD));
    [lia|done|intros array; apply demo_alloc_ok; lia|vm_compute; reflexivity|apply demo_machine_run; by right|vm_compute; reflexivity].
Defined.

Lemma block_answers_everyone_witness :
  let m := demo_served BLOCK in
  dropped m = [] ∧ ∃ l, models (waiting_jobs (jm (sh (srv m)))) l ∧
    accepted (srv m) ≡ₚ (handled m).*2 ++ fds l ++ run_fds (workers (srv m)) ++ main_fds (main_at (srv m)).
Proof.
  apply (block_answers_everyone (λ n, n) Z.of_nat 3 demo_alloc (λ _, 0) 2 1 (demo_init BLOCK) demo_client_proc (demo_served BLOCK));
    [lia|intros array; apply demo_alloc_ok; lia|vm_compute; reflexivity|apply demo_machine_run; by left].
Defined.

Lemma worker_serves_file_witness :
  let s := http_client "/a.html" in
  let r' := RequestStat 0 (1, 900000) (0, 200000) 1 1 0 in
  ∃ s1 s', handle_session 9000 5 demo_junk (2, 100000) (Session 7 (1, 900000)) (worker_stat 0) s = Ok r' s' ∧
    world s' = (call (Segel.sys_close 7) (world s1)).2 ∧
    output (world s') 7 = output (world s) 7 ++ static_header 5 (lit "text/html") r' ++ lit "hello".
Proof.
  intros s. refine (worker_serves_file 9000 5 demo_junk (2, 100000) (Session 7 (1, 900000)) (worker_stat 0) (lit "GET") (lit "/a.html") (lit "HTTP/1.0")
    [lit "Host: here" ++ CRLF] [] (lit "hello") on_site (λ _, hello_file) (λ _ _, hello_file) (λ _, hello_file) s
    demo_reads demo_writes demo_quiet _ _ _ _ _ _ _ hello_service _ _ _).
  - intros w. cbn. lia.
  - apply demo_http_request; [split; [done|by repeat constructor]|vm_compute; reflexivity].
  - reflexivity.
  - vm_compute. reflexivity.
  - cbn. lia.
  - reflexivity.
  - vm_compute. reflexivity.
  - reflexivity.
  - vm_compute. reflexivity.
  - vm_compute. reflexivity.
Defined.
