(* ===== verification/ShellParse.v ===== *)
(** * [hw1/.../Commands.cpp]: the parsing helpers of the shell

    Trimming, splitting a command line into arguments, the tests for background,
    redirection and pipe commands, and the constructors that split a command line
    at a redirection or pipe symbol.  Reading or writing outside a string or an
    array is a fault, [None]. *)

From S2P Require Import Prelude CString.

Definition COMMAND_MAX_ARGS : nat := 20.

(** [find_first_not_of(WHITESPACE)] and [find_last_not_of(WHITESPACE)]. *)
Fixpoint find_first_not_of (s : str) : option nat :=
  match s with
  | [] => None
  | c :: s' => if isspace c then S <$> find_first_not_of s' else Some O
  end.
Fixpoint find_last_not_of (s : str) : option nat :=
  match s with
  | [] => None
  | c :: s' =>
    match find_last_not_of s' with
    | Some i => Some (S i)
    | None => if isspace c then None else Some O
    end
  end.

Definition _ltrim (s : str) : str :=
  match find_first_not_of s with None => [] | Some start => drop start s end.
Definition _rtrim (s : str) : str :=
  match find_last_not_of s with None => [] | Some e => take (S e) s end.
Definition _trim (s : str) : str := _rtrim (_ltrim s).

(** The arguments, when they and the [NULL] after each of them fit the array. *)
Definition _parseCommandLine (cmd_line : str) : option (list str) :=
  let args := words (_trim cmd_line) in
  if (length args <? COMMAND_MAX_ARGS)%nat then Some args else None.

(** A line of white space only has no last character to look at. *)
Definition _isBackgroundComamnd (cmd_line : str) : option bool :=
  i ← find_last_not_of cmd_line;
  c ← cmd_line !! i;
  Some (bool_decide (c = "&"%char)).

Definition _isRedirectionCommand (cmd_line : str) : bool :=
  contains (lit ">") cmd_line || contains (lit ">>") cmd_line.
Definition _isPipeCommand (cmd_line : str) : bool :=
  contains (lit "|") cmd_line || contains (lit "|&") cmd_line.

(** The [char*] version: [idx] is an [unsigned int], so the test for [npos] never
    holds and a blank line is indexed far outside; the second search looks at the
    unchanged copy and finds the [&] again. *)
Definition _removeBackgroundSign (cmd_line : str) : option str :=
  idx ← find_last_not_of cmd_line;
  c ← cmd_line !! idx;
  if bool_decide (c = "&"%char) then Some (take idx cmd_line ++ lit " ") else Some cmd_line.

(** The [string] version removes every [&]. *)
Definition _removeBackgroundSigns (cmd_line : str) : str :=
  List.filter (λ c, negb (bool_decide (c = "&"%char))) cmd_line.

(** The argument of [_is_number] is never [NULL] where it is called. *)
Definition _is_number (arg : str) : bool :=
  match arg with
  | c :: rest => if bool_decide (c = "-"%char) then forallb isdigit rest else forallb isdigit arg
  | [] => true
  end.

(** [RedirectionCommand::RedirectionCommand]. *)
Record redirection := Redirect {
  r_cmd_line : str;
  r_file_name : str;
  r_append : bool
}.
Definition parse_redirection (cmd_line : str) : option redirection :=
  let app := contains (lit ">>") cmd_line in
  let symbol := if app then lit ">>" else lit ">" in
  i ← find_sub symbol cmd_line;
  Some (Redirect (take i cmd_line) (_trim (drop (i + length symbol) cmd_line)) app).

(** [PipeCommand::PipeCommand]; the stream is 1 for standard output, 2 for
    standard error. *)
Record pipe_parts := PipeParts {
  p_cmd_line1 : str;
  p_cmd_line2 : str;
  p_std_type : Z
}.
Definition parse_pipe (cmd_line : str) : option pipe_parts :=
  let both := contains (lit "|&") cmd_line in
  let symbol := if both then lit "|&" else lit "|" in
  i ← find_sub symbol cmd_line;
  Some (PipeParts (_removeBackgroundSigns (take i cmd_line))
    (_removeBackgroundSigns (drop (i + length symbol) cmd_line)) (if both then 2 else 1)).

(** [TimeoutCommand]: the inner command line; [npos + 1] is 0. *)
Definition timeout_inner (cmd_line : str) : str :=
  let outer := _trim cmd_line in
  match find_sub_from (lit " ") outer 9 with
  | Some i => drop (S i) outer
  | None => outer
  end.

(** The first word, up to a space or a line feed. *)
Definition first_word (cmd_line : str) : str :=
  let cmd_s := _trim cmd_line in
  let stop c := bool_decide (c = " "%char) || bool_decide (c = LF) in
  (fix go (s : str) : str := match s with [] => [] | c :: s' => if stop c then [] else c :: go s' end) cmd_s.

(** ** Facts *)

Lemma first_not_of_trim s : _ltrim s = trim_left s.
Proof.
  unfold _ltrim. induction s as [|c s IH]; [done|]. cbn. destruct (isspace c); [|done].
  destruct (find_first_not_of s); done.
Qed.

(** The last position that is not white space: what follows is white space. *)
Lemma find_last_not_of_spec s :
  match find_last_not_of s with
  | Some i => ∃ c, s !! i = Some c ∧ isspace c = false ∧ Forall (λ c, isspace c = true) (drop (S i) s)
  | None => Forall (λ c, isspace c = true) s
  end.
Proof.
  induction s as [|c s IH]; cbn; [constructor|]. destruct (find_last_not_of s) as [i|]; [done|].
  destruct (isspace c) eqn:E; [by constructor|]. exists c. rewrite drop_0. done.
Qed.

Lemma trim_left_spaces a s : Forall (λ c, isspace c = true) a → trim_left (a ++ s) = trim_left s.
Proof. induction 1 as [|c a Hc _ IH]; [done|]. cbn. by rewrite Hc. Qed.
Lemma trim_left_fix c s : isspace c = false → trim_left (c :: s) = c :: s.
Proof. intros H. cbn. by rewrite H. Qed.

Lemma last_not_of_trim s : _rtrim s = trim_right s.
Proof.
  unfold _rtrim, trim_right. pose proof (find_last_not_of_spec s) as H. destruct (find_last_not_of s) as [i|].
  - destruct H as (c & Hc & Hn & Hr). rewrite <- (take_drop (S i) s) at 2. rewrite reverse_app.
    rewrite trim_left_spaces by (by apply Forall_reverse). rewrite (take_S_r _ _ _ Hc), reverse_snoc, trim_left_fix by done.
    by rewrite reverse_cons, reverse_involutive.
  - rewrite <- (app_nil_r (reverse s)), trim_left_spaces by (by apply Forall_reverse). done.
Qed.

Lemma trim_eq s : _trim s = trim s.
Proof. unfold _trim, trim. by rewrite last_not_of_trim, first_not_of_trim. Qed.

(** Splitting does not see white space around the line. *)
Lemma words_from_spaces cur s t :
  Forall (λ c, isspace c = true) t → words_from cur (s ++ t) = words_from cur s.
Proof.
  intros Ht. revert cur. induction s as [|c s IH]; intros cur; cbn.
  - assert (Hnil : words_from [] t = []) by (clear cur; induction Ht as [|c t Hc _ IHt]; [done|]; cbn; by rewrite Hc).
    destruct Ht as [|c t Hc Ht]; [done|]. cbn in *. rewrite Hc in *. destruct cur; [done|]. by rewrite Hnil.
  - destruct (isspace c); [destruct cur|]; by rewrite ?IH.
Qed.
Lemma words_trim_left s : words (trim_left s) = words s.
Proof. unfold words. induction s as [|c s IH]; [done|]. cbn. destruct (isspace c) eqn:E; [done|]. cbn. by rewrite E. Qed.

Lemma trim_right_split s : ∃ t, s = trim_right s ++ t ∧ Forall (λ c, isspace c = true) t.
Proof.
  rewrite <- last_not_of_trim. unfold _rtrim. pose proof (find_last_not_of_spec s) as H. destruct (find_last_not_of s) as [i|].
  - destruct H as (c & _ & _ & Hr). exists (drop (S i) s). by rewrite take_drop.
  - by exists s.
Qed.

Lemma words_trim s : words (_trim s) = words s.
Proof.
  rewrite trim_eq. unfold trim. destruct (trim_right_split (trim_left s)) as (t & E & Ht).
  transitivity (words (trim_left s)); [|apply words_trim_left]. unfold words. rewrite E at 2. by rewrite words_from_spaces.
Qed.

(** Trimming leaves no white space at the ends and loses only white space. *)
Lemma trim_left_split s : ∃ a, s = a ++ trim_left s ∧ Forall (λ c, isspace c = true) a ∧ (∀ c t, trim_left s = c :: t → isspace c = false).
Proof.
  induction s as [|c s (a & E & Ha & Hc)]; [by exists []|]. cbn. destruct (isspace c) eqn:Ec.
  - exists (c :: a). cbn. rewrite <- E. split; [done|]. split; [by constructor|done].
  - exists []. split; [done|]. split; [constructor|]. intros d t [= <- <-]. done.
Qed.
