(* ===== verification/JobsList.v ===== *)
(** * [hw1/.../Commands.cpp]: jobs and the list of jobs

    [std::map<int, JobEntry>] and [std::map<time_t, JobEntry>] are lists of
    entries in increasing order of their keys, the order in which the code walks
    them.  The operations that make no system call are here; [None] stands for an
    access the C++ code does not define (the last entry of an empty map, erasing
    [end()], an entry that [operator[]] would create with indeterminate fields).
    Identifiers are unbounded here; in the code they are of type [int], so that
    [addJob] is as modelled while the last identifier is below [2 ^ 31 - 1]. *)

From S2P Require Import Prelude CString.

Lemma Forall_sublist {A} (P : A → Prop) (l l' : list A) : l' `sublist_of` l → Forall P l → Forall P l'.
Proof. induction 1; intros Hl; [done| |]; apply Forall_cons_1 in Hl as [??]; auto. Qed.

(** ** [std::map] with integer keys *)
Section OrderedMap.
Context {V : Type}.
Implicit Types (m : list (Z * V)) (k : Z) (v : V).

Definition keys m : list Z := m.*1.

Fixpoint map_find k m : option V :=
  match m with
  | [] => None
  | (k', v) :: m' => if k =? k' then Some v else map_find k m'
  end.

(** [m[k] = v]. *)
Fixpoint map_set k v m : list (Z * V) :=
  match m with
  | [] => [(k, v)]
  | (k', v') :: m' =>
    if k =? k' then (k, v) :: m' else if k <? k' then (k, v) :: (k', v') :: m' else (k', v') :: map_set k v m'
  end.

(** [m.insert({k, v})] leaves an entry that is there as it is. *)
Definition map_insert_new k v m : list (Z * V) :=
  match map_find k m with Some _ => m | None => map_set k v m end.

Fixpoint map_erase k m : list (Z * V) :=
  match m with
  | [] => []
  | (k', v) :: m' => if k =? k' then m' else (k', v) :: map_erase k m'
  end.

Definition map_ok m : Prop := StronglySorted Z.lt (keys m).

Lemma map_find_set k k' v m : map_find k (map_set k' v m) = if k =? k' then Some v else map_find k m.
Proof.
  induction m as [|[j u] m IH]; cbn; [by repeat zcase|].
  repeat zcase; cbn; repeat zcase; subst; try lia; try done; rewrite ?IH; by repeat zcase.
Qed.

Lemma keys_set k v m : ∀ j, j ∈ keys (map_set k v m) ↔ j = k ∨ j ∈ keys m.
Proof.
  intros j. unfold keys. induction m as [|[i u] m IH]; cbn; [set_solver|].
  repeat zcase; subst; cbn; set_solver.
Qed.
Lemma keys_erase k m : ∀ j, j ∈ keys (map_erase k m) → j ∈ keys m.
Proof.
  intros j. unfold keys. induction m as [|[i u] m IH]; cbn; [done|].
  zcase; subst; cbn; set_solver.
Qed.

Lemma map_ok_set k v m : map_ok m → map_ok (map_set k v m).
Proof.
  unfold map_ok. induction m as [|[j u] m IH]; intros Hok; [by repeat constructor|].
  cbn in Hok |- *. apply StronglySorted_inv in Hok as [Hm Hj]. repeat zcase; subst; cbn.
  - by constructor.
  - constructor; [by constructor|]. constructor; [done|]. eapply Forall_impl; [exact Hj|]. cbn. lia.
  - constructor; [by apply IH|]. apply Forall_forall. intros i [->|Hi]%keys_set; [lia|].
    by eapply (proj1 (Forall_forall _ _)) in Hj.
Qed.
Lemma map_ok_erase k m : map_ok m → map_ok (map_erase k m).
Proof.
  unfold map_ok. induction m as [|[j u] m IH]; intros Hok; [done|].
  cbn in Hok |- *. apply StronglySorted_inv in Hok as [Hm Hj]. zcase; cbn; [done|].
  constructor; [by apply IH|]. apply Forall_forall. intros i Hi%keys_erase.
  by eapply (proj1 (Forall_forall _ _)) in Hj.
Qed.
Lemma map_ok_insert_new k v m : map_ok m → map_ok (map_insert_new k v m).
Proof. unfold map_insert_new. destruct (map_find k m); [done|]. apply map_ok_set. Qed.

Lemma map_find_None k m : k ∉ keys m → map_find k m = None.
Proof. unfold keys. induction m as [|[j u] m IH]; cbn; [done|]. intros Hk. zcase; set_solver. Qed.
Lemma map_find_keys k v m : map_find k m = Some v → k ∈ keys m.
Proof. unfold keys. induction m as [|[j u] m IH]; cbn; [done|]. zcase; set_solver. Qed.
Lemma keys_map_find k m : k ∈ keys m → is_Some (map_find k m).
Proof. unfold keys. induction m as [|[j u] m IH]; cbn; [by intros ?%not_elem_of_nil|]. zcase; set_solver. Qed.

Lemma map_find_erase k k' m : map_ok m → map_find k (map_erase k' m) = if k =? k' then None else map_find k m.
Proof.
  unfold map_ok. induction m as [|[j u] m IH]; intros Hok; cbn; [by zcase|].
  cbn in Hok. apply StronglySorted_inv in Hok as [Hm Hj]. destruct (Z.eqb_spec k' j) as [->|Hk'].
  - destruct (Z.eqb_spec k j) as [->|]; [|done]. apply map_find_None.
    intros Hin. eapply (proj1 (Forall_forall _ _)) in Hj; [|exact Hin]. lia.
  - cbn. rewrite IH by done. repeat zcase; first [done|lia].
Qed.

(** The last entry has the greatest key. *)
Lemma map_last_max m k v j : map_ok m → last m = Some (k, v) → j ∈ keys m → j ≤ k.
Proof.
  unfold map_ok, keys. induction m as [|[i u] m IH]; intros Hok Hl Hj; [done|].
  cbn in Hok. apply StronglySorted_inv in Hok as [Hm Hi]. rewrite last_cons in Hl. destruct (last m) as [[k' v']|] eqn:El.
  - simplify_eq. cbn in Hj. apply elem_of_cons in Hj as [->|Hj]; [|by apply IH].
    apply last_Some in El as [m' ->]. eapply (proj1 (Forall_forall _ _)) in Hi; [apply Z.lt_le_incl, Hi|]. rewrite fmap_app. set_solver.
  - simplify_eq. apply last_None in El as ->. set_solver.
Qed.
Lemma map_last_find m k v : map_ok m → last m = Some (k, v) → map_find k m = Some v.
Proof.
  unfold map_ok. induction m as [|[i u] m IH]; intros Hok Hl; [done|].
  cbn in Hok |- *. apply StronglySorted_inv in Hok as [Hm Hi]. rewrite last_cons in Hl. destruct (last m) as [[k' v']|] eqn:El.
  - simplify_eq. zcase; [|by apply IH]. subst. apply last_Some in El as [m' ->].
    eapply (proj1 (Forall_forall _ _)) in Hi; [exfalso; eapply (Z.lt_irrefl i), Hi|]. unfold keys. rewrite fmap_app. set_solver.
  - simplify_eq. by rewrite Z.eqb_refl.
Qed.
Lemma map_find_elem k v m : map_find k m = Some v → (k, v) ∈ m.
Proof. induction m as [|[j u] m IH]; cbn; [done|]. zcase; intros; simplify_eq; set_solver. Qed.
Lemma map_elem_find k v m : map_ok m → (k, v) ∈ m → map_find k m = Some v.
Proof.
  unfold map_ok. induction m as [|[j u] m IH]; intros Hok Hin; [by apply not_elem_of_nil in Hin|].
  cbn in Hok |- *. apply StronglySorted_inv in Hok as [Hm Hj]. apply elem_of_cons in Hin as [[= -> ->]|Hin]; [by rewrite Z.eqb_refl|].
  zcase; [|by apply IH]. subst. eapply (proj1 (Forall_forall _ _)) in Hj; [exfalso; eapply (Z.lt_irrefl j), Hj|].
  apply list_elem_of_fmap. by exists (j, v).
Qed.

(** Leaving entries out keeps the order. *)
Lemma map_ok_sublist m m' : m' `sublist_of` m → map_ok m → map_ok m'.
Proof.
  unfold map_ok, keys. intros Hs. induction Hs as [|e m' m Hs IH|e m' m Hs IH]; cbn; [done| |]; intros [Hm Hj]%StronglySorted_inv; [|by apply IH].
  constructor; [by apply IH|]. eapply Forall_sublist; [|exact Hj]. by apply fmap_sublist.
Qed.
End OrderedMap.

(** ** Jobs *)
Record JobEntry := Job {
  cmd_line : str;
  job_id : Z;
  pid : Z;
  time_epoch : Z;
  stopped : bool
}.

Abbreviation jobs := (list (Z * JobEntry)).

Definition set_job_id (i : Z) (j : JobEntry) : JobEntry := Job (cmd_line j) i (pid j) (time_epoch j) (stopped j).
Definition set_stopped (b : bool) (j : JobEntry) : JobEntry := Job (cmd_line j) (job_id j) (pid j) (time_epoch j) b.
Definition set_cmd_line (c : str) (j : JobEntry) : JobEntry := Job c (job_id j) (pid j) (time_epoch j) (stopped j).

Definition addJob (job : JobEntry) (m : jobs) : jobs :=
  if job_id job =? -1 then
    let job_id := match last m with None => 1 | Some e => e.1 + 1 end in
    map_set job_id (set_job_id job_id job) m
  else map_set (job_id job) job m.

Definition jobExist (jobs_id : Z) (m : jobs) : bool :=
  match map_find jobs_id m with Some _ => true | None => false end.
Definition jobsNumber (m : jobs) : Z := Z.of_nat (length m).
Definition stoppedJobs (m : jobs) : bool := existsb (λ e : Z * JobEntry, stopped e.2) m.

(** The key of the entry the reference that [getJobById] returns points to, and
    the entry. *)
Definition getJobById (jobs_id : Z) (m : jobs) : option (Z * JobEntry) :=
  if jobs_id =? -1 then last m else pair jobs_id <$> map_find jobs_id m.

(** From the last entry on; past the first entry there is nothing to return. *)
Definition getLastStoppedJob (m : jobs) : option (Z * JobEntry) :=
  List.find (λ e : Z * JobEntry, stopped e.2) (reverse m).

Definition removeJobById (job_id : Z) (m : jobs) : option jobs :=
  if job_id =? -1 then match last m with None => None | Some e => Some (map_erase e.1 m) end
  else match map_find job_id m with None => None | Some _ => Some (map_erase job_id m) end.

(** ** The invariant of the list

    Keys increase, are positive, and are the identifiers of their jobs. *)
Definition entry_ok (e : Z * JobEntry) : Prop := 1 ≤ e.1 ∧ job_id e.2 = e.1.
Definition jobs_ok (m : jobs) : Prop := map_ok m ∧ Forall entry_ok m.

Lemma entries_set (P : Z * JobEntry → Prop) k v (m : jobs) : P (k, v) → Forall P m → Forall P (map_set k v m).
Proof.
  intros Hk. induction 1 as [|[j u] m Hj Hm IH]; cbn; [by constructor|].
  repeat zcase; subst; by repeat apply Forall_cons_2.
Qed.
Lemma entries_erase (P : Z * JobEntry → Prop) k (m : jobs) : Forall P m → Forall P (map_erase k m).
Proof. induction 1 as [|[j u] m Hj Hm IH]; cbn; [done|]. zcase; [done|]. by constructor. Qed.

Lemma jobs_ok_nil : jobs_ok [].
Proof. split; constructor. Qed.
Lemma jobs_ok_set k j m : 1 ≤ k → job_id j = k → jobs_ok m → jobs_ok (map_set k j m).
Proof. intros ? ? [??]. split; [by apply map_ok_set|]. by apply entries_set. Qed.
Lemma jobs_ok_erase k m : jobs_ok m → jobs_ok (map_erase k m).
Proof. intros [??]. split; [by apply map_ok_erase|]. by apply entries_erase. Qed.
Lemma jobs_ok_find k j m : jobs_ok m → map_find k m = Some j → 1 ≤ k ∧ job_id j = k.
Proof. intros [_ Hm] Hf%map_find_elem. exact (proj1 (Forall_forall _ _) Hm (k, j) Hf). Qed.
Lemma jobs_ok_last k j m : jobs_ok m → last m = Some (k, j) → 1 ≤ k ∧ job_id j = k.
Proof. intros Hm Hl. eapply jobs_ok_find; [done|]. apply map_last_find; [apply Hm|done]. Qed.
Lemma jobs_ok_sublist m m' : m' `sublist_of` m → jobs_ok m → jobs_ok m'.
Proof. intros Hs [Hm Hf]. split; [by eapply map_ok_sublist|by eapply Forall_sublist]. Qed.

Lemma jobs_ok_add job m : (job_id job = -1 ∨ 1 ≤ job_id job) → jobs_ok m → jobs_ok (addJob job m).
Proof.
  intros Hid Hm. unfold addJob. zcase.
  - apply jobs_ok_set; [|done|done]. destruct (last m) as [[k j]|] eqn:E; cbn; [|lia]. apply jobs_ok_last in E; [lia|done].
  - apply jobs_ok_set; [lia|done|done].
Qed.
Lemma jobs_ok_remove i m m' : jobs_ok m → removeJobById i m = Some m' → jobs_ok m'.
Proof.
  intros Hm. unfold removeJobById. zcase; [destruct (last m)|destruct (map_find i m)]; intros; simplify_eq; by apply jobs_ok_erase.
Qed.
Lemma getJobById_ok i m k j : jobs_ok m → getJobById i m = Some (k, j) → map_find k m = Some j ∧ 1 ≤ k ∧ job_id j = k.
Proof.
  intros Hm. unfold getJobById. zcase.
  - intros Hl. split; [apply map_last_find; [apply Hm|done]|]. by eapply jobs_ok_last.
  - destruct (map_find i m) eqn:E; [|done]. intros [= <- <-]. split; [done|]. by eapply jobs_ok_find.
Qed.

Lemma last_is_Some {A} (l : list A) : l ≠ [] → is_Some (last l).
Proof. destruct (last l) eqn:E; [eauto|]. by apply last_None in E. Qed.

(** A job that exists can be fetched and removed. *)
Lemma jobExist_find i m : jobExist i m = true → is_Some (map_find i m).
Proof. unfold jobExist. destruct (map_find i m); [eauto|done]. Qed.
Lemma jobExist_positive i m : jobs_ok m → jobExist i m = true → 1 ≤ i.
Proof. intros Hm [j Hj]%jobExist_find. by eapply jobs_ok_find in Hj as [? _]. Qed.

Lemma stoppedJobs_last m : stoppedJobs m = true → is_Some (getLastStoppedJob m).
Proof.
  unfold stoppedJobs, getLastStoppedJob. intros ([k j] & Hin & Hs)%existsb_exists.
  destruct (find _ _) eqn:E; [eauto|]. eapply find_none in E; [|apply list_elem_of_In, elem_of_reverse, list_elem_of_In; exact Hin].
  cbn in *. congruence.
Qed.
Lemma getLastStoppedJob_find m k j : jobs_ok m → getLastStoppedJob m = Some (k, j) → map_find k m = Some j ∧ 1 ≤ k ∧ job_id j = k ∧ stopped j = true.
Proof.
  intros Hm [Hin Hs]%find_some. apply list_elem_of_In in Hin. rewrite elem_of_reverse in Hin. apply map_elem_find in Hin; [|apply Hm].
  destruct (jobs_ok_find _ _ _ Hm Hin). done.
Qed.
