(* ===== verification/ShellState.v ===== *)
(** * [hw1/.../Commands.h], [Commands.cpp]: the state of the shell

    The kernel and the C library are an oracle (class [ShellOS]): [scall] gives the
    return value of a call and the new state of the world.  The streams [cout] and
    [cerr], flushed by every [endl], and [perror] write to the descriptors 1 and 2.
    [SmallShell] is a record; the singleton is the state of the monad. *)

From S2P Require Import Prelude CString JobsList.

Inductive shcall :=
| s_getpid
| s_getcwd
| s_chdir (path : str)
| s_time
| s_alarm (seconds : Z)
| s_fork
| s_setpgrp
| s_execvp (args : list str)
| s_waitpid (pid options : Z)
| s_kill (pid sig : Z)
| s_setaffinity (pid mask : Z)
| s_malloc (size : Z)
| s_open (path : str) (flags mode : Z)
| s_read (fd count : Z)
| s_write (fd : Z) (data : str)
| s_lseek (fd offset whence : Z)
| s_close (fd : Z)
| s_dup (fd : Z)
| s_dup2 (fd fd2 : Z)
| s_pipe
| s_remove (path : str)
| s_rename (old new : str)
| s_getline
| s_signal (sig : Z).

(** [sdata] is what the last [read], [getcwd] or [getline] stored, [sstatus] the
    status of the last [waitpid], [spipe] the descriptors of the last [pipe]. *)
Class ShellOS (W : Type) := {
  scall : shcall → W → Z * W;
  serrno : W → Z;
  sdata : W → str;
  sstatus : W → Z;
  spipe : W → Z * Z;
  sstrerror : Z → str
}.

(** [SmallShell]; [foreground_job] has no value until a job runs in the
    foreground.  [min_completion_time] is the static variable of
    [TimeoutCommand::execute]. *)
Record SmallShell (W : Type) := Shell {
  sworld : W;
  old_pwd : bool;
  old_path : str;
  exit_shell : bool;
  wait_job_pid : Z;
  foreground_job_killed : bool;
  foreground_job : option JobEntry;
  jobs_list : jobs;
  timeout_list : jobs;
  m_prompt_name : str;
  min_completion_time : Z
}.
Arguments Shell {W}.
Arguments sworld {W}.
Arguments old_pwd {W}.
Arguments old_path {W}.
Arguments exit_shell {W}.
Arguments wait_job_pid {W}.
Arguments foreground_job_killed {W}.
Arguments foreground_job {W}.
Arguments jobs_list {W}.
Arguments timeout_list {W}.
Arguments m_prompt_name {W}.
Arguments min_completion_time {W}.

Definition DEFAULT_PROMPT_NAME : str := lit "smash".

Definition initial_shell {W} (w : W) : SmallShell W :=
  Shell w false [] false (-1) false None [] [] DEFAULT_PROMPT_NAME 0.

(** Constants of the C library. *)
Definition STDIN_FILENO : Z := 0.
Definition STDOUT_FILENO : Z := 1.
Definition STDERR_FILENO : Z := 2.
Definition SIGINT : Z := 2.
Definition SIGKILL : Z := 9.
Definition SIGALRM : Z := 14.
Definition SIGCONT : Z := 18.
Definition SIGSTOP : Z := 19.
Definition SIGTSTP : Z := 20.
Definition WNOHANG : Z := 1.
Definition WUNTRACED : Z := 2.
Definition O_RDONLY : Z := 0.
Definition O_WRONLY : Z := 1.
Definition O_CREAT : Z := 64.
Definition O_TRUNC : Z := 512.
Definition O_APPEND : Z := 1024.
Definition SEEK_CUR : Z := 1.
Definition ESRCH : Z := 3.
Definition EINVAL : Z := 22.
Definition WIFSTOPPED (status : Z) : bool := Z.land status 255 =? 127.

Section Code.
Context {W : Type} {os : ShellOS W}.
Abbreviation SM := (M (SmallShell W)).

Definition set_world (w : W) (s : SmallShell W) : SmallShell W :=
  Shell w (old_pwd s) (old_path s) (exit_shell s) (wait_job_pid s) (foreground_job_killed s) (foreground_job s)
    (jobs_list s) (timeout_list s) (m_prompt_name s) (min_completion_time s).
Definition set_old_path (p : str) (s : SmallShell W) : SmallShell W :=
  Shell (sworld s) true p (exit_shell s) (wait_job_pid s) (foreground_job_killed s) (foreground_job s)
    (jobs_list s) (timeout_list s) (m_prompt_name s) (min_completion_time s).
Definition set_exit_shell (s : SmallShell W) : SmallShell W :=
  Shell (sworld s) (old_pwd s) (old_path s) true (wait_job_pid s) (foreground_job_killed s) (foreground_job s)
    (jobs_list s) (timeout_list s) (m_prompt_name s) (min_completion_time s).
Definition set_wait_job_pid (p : Z) (s : SmallShell W) : SmallShell W :=
  Shell (sworld s) (old_pwd s) (old_path s) (exit_shell s) p (foreground_job_killed s) (foreground_job s)
    (jobs_list s) (timeout_list s) (m_prompt_name s) (min_completion_time s).
Definition set_killed (b : bool) (s : SmallShell W) : SmallShell W :=
  Shell (sworld s) (old_pwd s) (old_path s) (exit_shell s) (wait_job_pid s) b (foreground_job s)
    (jobs_list s) (timeout_list s) (m_prompt_name s) (min_completion_time s).
Definition set_foreground (j : JobEntry) (s : SmallShell W) : SmallShell W :=
  Shell (sworld s) (old_pwd s) (old_path s) (exit_shell s) (wait_job_pid s) (foreground_job_killed s) (Some j)
    (jobs_list s) (timeout_list s) (m_prompt_name s) (min_completion_time s).
Definition set_jobs (m : jobs) (s : SmallShell W) : SmallShell W :=
  Shell (sworld s) (old_pwd s) (old_path s) (exit_shell s) (wait_job_pid s) (foreground_job_killed s) (foreground_job s)
    m (timeout_list s) (m_prompt_name s) (min_completion_time s).
Definition set_timeouts (m : jobs) (s : SmallShell W) : SmallShell W :=
  Shell (sworld s) (old_pwd s) (old_path s) (exit_shell s) (wait_job_pid s) (foreground_job_killed s) (foreground_job s)
    (jobs_list s) m (m_prompt_name s) (min_completion_time s).
Definition set_prompt (p : str) (s : SmallShell W) : SmallShell W :=
  Shell (sworld s) (old_pwd s) (old_path s) (exit_shell s) (wait_job_pid s) (foreground_job_killed s) (foreground_job s)
    (jobs_list s) (timeout_list s) p (min_completion_time s).
Definition set_min_completion (t : Z) (s : SmallShell W) : SmallShell W :=
  Shell (sworld s) (old_pwd s) (old_path s) (exit_shell s) (wait_job_pid s) (foreground_job_killed s) (foreground_job s)
    (jobs_list s) (timeout_list s) (m_prompt_name s) t.

(** ** System calls and output *)

Definition sys (c : shcall) : SM Z :=
  λ s, let '(rc, w) := scall c (sworld s) in Ok rc (set_world w s).
Definition cout (msg : str) : SM unit := sys (s_write STDOUT_FILENO msg) ;;; ret tt.
Definition cerr (msg : str) : SM unit := sys (s_write STDERR_FILENO msg) ;;; ret tt.
Definition perror (msg : str) : SM unit :=
  let* e := gets (λ s, serrno (sworld s)) in
  cerr (msg ++ lit ": " ++ sstrerror e ++ [LF]).
(** Unwrap what the C++ code does not define. *)
Definition defined {A} (o : option A) : SM A := match o with Some a => ret a | None => fault end.

Definition CloseFd (fd : Z) : SM unit :=
  if fd =? -1 then ret tt
  else
    let* rc := sys (s_close fd) in
    when (rc =? -1) do perror (lit "smash error: close failed").

Fixpoint _WriteWrapper (fuel : nat) (fd : Z) (buffer : str) : SM Z :=
  match fuel with
  | O => nofuel
  | S fuel' =>
    let* bytes_written := sys (s_write fd buffer) in
    if bytes_written =? -1 then
      perror (lit "smash error: close failed") ;;;
      ret (-1)
    else
      let buffer' := drop (Z.to_nat bytes_written) buffer in
      match buffer' with [] => ret 0 | _ => _WriteWrapper fuel' fd buffer' end
  end.

Definition _cmd_line_copy (cmd_line : str) : SM (option str) :=
  let* copied_cmd_line := sys (s_malloc (Z.of_nat (length cmd_line) + 1)) in
  if copied_cmd_line =? NULL then perror (lit "smash error: malloc failed") ;;; ret None
  else ret (Some cmd_line).

(** [JobEntry::JobEntry(cmd_line, pid)]. *)
Definition new_job (cmd_line : str) (pid : Z) : SM JobEntry :=
  let* now := sys s_time in
  ret (Job cmd_line (-1) pid now false).

(** ** The operations of the jobs list that make system calls *)

Definition job_line (present : Z) (job : JobEntry) : str :=
  let passed_time := present - time_epoch job in
  lit "[" ++ dec (job_id job) ++ lit "] " ++ cmd_line job ++ lit " : " ++ dec (pid job) ++ lit " " ++ dec passed_time ++ lit " secs" ++
  (if stopped job then lit " (stopped)" else []) ++ [LF].

Fixpoint print_entries (present : Z) (m : jobs) : SM unit :=
  match m with
  | [] => ret tt
  | e :: m' => cout (job_line present e.2) ;;; print_entries present m'
  end.
Definition printJobsList : SM unit :=
  let* present := sys s_time in
  let* m := gets jobs_list in
  print_entries present m.

Fixpoint kill_entries (m : jobs) : SM unit :=
  match m with
  | [] => ret tt
  | e :: m' =>
    let* rc := sys (s_waitpid (pid e.2) WNOHANG) in
    (if rc =? pid e.2 then ret tt
     else
       cout (dec (pid e.2) ++ lit ": " ++ cmd_line e.2 ++ [LF]) ;;;
       sys (s_kill (pid e.2) SIGKILL) ;;;
       sys (s_waitpid (pid e.2) 0) ;;;
       ret tt) ;;;
    kill_entries m'
  end.
Definition killAllJobs : SM unit := let* m := gets jobs_list in kill_entries m.

Fixpoint unfinished (m : jobs) : SM jobs :=
  match m with
  | [] => ret []
  | e :: m' =>
    let* rc := sys (s_waitpid (pid e.2) WNOHANG) in
    let* rest := unfinished m' in
    ret (if rc =? pid e.2 then rest else e :: rest)
  end.
Definition removeFinishedJobs : SM unit :=
  let* m := gets jobs_list in
  let* m' := unfinished m in
  modify (set_jobs m').

(** [SmallShell::changePromptName], [SmallShell::printPrompt]. *)
Definition changePromptName (prompt_name : str) : SM unit := modify (set_prompt prompt_name).
Definition printPrompt : SM unit := let* p := gets m_prompt_name in cout (p ++ lit "> ").
End Code.

(** ** Reasoning about calls and output *)
Section Rules.
Context {W : Type} {os : ShellOS W}.
Implicit Types s : SmallShell W.

Lemma wp_sys (c : shcall) (Q : Z → SmallShell W → Prop) s :
  (∀ rc w, scall c (sworld s) = (rc, w) → Q rc (set_world w s)) → wp (sys c) Q s.
Proof. intros HQ. unfold wp, sys. destruct (scall c (sworld s)) eqn:E. by apply HQ. Qed.
Lemma wp_cout msg (Q : unit → SmallShell W → Prop) s : (∀ w, Q tt (set_world w s)) → wp (cout msg) Q s.
Proof. intros HQ. apply wp_bind, wp_sys. intros. apply HQ. Qed.
Lemma wp_cerr msg (Q : unit → SmallShell W → Prop) s : (∀ w, Q tt (set_world w s)) → wp (cerr msg) Q s.
Proof. intros HQ. apply wp_bind, wp_sys. intros. apply HQ. Qed.
Lemma wp_perror msg (Q : unit → SmallShell W → Prop) s : (∀ w, Q tt (set_world w s)) → wp (perror msg) Q s.
Proof. intros HQ. apply wp_bind, wp_gets, wp_cerr, HQ. Qed.
Lemma wp_defined {A} (o : option A) (Q : A → SmallShell W → Prop) s : (∃ a, o = Some a ∧ Q a s) → wp (defined o) Q s.
Proof. intros (a & -> & HQ). done. Qed.
End Rules.
