(* ===== verification/ShellDemo.v ===== *)
(** * A concrete world for the shell

    A small kernel on which the shell can be run: a clock that stands still, a
    table of descriptors, regular files at descriptors, child processes that never
    finish by themselves, and the lines of the standard input.  It shows that the
    laws assumed of the kernel can hold, and serves as the input of examples. *)

From S2P Require Import Prelude CString JobsList ShellState.

Record demo := Demo {
  d_clock : Z;
  d_alarms : list Z;
  d_child : Z;
  d_status : Z;
  d_lines : list str;
  d_data : str;
  d_pipe : Z * Z;
  d_fds : gmap Z Z;
  d_next : Z;
  d_files : gmap Z (str * str);
  d_out : list (Z * str)
}.

Definition d_set_alarms (l : list Z) (w : demo) : demo :=
  Demo (d_clock w) l (d_child w) (d_status w) (d_lines w) (d_data w) (d_pipe w) (d_fds w) (d_next w) (d_files w) (d_out w).
Definition d_set_child (c : Z) (w : demo) : demo :=
  Demo (d_clock w) (d_alarms w) c (d_status w) (d_lines w) (d_data w) (d_pipe w) (d_fds w) (d_next w) (d_files w) (d_out w).
Definition d_set_lines (l : list str) (w : demo) : demo :=
  Demo (d_clock w) (d_alarms w) (d_child w) (d_status w) l (d_data w) (d_pipe w) (d_fds w) (d_next w) (d_files w) (d_out w).
Definition d_set_data (d : str) (w : demo) : demo :=
  Demo (d_clock w) (d_alarms w) (d_child w) (d_status w) (d_lines w) d (d_pipe w) (d_fds w) (d_next w) (d_files w) (d_out w).
Definition d_set_pipe (p : Z * Z) (w : demo) : demo :=
  Demo (d_clock w) (d_alarms w) (d_child w) (d_status w) (d_lines w) (d_data w) p (d_fds w) (d_next w) (d_files w) (d_out w).
Definition d_set_fds (m : gmap Z Z) (w : demo) : demo :=
  Demo (d_clock w) (d_alarms w) (d_child w) (d_status w) (d_lines w) (d_data w) (d_pipe w) m (d_next w) (d_files w) (d_out w).
Definition d_set_next (n : Z) (w : demo) : demo :=
  Demo (d_clock w) (d_alarms w) (d_child w) (d_status w) (d_lines w) (d_data w) (d_pipe w) (d_fds w) n (d_files w) (d_out w).
Definition d_set_files (m : gmap Z (str * str)) (w : demo) : demo :=
  Demo (d_clock w) (d_alarms w) (d_child w) (d_status w) (d_lines w) (d_data w) (d_pipe w) (d_fds w) (d_next w) m (d_out w).
Definition d_set_out (l : list (Z * str)) (w : demo) : demo :=
  Demo (d_clock w) (d_alarms w) (d_child w) (d_status w) (d_lines w) (d_data w) (d_pipe w) (d_fds w) (d_next w) (d_files w) l.
Definition d_set_status (n : Z) (w : demo) : demo :=
  Demo (d_clock w) (d_alarms w) (d_child w) n (d_lines w) (d_data w) (d_pipe w) (d_fds w) (d_next w) (d_files w) (d_out w).
Definition d_set_clock (t : Z) (w : demo) : demo :=
  Demo t (d_alarms w) (d_child w) (d_status w) (d_lines w) (d_data w) (d_pipe w) (d_fds w) (d_next w) (d_files w) (d_out w).

(** A descriptor that is not in use, for the open file [d]. *)
Definition d_new (d : Z) (w : demo) : Z * demo :=
  let fd := d_next w in
  if bool_decide (fd = -1) then (-1, w)
  else match d_fds w !! fd with
  | Some _ => (-1, w)
  | None => (fd, d_set_next (fd + 1) (d_set_fds (<[fd := d]> (d_fds w)) w))
  end.

Definition d_do_pipe (w : demo) : Z * demo :=
  let r := d_next w in
  match d_fds w !! r, d_fds w !! (r + 1) with
  | None, None => (0, d_set_next (r + 2) (d_set_pipe (r, r + 1) (d_set_fds (<[r := r]> (<[r + 1 := r]> (d_fds w))) w)))
  | _, _ => (-1, w)
  end.

(** Bytes go to the file at the descriptor, or else to the open file it refers to. *)
Definition d_do_write (fd : Z) (data : str) (w : demo) : Z * demo :=
  match d_files w !! fd with
  | Some (p, _) => (Z.of_nat (length data), d_set_files (<[fd := (p ++ data, [])]> (d_files w)) w)
  | None => (Z.of_nat (length data), d_set_out (d_out w ++ [(default (-1) (d_fds w !! fd), data)]) w)
  end.
Definition d_do_read (fd n : Z) (w : demo) : Z * demo :=
  match d_files w !! fd with
  | Some (p, q) =>
    let got := take (Z.to_nat n) q in
    (Z.of_nat (length got), d_set_data got (d_set_files (<[fd := (p ++ got, drop (Z.to_nat n) q)]> (d_files w)) w))
  | None => (0, d_set_data [] w)
  end.
Definition d_do_lseek (fd offset : Z) (w : demo) : Z * demo :=
  match d_files w !! fd with
  | Some (p, q) =>
    let k := (length p - Z.to_nat (- offset))%nat in
    (Z.of_nat k, d_set_files (<[fd := (take k p, drop k p ++ q)]> (d_files w)) w)
  | None => (-1, w)
  end.

Definition demo_call (c : shcall) (w : demo) : Z * demo :=
  match c with
  | s_getpid => (100, w)
  | s_getcwd => (1, d_set_data (lit "/home") w)
  | s_time => (d_clock w, w)
  | s_alarm n => (0, d_set_alarms (d_alarms w ++ [n]) w)
  | s_fork => (d_child w, d_set_child (if d_child w =? -1 then -1 else d_child w + 1) w)
  | s_waitpid p options => (if options =? WNOHANG then 0 else p, w)
  | s_malloc _ => (1, w)
  | s_open _ _ _ => d_new 77 w
  | s_dup fd => match d_fds w !! fd with Some d => d_new d w | None => (-1, w) end
  | s_dup2 fd fd2 =>
    match d_fds w !! fd with
    | Some d => (if fd2 =? -1 then 0 else fd2, d_set_fds (<[fd2 := d]> (d_fds w)) w)
    | None => (-1, w)
    end
  | s_close fd =>
    match d_fds w !! fd with
    | Some _ => (0, d_set_fds (delete fd (d_fds w)) w)
    | None => (-1, w)
    end
  | s_pipe => d_do_pipe w
  | s_write fd data => d_do_write fd data w
  | s_read fd n => d_do_read fd n w
  | s_lseek fd offset _ => d_do_lseek fd offset w
  | s_getline =>
    match d_lines w with
    | l :: ls => (1, d_set_data l (d_set_lines ls w))
    | [] => (0, d_set_data [] w)
    end
  | _ => (0, w)
  end.

#[export] Instance demo_os : ShellOS demo := {|
  scall := demo_call;
  serrno _ := 22;
  sdata := d_data;
  sstatus := d_status;
  spipe := d_pipe;
  sstrerror _ := lit "error"
|}.

(** Standard input, output and error are the open files 10, 11 and 12. *)
Definition demo_world : demo :=
  Demo 1000 [] 500 0 [] [] (0, 0) (<[0 := 10]> (<[1 := 11]> (<[2 := 12]> ∅))) 3 ∅ [].
