(* ===== verification/Fare.v ===== *)
(** * [hw1/.../Commands.cpp]: [FareCommand], find and replace in a file

    The loop of the code reads as many bytes as the pattern has, and goes back when
    they are not the pattern.  [replace] is the reference: scan once from left to
    right.  The laws of files the loop relies on are the class [FileLaws]. *)

From S2P Require Import Prelude CString JobsList ShellState ShellDemo.

Section Code.
Context {W : Type} {os : ShellOS W}.
Abbreviation SM := (M (SmallShell W)).

(** Closing both files before an early return. *)
Definition close_files (src_file dest_file : Z) : SM unit :=
  sys (s_close src_file) ;;; sys (s_close dest_file) ;;; ret tt.

(** The [do]-[while] loop: the number of instances, [None] after an error.  [wf]
    bounds the writes of one call of [_WriteWrapper]. *)
Fixpoint fare_loop (fuel wf : nat) (src_file dest_file : Z) (pat rep : str) (instances : Z) : SM (option Z) :=
  match fuel with
  | O => nofuel
  | S fuel' =>
    let buf_size := Z.of_nat (length pat) in
    let* bytes_read := sys (s_read src_file buf_size) in
    let* buffer := gets (λ s, sdata (sworld s)) in
    let next n := if bytes_read =? 0 then ret (Some n) else fare_loop fuel' wf src_file dest_file pat rep n in
    if (u64 bytes_read =? buf_size) && bool_decide (take (length pat) buffer = pat) then
      let* rc := _WriteWrapper wf dest_file rep in
      if rc =? -1 then close_files src_file dest_file ;;; ret None
      else next (instances + 1)
    else if 0 <? bytes_read then
      let* rc := _WriteWrapper wf dest_file (take 1 buffer) in
      if rc =? -1 then close_files src_file dest_file ;;; ret None
      else sys (s_lseek src_file (1 - bytes_read) SEEK_CUR) ;;; next instances
    else if bytes_read =? -1 then
      perror (lit "smash error: read failed") ;;;
      close_files src_file dest_file ;;;
      ret None
    else next instances
  end.

(** After the loop. *)
Definition fare_finish (src_file dest_file : Z) (name tmp_file pat : str) (instances : Z) : SM unit :=
  let* rc := sys (s_close src_file) in
  if rc =? -1 then perror (lit "smash error: close failed")
  else
    let* rc := sys (s_close dest_file) in
    if rc =? -1 then perror (lit "smash error: close failed")
    else
      sys (s_remove name) ;;;
      sys (s_rename tmp_file name) ;;;
      cout (lit "replaced " ++ dec instances ++ lit " instances of the string " ++ [DOUBLE_QUOTE] ++ pat ++ [DOUBLE_QUOTE; LF]).

Definition TEMP_FILE : str := lit "_temp".

(** [FareCommand::execute]; mode 0655 is 429. *)
Definition FareCommand_execute (fuel wf : nat) (m_args : list str) : SM unit :=
  match m_args with
  | [_; name; pat; rep] =>
    let tmp_file := name ++ TEMP_FILE in
    let* dest_file := sys (s_open tmp_file (Z.lor (Z.lor O_WRONLY O_TRUNC) O_CREAT) 429) in
    if dest_file =? -1 then perror (lit "smash error: open failed")
    else
      let* src_file := sys (s_open name O_RDONLY 0) in
      if src_file =? -1 then sys (s_close dest_file) ;;; perror (lit "smash error: open failed")
      else
        let* buffer := sys (s_malloc (Z.of_nat (length pat))) in
        if buffer =? NULL then close_files src_file dest_file ;;; perror (lit "smash error: malloc failed")
        else
          let* r := fare_loop fuel wf src_file dest_file pat rep 0 in
          match r with
          | None => ret tt
          | Some instances => fare_finish src_file dest_file name tmp_file pat instances
          end
  | _ => cerr (lit "smash error: fare: invalid arguments" ++ [LF])
  end.
End Code.

(** ** The reference *)

(** Replace every instance of [pat], from left to right, instances not
    overlapping; [skip] characters of [s] belong to the last instance. *)
Fixpoint replace_from (skip : nat) (pat rep s : str) : str :=
  match s with
  | [] => []
  | c :: s' =>
    match skip with
    | S k => replace_from k pat rep s'
    | O => if starts_with pat s then rep ++ replace_from (length pat - 1) pat rep s' else c :: replace_from 0 pat rep s'
    end
  end.
Definition replace (pat rep s : str) : str := replace_from 0 pat rep s.

Fixpoint instances_from (skip : nat) (pat s : str) : Z :=
  match s with
  | [] => 0
  | c :: s' =>
    match skip with
    | S k => instances_from k pat s'
    | O => if starts_with pat s then 1 + instances_from (length pat - 1) pat s' else instances_from 0 pat s'
    end
  end.
Definition instances_of (pat s : str) : Z := instances_from 0 pat s.

(** ** Files

    [file w fd] are the bytes before and after the offset of the file open at
    [fd].  A read of a regular file takes what is there, up to the count, or fails;
    a write at the end of the file takes at least one byte, or fails; [lseek] moves
    back inside the file.  Descriptors that are [apart] refer to different files:
    what is done at one does not change the other ([frame]). *)
Definition frame {W} (file : W → Z → option (str * str)) (apart : W → Z → Z → Prop) (fd : Z) (w w' : W) : Prop :=
  (∀ fd', apart w fd fd' → file w' fd' = file w fd') ∧ (∀ a b, apart w a b → apart w' a b).

Class FileLaws (W : Type) `{ShellOS W} := {
  file : W → Z → option (str * str);
  apart : W → Z → Z → Prop;
  apart_sym : ∀ w a b, apart w a b → apart w b a;
  file_read : ∀ w fd n p q, 0 < n → file w fd = Some (p, q) →
    let '(rc, w') := scall (s_read fd n) w in
    frame file apart fd w w' ∧
    (rc = -1 ∨
     (sdata w' = take (Z.to_nat n) q ∧ rc = Z.of_nat (length (sdata w')) ∧
      file w' fd = Some (p ++ take (Z.to_nat n) q, drop (Z.to_nat n) q)));
  file_write : ∀ w fd data p, data ≠ [] → file w fd = Some (p, []) →
    let '(rc, w') := scall (s_write fd data) w in
    frame file apart fd w w' ∧
    (rc = -1 ∨ (0 < rc ≤ Z.of_nat (length data) ∧ file w' fd = Some (p ++ take (Z.to_nat rc) data, [])));
  file_lseek : ∀ w fd k p p' q, file w fd = Some (p ++ p', q) → k = Z.of_nat (length p') →
    let '(rc, w') := scall (s_lseek fd (- k) SEEK_CUR) w in
    frame file apart fd w w' ∧ file w' fd = Some (p, p' ++ q)
}.

Section Proofs.
Context {W : Type} {os : ShellOS W} {laws : FileLaws W}.
Abbreviation SM := (M (SmallShell W)).

Lemma wp_close_files a b (Q : unit → SmallShell W → Prop) s : (∀ s', Q tt s') → wp (close_files a b) Q s.
Proof. intros HQ. unfold close_files. do 2 (apply wp_bind, wp_sys; intros). apply HQ. Qed.

(** Some read or write failed. *)
Definition io_error : Prop :=
  ∃ c (w : W), (scall c w).1 = -1 ∧ match c with s_read _ _ | s_write _ _ => True | _ => False end.
Lemma io_read_error fd n (w w' : W) : scall (s_read fd n) w = (-1, w') → io_error.
Proof. intros E. exists (s_read fd n), w. by rewrite E. Qed.
Lemma io_write_error fd data (w w' : W) : scall (s_write fd data) w = (-1, w') → io_error.
Proof. intros E. exists (s_write fd data), w. by rewrite E. Qed.

Lemma frame_trans fd (w1 w2 w3 : W) : frame file apart fd w1 w2 → frame file apart fd w2 w3 → frame file apart fd w1 w3.
Proof. intros [F1 A1] [F2 A2]. split; [|by auto]. intros fd' Hfd. rewrite F2 by auto. by apply F1. Qed.

(** Everything is written, at the end of the file, unless a write fails. *)
Lemma write_wrapper_spec wf fd : ∀ data p s,
  data ≠ [] → (length data ≤ wf)%nat → file (sworld s) fd = Some (p, []) →
  wp (_WriteWrapper wf fd data)
     (λ rc s', (rc = -1 ∧ io_error) ∨ (rc = 0 ∧ file (sworld s') fd = Some (p ++ data, []) ∧ frame file apart fd (sworld s) (sworld s'))) s.
Proof.
  induction wf as [|wf IH]; intros data p s Hne Hlen Hf; [destruct data; cbn in *; [done|lia]|]. cbn [_WriteWrapper].
  apply wp_bind, wp_sys. intros rc w E. pose proof (file_write (sworld s) fd data p Hne Hf) as HW. rewrite E in HW.
  destruct HW as [Hother [->|[Hrc Hfd]]]; [apply io_write_error in E; by apply wp_bind, wp_perror; intros; left|].
  destruct (Z.eqb_spec rc (-1)); [lia|]. destruct (drop (Z.to_nat rc) data) as [|c l] eqn:Ed.
  - right. rewrite <- (take_drop (Z.to_nat rc) data), Ed, app_nil_r. cbn. eauto.
  - rewrite <- Ed in *. eapply wp_mono.
    + apply (IH _ (p ++ take (Z.to_nat rc) data)); [by rewrite Ed|rewrite length_drop; lia|exact Hfd].
    + cbn. intros r s' [?|(-> & Hf' & Ho)]; [by left|]. right. split; [done|]. split.
      * by rewrite Hf', <- app_assoc, take_drop.
      * by eapply frame_trans.
Qed.

Lemma starts_with_take pat s : starts_with pat s = true ↔ take (length pat) s = pat.
Proof.
  rewrite starts_with_spec. split; [intros [b ->]; apply take_app_length|].
  intros E. exists (drop (length pat) s). rewrite <- E at 1. by rewrite take_drop.
Qed.

Lemma replace_skip k pat rep s : replace_from k pat rep s = replace pat rep (drop k s).
Proof. unfold replace. revert s. induction k as [|k IH]; intros [|c s]; cbn -[starts_with]; rewrite ?drop_0; try done. Qed.
Lemma instances_skip k pat s : instances_from k pat s = instances_of pat (drop k s).
Proof. unfold instances_of. revert s. induction k as [|k IH]; intros [|c s]; cbn -[starts_with]; rewrite ?drop_0; try done. Qed.

(** The reference at an instance of the pattern, and elsewhere. *)
Lemma replace_hit pat rep q : pat ≠ [] → take (length pat) q = pat →
  replace pat rep q = rep ++ replace pat rep (drop (length pat) q) ∧ instances_of pat q = 1 + instances_of pat (drop (length pat) q).
Proof.
  intros Hne Hq%starts_with_take. destruct q as [|c q]; [by destruct pat|]. unfold replace, instances_of at 1. cbn -[starts_with].
  rewrite Hq, replace_skip, instances_skip. destruct pat as [|x pat]; [done|]. cbn. by rewrite Nat.sub_0_r.
Qed.
Lemma replace_miss pat rep c q : take (length pat) (c :: q) ≠ pat →
  replace pat rep (c :: q) = c :: replace pat rep q ∧ instances_of pat (c :: q) = instances_of pat q.
Proof.
  intros Hq. unfold replace, instances_of. cbn -[starts_with].
  destruct (starts_with pat (c :: q)) eqn:E; [|done]. by apply starts_with_take in E.
Qed.

(** What one turn of the loop promises of the rest. *)
Definition fare_post (src dst : Z) (pat rep out q : str) (n : Z) (r : option Z) (s' : SmallShell W) : Prop :=
  match r with
  | None => io_error
  | Some m => m = n + instances_of pat q ∧ file (sworld s') dst = Some (out ++ replace pat rep q, [])
  end.

Lemma u64_len (l pat : str) : Z.of_nat (length pat) < 2 ^ 64 → (length l ≤ length pat)%nat →
  (u64 (Z.of_nat (length l)) =? Z.of_nat (length pat)) = bool_decide (length l = length pat).
Proof. intros Hp Hl. rewrite u64_small by lia. destruct (decide (length l = length pat)); [rewrite bool_decide_true by done|rewrite bool_decide_false by done]; zcase; lia. Qed.
Lemma fare_loop_spec fuel wf src dst pat rep : ∀ out p q n s,
  pat ≠ [] → rep ≠ [] → Z.of_nat (length pat) < 2 ^ 63 → (length rep ≤ wf)%nat → apart (sworld s) src dst → (length q < fuel)%nat →
  file (sworld s) src = Some (p, q) → file (sworld s) dst = Some (out, []) →
  wp (fare_loop fuel wf src dst pat rep n) (fare_post src dst pat rep out q n) s.
Proof.
  induction fuel as [|fuel IH]; intros out p q n s Hp Hr Hlen Hwf Hsd Hfuel Hs Hd; [lia|]. cbn [fare_loop].
  assert (Hpos : (0 < length pat)%nat) by (destruct pat; [done|cbn; lia]).
  apply wp_bind, wp_sys. intros rc w E. pose proof (file_read (sworld s) src (Z.of_nat (length pat)) p q ltac:(lia) Hs) as HR.
  rewrite E, Nat2Z.id in HR. apply wp_bind, wp_gets. cbn [sworld set_world].
  destruct HR as [[Ho Ha] [->|(Hdata & Hrc & Hf)]].
  { apply io_read_error in E. change (u64 (-1)) with (2 ^ 64 - 1). destruct (Z.eqb_spec (2 ^ 64 - 1) (Z.of_nat (length pat))); [lia|]. cbn -[perror close_files].
    apply wp_bind, wp_perror. intros. by apply wp_bind, wp_close_files. }
  rewrite Hdata in *. rewrite Hrc in *. rewrite u64_len by (rewrite ?length_take; lia).
  rewrite <- (Ho dst) in Hd by done. apply Ha in Hsd. clear Ho Ha. rewrite take_take, Nat.min_id.
  destruct (decide (take (length pat) q = pat)) as [Hit|Hmiss].
  - pose proof (f_equal length Hit) as Hql. rewrite length_take in Hql.
    rewrite Hit, !bool_decide_true by done. cbn [andb]. destruct (replace_hit pat rep q Hp Hit) as [Hrep Hins].
    apply wp_bind. eapply wp_mono; [by apply write_wrapper_spec|]. cbn. intros c s' [[-> ?]|(-> & Hd' & Ho' & Ha')].
    { by apply wp_bind, wp_close_files. }
    destruct (Z.eqb_spec (Z.of_nat (length pat)) 0); [lia|]. cbn. eapply wp_mono.
    + apply (IH (out ++ rep) (p ++ pat) (drop (length pat) q)); try done; [by apply Ha'|rewrite length_drop; lia|]. by rewrite Ho', Hf, Hit by (by apply apart_sym).
    + intros [m|] s''; [|done]. unfold fare_post. rewrite Hrep, Hins, <- app_assoc. intros [-> ?]. split; [lia|done].
  - rewrite (bool_decide_false _ Hmiss), andb_false_r. destruct q as [|c q].
    { rewrite take_nil. cbn. unfold fare_post. cbn. rewrite app_nil_r. split; [unfold instances_of; cbn; lia|done]. }
    destruct (replace_miss pat rep c q Hmiss) as [Hrep Hins]. destruct (length pat) as [|k] eqn:Ek; [lia|]. rewrite !firstn_cons in *. cbn [length].
    destruct (Z.ltb_spec 0 (Z.of_nat (S (length (take k q))))); [|lia].
    apply wp_bind. eapply wp_mono; [apply (write_wrapper_spec wf dst [c] out); [done|destruct rep; cbn in *; [done|lia]|done]|].
    cbn -[Z.of_nat]. intros rc' s' [[-> ?]|(-> & Hd' & Ho' & Ha')]; [by apply wp_bind, wp_close_files|]. cbn -[Z.of_nat]. apply wp_bind, wp_sys. intros rc2 w2 E2.
    apply Ha' in Hsd as Hsd'. rewrite <- (Ho' src) in Hf by (by apply apart_sym). rewrite cons_middle, app_assoc in Hf.
    pose proof (file_lseek (sworld s') src (Z.of_nat (length (take k q))) (p ++ [c]) (take k q) (drop k q)) as HL.
    replace (- Z.of_nat (length (take k q))) with (1 - Z.of_nat (S (length (take k q)))) in HL by lia. rewrite E2 in HL.
    destruct HL as [[Ho2 Ha2] Hf2]; [done|done|]. rewrite take_drop in Hf2. destruct (Z.eqb_spec (Z.of_nat (S (length (take k q)))) 0); [lia|].
    eapply wp_mono.
    + apply (IH (out ++ [c]) (p ++ [c]) q); try done; [by apply Ha2|cbn in *; lia|]. cbn. by rewrite Ho2.
    + intros [m|] s''; [|done]. unfold fare_post. rewrite Hrep, Hins, <- app_assoc. done.
Qed.
(** C10: [fare] replaces: when no read or write fails, its loop ends, has written
    to the temporary file the bytes of the source file with every instance of the
    pattern replaced, scanning from left to right without overlap, and returns the
    number of instances. *)
Theorem fare_replaces (pat rep content : str) (src dst : Z) (s : SmallShell W) :
  pat ≠ [] → rep ≠ [] → Z.of_nat (length pat) < 2 ^ 63 → apart (sworld s) src dst →
  (∀ fd n w, (scall (s_read fd n) w).1 ≠ -1) → (∀ fd data w, (scall (s_write fd data) w).1 ≠ -1) →
  file (sworld s) src = Some ([], content) → file (sworld s) dst = Some ([], []) →
  wp (fare_loop (S (length content)) (length rep) src dst pat rep 0)
     (λ r s', r = Some (instances_of pat content) ∧ file (sworld s') dst = Some (replace pat rep content, [])) s.
Proof.
  intros Hp Hr Hlen Hsd Hread Hwrite Hsrc Hdst. eapply wp_mono; [apply (fare_loop_spec _ _ _ _ _ _ [] [] content); try done; lia|].
  intros [m|] s'; cbn; [intros [-> ?]; done|]. intros ([] & w & E & Hc); try done; [by apply Hread in E|by apply Hwrite in E].
Qed.
End Proofs.

(** ** An example *)

#[export] Program Instance demo_files : FileLaws demo := {|
  file w fd := d_files w !! fd;
  apart w a b := a ≠ b
|}.
Next Obligation. done. Qed.
Next Obligation.
  intros w fd n p q Hn Hf. cbn. unfold d_do_read. rewrite Hf. cbn. split.
  - split; [|done]. intros fd' Hne. cbn. by rewrite lookup_insert_ne.
  - right. split; [done|]. split; [done|]. by rewrite lookup_insert_eq.
Qed.
Next Obligation.
  intros w fd data p Hne Hf. cbn. unfold d_do_write. rewrite Hf. cbn. split.
  - split; [|done]. intros fd' Hfd. cbn. by rewrite lookup_insert_ne.
  - right. split; [destruct data; cbn; [done|lia]|]. by rewrite lookup_insert_eq, Nat2Z.id, firstn_all.
Qed.
Next Obligation.
  intros w fd k p p' q Hf ->. cbn. unfold d_do_lseek. rewrite Hf. cbn. split.
  - split; [|done]. intros fd' Hfd. cbn. by rewrite lookup_insert_ne.
  - rewrite lookup_insert_eq, Z.opp_involutive, Nat2Z.id, length_app, Nat.add_sub. by rewrite take_app_length, drop_app_length.
Qed.

Lemma demo_read_ok fd n (w : demo) : (scall (s_read fd n) w).1 ≠ -1.
Proof. cbn. unfold d_do_read. destruct (d_files w !! fd) as [[p q]|]; cbn; lia. Qed.
Lemma demo_write_ok fd data (w : demo) : (scall (s_write fd data) w).1 ≠ -1.
Proof. cbn. unfold d_do_write. destruct (d_files w !! fd) as [[p q]|]; cbn; lia. Qed.

Definition demo_fare : SmallShell demo :=
  initial_shell (d_set_files (<[5 := ([], lit "one two on one")]> (<[6 := ([], [])]> ∅)) demo_world).

Lemma fare_replaces_witness :
  wp (fare_loop (S (length (lit "one two on one"))) (length (lit "1")) 5 6 (lit "one") (lit "1") 0)
     (λ r s', r = Some (instances_of (lit "one") (lit "one two on one")) ∧
        file (sworld s') 6 = Some (replace (lit "one") (lit "1") (lit "one two on one"), [])) demo_fare ∧
  instances_of (lit "one") (lit "one two on one") = 2 ∧ replace (lit "one") (lit "1") (lit "one two on one") = lit "1 two on 1".
Proof.
  split; [|split; vm_compute; reflexivity].
  apply (fare_replaces (lit "one") (lit "1") (lit "one two on one") 5 6 demo_fare); [done|done|done|done|apply demo_read_ok|apply demo_write_ok|reflexivity|reflexivity].
Defined.
