(* ===== verification/Builtins.v ===== *)
(** * [hw1/.../Commands.cpp]: the built-in commands

    One definition per [execute] method; [m_args] are the words of the command line,
    the name of the command first.  [m_args[i]] is read only where the number of
    arguments has been tested. *)

From S2P Require Import Prelude CString ShellParse JobsList ShellState.

(** [m_args[i]]. *)
Definition arg (i : nat) (m_args : list str) : str := nth i m_args [].

Section Code.
Context {W : Type} {os : ShellOS W}.
Abbreviation SM := (M (SmallShell W)).

Definition ChangePromptCommand_execute (m_args : list str) : SM unit :=
  if (2 <=? length m_args)%nat then changePromptName (arg 1 m_args)
  else changePromptName DEFAULT_PROMPT_NAME.

Definition ShowPidCommand_execute : SM unit :=
  let* p := sys s_getpid in
  cout (lit "smash pid is " ++ dec p ++ [LF]).

Definition GetCurrDirCommand_execute : SM unit :=
  let* cwd := sys s_getcwd in
  let* path := gets (λ s, sdata (sworld s)) in
  if cwd =? NULL then perror (lit "smash error: getcwd failed")
  else cout (path ++ [LF]).

(** [smash.old_path = cwd] is not defined for a null pointer. *)
Definition ChangeDirCommand_execute (m_args : list str) : SM unit :=
  if negb (length m_args =? 2)%nat then cerr (lit "smash error: cd: too many arguments" ++ [LF])
  else
    let* s := getS in
    let dash := bool_decide (arg 1 m_args = lit "-") in
    if dash && negb (old_pwd s) then cerr (lit "smash error: cd: OLDPWD not set" ++ [LF])
    else
      let new_path := if dash then old_path s else arg 1 m_args in
      let* cwd := sys s_getcwd in
      let* path := gets (λ s, sdata (sworld s)) in
      (when (cwd =? NULL) do perror (lit "smash error: getcwd failed")) ;;;
      let* rc := sys (s_chdir new_path) in
      if rc =? -1 then perror (lit "smash error: chdir failed")
      else if cwd =? NULL then fault
      else modify (set_old_path path).

Definition JobsCommand_execute : SM unit :=
  removeFinishedJobs ;;;
  printJobsList.

(** The test of the arguments [fg] and [bg] share. *)
Definition bad_job_args (m_args : list str) : bool :=
  (2 <? length m_args)%nat || ((length m_args =? 2)%nat && negb (_is_number (arg 1 m_args))).

Definition job_name (j : JobEntry) : str := cmd_line j ++ lit " : " ++ dec (pid j) ++ [LF].
Definition no_such_job (cmd : str) (id : str) : str := lit "smash error: " ++ cmd ++ lit ": job-id " ++ id ++ lit " does not exist" ++ [LF].

Definition ForegroundCommand_execute (m_args : list str) : SM unit :=
  let two := (length m_args =? 2)%nat in
  if bad_job_args m_args then cerr (lit "smash error: fg: invalid arguments" ++ [LF])
  else
    removeFinishedJobs ;;;
    let* m := gets jobs_list in
    if (length m_args =? 1)%nat && (jobsNumber m =? 0) then cerr (lit "smash error: fg: jobs list is empty" ++ [LF])
    else if two && negb (jobExist (atoi (arg 1 m_args)) m) then cerr (no_such_job (lit "fg") (arg 1 m_args))
    else
      let job_id := if two then atoi (arg 1 m_args) else -1 in
      let* job := defined (getJobById job_id m) in
      modify (set_foreground job.2) ;;;
      let* m' := defined (removeJobById job_id m) in
      modify (set_jobs m') ;;;
      modify (set_wait_job_pid (pid job.2)) ;;;
      sys (s_kill (pid job.2) SIGCONT) ;;;
      cout (job_name job.2).

(** Resuming the job at the key [k]. *)
Definition resume (k : Z) (job : JobEntry) : SM unit :=
  sys (s_kill (pid job) SIGCONT) ;;;
  modify (λ s, set_jobs (map_set k (set_stopped false job) (jobs_list s)) s) ;;;
  cout (job_name job).

Definition BackgroundCommand_execute (m_args : list str) : SM unit :=
  let two := (length m_args =? 2)%nat in
  if bad_job_args m_args then cerr (lit "smash error: bg: invalid arguments" ++ [LF])
  else
    removeFinishedJobs ;;;
    let* m := gets jobs_list in
    if (length m_args =? 1)%nat && negb (stoppedJobs m) then cerr (lit "smash error: bg: there is no stopped jobs to resume" ++ [LF])
    else if two && negb (jobExist (atoi (arg 1 m_args)) m) then cerr (no_such_job (lit "bg") (arg 1 m_args))
    else if two then
      let* job := defined (getJobById (atoi (arg 1 m_args)) m) in
      if negb (stopped job.2) then
        cerr (lit "smash error: bg: job-id " ++ dec (job_id job.2) ++ lit " is already running in the background" ++ [LF])
      else resume job.1 job.2
    else
      let* job := defined (getLastStoppedJob m) in
      resume job.1 job.2.

Definition QuitCommand_execute (m_args : list str) : SM unit :=
  removeFinishedJobs ;;;
  let* m := gets jobs_list in
  (when ((length m_args =? 2)%nat && bool_decide (arg 1 m_args = lit "kill")) do
     (cout (lit "smash: sending SIGKILL signal to " ++ dec (jobsNumber m) ++ lit " jobs:" ++ [LF]) ;;; killAllJobs)) ;;;
  modify set_exit_shell.

(** The effect of a signal on the list of jobs. *)
Definition after_signal (signal_type k : Z) (job : JobEntry) : SM unit :=
  let* m := gets jobs_list in
  if signal_type =? SIGSTOP then modify (set_jobs (map_set k (set_stopped true job) m))
  else if signal_type =? SIGCONT then modify (set_jobs (map_set k (set_stopped false job) m))
  else if signal_type =? SIGKILL then
    sys (s_waitpid (pid job) WNOHANG) ;;;
    let* m' := defined (removeJobById (job_id job) m) in
    modify (set_jobs m')
  else ret tt.

(** The first argument of [kill] is a dash and a number. *)
Definition bad_kill_args (m_args : list str) : bool :=
  negb (length m_args =? 3)%nat ||
  match arg 1 m_args with
  | c :: rest => negb (bool_decide (c = "-"%char)) || negb (_is_number rest)
  | [] => true
  end ||
  negb (_is_number (arg 2 m_args)).

Definition KillCommand_execute (m_args : list str) : SM unit :=
  let signal_type := atoi (drop 1 (arg 1 m_args)) in
  if bad_kill_args m_args || (signal_type <? 1) || (31 <? signal_type) then
    cerr (lit "smash error: kill: invalid arguments" ++ [LF])
  else
    removeFinishedJobs ;;;
    let* m := gets jobs_list in
    if negb (jobExist (atoi (arg 2 m_args)) m) then cerr (no_such_job (lit "kill") (arg 2 m_args))
    else
      let* job := defined (getJobById (atoi (arg 2 m_args)) m) in
      sys (s_kill (pid job.2) signal_type) ;;;
      cout (lit "signal number " ++ dec signal_type ++ lit " was sent to pid " ++ dec (pid job.2) ++ [LF]) ;;;
      after_signal signal_type job.1 job.2.

(** [CPU_ZERO] and [CPU_SET]: the latter ignores a number that is not below 1024. *)
Definition cpu_mask (cpu : Z) : Z := if (0 <=? cpu) && (cpu <? 1024) then Z.shiftl 1 cpu else 0.

Definition SetcoreCommand_execute (m_args : list str) : SM unit :=
  if negb (length m_args =? 3)%nat || ((length m_args =? 3)%nat && (negb (_is_number (arg 1 m_args)) || negb (_is_number (arg 2 m_args)))) then
    cerr (lit "smash error: setcore: invalid arguments" ++ [LF])
  else
    let mask := cpu_mask (atoi (arg 2 m_args)) in
    removeFinishedJobs ;;;
    let* m := gets jobs_list in
    if negb (jobExist (atoi (arg 1 m_args)) m) then cerr (no_such_job (lit "setcore") (arg 1 m_args))
    else
      let* job := defined (getJobById (atoi (arg 1 m_args)) m) in
      let* rc := sys (s_setaffinity (pid job.2) mask) in
      if rc =? 0 then ret tt
      else
        let* e := gets (λ s, serrno (sworld s)) in
        if e =? EINVAL then cerr (lit "smash error: setcore: invalid core number" ++ [LF])
        else if e =? ESRCH then cerr (no_such_job (lit "setcore") (arg 1 m_args))
        else perror (lit "smash error: sched_setaffinity failed").
End Code.
