(* ===== verification/Shell.v ===== *)
(** * [hw1/.../Commands.cpp], [signals.cpp], [smash.cpp]: running command lines

    External commands, redirections, pipes and timeouts, [CreateCommand], and the
    commands that run other commands; the signal handlers and the main loop.  The
    depth of nested commands is bounded by fuel, and so are the loops of [fare]
    ([loops] for the reads, [wf] for the writes of one call).  Signals arrive while
    the shell reads a line or waits for a job; a handler runs as a whole. *)

From S2P Require Import Prelude CString ShellParse JobsList ShellState Fare Builtins.

(** The classes derived from [Command], with their members. *)
Inductive command :=
| RedirectionCommand (r : redirection)
| PipeCommand (p : pipe_parts)
| ChangePromptCommand (m_args : list str)
| ShowPidCommand (m_args : list str)
| GetCurrDirCommand (m_args : list str)
| ChangeDirCommand (m_args : list str)
| JobsCommand (m_args : list str)
| ForegroundCommand (m_args : list str)
| BackgroundCommand (m_args : list str)
| QuitCommand (m_args : list str)
| KillCommand (m_args : list str)
| FareCommand (m_args : list str)
| SetcoreCommand (m_args : list str)
| TimeoutCommand (m_args : list str) (m_cmd_line : str)
| ExternalCommand (m_cmd_line : str).

(** The signals the shell handles, and when they arrive during one turn of the main
    loop: while the line is read, and while a job runs in the foreground. *)
Inductive signal := Tstp | Int | Alrm.
Record turn := Turn {
  at_prompt : list signal;
  at_wait : list signal
}.

(** The built-in command with a given name. *)
Definition builtin (firstWord : str) (args : list str) (cmd_line : str) : option command :=
  if bool_decide (firstWord = lit "chprompt") then Some (ChangePromptCommand args)
  else if bool_decide (firstWord = lit "showpid") then Some (ShowPidCommand args)
  else if bool_decide (firstWord = lit "pwd") then Some (GetCurrDirCommand args)
  else if bool_decide (firstWord = lit "cd") then Some (ChangeDirCommand args)
  else if bool_decide (firstWord = lit "jobs") then Some (JobsCommand args)
  else if bool_decide (firstWord = lit "fg") then Some (ForegroundCommand args)
  else if bool_decide (firstWord = lit "bg") then Some (BackgroundCommand args)
  else if bool_decide (firstWord = lit "quit") then Some (QuitCommand args)
  else if bool_decide (firstWord = lit "kill") then Some (KillCommand args)
  else if bool_decide (firstWord = lit "fare") then Some (FareCommand args)
  else if bool_decide (firstWord = lit "setcore") then Some (SetcoreCommand args)
  else if bool_decide (firstWord = lit "timeout") then Some (TimeoutCommand args cmd_line)
  else None.

(** An array of arguments ends at the first null pointer. *)
Fixpoint until_null (args : list (option str)) : list str :=
  match args with
  | Some a :: args' => a :: until_null args'
  | _ => []
  end.

Section Code.
Context {W : Type} {os : ShellOS W}.
Abbreviation SM := (M (SmallShell W)).

(** The constructor of a built-in command splits the line into [m_args], which is
    undefined for too many words. *)
Definition BuiltInCommand (cmd_line : str) : SM (list str) := defined (_parseCommandLine cmd_line).

(** [SmallShell::CreateCommand]. *)
Definition CreateCommand (cmd_line : str) : SM (option command) :=
  let firstWord := first_word cmd_line in
  if _isRedirectionCommand cmd_line then
    let* r := defined (parse_redirection cmd_line) in ret (Some (RedirectionCommand r))
  else if _isPipeCommand cmd_line then
    let* p := defined (parse_pipe cmd_line) in ret (Some (PipeCommand p))
  else match builtin firstWord [] cmd_line with
  | Some _ =>
    let* args := BuiltInCommand cmd_line in
    ret (builtin firstWord args cmd_line)
  | None => ret (if bool_decide (firstWord = []) then None else Some (ExternalCommand cmd_line))
  end.

(** ** External commands *)

(** The array [args]; [None] when nothing was written to it. *)
Definition external_args (m_cmd_line : str) : SM (option (list str)) :=
  let* copy := _cmd_line_copy m_cmd_line in
  let* cmd_line := defined copy in
  let* cmd_line := defined (_removeBackgroundSign cmd_line) in
  if negb (contains (lit "*") m_cmd_line) && negb (contains (lit "?") m_cmd_line) then
    let* args := defined (_parseCommandLine cmd_line) in
    ret (match args with [] => None | _ => Some args end)
  else
    let* a0 := _cmd_line_copy (lit "/bin/bash") in
    let* a1 := _cmd_line_copy (lit "-c") in
    ret (Some (until_null [a0; a1; Some cmd_line])).

(** [_freeArgs] walks the array up to its null pointer. *)
Definition _freeArgs (args : option (list str)) : SM unit := defined args ;;; ret tt.

(** In the child: [execvp] returns only when it fails, otherwise another program
    runs and this one has ended. *)
Definition external_child (args : option (list str)) (close_fd : Z) : SM (option JobEntry) :=
  sys s_setpgrp ;;;
  CloseFd close_fd ;;;
  let* a := defined args in
  let* rc := sys (s_execvp a) in
  if rc =? -1 then
    perror (lit "smash error: execve failed") ;;;
    let* e := gets (λ s, serrno (sworld s)) in
    exit e
  else exit 0.

(** In the parent: the job [child_job]. *)
Definition external_parent (args : option (list str)) (m_cmd_line : str) (pid : Z) : SM (option JobEntry) :=
  let* job := new_job m_cmd_line (i32 pid) in
  let* background := defined (_isBackgroundComamnd m_cmd_line) in
  let* child_job :=
    (if background then
       modify (λ s, set_jobs (addJob job (jobs_list s)) s) ;;;
       let* m := gets jobs_list in
       let* e := defined (getJobById (-1) m) in
       ret e.2
     else
       modify (set_foreground job) ;;;
       modify (set_wait_job_pid (i32 pid)) ;;;
       ret job) in
  _freeArgs args ;;;
  ret (Some child_job).

(** [ExternalCommand::execute(close_fd)]; [pid] is a [size_t]. *)
Definition ExternalCommand_execute (m_cmd_line : str) (close_fd : Z) : SM (option JobEntry) :=
  let* args := external_args m_cmd_line in
  let* rc := sys s_fork in
  let pid := u64 rc in
  if pid =? 0 then external_child args close_fd
  else if 0 <? pid then external_parent args m_cmd_line pid
  else perror (lit "smash error: fork failed") ;;; ret None.

(** ** Commands that run commands *)
Section Nested.
(** How the commands inside are run. *)
Variable exec : command → SM (option JobEntry).

(** [SmallShell::executeCommand]. *)
Definition executeCommand_with (cmd_line : str) : SM unit :=
  let* cmd := CreateCommand cmd_line in
  match cmd with
  | Some c => exec c ;;; ret tt
  | None => ret tt
  end.

(** A call, with a message when it fails. *)
Definition or_complain (c : shcall) (msg : str) : SM unit :=
  let* rc := sys c in
  when (rc =? -1) do perror msg.

Definition close_failed : str := lit "smash error: close failed".
Definition dup2_failed : str := lit "smash error: dup2 failed".

Definition RedirectionCommand_execute (r : redirection) : SM unit :=
  let flags := Z.lor (Z.lor O_WRONLY O_CREAT) (if r_append r then O_APPEND else O_TRUNC) in
  let* file_fd := sys (s_open (r_file_name r) flags 429) in
  if file_fd =? -1 then perror (lit "smash error: open failed")
  else
    let* saved_stdout := sys (s_dup STDOUT_FILENO) in
    if saved_stdout =? -1 then
      perror (lit "smash error: dup failed") ;;;
      sys (s_close file_fd) ;;;
      ret tt
    else
      let* rc := sys (s_dup2 file_fd STDOUT_FILENO) in
      if rc =? -1 then
        perror dup2_failed ;;;
        sys (s_close saved_stdout) ;;;
        sys (s_close file_fd) ;;;
        ret tt
      else
        executeCommand_with (r_cmd_line r) ;;;
        or_complain (s_close file_fd) close_failed ;;;
        or_complain (s_dup2 saved_stdout STDOUT_FILENO) dup2_failed ;;;
        or_complain (s_close saved_stdout) close_failed.

(** One side of a pipe: connect the stream [std] to the end [fd] of the pipe, run. *)
Definition pipe_side (fd std : Z) (run : SM unit) : SM unit :=
  let* rc := sys (s_dup2 fd std) in
  if rc =? -1 then perror dup2_failed
  else
    let* rc := sys (s_close fd) in
    if rc =? -1 then perror close_failed else run.

Definition run_first (c : option command) (close_fd : Z) : SM unit :=
  match c with
  | None => ret tt
  | Some (ExternalCommand line) => ExternalCommand_execute line close_fd ;;; ret tt
  | Some c => exec c ;;; ret tt
  end.
Definition run_second (c : option command) : SM unit :=
  match c with None => ret tt | Some c => exec c ;;; ret tt end.

Definition PipeCommand_execute (p : pipe_parts) : SM unit :=
  let* saved_stdin := sys (s_dup STDIN_FILENO) in
  if saved_stdin =? -1 then perror (lit "smash error: dup failed")
  else
    let* saved_out := sys (s_dup (p_std_type p)) in
    if saved_out =? -1 then
      perror (lit "smash error: dup failed") ;;;
      sys (s_close saved_stdin) ;;;
      ret tt
    else
      let* rc := sys s_pipe in
      let* pipe_fd := gets (λ s, spipe (sworld s)) in
      if rc =? -1 then
        perror (lit "smash error: pipe failed") ;;;
        sys (s_close saved_stdin) ;;;
        sys (s_close saved_out) ;;;
        ret tt
      else
        let* command1 := CreateCommand (p_cmd_line1 p) in
        let* command2 := CreateCommand (p_cmd_line2 p) in
        pipe_side pipe_fd.2 (p_std_type p) (run_first command1 pipe_fd.1) ;;;
        or_complain (s_dup2 saved_out (p_std_type p)) dup2_failed ;;;
        or_complain (s_close saved_out) close_failed ;;;
        pipe_side pipe_fd.1 STDIN_FILENO (run_second command2) ;;;
        or_complain (s_dup2 saved_stdin STDIN_FILENO) dup2_failed ;;;
        or_complain (s_close saved_stdin) close_failed.

(** Scheduling the end of the job of an external command. *)
Definition schedule (job_time : Z) (m_cmd_line : str) (child_job : JobEntry) : SM unit :=
  let job := set_cmd_line m_cmd_line child_job in
  let* now := sys s_time in
  let completion_time := now + job_time in
  let* s := getS in
  (when ((completion_time <? min_completion_time s) || (length (timeout_list s) =? 0)%nat) do
     (sys (s_alarm job_time) ;;; modify (set_min_completion completion_time))) ;;;
  modify (λ s, set_timeouts (map_insert_new completion_time job (timeout_list s)) s) ;;;
  let* m := gets jobs_list in
  if jobExist (job_id job) m then
    let* e := defined (getJobById (job_id job) m) in
    modify (set_jobs (map_set e.1 (set_cmd_line m_cmd_line e.2) m))
  else ret tt.

Definition TimeoutCommand_execute (m_args : list str) (m_cmd_line : str) : SM unit :=
  if (length m_args <? 3)%nat || negb (_is_number (arg 1 m_args)) || (atoi (arg 1 m_args) <? 0) then
    cerr (lit "smash error: timeout: invalid arguments" ++ [LF])
  else
    let job_time := atoi (arg 1 m_args) in
    let* command := CreateCommand (timeout_inner m_cmd_line) in
    match command with
    | None => ret tt
    | Some c =>
      let* child := exec c in
      match c with
      | ExternalCommand _ => let* job := defined child in schedule job_time m_cmd_line job
      | _ => ret tt
      end
    end.
End Nested.

(** The virtual method [execute]; the result is [child_job] for an external
    command. *)
Fixpoint execute (fuel loops wf : nat) (c : command) : SM (option JobEntry) :=
  match fuel with
  | O => nofuel
  | S fuel' =>
    match c with
    | RedirectionCommand r => RedirectionCommand_execute (execute fuel' loops wf) r ;;; ret None
    | PipeCommand p => PipeCommand_execute (execute fuel' loops wf) p ;;; ret None
    | ChangePromptCommand m_args => ChangePromptCommand_execute m_args ;;; ret None
    | ShowPidCommand _ => ShowPidCommand_execute ;;; ret None
    | GetCurrDirCommand _ => GetCurrDirCommand_execute ;;; ret None
    | ChangeDirCommand m_args => ChangeDirCommand_execute m_args ;;; ret None
    | JobsCommand _ => JobsCommand_execute ;;; ret None
    | ForegroundCommand m_args => ForegroundCommand_execute m_args ;;; ret None
    | BackgroundCommand m_args => BackgroundCommand_execute m_args ;;; ret None
    | QuitCommand m_args => QuitCommand_execute m_args ;;; ret None
    | KillCommand m_args => KillCommand_execute m_args ;;; ret None
    | FareCommand m_args => FareCommand_execute loops wf m_args ;;; ret None
    | SetcoreCommand m_args => SetcoreCommand_execute m_args ;;; ret None
    | TimeoutCommand m_args line => TimeoutCommand_execute (execute fuel' loops wf) m_args line ;;; ret None
    | ExternalCommand line => ExternalCommand_execute line (-1)
    end
  end.

Definition executeCommand (fuel loops wf : nat) (cmd_line : str) : SM unit :=
  executeCommand_with (execute fuel loops wf) cmd_line.

(** ** [signals.cpp] *)

Definition ctrlZHandler : SM unit :=
  sys (s_write STDOUT_FILENO (lit "smash: got ctrl-Z" ++ [LF])) ;;;
  let* s := getS in
  if wait_job_pid s =? -1 then ret tt
  else sys (s_kill (wait_job_pid s) SIGSTOP) ;;; ret tt.

Definition ctrlCHandler : SM unit :=
  sys (s_write STDOUT_FILENO (lit "smash: got ctrl-C" ++ [LF])) ;;;
  let* s := getS in
  if wait_job_pid s =? -1 then ret tt
  else
    sys (s_kill (wait_job_pid s) SIGKILL) ;;;
    modify (set_killed true).

(** The end of one job whose time is over. *)
Definition expire (job : JobEntry) : SM unit :=
  sys (s_waitpid (pid job) WNOHANG) ;;;
  let* rc := sys (s_kill (pid job) 0) in
  (if rc =? 0 then
     sys (s_kill (pid job) SIGKILL) ;;;
     sys (s_write STDOUT_FILENO (lit "smash: ")) ;;;
     sys (s_write STDOUT_FILENO (cmd_line job)) ;;;
     sys (s_write STDOUT_FILENO (lit " timed out!" ++ [LF])) ;;;
     ret tt
   else ret tt) ;;;
  let* m := gets jobs_list in
  if jobExist (job_id job) m then
    let* m' := defined (removeJobById (job_id job) m) in
    modify (set_jobs m')
  else ret tt.

(** The loop over [timeout_list]; every turn but the last takes the first entry. *)
Fixpoint alarm_loop (entries : jobs) : SM unit :=
  match entries with
  | [] => ret tt
  | (time1, job) :: rest =>
    let* now := sys s_time in
    let diff := time1 - now in
    if 1 <=? diff then sys (s_alarm diff) ;;; ret tt
    else
      expire job ;;;
      modify (set_timeouts rest) ;;;
      alarm_loop rest
  end.
Definition alarmHandler : SM unit :=
  sys (s_write STDOUT_FILENO (lit "smash: got an alarm" ++ [LF])) ;;;
  let* s := getS in
  alarm_loop (timeout_list s).

(** The handler [main] sets for a signal, and handlers one after the other. *)
Definition handler (sig : signal) : SM unit :=
  match sig with
  | Tstp => ctrlZHandler
  | Int => ctrlCHandler
  | Alrm => alarmHandler
  end.
Fixpoint deliver (sigs : list signal) : SM unit :=
  match sigs with
  | [] => ret tt
  | sig :: sigs' => handler sig ;;; deliver sigs'
  end.

(** [SmallShell::waitForJob]; [sigs] are the signals that arrive during the wait. *)
Definition waitForJob (sigs : list signal) : SM unit :=
  let* p := gets wait_job_pid in
  if p =? -1 then ret tt
  else
    deliver sigs ;;;
    sys (s_waitpid p WUNTRACED) ;;;
    let* s := getS in
    (if WIFSTOPPED (sstatus (sworld s)) then
       cout (lit "smash: process " ++ dec (wait_job_pid s) ++ lit " was stopped" ++ [LF]) ;;;
       let* job := defined (foreground_job s) in
       modify (set_foreground (set_stopped true job)) ;;;
       modify (λ s, set_jobs (addJob (set_stopped true job) (jobs_list s)) s)
     else if foreground_job_killed s then
       cout (lit "smash: process " ++ dec (wait_job_pid s) ++ lit " was killed" ++ [LF]) ;;;
       modify (set_killed false)
     else ret tt) ;;;
    modify (set_wait_job_pid (-1)).

(** ** [smash.cpp] *)

(** One turn of the main loop; a [getline] that reads nothing leaves the line empty. *)
Definition main_turn (fuel loops wf : nat) (t : turn) : SM unit :=
  printPrompt ;;;
  deliver (at_prompt t) ;;;
  sys s_getline ;;;
  let* cmd_line := gets (λ s, sdata (sworld s)) in
  executeCommand fuel loops wf cmd_line ;;;
  waitForJob (at_wait t).

(** The loop ends when [exit_shell] is set; [turns] bounds it. *)
Fixpoint main_loop (fuel loops wf : nat) (turns : list turn) : SM unit :=
  let* s := getS in
  if exit_shell s then ret tt
  else match turns with
  | [] => nofuel
  | t :: turns' => main_turn fuel loops wf t ;;; main_loop fuel loops wf turns'
  end.

(** [main]: set the handlers ([SIG_ERR] is -1), then the loop. *)
Definition main (fuel loops wf : nat) (turns : list turn) : SM Z :=
  or_complain (s_signal SIGTSTP) (lit "smash error: failed to set ctrl-Z handler") ;;;
  or_complain (s_signal SIGINT) (lit "smash error: failed to set ctrl-C handler") ;;;
  or_complain (s_signal SIGALRM) (lit "smash error: failed to set alarm handler") ;;;
  main_loop fuel loops wf turns ;;;
  ret 0.
End Code.
