(* ===== verification/ShellDepth.v ===== *)
(** * The depth of nested commands

    A redirection, a pipe and a timeout run shorter lines, so that the number of
    nested commands is bounded by the length of the line.  For timeouts this needs
    that the words of the line are separated by spaces, not by tabs.  The only loop
    that is bounded by something else is the one of [fare], whose lines are left out
    here; its termination is in [Fare]. *)

From S2P Require Import Prelude CString ShellParse JobsList ShellState ShellDemo Fare Builtins Shell.

(** ** Shorter lines *)

(** The only white space is the space. *)
Definition blanks (s : str) : Prop := Forall (λ c, isspace c = true → c = " "%char) s.

Lemma blanks_sublist s s' : s' `sublist_of` s → blanks s → blanks s'.
Proof. apply Forall_sublist. Qed.

Lemma filter_sublist {A} (f : A → bool) l : List.filter f l `sublist_of` l.
Proof. induction l as [|x l IH]; cbn; [done|]. destruct (f x); by constructor. Qed.
Lemma take_sublist {A} n (l : list A) : take n l `sublist_of` l.
Proof. rewrite <- (take_drop n l) at 2. apply sublist_inserts_r. done. Qed.
Lemma drop_sublist {A} n (l : list A) : drop n l `sublist_of` l.
Proof. rewrite <- (take_drop n l) at 2. apply sublist_inserts_l. done. Qed.

Lemma trim_sublist s : _trim s `sublist_of` s.
Proof.
  rewrite trim_eq. unfold trim. destruct (trim_right_split (trim_left s)) as (t & E & _).
  transitivity (trim_left s); [rewrite E at 2; by apply sublist_inserts_r|].
  destruct (trim_left_split s) as (a & E' & _). rewrite E' at 2. by apply sublist_inserts_l.
Qed.

(** [a] is a piece of [b]. *)
Definition piece (a b : str) : Prop := ∃ u v, b = u ++ a ++ v.
Lemma piece_trans a b c : piece a b → piece b c → piece a c.
Proof. intros (u & v & ->) (x & y & ->). exists (x ++ u), (v ++ y). by rewrite <- !app_assoc. Qed.
Lemma piece_take i s : piece (take i s) s.
Proof. exists [], (drop i s). by rewrite app_nil_l, take_drop. Qed.
Lemma piece_drop i s : piece (drop i s) s.
Proof. exists (take i s), []. by rewrite app_nil_r, take_drop. Qed.
Lemma piece_trim s : piece (_trim s) s.
Proof.
  rewrite trim_eq. unfold trim. destruct (trim_right_split (trim_left s)) as (t & E & _), (trim_left_split s) as (a & E' & _).
  exists a, t. by rewrite <- E, <- E'.
Qed.
Lemma piece_contains pat a b : piece a b → contains pat b = false → contains pat a = false.
Proof. intros (u & v & ->) [_ [H _]%contains_app_false]%contains_app_false. done. Qed.

(** No [fare] is called from a line without that word, even after the background
    signs have been removed from it. *)
Definition no_fare (s : str) : Prop := contains (lit "fare") (_removeBackgroundSigns s) = false.
Lemma no_fare_piece a b : piece a b → no_fare b → no_fare a.
Proof.
  intros (u & v & ->). apply piece_contains. exists (_removeBackgroundSigns u), (_removeBackgroundSigns v).
  unfold _removeBackgroundSigns. by rewrite !List.filter_app.
Qed.
Lemma signs_twice a : _removeBackgroundSigns (_removeBackgroundSigns a) = _removeBackgroundSigns a.
Proof.
  unfold _removeBackgroundSigns. induction a as [|c a IH]; cbn; [done|].
  destruct (negb (bool_decide (c = "&"%char))) eqn:Ec; [|done]. cbn. by rewrite Ec, IH.
Qed.
Lemma no_fare_signs a : no_fare a → no_fare (_removeBackgroundSigns a).
Proof. unfold no_fare. by rewrite signs_twice. Qed.

(** A position that was found leaves something out on both sides. *)
Lemma find_sub_split pat s i : find_sub pat s = Some i → pat ≠ [] →
  (length (take i s) < length s)%nat ∧ (length (drop (i + length pat) s) < length s)%nat.
Proof.
  intros (a & b & -> & <-)%find_sub_Some Hp. rewrite length_take, length_drop, !length_app. destruct pat; [done|cbn]. lia.
Qed.

(** A nested line: shorter, with the same white space and without [fare]. *)
Definition plain (s : str) : Prop := blanks s ∧ no_fare s.
Definition nested_ok (n : nat) (line : str) : Prop := (length line < n)%nat ∧ plain line.

Lemma redirection_shorter line r : plain line → parse_redirection line = Some r → nested_ok (length line) (r_cmd_line r).
Proof.
  intros [Hb Hn]. unfold parse_redirection. set (sym := if contains _ _ then _ else _). destruct (find_sub sym line) as [i|] eqn:E; [|done].
  intros [= <-]. cbn. split; [|split; [eapply blanks_sublist; [apply take_sublist|done]|eapply no_fare_piece; [apply piece_take|done]]].
  eapply find_sub_split; [exact E|]. subst sym. by destruct (contains _ _).
Qed.
Lemma signs_plain s : plain s → plain (_removeBackgroundSigns s).
Proof. intros [Hb Hn]. split; [eapply blanks_sublist; [apply filter_sublist|done]|by apply no_fare_signs]. Qed.
Lemma pipe_shorter line p : plain line → parse_pipe line = Some p →
  nested_ok (length line) (p_cmd_line1 p) ∧ nested_ok (length line) (p_cmd_line2 p).
Proof.
  intros [Hb Hn]. unfold parse_pipe. set (sym := if contains _ _ then _ else _). destruct (find_sub sym line) as [i|] eqn:E; [|done].
  intros [= <-]. cbn [p_cmd_line1 p_cmd_line2]. destruct (find_sub_split sym line i E) as [H1 H2]; [subst sym; by destruct (contains _ _)|].
  split; (split; [eapply Nat.le_lt_trans; [apply sublist_length, filter_sublist|done]|apply signs_plain]).
  - split; [eapply blanks_sublist; [apply take_sublist|done]|eapply no_fare_piece; [apply piece_take|done]].
  - split; [eapply blanks_sublist; [apply drop_sublist|done]|eapply no_fare_piece; [apply piece_drop|done]].
Qed.

(** ** The inner line of a timeout *)

(** Without white space there is at most one word. *)
Lemma words_from_single cur s : Forall (λ c, isspace c = false) s → (length (words_from cur s) ≤ 1)%nat.
Proof. intros Hs. revert cur. induction Hs as [|c s Hc _ IH]; intros cur; cbn; [destruct cur; cbn; lia|]. rewrite Hc. apply IH. Qed.

(** The first word of a line and what follows it. *)
Lemma words_from_first cur a c s : Forall (λ c, isspace c = false) a → isspace c = true → cur ++ a ≠ [] →
  words_from cur (a ++ c :: s) = (reverse cur ++ a) :: words s.
Proof.
  intros Ha Hc. revert cur. induction Ha as [|d a Hd _ IH]; intros cur Hne; cbn.
  - rewrite Hc, app_nil_r in *. destruct cur; [done|]. done.
  - rewrite Hd, IH by done. by rewrite reverse_cons, <- app_assoc.
Qed.

(** The first word ends at a space, a line feed, or the end. *)
Lemma first_word_split line : blanks (_trim line) →
  Forall (λ c, isspace c = false) (first_word line) ∧
  (_trim line = first_word line ∨ ∃ rest, _trim line = first_word line ++ " "%char :: rest).
Proof.
  unfold first_word. generalize (_trim line) as t. clear line. induction t as [|c t IH]; intros Hb; cbn; [auto|].
  apply Forall_cons_1 in Hb as [Hc Hb]. specialize (IH Hb) as [IHw IHs]. destruct (decide (c = " "%char)) as [->|Hne].
  { rewrite bool_decide_true by done. cbn. split; [constructor|]. right. by exists t. }
  rewrite bool_decide_false by done. destruct (decide (c = LF)) as [->|HLF]; [by specialize (Hc eq_refl)|].
  rewrite bool_decide_false by done. cbn [orb]. split.
  - constructor; [|done]. destruct (isspace c); [|done]. by specialize (Hc eq_refl).
  - destruct IHs as [E|[rest E]]; [left|right; exists rest]; cbn; f_equal; exact E.
Qed.

Lemma timeout_shorter line args : blanks line → first_word line = lit "timeout" → _parseCommandLine line = Some args → (3 ≤ length args)%nat →
  (length (timeout_inner line) < length line)%nat ∧ timeout_inner line `sublist_of` line ∧ piece (timeout_inner line) line.
Proof.
  intros Hb Hw Hargs Hlen. unfold timeout_inner. pose proof (trim_sublist line) as Hsub. pose proof (sublist_length _ _ Hsub) as Hl.
  assert (words (_trim line) = args) as Hwords by (unfold _parseCommandLine in Hargs; case_match; by simplify_eq).
  destruct (first_word_split line (blanks_sublist _ _ Hsub Hb)) as [_ Hsplit]. rewrite Hw in Hsplit.
  destruct Hsplit as [E|[rest E]]; [rewrite E in Hwords; subst args; vm_compute in Hlen; lia|].
  destruct (find_sub_from (lit " ") (_trim line) 9) as [i|] eqn:Ef.
  { split; [rewrite length_drop; rewrite E in *; cbn in *; lia|].
    split; [transitivity (_trim line); [apply drop_sublist|done]|eapply piece_trans; [apply piece_drop|apply piece_trim]]. }
  exfalso. unfold words in Hwords. rewrite E in Hwords. rewrite words_from_first in Hwords by (try done; repeat constructor).
  subst args. cbn [length] in Hlen. apply (blanks_sublist _ _ Hsub) in Hb. rewrite E in Hb, Ef. apply Forall_app in Hb as [_ Hb].
  apply Forall_cons_1 in Hb as [_ Hb]. destruct rest as [|c rest]; [cbn in Hlen; lia|].
  assert (Forall (λ c, isspace c = false) rest) as Hns.
  { unfold find_sub_from in Ef. cbn in Ef. apply fmap_None in Ef. rewrite drop_0 in Ef. rewrite find_sub_None in Ef.
    apply Forall_cons_1 in Hb as [_ Hb]. apply Forall_forall. intros d Hd. destruct (isspace d) eqn:Ed; [|done].
    eapply (proj1 (Forall_forall _ _)) in Hb; [|exact Hd]. specialize (Hb Ed). subst d. apply list_elem_of_split in Hd as (u & v & ->).
    by destruct (Ef u v). }
  unfold words in Hlen. cbn in Hlen. destruct (isspace c); [pose proof (words_from_single [] rest Hns)|pose proof (words_from_single [c] rest Hns)]; lia.
Qed.

(** ** Commands that end *)

Create HintDb finite.

Section Finite.
Context {W : Type} {os : ShellOS W}.
Abbreviation SM := (M (SmallShell W)).

(** [c] does not need more fuel than it has. *)
Definition finite {A} (c : SM A) : Prop := ∀ s, c s ≠ OutOfFuel.

Lemma finite_bind {A B} (c : SM A) (k : A → SM B) : finite c → (∀ a, finite (k a)) → finite (bind c k).
Proof. intros Hc Hk s. unfold bind. specialize (Hc s). destruct (c s); try done. apply Hk. Qed.
Lemma finite_bind_yields {A B} (c : SM A) (k : A → SM B) P : finite c → yields c P → (∀ a, P a → finite (k a)) → finite (bind c k).
Proof. intros Hc HP Hk s. unfold bind. specialize (Hc s). specialize (HP s). destruct (c s); try done. eapply Hk, HP. done. Qed.
Lemma finite_ret {A} (a : A) : finite (ret a).
Proof. done. Qed.
Lemma finite_fault {A} : finite (A := A) fault.
Proof. done. Qed.
Lemma finite_exit {A} code : finite (A := A) (exit code).
Proof. done. Qed.
Lemma finite_gets {A} (f : SmallShell W → A) : finite (gets f).
Proof. done. Qed.
Lemma finite_getS : finite (getS (S := SmallShell W)).
Proof. done. Qed.
Lemma finite_defined {A} (o : option A) : finite (defined o).
Proof. by destruct o. Qed.
Lemma finite_modify (f : SmallShell W → SmallShell W) : finite (modify f).
Proof. done. Qed.
Lemma finite_if {A} (b : bool) (c c' : SM A) : finite c → finite c' → finite (if b then c else c').
Proof. by destruct b. Qed.
Lemma finite_sys c : finite (sys c).
Proof. intros s. unfold sys. by destruct (scall c (sworld s)). Qed.
End Finite.

#[export] Hint Resolve finite_ret finite_fault finite_exit finite_gets finite_getS finite_defined finite_modify finite_sys : finite.

(** One step through the code. *)
Ltac finite_step :=
  match goal with
  | |- finite (bind _ _) => apply finite_bind; [|intros ?]
  | |- finite (if _ then _ else _) => apply finite_if
  | |- finite (match ?x with _ => _ end) => destruct x
  | |- finite _ => solve [eauto with finite]
  end.
Ltac finite_all := repeat finite_step.

Section Depth.
Context {W : Type} {os : ShellOS W}.
Abbreviation SM := (M (SmallShell W)).

Lemma finite_cout msg : finite (cout (W := W) msg).
Proof. unfold cout. finite_all. Qed.
Lemma finite_cerr msg : finite (cerr (W := W) msg).
Proof. unfold cerr. finite_all. Qed.
#[local] Hint Resolve finite_cout finite_cerr : finite.
Lemma finite_perror msg : finite (perror (W := W) msg).
Proof. unfold perror. finite_all. Qed.
#[local] Hint Resolve finite_perror : finite.
Lemma finite_unfinished m : finite (unfinished (W := W) m).
Proof. induction m; cbn; finite_all. Qed.
#[local] Hint Resolve finite_unfinished : finite.
Lemma finite_removeFinishedJobs : finite (removeFinishedJobs (W := W)).
Proof. unfold removeFinishedJobs. finite_all. Qed.
Lemma finite_print_entries t m : finite (print_entries (W := W) t m).
Proof. induction m; cbn; finite_all. Qed.
Lemma finite_kill_entries m : finite (kill_entries (W := W) m).
Proof. induction m; cbn; finite_all. Qed.
#[local] Hint Resolve finite_removeFinishedJobs finite_print_entries finite_kill_entries : finite.

(** The commands that run no other command. *)
Definition simple (c : command) : Prop :=
  match c with RedirectionCommand _ | PipeCommand _ | TimeoutCommand _ _ | FareCommand _ => False | _ => True end.

Lemma finite_CreateCommand line : finite (CreateCommand (W := W) line).
Proof. unfold CreateCommand, BuiltInCommand. finite_all. Qed.
Lemma finite_copy line : finite (_cmd_line_copy (W := W) line).
Proof. unfold _cmd_line_copy. finite_all. Qed.
#[local] Hint Resolve finite_CreateCommand finite_copy : finite.
Lemma finite_External line fd : finite (ExternalCommand_execute (W := W) line fd).
Proof. unfold ExternalCommand_execute, external_args, external_child, external_parent, _freeArgs, CloseFd, new_job. finite_all. Qed.
#[local] Hint Resolve finite_External : finite.
Lemma finite_simple fuel loops wf c : simple c → finite (execute (W := W) (S fuel) loops wf c).
Proof.
  destruct c; intros Hc; try done; cbn [execute];
    unfold ChangePromptCommand_execute, changePromptName, ShowPidCommand_execute, GetCurrDirCommand_execute, ChangeDirCommand_execute,
      JobsCommand_execute, printJobsList, ForegroundCommand_execute, BackgroundCommand_execute, resume, QuitCommand_execute, killAllJobs,
      KillCommand_execute, after_signal, SetcoreCommand_execute; finite_all.
Qed.
Lemma finite_or_complain c msg : finite (or_complain (W := W) c msg).
Proof. unfold or_complain. finite_all. Qed.
Lemma finite_pipe_side fd std run : finite run → finite (pipe_side (W := W) fd std run).
Proof. intros ?. unfold pipe_side. finite_all. Qed.
Lemma finite_schedule t line job : finite (schedule (W := W) t line job).
Proof. unfold schedule. finite_all. Qed.
#[local] Hint Resolve finite_or_complain finite_pipe_side finite_schedule : finite.

(** What [CreateCommand] makes of a line: nested lines are shorter. *)
Definition command_depth (n : nat) (c : command) : Prop :=
  match c with
  | RedirectionCommand r => nested_ok n (r_cmd_line r)
  | PipeCommand p => nested_ok n (p_cmd_line1 p) ∧ nested_ok n (p_cmd_line2 p)
  | TimeoutCommand args line => (3 ≤ length args)%nat → nested_ok n (timeout_inner line)
  | FareCommand _ => False
  | _ => True
  end.
Definition depth_ok (n : nat) (r : option command) : Prop := match r with Some c => command_depth n c | None => True end.

Lemma builtin_depth n word args line :
  word ≠ lit "fare" → (word = lit "timeout" → (3 ≤ length args)%nat → nested_ok n (timeout_inner line)) → depth_ok n (builtin word args line).
Proof. intros Hw Ht. unfold builtin. repeat (case_bool_decide; [done|]). case_bool_decide; [|done]. cbn. auto. Qed.

(** The first word of a line without [fare]. *)
Lemma first_word_no_fare line : plain line → first_word line ≠ lit "fare".
Proof.
  intros [Hb Hn] Hw. assert (Hp : piece (first_word line) line).
  { eapply piece_trans; [|apply piece_trim]. destruct (first_word_split line) as [_ [E|[rest E]]]; [by eapply blanks_sublist; [apply trim_sublist|]|..].
    - exists [], []. by rewrite app_nil_r.
    - exists [], (" "%char :: rest). done. }
  apply (no_fare_piece _ _ Hp) in Hn. by rewrite Hw in Hn.
Qed.

Lemma CreateCommand_depth line : plain line → yields (CreateCommand (W := W) line) (depth_ok (length line)).
Proof.
  intros Hb. unfold CreateCommand, BuiltInCommand. destruct (_isRedirectionCommand line).
  { destruct (parse_redirection line) as [r|] eqn:E; [|done]. apply yields_ret. by apply redirection_shorter. }
  destruct (_isPipeCommand line).
  { destruct (parse_pipe line) as [p|] eqn:E; [|done]. apply yields_ret. by apply pipe_shorter. }
  destruct (builtin (first_word line) [] line); [|apply yields_ret; by case_bool_decide].
  destruct (_parseCommandLine line) as [args|] eqn:E; [|done]. apply yields_ret, builtin_depth; [by apply first_word_no_fare|]. intros Hw Hl.
  destruct (timeout_shorter line args (proj1 Hb) Hw E Hl) as (? & Hs & Hp). split; [done|]. split; [eapply blanks_sublist; [exact Hs|apply Hb]|].
  eapply no_fare_piece; [exact Hp|apply Hb].
Qed.

Lemma depth_weaken k n r : (k ≤ n)%nat → depth_ok k r → depth_ok n r.
Proof.
  intros Hk. assert (Hw : ∀ line, nested_ok k line → nested_ok n line) by (intros line [? ?]; split; [lia|done]).
  destruct r as [[]|]; cbn; try done; naive_solver.
Qed.

Section Nested.
Variable exec : command → SM (option JobEntry).
Variable n : nat.
(** Commands of depth at most [n] end. *)
Hypothesis Hexec : ∀ c, command_depth n c → finite (exec c).

Lemma finite_run line : (length line ≤ n)%nat → plain line → finite (executeCommand_with exec line).
Proof.
  intros Hl Hb. eapply finite_bind_yields; [finite_all|by apply CreateCommand_depth|]. intros [c|] Hc; [|done].
  apply finite_bind; [|intros; finite_all]. apply Hexec. by apply (depth_weaken (length line) n (Some c)).
Qed.
Lemma finite_Redirection r : nested_ok (S n) (r_cmd_line r) → finite (RedirectionCommand_execute exec r).
Proof. intros [Hl Hb]. pose proof (finite_run (r_cmd_line r) ltac:(lia) Hb). unfold RedirectionCommand_execute. finite_all. Qed.

Lemma finite_run_first r fd : depth_ok n r → finite (run_first exec r fd).
Proof. intros Hr. destruct r as [c|]; [|done]. pose proof (Hexec c Hr). unfold run_first. destruct c; finite_all. Qed.
Lemma finite_run_second r : depth_ok n r → finite (run_second exec r).
Proof. intros Hr. destruct r as [c|]; [|done]. pose proof (Hexec c Hr). unfold run_second. finite_all. Qed.

Lemma finite_Pipe p : nested_ok (S n) (p_cmd_line1 p) → nested_ok (S n) (p_cmd_line2 p) → finite (PipeCommand_execute exec p).
Proof.
  intros [Hl1 Hb1] [Hl2 Hb2]. unfold PipeCommand_execute. do 2 (finite_step; [finite_all|]; finite_step; [finite_all|]).
  finite_step; [finite_all|]. finite_step; [finite_all|]. finite_step; [finite_all|].
  eapply finite_bind_yields; [finite_all|by apply CreateCommand_depth|]. intros c1 Hc1.
  eapply finite_bind_yields; [finite_all|by apply CreateCommand_depth|]. intros c2 Hc2.
  apply (depth_weaken _ n) in Hc1; [|lia]. apply (depth_weaken _ n) in Hc2; [|lia].
  finite_step; [by apply finite_pipe_side, finite_run_first|]. finite_step; [finite_all|]. finite_step; [finite_all|].
  finite_step; [by apply finite_pipe_side, finite_run_second|]. finite_all.
Qed.

Lemma finite_Timeout args line : ((3 ≤ length args)%nat → nested_ok (S n) (timeout_inner line)) → finite (TimeoutCommand_execute exec args line).
Proof.
  intros Ht. unfold TimeoutCommand_execute. destruct (Nat.ltb_spec (length args) 3) as [Hlt|Hge]; cbn [orb]; [finite_all|].
  destruct (Ht Hge) as [Hl Hb]. finite_step; [finite_all|].
  eapply finite_bind_yields; [finite_all|by apply CreateCommand_depth|]. intros c Hc. apply (depth_weaken _ n) in Hc; [|lia].
  destruct c as [c|]; [|done]. pose proof (Hexec c Hc). finite_step; [done|]. destruct c; finite_all.
Qed.
End Nested.

Lemma finite_execute fuel loops wf c : command_depth fuel c → finite (execute (W := W) (S fuel) loops wf c).
Proof.
  revert c. induction fuel as [|fuel IH]; intros c Hc.
  - destruct c; try done; try (by apply finite_simple); cbn [execute].
    + destruct Hc as [Hc _]. lia.
    + destruct Hc as [[Hc _] _]. lia.
    + apply finite_bind; [|intros; finite_all]. unfold TimeoutCommand_execute. destruct (Nat.ltb_spec (length m_args) 3) as [Hlt|Hge]; cbn [orb]; [finite_all|].
      destruct (Hc Hge) as [Hl _]. lia.
  - destruct c; try done; try (by apply finite_simple); cbn [execute]; (apply finite_bind; [|intros; finite_all]).
    + by apply (finite_Redirection _ fuel IH).
    + destruct Hc. by apply (finite_Pipe _ fuel IH).
    + by apply (finite_Timeout _ fuel IH).
Qed.

(** C21: Command lines without [fare] end, in every state and every world: when
    words are separated by spaces and the word [fare] does not occur (with the
    background signs taken out), a line of [n] characters needs at most [n + 1] nested
    commands, whatever redirections, pipes and timeouts it holds, and no loop of a
    command needs fuel. *)
Theorem nesting_terminates (fuel loops wf : nat) (line : str) (s : SmallShell W) :
  Forall (λ c, isspace c = true → c = " "%char) line → contains (lit "fare") (_removeBackgroundSigns line) = false →
  (length line < fuel)%nat → executeCommand fuel loops wf line s ≠ OutOfFuel.
Proof.
  intros Hb Hn Hl. destruct fuel as [|fuel]; [lia|].
  by apply (finite_run (execute (S fuel) loops wf) fuel (finite_execute fuel loops wf)); [lia|].
Qed.
End Depth.

(** ** An example *)

(** The redirection, both pipes and the timeout are run: the timeout creates the
    process 500 and sets its alarm. *)
Lemma nesting_terminates_witness :
  let line := lit "timeout 5 sleep 3& | jobs | fg 2 > out" in
  executeCommand 42 0 0 line (initial_shell demo_world) ≠ OutOfFuel ∧
  match executeCommand 42 0 0 line (initial_shell demo_world) with
  | Ok _ s' => d_alarms (sworld s') = [5] ∧ d_child (sworld s') = 501
  | _ => False
  end.
Proof.
  split; [|vm_compute; done].
  apply (nesting_terminates 42 0 0 (lit "timeout 5 sleep 3& | jobs | fg 2 > out") (initial_shell demo_world)).
  - vm_compute. repeat (constructor; [try discriminate; try (intros; reflexivity)|]). constructor.
  - vm_compute. reflexivity.
  - vm_compute. lia.
Defined.
