(* ===== verification/ShellInv.v ===== *)
(** * The invariant of the shell

    The list of jobs and the list of timeouts are in order, jobs carry the keys
    under which they are stored, and a job the shell waits for is known.  Every
    command line and every signal keeps the invariant, and under it the commands on
    jobs never touch an entry that is not there. *)

From S2P Require Import Prelude CString ShellParse JobsList ShellState ShellDemo Fare Builtins Shell.

Create HintDb keeps.

Record shell_ok {W} (s : SmallShell W) : Prop := {
  so_jobs : jobs_ok (jobs_list s);
  so_timeouts : map_ok (timeout_list s);
  so_foreground : wait_job_pid s ≠ -1 →
    ∃ j, foreground_job s = Some j ∧ (job_id j = -1 ∨ 1 ≤ job_id j)
}.

Section Keeps.
Context {W : Type} {os : ShellOS W}.
Abbreviation SM := (M (SmallShell W)).
Implicit Types s : SmallShell W.

(** Running [c] keeps the invariant. *)
Definition keeps {A} (c : SM A) : Prop := ∀ s, shell_ok s → wlp c (λ _ s', shell_ok s') s.

Lemma keeps_bind {A B} (c : SM A) (k : A → SM B) : keeps c → (∀ a, keeps (k a)) → keeps (bind c k).
Proof. intros Hc Hk s Hs. apply wlp_bind. eapply wlp_mono; [by apply Hc|]. intros a s' Hs'. by apply Hk. Qed.
Lemma keeps_ret {A} (a : A) : keeps (ret a).
Proof. by intros s. Qed.
Lemma keeps_fault {A} : keeps (A := A) fault.
Proof. by intros s. Qed.
Lemma keeps_nofuel {A} : keeps (A := A) nofuel.
Proof. by intros s. Qed.
Lemma keeps_exit {A} code : keeps (A := A) (exit code).
Proof. by intros s. Qed.
Lemma keeps_modify (f : SmallShell W → SmallShell W) : (∀ s, shell_ok s → shell_ok (f s)) → keeps (modify f).
Proof. intros Hf s Hs. by apply Hf. Qed.
(** What is read from the state is the part of a state that satisfies the invariant. *)
Lemma keeps_gets {A B} (f : SmallShell W → A) (k : A → SM B) : (∀ s, shell_ok s → keeps (k (f s))) → keeps (bind (gets f) k).
Proof. intros Hk s Hs. by apply Hk. Qed.
Lemma keeps_getS {B} (k : SmallShell W → SM B) : (∀ s, shell_ok s → keeps (k s)) → keeps (bind getS k).
Proof. intros Hk s Hs. by apply Hk. Qed.
Lemma keeps_defined {A B} (o : option A) (k : A → SM B) : (∀ a, o = Some a → keeps (k a)) → keeps (bind (defined o) k).
Proof. intros Hk s Hs. destruct o; [by apply Hk|done]. Qed.
Lemma keeps_if {A} (b : bool) (c c' : SM A) : keeps c → keeps c' → keeps (if b then c else c').
Proof. by destruct b. Qed.

Lemma shell_ok_world w s : shell_ok s → shell_ok (set_world w s).
Proof. by intros [? ? ?]. Qed.
Lemma shell_ok_set_jobs m s : jobs_ok m → shell_ok s → shell_ok (set_jobs m s).
Proof. by intros ? [? ? ?]. Qed.

Lemma keeps_sys c : keeps (sys c).
Proof. intros s Hs. unfold wlp, sys. destruct (scall c (sworld s)). by apply shell_ok_world. Qed.
Lemma keeps_set_jobs m : jobs_ok m → keeps (modify (set_jobs m)).
Proof. intros Hm. apply keeps_modify. intros s. by apply shell_ok_set_jobs. Qed.
Lemma keeps_update_jobs (f : jobs → jobs) : (∀ m, jobs_ok m → jobs_ok (f m)) → keeps (modify (λ s, set_jobs (f (jobs_list s)) s)).
Proof. intros Hf. apply keeps_modify. intros s Hs. apply shell_ok_set_jobs; [apply Hf, Hs|done]. Qed.
Lemma keeps_set_prompt p : keeps (modify (set_prompt p)).
Proof. apply keeps_modify. by intros s [? ? ?]. Qed.
Lemma keeps_set_old_path p : keeps (modify (set_old_path p)).
Proof. apply keeps_modify. by intros s [? ? ?]. Qed.
Lemma keeps_set_exit_shell : keeps (modify set_exit_shell).
Proof. apply keeps_modify. by intros s [? ? ?]. Qed.
Lemma keeps_set_killed b : keeps (modify (set_killed b)).
Proof. apply keeps_modify. by intros s [? ? ?]. Qed.
Lemma keeps_set_min t : keeps (modify (set_min_completion t)).
Proof. apply keeps_modify. by intros s [? ? ?]. Qed.
(** A job in the foreground: first the job, then its process. *)
Lemma keeps_set_foreground j : (job_id j = -1 ∨ 1 ≤ job_id j) → keeps (modify (set_foreground j)).
Proof. intros Hj. apply keeps_modify. intros s [? ? ?]. split; cbn; eauto. Qed.
End Keeps.

#[export] Hint Resolve keeps_ret keeps_fault keeps_nofuel keeps_exit keeps_sys keeps_set_jobs keeps_set_prompt keeps_set_old_path
  keeps_set_exit_shell keeps_set_killed keeps_set_min keeps_set_foreground : keeps.

(** One step through the code. *)
Ltac keeps_step :=
  match goal with
  | |- keeps (bind (gets _) _) => apply keeps_gets; intros ? ?
  | |- keeps (bind getS _) => apply keeps_getS; intros ? ?
  | |- keeps (bind (defined _) _) => apply keeps_defined; intros ? ?
  | |- keeps (bind _ _) => apply keeps_bind; [|intros ?]
  | |- keeps (if _ then _ else _) => apply keeps_if
  | |- keeps (match ?x with _ => _ end) => destruct x eqn:?
  | |- keeps (let '(_, _) := ?x in _) => destruct x eqn:?
  | |- keeps _ => solve [eauto with keeps]
  end.
Ltac keeps_all := repeat keeps_step.

Section Commands.
Context {W : Type} {os : ShellOS W}.
Abbreviation SM := (M (SmallShell W)).
Implicit Types s : SmallShell W.

Lemma keeps_cout msg : keeps (cout (W := W) msg).
Proof. unfold cout. keeps_all. Qed.
Lemma keeps_cerr msg : keeps (cerr (W := W) msg).
Proof. unfold cerr. keeps_all. Qed.
#[local] Hint Resolve keeps_cout keeps_cerr : keeps.
Lemma keeps_perror msg : keeps (perror (W := W) msg).
Proof. unfold perror. keeps_all. Qed.
#[local] Hint Resolve keeps_perror : keeps.
Lemma keeps_CloseFd fd : keeps (CloseFd (W := W) fd).
Proof. unfold CloseFd. keeps_all. Qed.
Lemma keeps_WriteWrapper wf fd : ∀ data, keeps (_WriteWrapper (W := W) wf fd data).
Proof. induction wf; intros data; cbn; keeps_all. Qed.
Lemma keeps_copy line : keeps (_cmd_line_copy (W := W) line).
Proof. unfold _cmd_line_copy. keeps_all. Qed.
Lemma keeps_new_job line p : keeps (new_job (W := W) line p).
Proof. unfold new_job. keeps_all. Qed.
#[local] Hint Resolve keeps_CloseFd keeps_WriteWrapper keeps_copy keeps_new_job : keeps.
Lemma keeps_or_complain c msg : keeps (or_complain (W := W) c msg).
Proof. unfold or_complain. keeps_all. Qed.
Lemma keeps_close_files a b : keeps (close_files (W := W) a b).
Proof. unfold close_files. keeps_all. Qed.
#[local] Hint Resolve keeps_or_complain keeps_close_files : keeps.

(** ** The commands on jobs *)

Lemma unfinished_wp m s : wp (unfinished m) (λ m' s', m' `sublist_of` m ∧ ∃ w, s' = set_world w s) s.
Proof.
  revert s. induction m as [|e m IH]; intros s; [by split; [done|exists (sworld s); destruct s]|]. cbn.
  apply wp_bind, wp_sys. intros rc w _. apply wp_bind. eapply wp_mono; [apply IH|]. intros m' s' [Hm [w' ->]].
  split; [|by exists w']. zcase; by constructor.
Qed.

(** Only jobs go away, and nothing else changes. *)
Lemma removeFinishedJobs_wp s :
  wp removeFinishedJobs (λ _ s', ∃ m w, m `sublist_of` jobs_list s ∧ s' = set_jobs m (set_world w s)) s.
Proof.
  apply wp_bind, wp_gets, wp_bind. eapply wp_mono; [apply unfinished_wp|]. intros m s' [Hm [w ->]].
  apply wp_modify. eauto.
Qed.
Lemma keeps_removeFinishedJobs : keeps (removeFinishedJobs (W := W)).
Proof.
  intros s Hs. apply wlp_wpe, wpe_wp. eapply wp_mono; [apply removeFinishedJobs_wp|]. intros _ s' (m & w & Hm & ->).
  apply shell_ok_set_jobs; [|by apply shell_ok_world]. eapply jobs_ok_sublist; [done|apply Hs].
Qed.
Lemma keeps_printJobsList : keeps (printJobsList (W := W)).
Proof.
  unfold printJobsList. keeps_step; [keeps_step|]. keeps_step. set (m := jobs_list _). clearbody m.
  induction m; cbn; keeps_all.
Qed.
Lemma keeps_killAllJobs : keeps (killAllJobs (W := W)).
Proof. unfold killAllJobs. keeps_step. set (m := jobs_list _). clearbody m. induction m; cbn; keeps_all. Qed.
#[local] Hint Resolve keeps_removeFinishedJobs keeps_printJobsList keeps_killAllJobs : keeps.

Lemma keeps_resume k job : 1 ≤ k → job_id job = k → keeps (resume (W := W) k job).
Proof.
  intros Hk Hj. unfold resume. keeps_step; [keeps_step|]. keeps_step; [|keeps_all].
  apply (keeps_update_jobs (map_set k (set_stopped false job))). intros m. by apply jobs_ok_set.
Qed.
Lemma keeps_after_signal sig k job : 1 ≤ k → job_id job = k → keeps (after_signal (W := W) sig k job).
Proof.
  intros Hk Hj. unfold after_signal. keeps_all; apply keeps_set_jobs.
  - by apply jobs_ok_set; [..|apply so_jobs].
  - by apply jobs_ok_set; [..|apply so_jobs].
  - eapply jobs_ok_remove; [|eassumption]. by apply so_jobs.
Qed.

Lemma keeps_ChangePrompt args : keeps (ChangePromptCommand_execute (W := W) args).
Proof. unfold ChangePromptCommand_execute, changePromptName. keeps_all. Qed.
Lemma keeps_ShowPid : keeps (ShowPidCommand_execute (W := W)).
Proof. unfold ShowPidCommand_execute. keeps_all. Qed.
Lemma keeps_GetCurrDir : keeps (GetCurrDirCommand_execute (W := W)).
Proof. unfold GetCurrDirCommand_execute. keeps_all. Qed.
Lemma keeps_ChangeDir args : keeps (ChangeDirCommand_execute (W := W) args).
Proof. unfold ChangeDirCommand_execute. keeps_all. Qed.
Lemma keeps_Jobs : keeps (JobsCommand_execute (W := W)).
Proof. unfold JobsCommand_execute. keeps_all. Qed.
Lemma keeps_Quit args : keeps (QuitCommand_execute (W := W) args).
Proof. unfold QuitCommand_execute. keeps_all. Qed.
Lemma keeps_Setcore args : keeps (SetcoreCommand_execute (W := W) args).
Proof. unfold SetcoreCommand_execute. keeps_all. Qed.
Lemma keeps_fare_loop loops wf src dst pat rep : ∀ n, keeps (fare_loop (W := W) loops wf src dst pat rep n).
Proof. induction loops; intros n; cbn; keeps_all. Qed.
#[local] Hint Resolve keeps_fare_loop : keeps.
Lemma keeps_Fare loops wf args : keeps (FareCommand_execute (W := W) loops wf args).
Proof. unfold FareCommand_execute, fare_finish. keeps_all. Qed.

(** ** No access to a job that is not there *)

(** After [removeFinishedJobs] the state still satisfies the invariant. *)
Lemma wp_refresh {A} (k : SM A) (Q : A → SmallShell W → Prop) s :
  shell_ok s →
  (∀ s', shell_ok s' → wait_job_pid s' = wait_job_pid s → foreground_job s' = foreground_job s → timeout_list s' = timeout_list s → wp k Q s') →
  wp (removeFinishedJobs ;;; k) Q s.
Proof.
  intros Hs HQ. apply wp_bind. eapply wp_mono; [apply removeFinishedJobs_wp|]. intros _ s' (m & w & Hm & ->).
  apply HQ; try done. apply shell_ok_set_jobs; [|by apply shell_ok_world]. eapply jobs_ok_sublist; [done|apply Hs].
Qed.

Lemma wp_complain msg s : shell_ok s → wp (cerr msg) (λ _ s', shell_ok s') s.
Proof. intros Hs. apply wp_cerr. intros w. by apply shell_ok_world. Qed.

(** A job that exists is found under its own identifier. *)
Lemma getJobById_exists i m : jobs_ok m → jobExist i m = true →
  ∃ j, getJobById i m = Some (i, j) ∧ map_find i m = Some j ∧ 1 ≤ i ∧ job_id j = i.
Proof.
  intros Hm He. pose proof (jobExist_positive _ _ Hm He). destruct (jobExist_find _ _ He) as [j Hj]. exists j.
  unfold getJobById. zcase; [lia|]. rewrite Hj. destruct (jobs_ok_find _ _ _ Hm Hj). done.
Qed.

Lemma foreground_safe args s : args ≠ [] → shell_ok s → wp (ForegroundCommand_execute args) (λ _ s', shell_ok s') s.
Proof.
  intros Hargs Hs. unfold ForegroundCommand_execute. destruct (bad_job_args args) eqn:Hbad; [by apply wp_complain|].
  apply wp_refresh; [done|]. intros s1 Hs1 _ _ _. apply wp_bind, wp_gets. pose proof (so_jobs s1 Hs1) as Hj.
  destruct (_ && _) eqn:E1; [by apply wp_complain|]. destruct (_ && negb _) eqn:E2; [by apply wp_complain|].
  set (i := if (length args =? 2)%nat then _ else _).
  assert (∃ k j m', getJobById i (jobs_list s1) = Some (k, j) ∧ removeJobById i (jobs_list s1) = Some m') as (k & j & m' & Hg & Hrm).
  { subst i. destruct (length args =? 2)%nat eqn:E.
    - cbn in E2. apply negb_false_iff in E2. destruct (getJobById_exists _ _ Hj E2) as (j & Hg & Hf & Hi & _).
      rewrite Hg. unfold removeJobById. zcase; [lia|]. rewrite Hf. eauto.
    - assert (jobs_list s1 ≠ []) as Hne.
      { intros Hnil. rewrite Hnil, andb_true_r in E1. unfold bad_job_args in Hbad. rewrite E in Hbad.
        apply orb_false_iff in Hbad as [Hlt _]. destruct args as [|? [|? [|? ?]]]; cbn in *; congruence. }
      destruct (last_is_Some _ Hne) as [[k j] Hl]. unfold getJobById, removeJobById. rewrite Z.eqb_refl, Hl. eauto. }
  apply wp_bind, wp_defined. exists (k, j). split; [done|]. apply wp_bind, wp_modify, wp_bind, wp_defined. exists m'. split; [done|].
  apply wp_bind, wp_modify, wp_bind, wp_modify, wp_bind, wp_sys. intros rc w _. apply wp_cout. intros w'.
  destruct (getJobById_ok _ _ _ _ Hj Hg) as (_ & Hk & Hid). destruct Hs1 as [? ? ?]. split; cbn; [by eapply jobs_ok_remove|done|].
  intros _. exists j. split; [done|lia].
Qed.

Lemma resume_safe k job s : 1 ≤ k → job_id job = k → shell_ok s → wp (resume k job) (λ _ s', shell_ok s') s.
Proof.
  intros Hk Hj Hs. apply wp_bind, wp_sys. intros rc w _. apply wp_bind, wp_modify, wp_cout. intros w'.
  apply shell_ok_world, shell_ok_set_jobs; [|by apply shell_ok_world]. apply jobs_ok_set; [done|done|apply Hs].
Qed.

Lemma background_safe args s : args ≠ [] → shell_ok s → wp (BackgroundCommand_execute args) (λ _ s', shell_ok s') s.
Proof.
  intros Hargs Hs. unfold BackgroundCommand_execute. destruct (bad_job_args args) eqn:Hbad; [by apply wp_complain|].
  apply wp_refresh; [done|]. intros s1 Hs1 _ _ _. apply wp_bind, wp_gets. pose proof (so_jobs s1 Hs1) as Hj.
  destruct (_ && _) eqn:E1; [by apply wp_complain|]. destruct (_ && negb (jobExist _ _)) eqn:E2; [by apply wp_complain|].
  destruct (length args =? 2)%nat eqn:E; apply wp_bind, wp_defined.
  - cbn in E2. apply negb_false_iff in E2. destruct (getJobById_exists _ _ Hj E2) as (j & Hg & Hf & Hi & Hid).
    exists (atoi (arg 1 args), j). split; [done|]. cbn [fst snd]. destruct (stopped j); [by apply resume_safe|by apply wp_complain].
  - assert (stoppedJobs (jobs_list s1) = true) as Hst.
    { destruct (stoppedJobs _); [done|]. unfold bad_job_args in Hbad. rewrite E in Hbad.
      destruct args as [|? [|? [|? ?]]]; cbn in *; congruence. }
    destruct (stoppedJobs_last _ Hst) as [[k j] Hl]. exists (k, j). split; [done|].
    destruct (getLastStoppedJob_find _ _ _ Hj Hl) as (_ & ? & ? & _). by apply resume_safe.
Qed.

Lemma after_signal_safe sig k job s :
  map_find k (jobs_list s) = Some job → 1 ≤ k → job_id job = k → shell_ok s → wp (after_signal sig k job) (λ _ s', shell_ok s') s.
Proof.
  intros Hf Hk Hj Hs. unfold after_signal. apply wp_bind, wp_gets. pose proof (so_jobs s Hs) as Hok.
  destruct (sig =? SIGSTOP); [by apply wp_modify, shell_ok_set_jobs; [apply jobs_ok_set|]|].
  destruct (sig =? SIGCONT); [by apply wp_modify, shell_ok_set_jobs; [apply jobs_ok_set|]|].
  destruct (sig =? SIGKILL); [|done]. apply wp_bind, wp_sys. intros rc w _.
  assert (removeJobById (job_id job) (jobs_list s) = Some (map_erase k (jobs_list s))) as Hrm.
  { unfold removeJobById. rewrite Hj. zcase; [lia|]. by rewrite Hf. }
  apply wp_bind, wp_defined. eexists. split; [exact Hrm|].
  apply wp_modify, shell_ok_set_jobs; [by apply jobs_ok_erase|by apply shell_ok_world].
Qed.

Lemma kill_safe args s : shell_ok s → wp (KillCommand_execute args) (λ _ s', shell_ok s') s.
Proof.
  intros Hs. unfold KillCommand_execute. destruct (_ || _); [by apply wp_complain|].
  apply wp_refresh; [done|]. intros s1 Hs1 _ _ _. apply wp_bind, wp_gets. pose proof (so_jobs s1 Hs1) as Hj.
  destruct (negb _) eqn:E; [by apply wp_complain|]. apply negb_false_iff in E.
  destruct (getJobById_exists _ _ Hj E) as (j & Hg & Hf & Hi & Hid). apply wp_bind, wp_defined. eexists. split; [exact Hg|].
  apply wp_bind, wp_sys. intros rc w _. apply wp_bind, wp_cout. intros w'.
  apply after_signal_safe; [done..|]. by apply shell_ok_world, shell_ok_world.
Qed.

Lemma setcore_safe args s : shell_ok s → wp (SetcoreCommand_execute args) (λ _ s', shell_ok s') s.
Proof.
  intros Hs. unfold SetcoreCommand_execute. destruct (_ || _); [by apply wp_complain|].
  apply wp_refresh; [done|]. intros s1 Hs1 _ _ _. apply wp_bind, wp_gets. pose proof (so_jobs s1 Hs1) as Hj.
  destruct (negb _) eqn:E; [by apply wp_complain|]. apply negb_false_iff in E.
  destruct (getJobById_exists _ _ Hj E) as (j & Hg & _). apply wp_bind, wp_defined. eexists. split; [exact Hg|].
  apply wp_bind, wp_sys. intros rc w _. destruct (rc =? 0); [by apply wp_ret, shell_ok_world|]. apply wp_bind, wp_gets.
  destruct (_ =? EINVAL); [by apply wp_complain, shell_ok_world|]. destruct (_ =? ESRCH); [by apply wp_complain, shell_ok_world|].
  apply wp_perror. intros w'. by apply shell_ok_world, shell_ok_world.
Qed.

Lemma print_entries_safe t m s : shell_ok s → wp (print_entries t m) (λ _ s', shell_ok s') s.
Proof.
  revert s. induction m as [|e m IH]; intros s Hs; [done|]. cbn. apply wp_bind, wp_cout. intros w. by apply IH, shell_ok_world.
Qed.
Lemma kill_entries_safe m s : shell_ok s → wp (kill_entries m) (λ _ s', shell_ok s') s.
Proof.
  revert s. induction m as [|e m IH]; intros s Hs; [done|]. cbn. apply wp_bind, wp_sys. intros rc w _. apply wp_bind.
  destruct (rc =? pid e.2); [by apply wp_ret, IH, shell_ok_world|]. apply wp_bind, wp_cout. intros w1. apply wp_bind, wp_sys. intros rc2 w2 _.
  apply wp_bind, wp_sys. intros rc3 w3 _. apply wp_ret, IH. by repeat apply shell_ok_world.
Qed.
Lemma jobs_safe s : shell_ok s → wp JobsCommand_execute (λ _ s', shell_ok s') s.
Proof.
  intros Hs. apply wp_refresh; [done|]. intros s1 Hs1 _ _ _. apply wp_bind, wp_sys. intros t w _.
  by apply wp_bind, wp_gets, print_entries_safe, shell_ok_world.
Qed.
Lemma quit_safe args s : shell_ok s → wp (QuitCommand_execute args) (λ _ s', shell_ok s') s.
Proof.
  intros Hs. apply wp_refresh; [done|]. intros s1 Hs1 _ _ _. apply wp_bind, wp_gets, wp_bind.
  assert (∀ s2, shell_ok s2 → shell_ok (set_exit_shell s2)) as Hexit by (by intros s2 [? ? ?]).
  destruct (_ && _); [|by apply wp_ret, wp_modify, Hexit]. apply wp_bind, wp_cout. intros w. apply wp_bind, wp_gets.
  eapply wp_mono; [by apply kill_entries_safe, shell_ok_world|]. intros ? s2 Hs2. by apply wp_modify, Hexit.
Qed.

(** C20: The commands on jobs are safe: whatever their arguments, [jobs], [fg],
    [bg], [kill], [setcore] and [quit] run to their end from every state that
    satisfies the invariant (they never use the last job of an empty list, nor
    fetch or erase a job that is not listed) and leave a state that satisfies it. *)
Theorem job_commands_safe (name : str) (args : list str) s :
  shell_ok s →
  ∀ c, c ∈ [ForegroundCommand_execute (W := W) (name :: args); BackgroundCommand_execute (name :: args);
            KillCommand_execute (name :: args); SetcoreCommand_execute (name :: args);
            QuitCommand_execute (name :: args); JobsCommand_execute] →
  wp c (λ _ s', shell_ok s') s.
Proof.
  intros Hs c Hc. repeat (apply elem_of_cons in Hc as [->|Hc]); [..|by apply not_elem_of_nil in Hc].
  - by apply foreground_safe.
  - by apply background_safe.
  - by apply kill_safe.
  - by apply setcore_safe.
  - by apply quit_safe.
  - by apply jobs_safe.
Qed.

(** ** Every command keeps the invariant *)

Lemma keeps_wp {A} (c : SM A) : (∀ s, shell_ok s → wp c (λ _ s', shell_ok s') s) → keeps c.
Proof. intros Hc s Hs. by apply wlp_wpe, wpe_wp, Hc. Qed.

Lemma keeps_Kill args : keeps (KillCommand_execute (W := W) args).
Proof. apply keeps_wp, kill_safe. Qed.
Lemma keeps_Foreground args : keeps (ForegroundCommand_execute (W := W) args).
Proof.
  unfold ForegroundCommand_execute. keeps_step; [keeps_all|]. keeps_step; [keeps_all|]. keeps_step. do 2 (keeps_step; [keeps_all|]).
  match goal with |- context [getJobById ?i _] => set (id := i) end. clearbody id. keeps_step. destruct a0 as [k j].
  match goal with H : shell_ok ?x, E : getJobById _ _ = _ |- _ => destruct (getJobById_ok _ _ _ _ (so_jobs x H) E) as (_ & Hk & Hid); pose proof (so_jobs x H) as Hj end.
  intros s' Hs. apply wlp_bind, wlp_modify. unfold wlp, bind, defined. destruct (removeJobById id _) as [m'|] eqn:Erm; [|done]. cbn.
  unfold cout, bind, sys. cbn. destruct (scall _ (sworld s')) as [rc w]. cbn. destruct (scall _ w) as [rc' w']. cbn.
  destruct Hs as [? ? ?]. split; cbn; [exact (jobs_ok_remove _ _ _ Hj Erm)|done|]. intros _. exists j. split; [done|lia].
Qed.
Lemma keeps_Background args : keeps (BackgroundCommand_execute (W := W) args).
Proof.
  unfold BackgroundCommand_execute. keeps_step; [keeps_all|]. keeps_step; [keeps_all|]. keeps_step. do 2 (keeps_step; [keeps_all|]).
  keeps_step; keeps_step; match goal with p : Z * JobEntry |- _ => destruct p as [k j] end; cbn [fst snd].
  - destruct (getJobById_ok (atoi (arg 1 args)) (jobs_list s) k j) as (_ & Hk & Hid); [by apply so_jobs|done|].
    keeps_step; [keeps_all|]. by apply keeps_resume.
  - destruct (getLastStoppedJob_find (jobs_list s) k j) as (_ & Hk & Hid & _); [by apply so_jobs|done|]. by apply keeps_resume.
Qed.
#[local] Hint Resolve keeps_Kill keeps_Foreground keeps_Background keeps_ChangePrompt keeps_ShowPid keeps_GetCurrDir
  keeps_ChangeDir keeps_Jobs keeps_Quit keeps_Setcore keeps_Fare : keeps.

Lemma keeps_CreateCommand line : keeps (CreateCommand (W := W) line).
Proof. unfold CreateCommand, BuiltInCommand. keeps_all. Qed.
Lemma keeps_external_args line : keeps (external_args (W := W) line).
Proof. unfold external_args. keeps_all. Qed.
Lemma keeps_external_child args fd : keeps (external_child (W := W) args fd).
Proof. unfold external_child. keeps_all. Qed.
#[local] Hint Resolve keeps_CreateCommand keeps_external_args keeps_external_child : keeps.

Lemma new_job_wlp line p s : wlp (new_job line p) (λ j s', job_id j = -1 ∧ ∃ w, s' = set_world w s) s.
Proof. unfold wlp, new_job, bind, sys. destruct (scall _ _) as [t w]. cbn. eauto. Qed.

Lemma keeps_external_parent args line p : keeps (external_parent (W := W) args line p).
Proof.
  intros s Hs. apply wlp_bind. eapply wlp_mono; [apply new_job_wlp|]. intros job s' [Hid [w ->]].
  apply (shell_ok_world w) in Hs. unfold defined at 1. destruct (_isBackgroundComamnd line) as [[]|]; [| |done]; apply wlp_bind, wlp_ret, wlp_bind.
  - assert (jobs_ok (addJob job (jobs_list s))) as Hadd by (apply jobs_ok_add; [by left|apply Hs]).
    apply wlp_bind, wlp_modify, wlp_bind, wlp_gets, wlp_bind. unfold defined, wlp at 1. destruct (getJobById _ _); [|done]. cbn.
    unfold wlp, bind, _freeArgs. destruct args; cbn; [|done]. by apply shell_ok_set_jobs.
  - apply wlp_bind, wlp_modify, wlp_bind, wlp_modify, wlp_ret. unfold wlp, bind, _freeArgs, defined. destruct args; cbn; [|done].
    destruct Hs as [? ? ?]. split; cbn; [done|done|]. intros _. exists job. split; [done|by left].
Qed.
Lemma keeps_External line fd : keeps (ExternalCommand_execute (W := W) line fd).
Proof. unfold ExternalCommand_execute. pose proof (keeps_external_parent). keeps_all. Qed.
#[local] Hint Resolve keeps_External : keeps.

Section NestedKeeps.
Variable exec : command → SM (option JobEntry).
Hypothesis Hexec : ∀ c, keeps (exec c).
#[local] Hint Resolve Hexec : keeps.

Lemma keeps_executeCommand_with line : keeps (executeCommand_with exec line).
Proof. unfold executeCommand_with. keeps_all. Qed.
#[local] Hint Resolve keeps_executeCommand_with : keeps.
Lemma keeps_Redirection r : keeps (RedirectionCommand_execute exec r).
Proof. unfold RedirectionCommand_execute. keeps_all. Qed.
Lemma keeps_run_first c fd : keeps (run_first exec c fd).
Proof. unfold run_first. keeps_all. Qed.
Lemma keeps_run_second c : keeps (run_second exec c).
Proof. unfold run_second. keeps_all. Qed.
Lemma keeps_pipe_side fd std run : keeps run → keeps (pipe_side (W := W) fd std run).
Proof. intros ?. unfold pipe_side. keeps_all. Qed.
#[local] Hint Resolve keeps_run_first keeps_run_second keeps_pipe_side : keeps.
Lemma keeps_Pipe p : keeps (PipeCommand_execute exec p).
Proof. unfold PipeCommand_execute. keeps_all. Qed.
Lemma keeps_schedule t line job : keeps (schedule (W := W) t line job).
Proof.
  unfold schedule. keeps_step; [keeps_all|]. keeps_step. keeps_step; [keeps_all|]. keeps_step.
  - apply keeps_modify. intros s1 [? ? ?]. split; cbn; [done|by apply map_ok_insert_new|done].
  - keeps_step. keeps_step; [|keeps_all]. keeps_step. match goal with p : Z * JobEntry |- _ => destruct p as [k j] end.
    destruct (getJobById_ok (job_id (set_cmd_line line job)) (jobs_list s0) k j) as (_ & ? & ?); [by apply so_jobs|done|].
    apply keeps_set_jobs, jobs_ok_set; [done|done|by apply so_jobs].
Qed.
#[local] Hint Resolve keeps_schedule : keeps.
Lemma keeps_Timeout args line : keeps (TimeoutCommand_execute exec args line).
Proof. unfold TimeoutCommand_execute. keeps_all. Qed.
End NestedKeeps.
#[local] Hint Resolve keeps_Redirection keeps_Pipe keeps_Timeout keeps_executeCommand_with : keeps.

Lemma keeps_execute fuel loops wf : ∀ c, keeps (execute (W := W) fuel loops wf c).
Proof. induction fuel as [|fuel IH]; intros c; cbn; [keeps_all|]. destruct c; keeps_all. Qed.

(** ** Signals and waiting *)

(** What a signal leaves as it was. *)
Record same_wait (s s' : SmallShell W) : Prop := {
  sw_pid : wait_job_pid s' = wait_job_pid s;
  sw_job : foreground_job s' = foreground_job s
}.
Lemma same_wait_trans s1 s2 s3 : same_wait s1 s2 → same_wait s2 s3 → same_wait s1 s3.
Proof. intros [? ?] [? ?]. split; congruence. Qed.

Lemma expire_safe job s : shell_ok s →
  wp (expire job) (λ _ s', shell_ok s' ∧ same_wait s s' ∧ timeout_list s' = timeout_list s) s.
Proof.
  intros Hs. unfold expire. apply wp_bind, wp_sys. intros rc w _. apply wp_bind, wp_sys. intros rc1 w1 _. apply wp_bind.
  assert (∀ w' : W, wp (let* m := gets jobs_list in
      if jobExist (job_id job) m then let* m' := defined (removeJobById (job_id job) m) in modify (set_jobs m') else ret tt)
    (λ _ s', shell_ok s' ∧ same_wait s s' ∧ timeout_list s' = timeout_list s) (set_world w' s)) as Htail.
  { intros w'. apply wp_bind, wp_gets. cbn [jobs_list set_world]. destruct (jobExist _ _) eqn:E; [|by apply wp_ret; split; [apply shell_ok_world|]].
    destruct (getJobById_exists _ _ (so_jobs s Hs) E) as (j & _ & Hf & Hi & _). apply wp_bind, wp_defined.
    exists (map_erase (job_id job) (jobs_list s)). split; [unfold removeJobById; zcase; [lia|]; by rewrite Hf|].
    apply wp_modify. split; [|done]. apply shell_ok_set_jobs; [apply jobs_ok_erase, Hs|by apply shell_ok_world]. }
  destruct (rc1 =? 0); [|apply wp_ret, Htail]. do 4 (apply wp_bind, wp_sys; intros ? ? _). apply wp_ret, Htail.
Qed.

Lemma alarm_loop_safe entries s : map_ok entries → shell_ok s → wp (alarm_loop entries) (λ _ s', shell_ok s' ∧ same_wait s s') s.
Proof.
  revert s. induction entries as [|[t job] rest IH]; intros s Hok Hs; cbn; [by apply wp_ret; split|].
  apply StronglySorted_inv in Hok as [Hrest _]. apply wp_bind, wp_sys. intros now w _. destruct (1 <=? _).
  { apply wp_bind, wp_sys. intros rc w' _. apply wp_ret. split; [by apply shell_ok_world, shell_ok_world|done]. }
  apply wp_bind. eapply wp_mono; [by apply expire_safe, shell_ok_world|]. intros ? s1 (Hs1 & Hw & _). apply wp_bind, wp_modify.
  eapply wp_mono; [apply IH; [done|]|].
  - destruct Hs1 as [? ? ?]. by split.
  - intros ? s2 [Hs2 Hw2]. split; [done|]. destruct Hw, Hw2. split; cbn in *; congruence.
Qed.

Lemma deliver_safe sigs s : shell_ok s → wp (deliver sigs) (λ _ s', shell_ok s' ∧ same_wait s s') s.
Proof.
  revert s. induction sigs as [|sig sigs IH]; intros s Hs; [by apply wp_ret; split|]. cbn. apply wp_bind.
  assert (wp (handler sig) (λ _ s', shell_ok s' ∧ same_wait s s') s) as Hsig.
  { destruct sig; apply wp_bind, wp_sys; intros rc w _; apply wp_bind.
    - cbn. destruct (_ =? -1); [by apply wp_ret; split; [apply shell_ok_world|]|]. apply wp_bind, wp_sys. intros rc' w' _.
      apply wp_ret. split; [by apply shell_ok_world, shell_ok_world|done].
    - cbn. destruct (_ =? -1); [by apply wp_ret; split; [apply shell_ok_world|]|]. apply wp_bind, wp_sys. intros rc' w' _.
      apply wp_modify. split; [|done]. by destruct Hs.
    - cbn. eapply wp_mono; [apply alarm_loop_safe; [apply Hs|by apply shell_ok_world]|]. intros ? s1 [Hs1 [? ?]]. by split. }
  eapply wp_mono; [exact Hsig|]. intros ? s1 [Hs1 Hw]. eapply wp_mono; [by apply IH|]. intros ? s2 [Hs2 Hw2].
  split; [done|]. by eapply same_wait_trans.
Qed.

(** Waiting for a job in the foreground always ends with no job to wait for. *)
Lemma waitForJob_safe sigs s : shell_ok s → wp (waitForJob sigs) (λ _ s', shell_ok s' ∧ wait_job_pid s' = -1) s.
Proof.
  intros Hs. apply wp_bind, wp_gets. destruct (Z.eqb_spec (wait_job_pid s) (-1)) as [E|Hne]; [by apply wp_ret|].
  apply wp_bind. eapply wp_mono; [by apply deliver_safe|]. intros ? s1 [Hs1 [Hp Hj]]. apply wp_bind, wp_sys. intros rc w _. apply wp_bind.
  destruct (so_foreground s Hs Hne) as (j & Hfj & Hid). rewrite Hfj in Hj. cbn -[WIFSTOPPED].
  apply wp_bind. destruct (WIFSTOPPED _).
  - apply wp_bind, wp_cout. intros w'. apply wp_bind, wp_defined. exists j. split; [done|].
    apply wp_bind, wp_modify, wp_modify, wp_modify. split; [|done]. destruct Hs1 as [? ? ?]. split; cbn; [|done|done].
    by apply jobs_ok_add.
  - destruct (foreground_job_killed s1).
    + apply wp_bind, wp_cout. intros w'. apply wp_modify, wp_modify. split; [|done]. destruct Hs1 as [? ? ?]. by split.
    + apply wp_ret, wp_modify. split; [|done]. destruct Hs1 as [? ? ?]. by split.
Qed.

(** ** The shell as a transition system *)

(** A command line, a signal at the prompt, or waiting for the job in the
    foreground while signals arrive. *)
Inductive shell_step : SmallShell W → SmallShell W → Prop :=
| step_line fuel loops wf line s s' : executeCommand fuel loops wf line s = Ok tt s' → shell_step s s'
| step_signal sig s s' : handler sig s = Ok tt s' → shell_step s s'
| step_wait sigs s s' : waitForJob sigs s = Ok tt s' → shell_step s s'.

Lemma shell_step_ok s s' : shell_ok s → shell_step s s' → shell_ok s'.
Proof.
  intros Hs Hstep. destruct Hstep as [fuel loops wf line s s' E|sig s s' E|sigs s s' E].
  - assert (keeps (W := W) (executeCommand fuel loops wf line)) as Hk by (apply keeps_executeCommand_with, keeps_execute).
    specialize (Hk s Hs). unfold wlp in Hk. by rewrite E in Hk.
  - destruct (wp_run2 _ _ _ (deliver_safe [sig] s Hs)) as ([] & s2 & E2 & Hs2 & _). cbn in E2. unfold bind, ret in E2. rewrite E in E2. by simplify_eq.
  - destruct (wp_run2 _ _ _ (waitForJob_safe sigs s Hs)) as ([] & s2 & E2 & Hs2 & _). congruence.
Qed.
Lemma initial_shell_ok (w : W) : shell_ok (initial_shell w).
Proof. split; cbn; [apply jobs_ok_nil|constructor|done]. Qed.

(** C6: The shell keeps its records in order: in every state reachable by command
    lines (nested to any depth), signals and waits, the identifiers of the jobs are
    positive, increase along the list and are the keys of their entries, the
    timeouts are in order of their times, and a job the shell waits for is known,
    so that waiting for it never fails and ends with no job in the foreground. *)
Theorem shell_invariant (w : W) s :
  star shell_step (initial_shell w) s →
  shell_ok s ∧ ∀ sigs, wp (waitForJob sigs) (λ _ s', shell_ok s' ∧ wait_job_pid s' = -1) s.
Proof.
  intros Hstar. assert (shell_ok s) as Hs by (eapply star_invariant; [exact shell_step_ok|exact Hstar|apply initial_shell_ok]).
  split; [done|]. intros sigs. by apply waitForJob_safe.
Qed.
End Commands.

(** ** An example: two jobs in the background *)

Definition demo_line (line : str) (s : SmallShell demo) : SmallShell demo := after (executeCommand 5 100 100 line) s.
Definition demo_jobs : SmallShell demo := demo_line (lit "sleep 7&") (demo_line (lit "sleep 9 &") (initial_shell demo_world)).

Lemma demo_jobs_reachable : star shell_step (initial_shell demo_world) demo_jobs.
Proof.
  eapply star_step; [apply (step_line 5 100 100 (lit "sleep 9 &")); vm_compute; reflexivity|].
  eapply star_step; [apply (step_line 5 100 100 (lit "sleep 7&")); vm_compute; reflexivity|]. apply star_refl.
Qed.

Lemma shell_invariant_witness :
  keys (jobs_list demo_jobs) = [1; 2] ∧ shell_ok demo_jobs ∧
  ∀ sigs, wp (waitForJob sigs) (λ _ s', shell_ok s' ∧ wait_job_pid s' = -1) demo_jobs.
Proof. split; [vm_compute; reflexivity|]. apply (shell_invariant demo_world demo_jobs). exact demo_jobs_reachable. Defined.

Lemma demo_jobs_ok : shell_ok demo_jobs.
Proof.
  eapply star_invariant; [exact shell_step_ok|exact demo_jobs_reachable|apply initial_shell_ok].
Qed.

Lemma job_commands_safe_witness : wp (KillCommand_execute [lit "kill"; lit "-9"; lit "2"]) (λ _ s', shell_ok s') demo_jobs.
Proof.
  apply (job_commands_safe (lit "kill") [lit "-9"; lit "2"] demo_jobs demo_jobs_ok). set_solver.
Defined.
