(* ===== verification/ShellJobs.v ===== *)
(** * Jobs and timeouts of the shell

    What becomes of a job that is brought to the foreground, of the jobs whose time
    is over, and where the timeouts of the code go wrong. *)

From S2P Require Import Prelude CString ShellParse JobsList ShellState ShellDemo Fare Builtins Shell ShellInv.

(** ** The list of jobs *)

Lemma map_erase_absent (k : Z) (m : jobs) : k ∉ keys m → map_erase k m = m.
Proof.
  unfold keys. induction m as [|[j u] m IH]; cbn; [done|]. intros Hk. zcase; [set_solver|]. rewrite IH; [done|set_solver].
Qed.
Lemma map_set_erase (k : Z) (v : JobEntry) (m : jobs) : map_ok m → map_set k v (map_erase k m) = map_set k v m.
Proof.
  unfold map_ok. induction m as [|[j u] m IH]; intros Hok; cbn; [done|]. cbn in Hok. apply StronglySorted_inv in Hok as [Hm Hj].
  destruct (Z.eqb_spec k j) as [->|Hne].
  - destruct m as [|[i x] m]; [done|]. cbn in Hj |- *. apply Forall_cons_1 in Hj as [Hji _]. by repeat zcase; try lia.
  - cbn. rewrite IH by done. repeat zcase; try lia; [|done]. rewrite map_erase_absent; [done|].
    intros Hin. eapply (proj1 (Forall_forall _ _)) in Hj; [|exact Hin]. lia.
Qed.

(** A new job gets an identifier above all others, and nothing else changes. *)
Lemma addJob_new job m : jobs_ok m → job_id job = -1 →
  ∃ k, 1 ≤ k ∧ (∀ i, i ∈ keys m → i < k) ∧ (∀ i, map_find i (addJob job m) = if i =? k then Some (set_job_id k job) else map_find i m).
Proof.
  intros Hm Hid. unfold addJob. rewrite Hid. cbn. destruct (last m) as [[k j]|] eqn:E; cbn.
  - exists (k + 1). pose proof (jobs_ok_last _ _ _ Hm E). split; [lia|]. split; [|by intros; apply map_find_set].
    intros i Hi. pose proof (map_last_max m k j i (proj1 Hm) E Hi). lia.
  - exists 1. apply last_None in E as ->. split; [lia|]. split; [by intros i ?%not_elem_of_nil|by intros; apply map_find_set].
Qed.

(** A job that leaves the list and comes back stopped is where it was. *)
Lemma addJob_back k j m : jobs_ok m → map_find k m = Some j → addJob (set_stopped true j) (map_erase k m) = map_set k (set_stopped true j) m.
Proof.
  intros Hm Hf. destruct (jobs_ok_find _ _ _ Hm Hf) as [Hk Hid]. unfold addJob. cbn. rewrite Hid.
  destruct (Z.eqb_spec k (-1)); [lia|]. apply map_set_erase, Hm.
Qed.

Section Foreground.
Context {W : Type} {os : ShellOS W}.
Implicit Types s : SmallShell W.

(** The jobs that have not finished, as [waitpid] tells of each in turn, and the
    world after these calls. *)
Fixpoint reap (m : jobs) (w : W) : jobs * W :=
  match m with
  | [] => ([], w)
  | e :: m' =>
    let '(rc, w1) := scall (s_waitpid (pid e.2) WNOHANG) w in
    let '(rest, w2) := reap m' w1 in
    (if rc =? pid e.2 then rest else e :: rest, w2)
  end.

Lemma set_world_id s : set_world (sworld s) s = s.
Proof. by destruct s. Qed.
Lemma unfinished_run m s : unfinished m s = Ok (reap m (sworld s)).1 (set_world (reap m (sworld s)).2 s).
Proof.
  revert s. induction m as [|e m IH]; intros s; cbn; [by rewrite set_world_id|]. unfold bind, sys.
  destruct (scall (s_waitpid (pid e.2) WNOHANG) (sworld s)) as [rc w1]. rewrite IH. cbn. by destruct (reap m w1).
Qed.
Lemma reap_sublist m w : (reap m w).1 `sublist_of` m.
Proof.
  revert w. induction m as [|e m IH]; intros w; cbn; [done|]. destruct (scall _ w) as [rc w1]. specialize (IH w1).
  destruct (reap m w1) as [rest w2]. cbn in *. destruct (rc =? pid e.2); by constructor.
Qed.

(** The world after the wait for the job [j]. *)
Definition waited (j : JobEntry) (w : W) : W := (scall (s_waitpid (pid j) WUNTRACED) w).2.

(** Waiting, without signals, for the job [j]. *)
Lemma wait_foreground j s : wait_job_pid s = pid j → foreground_job s = Some j →
  wp (waitForJob []) (λ _ s', wait_job_pid s' = -1 ∧
    jobs_list s' = if negb (pid j =? -1) && WIFSTOPPED (sstatus (waited j (sworld s))) then addJob (set_stopped true j) (jobs_list s) else jobs_list s) s.
Proof.
  intros Hp Hj. apply wp_bind, wp_gets. rewrite Hp. destruct (Z.eqb_spec (pid j) (-1)) as [E|E]; [apply wp_ret; split; [congruence|done]|].
  apply wp_bind, wp_ret, wp_bind, wp_sys. intros rc w Ew. apply wp_bind. cbn -[WIFSTOPPED]. unfold waited. rewrite Ew. cbn [snd].
  apply wp_bind. destruct (WIFSTOPPED _); cbn [andb negb].
  - apply wp_bind, wp_cout. intros w'. apply wp_bind, wp_defined. exists j. split; [done|].
    apply wp_bind, wp_modify, wp_modify, wp_modify. by split.
  - destruct (foreground_job_killed s); [apply wp_bind, wp_cout; intros w'; apply wp_modify|apply wp_ret]; apply wp_modify; auto.
Qed.

(** The world after [fg] has woken the job [j] up and shown its name. *)
Definition resumed (j : JobEntry) (w : W) : W :=
  (scall (s_write STDOUT_FILENO (job_name j)) (scall (s_kill (pid j) SIGCONT) w).2).2.

(** [fg k] of a job that exists. *)
Lemma fg_existing k j s : shell_ok s → map_find k (jobs_list s) = Some j → 1 ≤ k < 2 ^ 31 →
  wp (let* job := defined (getJobById (atoi (dec k)) (jobs_list s)) in
      modify (set_foreground job.2) ;;;
      let* m' := defined (removeJobById (atoi (dec k)) (jobs_list s)) in
      modify (set_jobs m') ;;; modify (set_wait_job_pid (pid job.2)) ;;; sys (s_kill (pid job.2) SIGCONT) ;;; cout (job_name job.2))
     (λ _ s', wait_job_pid s' = pid j ∧ foreground_job s' = Some j ∧ jobs_list s' = map_erase k (jobs_list s) ∧ sworld s' = resumed j (sworld s)) s.
Proof.
  intros Hs Hf Hk. rewrite atoi_dec by lia. apply wp_bind, wp_defined. exists (k, j). split; [unfold getJobById; zcase; [lia|]; by rewrite Hf|].
  apply wp_bind, wp_modify, wp_bind, wp_defined. exists (map_erase k (jobs_list s)).
  split; [unfold removeJobById; zcase; [lia|]; by rewrite Hf|].
  apply wp_bind, wp_modify, wp_bind, wp_modify, wp_bind, wp_sys. intros rc w Ew. apply wp_bind, wp_sys. intros rc' w' Ew'. apply wp_ret.
  unfold resumed. cbn in Ew, Ew' |- *. rewrite Ew. cbn [snd]. by rewrite Ew'.
Qed.

Lemma is_number_dec k : 0 ≤ k < 2 ^ 31 → _is_number (dec k) = true.
Proof.
  intros Hk. unfold dec. destruct (Z.ltb_spec k 0); [lia|]. destruct (dec_digits_ok 20 k ltac:(lia)) as (Hd & _).
  destruct (dec_digits 20 k) as [|c l]; [done|]. cbn [_is_number]. apply Forall_cons_1 in Hd as Hcl. destruct Hcl as [Hc Hl].
  destruct (isdigit_not_space c Hc) as (_ & Hm & _). rewrite bool_decide_eq_false_2 by (by intros ->).
  apply forallb_forall. intros x Hx. eapply (proj1 (Forall_forall _ _)) in Hd; [exact Hd|by apply list_elem_of_In].
Qed.

(** C19: A job brought to the foreground keeps its place.  [fg k] at the prompt sees
    the listed jobs without those that have finished.  When there is a job [k] among
    them it is sent [SIGCONT] and waited for; the list is then the one [fg] saw, with
    the job [k] marked as stopped and nothing else changed when the status of that
    wait says that it was stopped, and without the job [k] otherwise.  When there is
    no job [k], it is the list [fg] saw.  The shell waits for no job then.  No signal
    arrives in between. *)
Theorem fg_round_trip (name : str) (k : Z) s :
  shell_ok s → wait_job_pid s = -1 → 1 ≤ k < 2 ^ 31 →
  let m := (reap (jobs_list s) (sworld s)).1 in
  let w := (reap (jobs_list s) (sworld s)).2 in
  wp (ForegroundCommand_execute [name; dec k] ;;; waitForJob [])
     (λ _ s', wait_job_pid s' = -1 ∧
        jobs_list s' =
          match map_find k m with
          | None => m
          | Some j =>
            if negb (pid j =? -1) && WIFSTOPPED (sstatus (waited j (resumed j w))) then map_set k (set_stopped true j) m
            else map_erase k m
          end) s.
Proof.
  intros Hs Hw Hk m w. apply wp_bind. unfold ForegroundCommand_execute, bad_job_args. cbn [length arg nth Nat.eqb Nat.ltb Nat.leb andb orb].
  rewrite is_number_dec by lia. cbn [negb]. apply wp_bind, wp_bind, wp_gets, wp_bind. unfold wp at 1. rewrite unfinished_run. fold m w. apply wp_modify.
  set (s1 := set_jobs m (set_world w s)).
  assert (shell_ok s1) as Hs1 by (apply shell_ok_set_jobs; [eapply jobs_ok_sublist; [apply reap_sublist|apply Hs]|by apply shell_ok_world]).
  apply wp_bind, wp_gets. change (jobs_list s1) with m. unfold jobExist at 1. rewrite atoi_dec at 1 by lia.
  destruct (map_find k m) as [j|] eqn:Hf; cbn [negb].
  - eapply wp_mono; [by apply (fg_existing k j s1)|]. intros ? s2 (Hp & Hj & Hl & Hw2). eapply wp_mono; [by apply (wait_foreground j)|].
    intros ? s3 [Hw3 Hl3]. split; [done|]. rewrite Hl3, Hl, Hw2. change (sworld s1) with w. change (jobs_list s1) with m.
    destruct (negb (pid j =? -1) && WIFSTOPPED (sstatus (waited j (resumed j w)))); [|reflexivity]. apply addJob_back; [by apply (so_jobs s1)|done].
  - apply wp_cerr. intros w'. apply wp_bind, wp_gets. cbn. rewrite Hw. cbn. by split.
Qed.
End Foreground.

(** ** Timeouts *)

(** The world with the calls that were made and their results: a kernel that keeps a
    list of them behaves as the one without. *)
Abbreviation logged W := (W * list (shcall * Z))%type.
#[export] Instance logged_os {W} (os : ShellOS W) : ShellOS (logged W) := {|
  scall c w := let '(rc, w') := scall c w.1 in (rc, (w', w.2 ++ [(c, rc)]));
  serrno w := serrno w.1;
  sdata w := sdata w.1;
  sstatus w := sstatus w.1;
  spipe w := spipe w.1;
  sstrerror := sstrerror
|}.

Section Alarm.
Context {W : Type} {os : ShellOS W}.
Implicit Types s : SmallShell (logged W).

Definition calls s : list (shcall * Z) := (sworld s).2.

Lemma wp_sys_log c (Q : Z → SmallShell (logged W) → Prop) s :
  (∀ rc w, w.2 = calls s ++ [(c, rc)] → Q rc (set_world w s)) → wp (sys c) Q s.
Proof. intros HQ. apply wp_sys. intros rc w E. apply HQ. cbn in E. destruct (scall c (sworld s).1) as [rc' w']. by simplify_eq/=. Qed.

(** What is done to a process after [kill(pid, 0)] has returned [rc]: when there is
    such a process it is sent [SIGKILL], and the user is told. *)
Definition killing (job : JobEntry) (rc : Z) (l : list (shcall * Z)) : Prop :=
  if rc =? 0 then
    ∃ r1 r2 r3 r4, l = [(s_kill (pid job) SIGKILL, r1); (s_write STDOUT_FILENO (lit "smash: "), r2);
      (s_write STDOUT_FILENO (cmd_line job), r3); (s_write STDOUT_FILENO (lit " timed out!" ++ [LF]), r4)]
  else l = [].
(** The calls for a timeout: the clock shows that its time is over, the process is
    reaped if it has ended, and killed if it is still there. *)
Definition ended (e : Z * JobEntry) (l : list (shcall * Z)) : Prop :=
  ∃ now r0 rc l', e.1 ≤ now ∧ killing e.2 rc l' ∧
    l = (s_time, now) :: (s_waitpid (pid e.2) WNOHANG, r0) :: (s_kill (pid e.2) 0, rc) :: l'.
(** The calls after which the timeouts [tl] are left: the first of them is at least a
    second ahead, and an alarm is set for it. *)
Definition rearmed (tl : jobs) (l : list (shcall * Z)) : Prop :=
  match tl with
  | [] => l = []
  | (t, _) :: _ => ∃ now r, l = [(s_time, now); (s_alarm (t - now), r)] ∧ 1 ≤ t - now ∧ Forall (λ e, now < e.1) tl
  end.

(** The list of jobs without the identifiers of some timeouts. *)
Definition erase_all (m l : jobs) : jobs := foldl (λ m e, map_erase (job_id e.2) m) m l.

Lemma erase_missing k m : jobExist k m = false → map_erase k m = m.
Proof.
  unfold jobExist. induction m as [|[j u] m IH]; cbn; [done|]. destruct (k =? j); [done|]. intros Hk. by rewrite IH.
Qed.

Lemma expire_spec job s : shell_ok s →
  wp (expire job)
     (λ _ s', (∃ r0 rc l, killing job rc l ∧ calls s' = calls s ++ (s_waitpid (pid job) WNOHANG, r0) :: (s_kill (pid job) 0, rc) :: l) ∧
        jobs_list s' = map_erase (job_id job) (jobs_list s) ∧ timeout_list s' = timeout_list s ∧ shell_ok s') s.
Proof.
  intros Hs. unfold expire. apply wp_bind, wp_sys_log. intros r0 w0 E0. apply wp_bind, wp_sys_log. intros rc w1 E1. apply wp_bind.
  assert (Htail : ∀ l (w : logged W), killing job rc l → w.2 = w1.2 ++ l →
    wp (let* m := gets jobs_list in if jobExist (job_id job) m then let* m' := defined (removeJobById (job_id job) m) in modify (set_jobs m') else ret tt)
      (λ _ s', (∃ r0 rc l, killing job rc l ∧ calls s' = calls s ++ (s_waitpid (pid job) WNOHANG, r0) :: (s_kill (pid job) 0, rc) :: l) ∧
        jobs_list s' = map_erase (job_id job) (jobs_list s) ∧ timeout_list s' = timeout_list s ∧ shell_ok s') (set_world w s)).
  { intros l w Hl Hw. assert (Hc : calls (set_world w s) = calls s ++ (s_waitpid (pid job) WNOHANG, r0) :: (s_kill (pid job) 0, rc) :: l).
    { unfold calls. cbn. rewrite Hw, E1. unfold calls. cbn. rewrite E0, <- !app_assoc. done. }
    apply wp_bind, wp_gets. cbn [jobs_list set_world]. destruct (jobExist _ _) eqn:E.
    - destruct (getJobById_exists _ _ (so_jobs s Hs) E) as (j & _ & Hf & Hi & _). apply wp_bind, wp_defined.
      exists (map_erase (job_id job) (jobs_list s)). split; [unfold removeJobById; zcase; [lia|]; by rewrite Hf|].
      apply wp_modify. split; [by exists r0, rc, l|]. split; [done|]. split; [done|].
      apply shell_ok_set_jobs; [apply jobs_ok_erase, Hs|by apply shell_ok_world].
    - apply wp_ret. split; [by exists r0, rc, l|]. split; [by rewrite erase_missing|]. split; [done|by apply shell_ok_world]. }
  destruct (rc =? 0) eqn:Erc.
  - apply wp_bind, wp_sys_log. intros r1 w2 E2. apply wp_bind, wp_sys_log. intros r2 w3 E3. apply wp_bind, wp_sys_log. intros r3 w4 E4.
    apply wp_bind, wp_sys_log. intros r4 w5 E5. apply wp_ret. eapply Htail; [unfold killing; rewrite Erc; by exists r1, r2, r3, r4|].
    unfold calls in *. cbn in *. by rewrite E5, E4, E3, E2, <- !app_assoc.
  - apply wp_ret. apply (Htail [] w1); [unfold killing; by rewrite Erc|by rewrite app_nil_r].
Qed.

Lemma alarm_loop_spec entries s : shell_ok s → timeout_list s = entries →
  wp (alarm_loop entries) (λ _ s', ∃ expired groups last,
    timeout_list s = expired ++ timeout_list s' ∧ Forall2 ended expired groups ∧ rearmed (timeout_list s') last ∧
    calls s' = calls s ++ concat groups ++ last ∧ jobs_list s' = erase_all (jobs_list s) expired) s.
Proof.
  revert s. induction entries as [|[t job] rest IH]; intros s Hs Ht; cbn [alarm_loop].
  { apply wp_ret. exists [], [], []. rewrite Ht. cbn. rewrite app_nil_r. split; [reflexivity|]. split; [constructor|]. by repeat split. }
  apply wp_bind, wp_sys_log. intros now w E. pose proof (so_timeouts s Hs) as Hok. rewrite Ht in Hok. apply StronglySorted_inv in Hok as [Hrest Hmin].
  destruct (Z.leb_spec 1 (t - now)) as [Hdiff|Hdiff].
  - apply wp_bind, wp_sys_log. intros r w' E'. apply wp_ret. exists [], [], [(s_time, now); (s_alarm (t - now), r)].
    split; [done|]. split; [constructor|]. split; [|split; [|done]].
    + cbn. rewrite Ht. exists now, r. split; [done|]. split; [done|]. constructor; [cbn; lia|]. apply Forall_forall. intros e He.
      assert (t < e.1) by (apply (proj1 (Forall_forall _ _) Hmin), list_elem_of_fmap; by exists e). lia.
    + unfold calls in *. cbn in *. by rewrite E', E, <- app_assoc.
  - apply wp_bind. eapply wp_mono; [by apply expire_spec, shell_ok_world|]. intros _ s1 ((r0 & rc & l & Hl & Hc1) & Hj1 & Ht1 & Hs1).
    apply wp_bind, wp_modify. eapply wp_mono; [apply (IH (set_timeouts rest s1)); [|done]|].
    { destruct Hs1 as [? ? ?]. by split. }
    intros ? s' (expired & groups & last & Hsplit & Hend & Hre & Hc & Hj).
    exists ((t, job) :: expired), (((s_time, now) :: (s_waitpid (pid job) WNOHANG, r0) :: (s_kill (pid job) 0, rc) :: l) :: groups), last.
    cbn in Hsplit. split; [rewrite Ht, Hsplit; done|]. split; [constructor; [exists now, r0, rc, l; cbn; split; [lia|done]|done]|]. split; [done|].
    split; [|rewrite Hj; cbn; by rewrite Hj1].
    rewrite Hc. change (calls (set_timeouts rest s1)) with (calls s1). rewrite Hc1. unfold calls at 1. cbn. rewrite E, <- !app_assoc. cbn. rewrite <- ?app_assoc. reflexivity.
Qed.

(** C18: The alarm handler ends exactly the jobs whose time is over.  It always
    returns, and the calls it makes are these: it tells the user; for each timeout of
    a prefix of the list in turn, it reads a clock that is not before the timeout,
    reaps the process if it has ended, and if there is still such a process sends it
    [SIGKILL] and tells the user; and when a timeout is left, it reads a clock that is
    before all that are left, by at least a second, and sets an alarm for the first of
    them.  The prefix leaves the list of timeouts, and exactly the jobs listed under
    the identifiers of these timeouts leave the list of jobs. *)
Theorem alarm_handler_correct s :
  shell_ok s →
  wp alarmHandler
     (λ _ s', ∃ r expired groups last,
        timeout_list s = expired ++ timeout_list s' ∧ Forall2 ended expired groups ∧ rearmed (timeout_list s') last ∧
        calls s' = calls s ++ (s_write STDOUT_FILENO (lit "smash: got an alarm" ++ [LF]), r) :: concat groups ++ last ∧
        jobs_list s' = erase_all (jobs_list s) expired) s.
Proof.
  intros Hs. apply wp_bind, wp_sys_log. intros r w Hw. apply wp_bind. cbn.
  eapply wp_mono; [apply alarm_loop_spec; [by apply shell_ok_world|done]|]. cbn. intros ? s' (expired & groups & last & H1 & H2 & H3 & H4 & H5).
  exists r, expired, groups, last. do 3 (split; [done|]). split; [|done]. rewrite H4. unfold calls at 1. cbn. by rewrite Hw, <- app_assoc.
Qed.
End Alarm.

(** ** Examples *)

(** The first job is stopped while it is in the foreground: the status of the wait
    says so. *)
Definition demo_stopped : SmallShell demo := set_world (d_set_status 127 (sworld demo_jobs)) demo_jobs.

Lemma fg_round_trip_witness :
  jobs_list (after (ForegroundCommand_execute [lit "fg"; dec 1] ;;; waitForJob []) demo_stopped) =
    (λ e, (e.1, if e.1 =? 1 then set_stopped true e.2 else e.2)) <$> jobs_list demo_jobs ∧
  let m := (reap (jobs_list demo_stopped) (sworld demo_stopped)).1 in
  let w := (reap (jobs_list demo_stopped) (sworld demo_stopped)).2 in
  wp (ForegroundCommand_execute [lit "fg"; dec 1] ;;; waitForJob [])
     (λ _ s', wait_job_pid s' = -1 ∧
        jobs_list s' =
          match map_find 1 m with
          | None => m
          | Some j =>
            if negb (pid j =? -1) && WIFSTOPPED (sstatus (waited j (resumed j w))) then map_set 1 (set_stopped true j) m
            else map_erase 1 m
          end) demo_stopped.
Proof.
  split; [vm_compute; reflexivity|].
  apply (fg_round_trip (lit "fg") 1 demo_stopped); [apply shell_ok_world, demo_jobs_ok|vm_compute; reflexivity|lia].
Defined.

(** Two timeouts, and later the alarm. *)
Definition demo_timeouts : SmallShell demo :=
  demo_line (lit "timeout 30 sleep 90&") (demo_line (lit "timeout 5 sleep 90&") (initial_shell demo_world)).
Definition demo_later : SmallShell demo := set_world (d_set_clock 1005 (sworld demo_timeouts)) demo_timeouts.

Lemma demo_later_ok : shell_ok demo_later.
Proof.
  apply shell_ok_world. eapply star_invariant; [exact shell_step_ok| |apply (initial_shell_ok demo_world)].
  eapply star_step; [apply (step_line 5 100 100 (lit "timeout 5 sleep 90&")); vm_compute; reflexivity|].
  eapply star_step; [apply (step_line 5 100 100 (lit "timeout 30 sleep 90&")); vm_compute; reflexivity|]. apply star_refl.
Qed.

(** The same state over the kernel that keeps a list of the calls. *)
Definition log_shell {W} (s : SmallShell W) : SmallShell (logged W) :=
  Shell (sworld s, []) (old_pwd s) (old_path s) (exit_shell s) (wait_job_pid s) (foreground_job_killed s) (foreground_job s)
    (jobs_list s) (timeout_list s) (m_prompt_name s) (min_completion_time s).
Lemma log_shell_ok {W} (s : SmallShell W) : shell_ok s → shell_ok (log_shell s).
Proof. intros [? ? ?]. by split. Qed.

Lemma alarm_handler_correct_witness :
  let s := log_shell demo_later in
  keys (timeout_list s) = [1005; 1030] ∧ keys (timeout_list (after alarmHandler s)) = [1030] ∧
  (s_kill 500 SIGKILL, 0) ∈ calls (after alarmHandler s) ∧ keys (jobs_list (after alarmHandler s)) = [2] ∧
  wp alarmHandler
     (λ _ s', ∃ r expired groups last,
        timeout_list s = expired ++ timeout_list s' ∧ Forall2 ended expired groups ∧ rearmed (timeout_list s') last ∧
        calls s' = calls s ++ (s_write STDOUT_FILENO (lit "smash: got an alarm" ++ [LF]), r) :: concat groups ++ last ∧
        jobs_list s' = erase_all (jobs_list s) expired) s.
Proof.
  split; [vm_compute; reflexivity|]. split; [vm_compute; reflexivity|].
  split; [apply (list_elem_of_lookup_2 _ 4); vm_compute; reflexivity|]. split; [vm_compute; reflexivity|].
  apply (alarm_handler_correct (log_shell demo_later)), log_shell_ok, demo_later_ok.
Defined.
