(* ===== verification/Descriptors.v ===== *)
(** * The descriptors of the shell

    Redirections and pipes rearrange the descriptors 0, 1 and 2 of the shell itself,
    run a command, and put them back.  The table of open descriptors is a finite
    map; the laws of the calls that change it are the class [DescriptorLaws], with
    the assumption that [dup2] and [close] of an open descriptor succeed. *)

From S2P Require Import Prelude CString ShellParse JobsList ShellState ShellDemo Fare Builtins Shell.

(** Calls that leave the table of the shell as it is. *)
Definition quiet_call (c : shcall) : bool :=
  match c with
  | s_open _ _ _ | s_close _ | s_dup _ | s_dup2 _ _ | s_pipe => false
  | _ => true
  end.

(** [fds w] maps a descriptor to the open file it refers to.  New descriptors are
    not in use. *)
Class DescriptorLaws (W : Type) `{ShellOS W} := {
  fds : W → gmap Z Z;
  fd_quiet : ∀ c w, quiet_call c = true → fds (scall c w).2 = fds w;
  fd_open : ∀ path flags mode w,
    let '(rc, w') := scall (s_open path flags mode) w in
    (rc = -1 ∧ fds w' = fds w) ∨ (rc ≠ -1 ∧ fds w !! rc = None ∧ ∃ d, fds w' = <[rc := d]> (fds w));
  fd_dup : ∀ fd w,
    let '(rc, w') := scall (s_dup fd) w in
    (rc = -1 ∧ fds w' = fds w) ∨ (rc ≠ -1 ∧ fds w !! rc = None ∧ ∃ d, fds w !! fd = Some d ∧ fds w' = <[rc := d]> (fds w));
  fd_dup2 : ∀ fd fd2 d w, fds w !! fd = Some d →
    let '(rc, w') := scall (s_dup2 fd fd2) w in rc ≠ -1 ∧ fds w' = <[fd2 := d]> (fds w);
  fd_close : ∀ fd d w, fds w !! fd = Some d →
    let '(rc, w') := scall (s_close fd) w in rc ≠ -1 ∧ fds w' = delete fd (fds w);
  fd_pipe : ∀ w,
    let '(rc, w') := scall s_pipe w in
    (rc = -1 ∧ fds w' = fds w) ∨
    (rc ≠ -1 ∧ (spipe w').1 ≠ (spipe w').2 ∧ fds w !! (spipe w').1 = None ∧ fds w !! (spipe w').2 = None ∧
     ∃ d1 d2, fds w' = <[(spipe w').1 := d1]> (<[(spipe w').2 := d2]> (fds w)))
}.

Create HintDb stable.

Section Stable.
Context {W : Type} {os : ShellOS W} {laws : DescriptorLaws W}.
Abbreviation SM := (M (SmallShell W)).
Implicit Types s : SmallShell W.

Definition table s : gmap Z Z := fds (sworld s).

(** When [c] returns, the table is what it was. *)
Definition stable {A} (c : SM A) : Prop := ∀ s, wlp c (λ _ s', table s' = table s) s.

Lemma stable_bind {A B} (c : SM A) (k : A → SM B) : stable c → (∀ a, stable (k a)) → stable (bind c k).
Proof.
  intros Hc Hk s. apply wlp_bind. eapply wlp_mono; [apply Hc|]. intros a s' E. eapply wlp_mono; [apply Hk|]. cbn. congruence.
Qed.
Lemma stable_ret {A} (a : A) : stable (ret a).
Proof. by intros s. Qed.
Lemma stable_fault {A} : stable (A := A) fault.
Proof. by intros s. Qed.
Lemma stable_nofuel {A} : stable (A := A) nofuel.
Proof. by intros s. Qed.
Lemma stable_exit {A} code : stable (A := A) (exit code).
Proof. by intros s. Qed.
Lemma stable_gets {A} (f : SmallShell W → A) : stable (gets f).
Proof. by intros s. Qed.
Lemma stable_getS : stable (getS (S := SmallShell W)).
Proof. by intros s. Qed.
Lemma stable_defined {A} (o : option A) : stable (defined o).
Proof. by destruct o. Qed.
Lemma stable_modify (f : SmallShell W → SmallShell W) : (∀ s, sworld (f s) = sworld s) → stable (modify f).
Proof. intros Hf s. unfold wlp, modify, table. by rewrite Hf. Qed.
Lemma stable_if {A} (b : bool) (c c' : SM A) : stable c → stable c' → stable (if b then c else c').
Proof. by destruct b. Qed.
Lemma stable_sys c : quiet_call c = true → stable (sys c).
Proof. intros Hq s. unfold wlp, sys, table. pose proof (fd_quiet c (sworld s) Hq). by destruct (scall c (sworld s)). Qed.
(** A process that ends does not come back to the shell. *)
Definition ends {A} (c : SM A) : Prop := ∀ Q s, wlp c Q s.
Lemma ends_exit {A} code : ends (A := A) (exit code).
Proof. done. Qed.
Lemma ends_bind {A B} (c : SM A) (k : A → SM B) : (∀ a, ends (k a)) → ends (bind c k).
Proof. intros Hk Q s. apply wlp_bind. unfold wlp at 1. destruct (c s); [apply Hk|done..]. Qed.
Lemma ends_stable {A} (c : SM A) : ends c → stable c.
Proof. intros Hc s. apply Hc. Qed.
End Stable.

#[export] Hint Resolve stable_ret stable_fault stable_nofuel stable_exit stable_gets stable_getS stable_defined stable_modify stable_sys : stable.
#[export] Hint Extern 1 (∀ s, sworld _ = sworld s) => done : stable.

(** One step through the code. *)
Ltac stable_step :=
  match goal with
  | |- stable (bind _ _) => apply stable_bind; [|intros ?]
  | |- stable (if _ then _ else _) => apply stable_if
  | |- stable (match ?x with _ => _ end) => destruct x
  | |- stable _ => solve [eauto with stable]
  end.
Ltac stable_all := repeat stable_step.

Section Commands.
Context {W : Type} {os : ShellOS W} {laws : DescriptorLaws W}.
Abbreviation SM := (M (SmallShell W)).
Implicit Types s : SmallShell W.

Lemma stable_cout msg : stable (cout (W := W) msg).
Proof. unfold cout. stable_all. Qed.
Lemma stable_cerr msg : stable (cerr (W := W) msg).
Proof. unfold cerr. stable_all. Qed.
#[local] Hint Resolve stable_cout stable_cerr : stable.
Lemma stable_perror msg : stable (perror (W := W) msg).
Proof. unfold perror. stable_all. Qed.
#[local] Hint Resolve stable_perror : stable.
Lemma stable_WriteWrapper wf fd : ∀ data, stable (_WriteWrapper (W := W) wf fd data).
Proof. induction wf; intros data; cbn; stable_all. Qed.
Lemma stable_copy line : stable (_cmd_line_copy (W := W) line).
Proof. unfold _cmd_line_copy. stable_all. Qed.
Lemma stable_new_job line p : stable (new_job (W := W) line p).
Proof. unfold new_job. stable_all. Qed.
#[local] Hint Resolve stable_WriteWrapper stable_copy stable_new_job : stable.

Lemma stable_unfinished m : stable (unfinished (W := W) m).
Proof. induction m; cbn; stable_all. Qed.
#[local] Hint Resolve stable_unfinished : stable.
Lemma stable_removeFinishedJobs : stable (removeFinishedJobs (W := W)).
Proof. unfold removeFinishedJobs. stable_all. Qed.
Lemma stable_print_entries t m : stable (print_entries (W := W) t m).
Proof. induction m; cbn; stable_all. Qed.
Lemma stable_kill_entries m : stable (kill_entries (W := W) m).
Proof. induction m; cbn; stable_all. Qed.
#[local] Hint Resolve stable_removeFinishedJobs stable_print_entries stable_kill_entries : stable.

Lemma stable_ChangePrompt args : stable (ChangePromptCommand_execute (W := W) args).
Proof. unfold ChangePromptCommand_execute, changePromptName. stable_all. Qed.
Lemma stable_ShowPid : stable (ShowPidCommand_execute (W := W)).
Proof. unfold ShowPidCommand_execute. stable_all. Qed.
Lemma stable_GetCurrDir : stable (GetCurrDirCommand_execute (W := W)).
Proof. unfold GetCurrDirCommand_execute. stable_all. Qed.
Lemma stable_ChangeDir args : stable (ChangeDirCommand_execute (W := W) args).
Proof. unfold ChangeDirCommand_execute. stable_all. Qed.
Lemma stable_Jobs : stable (JobsCommand_execute (W := W)).
Proof. unfold JobsCommand_execute, printJobsList. stable_all. Qed.
Lemma stable_Quit args : stable (QuitCommand_execute (W := W) args).
Proof. unfold QuitCommand_execute, killAllJobs. stable_all. Qed.
Lemma stable_Setcore args : stable (SetcoreCommand_execute (W := W) args).
Proof. unfold SetcoreCommand_execute. stable_all. Qed.
Lemma stable_Kill args : stable (KillCommand_execute (W := W) args).
Proof. unfold KillCommand_execute, after_signal. stable_all. Qed.
Lemma stable_Foreground args : stable (ForegroundCommand_execute (W := W) args).
Proof. unfold ForegroundCommand_execute. stable_all. Qed.
Lemma stable_Background args : stable (BackgroundCommand_execute (W := W) args).
Proof. unfold BackgroundCommand_execute, resume. stable_all. Qed.
Lemma stable_CreateCommand line : stable (CreateCommand (W := W) line).
Proof. unfold CreateCommand, BuiltInCommand. stable_all. Qed.
Lemma stable_external_args line : stable (external_args (W := W) line).
Proof. unfold external_args. stable_all. Qed.
Lemma stable_external_parent args line p : stable (external_parent (W := W) args line p).
Proof. unfold external_parent, _freeArgs. stable_all. Qed.
Lemma stable_external_child args fd : stable (external_child (W := W) args fd).
Proof.
  apply ends_stable. unfold external_child. repeat (apply ends_bind; intros). case_match; [|apply ends_exit].
  repeat (apply ends_bind; intros). apply ends_exit.
Qed.
#[local] Hint Resolve stable_ChangePrompt stable_ShowPid stable_GetCurrDir stable_ChangeDir stable_Jobs stable_Quit stable_Setcore
  stable_Kill stable_Foreground stable_Background stable_CreateCommand stable_external_args stable_external_parent stable_external_child : stable.
Lemma stable_External line fd : stable (ExternalCommand_execute (W := W) line fd).
Proof. unfold ExternalCommand_execute. stable_all. Qed.
#[local] Hint Resolve stable_External : stable.

(** ** Calls that change the table *)

Lemma wlp_stable {A} (c : SM A) (Q : A → SmallShell W → Prop) s :
  stable c → (∀ a s', table s' = table s → Q a s') → wlp c Q s.
Proof. intros Hc HQ. eapply wlp_mono; [apply Hc|]. cbn. intros. by apply HQ. Qed.
Lemma wlp_open path flags mode (Q : Z → SmallShell W → Prop) s :
  (∀ rc s', rc = -1 → table s' = table s → Q rc s') →
  (∀ rc s' d, rc ≠ -1 → table s !! rc = None → table s' = <[rc := d]> (table s) → Q rc s') →
  wlp (sys (s_open path flags mode)) Q s.
Proof.
  intros H1 H2. unfold wlp, sys. pose proof (fd_open path flags mode (sworld s)) as HL. destruct (scall _ _) as [rc w].
  destruct HL as [[??]|(? & ? & d & ?)]; [by apply H1|by eapply H2].
Qed.
Lemma wlp_dup fd (Q : Z → SmallShell W → Prop) s :
  (∀ rc s', rc = -1 → table s' = table s → Q rc s') →
  (∀ rc s' d, rc ≠ -1 → table s !! rc = None → table s !! fd = Some d → table s' = <[rc := d]> (table s) → Q rc s') →
  wlp (sys (s_dup fd)) Q s.
Proof.
  intros H1 H2. unfold wlp, sys. pose proof (fd_dup fd (sworld s)) as HL. destruct (scall _ _) as [rc w].
  destruct HL as [[??]|(? & ? & d & ? & ?)]; [by apply H1|by eapply H2].
Qed.
Lemma wlp_dup2 fd fd2 d (Q : Z → SmallShell W → Prop) s :
  table s !! fd = Some d → (∀ rc s', rc ≠ -1 → table s' = <[fd2 := d]> (table s) → Q rc s') → wlp (sys (s_dup2 fd fd2)) Q s.
Proof.
  intros Hd HQ. unfold wlp, sys. pose proof (fd_dup2 fd fd2 d (sworld s) Hd) as HL. destruct (scall _ _) as [rc w].
  destruct HL. by apply HQ.
Qed.
Lemma wlp_close fd d (Q : Z → SmallShell W → Prop) s :
  table s !! fd = Some d → (∀ rc s', rc ≠ -1 → table s' = delete fd (table s) → Q rc s') → wlp (sys (s_close fd)) Q s.
Proof.
  intros Hd HQ. unfold wlp, sys. pose proof (fd_close fd d (sworld s) Hd) as HL. destruct (scall _ _) as [rc w].
  destruct HL. by apply HQ.
Qed.
Lemma wlp_or_complain c msg (Q : unit → SmallShell W → Prop) s :
  wlp (sys c) (λ rc s', rc ≠ -1 ∧ Q tt s') s → wlp (or_complain c msg) Q s.
Proof.
  intros H. apply wlp_bind. eapply wlp_mono; [exact H|]. intros rc s' [Hrc HQ]. zcase; [done|by apply wlp_ret].
Qed.

(** ** [fare] closes what it opened *)

Lemma close_files_table a b da db s : a ≠ b → table s !! a = Some da → table s !! b = Some db →
  wlp (close_files a b) (λ _ s', table s' = delete b (delete a (table s))) s.
Proof.
  intros Hab Ha Hb. apply wlp_bind. eapply wlp_close; [done|]. intros ? s1 _ E1. apply wlp_bind.
  eapply wlp_close; [by rewrite E1, lookup_delete_ne|]. intros ? s2 _ E2. apply wlp_ret. by rewrite E2, E1.
Qed.

(** The table after the loop: both files are closed when it stops early. *)
Definition fare_table (src dst : Z) s (r : option Z) (s' : SmallShell W) : Prop :=
  table s' = match r with Some _ => table s | None => delete dst (delete src (table s)) end.

Lemma fare_loop_table loops wf src dst pat rep n ds dd s :
  src ≠ dst → table s !! src = Some ds → table s !! dst = Some dd →
  wlp (fare_loop loops wf src dst pat rep n)
      (fare_table src dst s) s.
Proof.
  intros Hne Hsrc Hdst. revert n s Hsrc Hdst. induction loops as [|loops IH]; intros n s Hsrc Hdst; cbn; [done|].
  apply wlp_bind, wlp_stable; [stable_all|]. intros rc s1 E1. apply wlp_bind, wlp_gets.
  assert (∀ s2 (c : SM unit), table s2 = table s → stable c → wlp (c ;;; close_files src dst ;;; ret None)
    (fare_table src dst s) s2) as Hclose.
  { intros s2 c E2 Hc. apply wlp_bind, wlp_stable; [done|]. intros [] s3 E3. apply wlp_bind. eapply wlp_mono.
    - apply close_files_table with (da := ds) (db := dd); congruence.
    - cbn. intros ? s4 E4. apply wlp_ret. unfold fare_table. congruence. }
  assert (∀ s2 m, table s2 = table s → wlp (if rc =? 0 then ret (Some m) else fare_loop loops wf src dst pat rep m)
    (fare_table src dst s) s2) as Hnext.
  { intros s2 m E2. destruct (rc =? 0); [by apply wlp_ret|]. eapply wlp_mono; [apply IH; congruence|]. unfold fare_table. intros [] ?; congruence. }
  assert (∀ data (k : SM (option Z)), (∀ s2, table s2 = table s → wlp k
      (fare_table src dst s) s2) →
    wlp (let* r := _WriteWrapper wf dst data in if r =? -1 then close_files src dst ;;; ret None else k)
      (fare_table src dst s) s1) as Hwrite.
  { intros data k Hk. apply wlp_bind, wlp_stable; [stable_all|]. intros r s2 E2. destruct (r =? -1); [|apply Hk; congruence].
    eapply wlp_mono; [apply (Hclose s2 (ret tt)); [congruence|stable_all]|done]. }
  destruct (_ && _); [apply Hwrite; intros; by apply Hnext|]. destruct (0 <? rc).
  - apply Hwrite. intros s2 E2. apply wlp_bind, wlp_stable; [stable_all|]. intros ? s3 E3. apply Hnext. congruence.
  - destruct (rc =? -1); [|by apply Hnext]. apply Hclose; [done|stable_all].
Qed.

Lemma stable_Fare loops wf args : stable (FareCommand_execute (W := W) loops wf args).
Proof.
  unfold FareCommand_execute. do 5 (stable_step; try solve [stable_all]). intros s. apply wlp_bind, wlp_open.
  { intros rc s1 -> E1. cbn -[perror]. apply wlp_stable; [stable_all|]. congruence. }
  intros dst s1 dd Hd Hfd E1. destruct (Z.eqb_spec dst (-1)); [done|]. apply wlp_bind, wlp_open.
  { intros rc s2 -> E2. cbn -[perror]. apply wlp_bind. eapply wlp_close; [by rewrite E2, E1, lookup_insert_eq|].
    intros ? s3 _ E3. apply wlp_stable; [stable_all|]. intros [] s4 ->. by rewrite E3, E2, E1, delete_insert_id. }
  intros src s2 ds Hs Hfs E2. destruct (Z.eqb_spec src (-1)); [done|]. rewrite E1 in Hfs. apply lookup_insert_None in Hfs as [Hfs Hsd].
  assert (table s2 !! src = Some ds) as Hsrc by (by rewrite E2, lookup_insert_eq).
  assert (table s2 !! dst = Some dd) as Hdst by (by rewrite E2, lookup_insert_ne, E1, lookup_insert_eq).
  assert (delete dst (delete src (table s2)) = table s) as Hback.
  { rewrite E2, delete_insert_id, E1, delete_insert_id by (by rewrite ?E1, ?lookup_insert_ne). done. }
  apply wlp_bind, wlp_stable; [stable_all|]. intros buffer s3 E3. destruct (buffer =? NULL).
  { apply wlp_bind. eapply wlp_mono; [apply (close_files_table src dst ds dd); congruence|]. cbn. intros [] s4 E4.
    apply wlp_stable; [stable_all|]. congruence. }
  apply wlp_bind. eapply wlp_mono; [apply (fare_loop_table _ _ src dst _ _ _ ds dd); congruence|]. unfold fare_table. intros [inst|] s4 E4.
  - apply wlp_bind. eapply wlp_close; [rewrite E4, E3; exact Hsrc|]. intros rc s5 Hrc E5. destruct (Z.eqb_spec rc (-1)); [done|].
    apply wlp_bind. eapply wlp_close; [rewrite E5, lookup_delete_ne, E4, E3 by done; exact Hdst|]. intros rc2 s6 Hrc2 E6.
    destruct (Z.eqb_spec rc2 (-1)); [done|]. apply wlp_stable; [stable_all|]. intros [] s7 ->. congruence.
  - apply wlp_ret. congruence.
Qed.
#[local] Hint Resolve stable_Fare : stable.

(** ** Redirections and pipes put the descriptors back *)

(** The descriptors 0, 1 and 2 are open. *)
Definition std_open (t : gmap Z Z) : Prop := is_Some (t !! 0) ∧ is_Some (t !! 1) ∧ is_Some (t !! 2).
Definition stable_std {A} (c : SM A) : Prop := ∀ s, std_open (table s) → wlp c (λ _ s', table s' = table s) s.

Lemma std_open_insert k d t : std_open t → std_open (<[k := d]> t).
Proof. intros (? & ? & ?). repeat split; rewrite lookup_insert_is_Some'; auto. Qed.
Lemma std_open_delete k t : std_open t → k ≠ 0 → k ≠ 1 → k ≠ 2 → std_open (delete k t).
Proof. intros (? & ? & ?) ? ? ?. by repeat split; rewrite lookup_delete_ne. Qed.
(** A new descriptor is none of them. *)
Lemma std_open_fresh k t : std_open t → t !! k = None → k ≠ 0 ∧ k ≠ 1 ∧ k ≠ 2.
Proof. intros ([? H0] & [? H1] & [? H2]) Hk. repeat split; intros ->; congruence. Qed.

Lemma stable_std_bind {A B} (c : SM A) (k : A → SM B) : stable_std c → (∀ a, stable_std (k a)) → stable_std (bind c k).
Proof.
  intros Hc Hk s Hs. apply wlp_bind. eapply wlp_mono; [by apply Hc|]. intros a s' E. eapply wlp_mono; [apply Hk; by rewrite E|].
  cbn. congruence.
Qed.
Lemma stable_stable_std {A} (c : SM A) : stable c → stable_std c.
Proof. intros Hc s _. apply Hc. Qed.

(** A pipe carries the standard output or the standard error. *)
Definition command_ok (c : command) : Prop :=
  match c with PipeCommand p => p_std_type p = 1 ∨ p_std_type p = 2 | _ => True end.
Definition all_ok (r : option command) : Prop := match r with Some c => command_ok c | None => True end.

Lemma parse_pipe_std line p : parse_pipe line = Some p → p_std_type p = 1 ∨ p_std_type p = 2.
Proof. unfold parse_pipe. destruct (find_sub _ _); [|done]. intros [= <-]. cbn. destruct (contains _ _); auto. Qed.
Lemma builtin_ok w args line : all_ok (builtin w args line).
Proof. unfold builtin. by repeat case_bool_decide. Qed.
Lemma CreateCommand_ok line : yields (CreateCommand (W := W) line) all_ok.
Proof.
  unfold CreateCommand, BuiltInCommand. destruct (_isRedirectionCommand line); [apply yields_bind; intros r; by apply yields_ret|].
  destruct (_isPipeCommand line).
  - destruct (parse_pipe line) as [p|] eqn:E; [|done]. apply yields_ret. cbn. by apply parse_pipe_std in E.
  - case_match; [apply yields_bind; intros args; apply yields_ret, builtin_ok|]. apply yields_ret. by case_bool_decide.
Qed.
Lemma CreateCommand_wlp line (Q : option command → SmallShell W → Prop) s :
  (∀ r s', table s' = table s → all_ok r → Q r s') → wlp (CreateCommand line) Q s.
Proof.
  intros HQ. pose proof (stable_CreateCommand line s) as Hs. pose proof (CreateCommand_ok line s) as Hok. unfold wlp in *.
  destruct (CreateCommand line s) as [r s'| | |]; [|done..]. by apply HQ; [|eapply Hok].
Qed.

Section Nested.
Variable exec : command → SM (option JobEntry).
Hypothesis Hexec : ∀ c, command_ok c → stable_std (exec c).

Lemma stable_run_second r : all_ok r → stable_std (run_second exec r).
Proof.
  destruct r as [c|]; intros Hc; [|by apply stable_stable_std, stable_ret]. apply stable_std_bind; [by apply Hexec|].
  intros. by apply stable_stable_std, stable_ret.
Qed.
Lemma stable_run_first r fd : all_ok r → stable_std (run_first exec r fd).
Proof.
  intros Hr. destruct r as [c|]; [|by apply stable_stable_std, stable_ret]. destruct c; try (by apply (stable_run_second (Some _))).
  apply stable_stable_std. cbn. stable_all.
Qed.
Lemma stable_executeCommand_with line : stable_std (executeCommand_with exec line).
Proof.
  intros s Hs. apply wlp_bind, CreateCommand_wlp. intros r s' E Hr. rewrite <- E. apply (stable_run_second r Hr). by rewrite E.
Qed.

Lemma stable_Redirection r : stable_std (RedirectionCommand_execute exec r).
Proof.
  intros s Hstd. unfold RedirectionCommand_execute. apply wlp_bind, wlp_open.
  { intros rc s1 -> E1. cbn -[perror]. apply wlp_stable; [stable_all|]. congruence. }
  intros f s1 df Hf Hff E1. destruct (Z.eqb_spec f (-1)); [done|]. destruct (std_open_fresh f _ Hstd Hff) as (Hf0 & Hf1 & Hf2).
  assert (table s1 !! f = Some df) as Hlf by (by rewrite E1, lookup_insert_eq). apply wlp_bind, wlp_dup.
  { intros rc s2 -> E2. cbn -[perror]. apply wlp_bind, wlp_stable; [stable_all|]. intros [] s3 E3. apply wlp_bind.
    eapply wlp_close; [rewrite E3, E2; exact Hlf|]. intros ? s4 _ E4. apply wlp_ret. by rewrite E4, E3, E2, E1, delete_insert_id. }
  intros v s2 d1 Hv Hfv Hl1 E2. destruct (Z.eqb_spec v (-1)); [done|].
  assert (std_open (table s1)) as Hstd1 by (rewrite E1; by apply std_open_insert). destruct (std_open_fresh v _ Hstd1 Hfv) as (Hv0 & Hv1 & Hv2).
  assert (f ≠ v) as Hfv' by congruence. unfold STDOUT_FILENO in *.
  apply wlp_bind, (wlp_dup2 f 1 df); [by rewrite E2, lookup_insert_ne|]. intros rc s3 Hrc E3. destruct (Z.eqb_spec rc (-1)); [done|].
  apply wlp_bind. eapply wlp_mono; [apply stable_executeCommand_with; rewrite E3, E2; by do 2 apply std_open_insert|]. cbn. intros ? s4 E4.
  apply wlp_bind, wlp_or_complain. eapply wlp_close; [by rewrite E4, E3, lookup_insert_ne, E2, lookup_insert_ne|]. intros ? s5 ? E5. split; [done|].
  apply wlp_bind, wlp_or_complain. eapply wlp_dup2; [rewrite E5, E4, E3, lookup_delete_ne, lookup_insert_ne, E2, lookup_insert_eq by done; done|].
  intros ? s6 ? E6. split; [done|]. apply wlp_or_complain.
  eapply wlp_close; [by rewrite E6, E5, E4, E3, lookup_insert_ne, lookup_delete_ne, lookup_insert_ne, E2, lookup_insert_eq by done|].
  intros ? s7 ? E7. split; [done|]. rewrite E7, E6, E5, E4, E3, E2. rewrite E1 in Hl1 |- *. rewrite lookup_insert_ne in Hl1 by done.
  apply map_eq. intros i. destruct (decide (i = v)) as [->|]; [rewrite lookup_delete_eq; rewrite E1, lookup_insert_None in Hfv; by destruct Hfv|].
  rewrite lookup_delete_ne by done. destruct (decide (i = 1)) as [->|]; [by rewrite lookup_insert_eq|]. rewrite lookup_insert_ne by done.
  destruct (decide (i = f)) as [->|]; [by rewrite lookup_delete_eq|]. by rewrite lookup_delete_ne, !lookup_insert_ne.
Qed.

(** Connect, close the end of the pipe, run: the stream is the end of the pipe. *)
Lemma pipe_side_table fd std d run (Q : unit → SmallShell W → Prop) s :
  table s !! fd = Some d → fd ≠ std → std_open (delete fd (<[std := d]> (table s))) → stable_std run →
  (∀ s', table s' = delete fd (<[std := d]> (table s)) → Q tt s') → wlp (pipe_side fd std run) Q s.
Proof.
  intros Hfd Hne Hstd Hrun HQ. apply wlp_bind. eapply wlp_dup2; [done|]. intros rc s1 Hrc E1. destruct (Z.eqb_spec rc (-1)); [done|].
  apply wlp_bind. eapply wlp_close; [by rewrite E1, lookup_insert_ne|]. intros rc2 s2 Hrc2 E2. destruct (Z.eqb_spec rc2 (-1)); [done|].
  eapply wlp_mono; [apply Hrun; by rewrite E2, E1|]. intros [] s3 E3. apply HQ. by rewrite E3, E2, E1.
Qed.
(** Put a stream back from the descriptor where it was saved. *)
Lemma restore_table saved std d m1 m2 (k : SM unit) (Q : unit → SmallShell W → Prop) s :
  table s !! saved = Some d → saved ≠ std →
  (∀ s', table s' = delete saved (<[std := d]> (table s)) → wlp k Q s') →
  wlp (or_complain (s_dup2 saved std) m1 ;;; or_complain (s_close saved) m2 ;;; k) Q s.
Proof.
  intros Hd Hne HQ. apply wlp_bind, wlp_or_complain. eapply wlp_dup2; [done|]. intros rc s1 Hrc E1. split; [done|].
  apply wlp_bind, wlp_or_complain. eapply wlp_close; [by rewrite E1, lookup_insert_ne|]. intros rc2 s2 Hrc2 E2. split; [done|].
  apply HQ. by rewrite E2, E1.
Qed.

(** The table in the middle of a pipe: the saved streams [a] and [b] and the two
    ends [r] and [w] of the pipe are new descriptors. *)
Record pipe_table (t t' : gmap Z Z) (st a b r w d0 d1 x y : Z) : Prop := {
  pt_0 : t !! 0 = Some d0;
  pt_st : t !! st = Some d1;
  pt_a : t !! a = None;
  pt_b : t !! b = None;
  pt_r : t !! r = None;
  pt_w : t !! w = None;
  pt_ne : a ≠ b ∧ a ≠ r ∧ a ≠ w ∧ b ≠ r ∧ b ≠ w ∧ r ≠ w;
  pt_eq : t' = <[r := x]> (<[w := y]> (<[b := d1]> (<[a := d0]> t)))
}.

(** The moves of the descriptors compose to the identity. *)
Lemma pipe_table_back t t' st a b r w d0 d1 x y : pipe_table t t' st a b r w d0 d1 x y →
  delete a (<[0 := d0]> (delete r (<[0 := x]> (delete b (<[st := d1]> (delete w (<[st := y]> t'))))))) = t.
Proof.
  intros [H0 Hst Ha Hb Hr Hw (? & ? & ? & ? & ? & ?) ->]. apply map_eq. intros i.
  destruct (decide (i = a)) as [->|]; [by rewrite lookup_delete_eq|]. rewrite lookup_delete_ne by done.
  destruct (decide (i = 0)) as [->|]; [by rewrite lookup_insert_eq|]. rewrite lookup_insert_ne by done.
  destruct (decide (i = r)) as [->|]; [by rewrite lookup_delete_eq|]. rewrite lookup_delete_ne, lookup_insert_ne by done.
  destruct (decide (i = b)) as [->|]; [by rewrite lookup_delete_eq|]. rewrite lookup_delete_ne by done.
  destruct (decide (i = st)) as [->|]; [by rewrite lookup_insert_eq|]. rewrite lookup_insert_ne by done.
  destruct (decide (i = w)) as [->|]; [by rewrite lookup_delete_eq|]. by rewrite lookup_delete_ne, !lookup_insert_ne.
Qed.

(** The part of a pipe after the pipe has been made. *)
Lemma pipe_middle p t a b r w d0 d1 x y s :
  (p_std_type p = 1 ∨ p_std_type p = 2) → std_open t → pipe_table t (table s) (p_std_type p) a b r w d0 d1 x y →
  wlp (let* command1 := CreateCommand (p_cmd_line1 p) in
       let* command2 := CreateCommand (p_cmd_line2 p) in
       pipe_side w (p_std_type p) (run_first exec command1 r) ;;;
       or_complain (s_dup2 b (p_std_type p)) dup2_failed ;;;
       or_complain (s_close b) close_failed ;;;
       pipe_side r STDIN_FILENO (run_second exec command2) ;;;
       or_complain (s_dup2 a STDIN_FILENO) dup2_failed ;;;
       or_complain (s_close a) close_failed) (λ _ s', table s' = t) s.
Proof.
  intros Hp Hstd HT. pose proof HT as [H0 Hst Ha Hb Hr Hw (? & ? & ? & ? & ? & ?) Heq]. unfold STDIN_FILENO.
  destruct (std_open_fresh a t Hstd Ha) as (? & ? & ?), (std_open_fresh b t Hstd Hb) as (? & ? & ?).
  destruct (std_open_fresh r t Hstd Hr) as (? & ? & ?), (std_open_fresh w t Hstd Hw) as (? & ? & ?).
  set (st := p_std_type p) in *. assert (a ≠ st ∧ b ≠ st ∧ r ≠ st ∧ w ≠ st) as (? & ? & ? & ?) by (repeat split; intros ->; lia).
  apply wlp_bind, CreateCommand_wlp. intros c1 s1 E1 Hc1. apply wlp_bind, CreateCommand_wlp. intros c2 s2 E2 Hc2.
  assert (std_open (table s2)) as Hstd2 by (rewrite E2, E1, Heq; by do 4 apply std_open_insert).
  apply wlp_bind, (pipe_side_table w st y).
  { rewrite E2, E1, Heq. by rewrite lookup_insert_ne, lookup_insert_eq. } { done. }
  { apply std_open_delete; [by apply std_open_insert|done..]. } { by apply stable_run_first. }
  intros s3 E3. apply (restore_table b st d1).
  { rewrite E3, E2, E1, Heq. rewrite lookup_delete_ne by done. do 3 rewrite lookup_insert_ne by done. by rewrite lookup_insert_eq. } { done. }
  intros s4 E4. assert (std_open (table s4)) as Hstd4.
  { rewrite E4, E3. apply std_open_delete; [apply std_open_insert, std_open_delete; [by apply std_open_insert|done..]|done..]. }
  apply wlp_bind, (pipe_side_table r 0 x).
  { rewrite E4, E3, E2, E1, Heq. by rewrite lookup_delete_ne, lookup_insert_ne, lookup_delete_ne, lookup_insert_ne, lookup_insert_eq. } { done. }
  { apply std_open_delete; [by apply std_open_insert|done..]. } { by apply stable_run_second. }
  intros s5 E5. apply wlp_mono with (Q := λ _ s', table s' = delete a (<[0 := d0]> (table s5))).
  - assert (table s5 !! a = Some d0) as Hla.
    { rewrite E5, E4, E3, E2, E1, Heq. rewrite lookup_delete_ne, lookup_insert_ne, lookup_delete_ne, lookup_insert_ne by done.
      rewrite lookup_delete_ne by done. do 4 rewrite lookup_insert_ne by done. by rewrite lookup_insert_eq. }
    apply wlp_bind, wlp_or_complain. eapply wlp_dup2; [exact Hla|]. intros ? s6 ? E6. split; [done|].
    apply wlp_or_complain. eapply wlp_close; [by rewrite E6, lookup_insert_ne|]. intros ? s7 ? E7. split; [done|]. by rewrite E7, E6.
  - intros ? s6 ->. rewrite E5, E4, E3, E2, E1. by eapply pipe_table_back.
Qed.

Lemma stable_Pipe p : (p_std_type p = 1 ∨ p_std_type p = 2) → stable_std (PipeCommand_execute exec p).
Proof.
  intros Hp s Hstd. unfold PipeCommand_execute. apply wlp_bind, wlp_dup.
  { intros rc s1 -> E1. cbn -[perror]. apply wlp_stable; [stable_all|]. congruence. }
  intros a s1 d0 Ha Hfa Hl0 E1. destruct (Z.eqb_spec a (-1)); [done|].
  assert (table s1 !! a = Some d0) as Hla by (by rewrite E1, lookup_insert_eq). apply wlp_bind, wlp_dup.
  { intros rc s2 -> E2. cbn -[perror]. apply wlp_bind, wlp_stable; [stable_all|]. intros [] s3 E3. apply wlp_bind.
    eapply wlp_close; [rewrite E3, E2; exact Hla|]. intros ? s4 _ E4. apply wlp_ret. by rewrite E4, E3, E2, E1, delete_insert_id. }
  intros b s2 d1 Hb Hfb Hl1 E2. destruct (Z.eqb_spec b (-1)); [done|]. assert (a ≠ b) as Hab by congruence.
  apply wlp_bind. unfold wlp at 1, sys. pose proof (fd_pipe (sworld s2)) as HP. destruct (scall s_pipe (sworld s2)) as [rc w].
  apply wlp_bind, wlp_gets. cbn [sworld set_world]. destruct HP as [[-> EP]|(Hrc & Hrw & Hr & Hw & x & y & EP)].
  { cbn -[perror]. apply wlp_bind, wlp_stable; [stable_all|]. intros [] s3 E3. change (table s3 = fds w) in E3. rewrite EP in E3.
    change (table s3 = table s2) in E3. apply wlp_bind. eapply wlp_close; [by rewrite E3, E2, lookup_insert_ne|]. intros ? s4 _ E4.
    apply wlp_bind. eapply wlp_close; [by rewrite E4, lookup_delete_ne, E3, E2, lookup_insert_eq|]. intros ? s5 _ E5. apply wlp_ret.
    rewrite E5, E4, E3, E2, E1, delete_delete. rewrite E1 in Hfb. rewrite delete_insert_id by done. by rewrite delete_insert_id. }
  destruct (Z.eqb_spec rc (-1)); [done|]. change (table s2 !! (spipe w).1 = None) in Hr. change (table s2 !! (spipe w).2 = None) in Hw.
  rewrite E2, E1 in Hr, Hw. apply lookup_insert_None in Hr as [[Hr Har]%lookup_insert_None Hbr], Hw as [[Hw Haw]%lookup_insert_None Hbw].
  rewrite E1 in Hfb, Hl1. apply lookup_insert_None in Hfb as [Hfb _]. destruct (std_open_fresh a _ Hstd Hfa) as (? & ? & ?).
  rewrite lookup_insert_ne in Hl1 by (intros ->; lia). apply (pipe_middle p (table s) a b _ _ d0 d1 x y); [done|done|].
  split; try done. change (table _) with (fds w) at 1. rewrite EP. change (fds (sworld s2)) with (table s2). by rewrite E2, E1.
Qed.

Lemma stable_schedule t line job : stable (schedule (W := W) t line job).
Proof. unfold schedule. stable_all. Qed.
Lemma stable_Timeout args line : stable_std (TimeoutCommand_execute exec args line).
Proof.
  intros s Hs. unfold TimeoutCommand_execute. destruct (_ || _); [apply wlp_stable; [stable_all|done]|].
  apply wlp_bind, CreateCommand_wlp. intros [c|] s' E Hc; [|by apply wlp_ret]. rewrite <- E in *.
  apply stable_std_bind; [by apply Hexec| |done]. intros child. apply stable_stable_std. pose proof stable_schedule. destruct c; stable_all.
Qed.
End Nested.

Lemma stable_execute fuel loops wf : ∀ c, command_ok c → stable_std (execute (W := W) fuel loops wf c).
Proof.
  induction fuel as [|fuel IH]; intros c Hc; [by apply stable_stable_std, stable_nofuel|]. cbn [execute].
  destruct c; try solve [apply stable_stable_std; stable_all]; (apply stable_std_bind; [|intros; by apply stable_stable_std, stable_ret]).
  - by apply stable_Redirection.
  - by apply stable_Pipe.
  - by apply stable_Timeout.
Qed.

(** C4: Redirections and pipes give the shell its streams back: when the standard
    descriptors are open, and running a command line (nested in any way) returns to
    the shell, the table of open descriptors is exactly what it was: standard
    input, output and error refer to the same files, and nothing stays open. *)
Theorem commands_preserve_descriptors (fuel loops wf : nat) (line : str) s s' :
  std_open (fds (sworld s)) → executeCommand fuel loops wf line s = Ok tt s' → fds (sworld s') = fds (sworld s).
Proof.
  intros Hs E. pose proof (stable_executeCommand_with _ (stable_execute fuel loops wf) line s Hs) as H.
  unfold wlp, executeCommand in *. by rewrite E in H.
Qed.
End Commands.

(** ** An example *)

#[export] Program Instance demo_descriptors : DescriptorLaws demo := {| fds := d_fds |}.
Next Obligation.
  intros c w. destruct c; cbn; intros Hq; try done; unfold d_do_read, d_do_write, d_do_lseek; repeat (case_match; simplify_eq/=); done.
Qed.
Next Obligation.
  intros path flags mode w. cbn. unfold d_new. case_bool_decide; [by left|]. destruct (d_fds w !! d_next w) eqn:E; [by left|].
  right. split; [done|]. split; [done|]. by exists 77.
Qed.
Next Obligation.
  intros fd w. cbn. destruct (d_fds w !! fd) as [d|] eqn:Ed; [|by left]. unfold d_new. case_bool_decide; [by left|].
  destruct (d_fds w !! d_next w) eqn:E; [by left|]. right. split; [done|]. split; [done|]. by exists d.
Qed.
Next Obligation.
  intros fd fd2 d w Hd. cbn. rewrite Hd. zcase; done.
Qed.
Next Obligation. intros fd d w Hd. cbn. by rewrite Hd. Qed.
Next Obligation.
  intros w. cbn. unfold d_do_pipe. destruct (d_fds w !! d_next w) eqn:E1; [by left|]. destruct (d_fds w !! (d_next w + 1)) eqn:E2; [by left|].
  right. cbn. split; [done|]. split; [lia|]. split; [done|]. split; [done|]. eauto.
Qed.

(** The output of [showpid] goes to the file 77, and later output to 11 again. *)
Definition demo_redirected : SmallShell demo :=
  after (executeCommand 5 100 100 (lit "showpid > out")) (initial_shell demo_world).

Lemma commands_preserve_descriptors_witness :
  d_out (sworld demo_redirected) = [(77, lit "smash pid is 100" ++ [LF])] ∧
  fds (sworld demo_redirected) = fds (sworld (initial_shell demo_world)).
Proof.
  split; [vm_compute; reflexivity|].
  apply (commands_preserve_descriptors 5 100 100 (lit "showpid > out") (initial_shell demo_world) demo_redirected).
  - repeat split; eexists; reflexivity.
  - vm_compute. reflexivity.
Defined.
