(* ===== verification/ShellLimits.v ===== *)
(** * Where the shell does not do what it means to

    A failed [fork] that is taken for a child, a timeout that runs itself without
    end, a main loop that does not see the end of the input, timeouts that are lost,
    come late or take another job off the list, and a background sign alone on the
    line. *)

From S2P Require Import Prelude CString ShellParse JobsList ShellState ShellDemo Fare Builtins Shell ShellInv ShellJobs.

Section Limits.
Context {W : Type} {os : ShellOS W}.
Implicit Types s : SmallShell W.

(** ** Failure of [fork] *)

(** The arguments of a line without wildcards. *)
Lemma external_args_ok line cmd_line word args s :
  (∀ n w, (scall (s_malloc n) w).1 ≠ NULL) → contains (lit "*") line = false → contains (lit "?") line = false →
  _removeBackgroundSign line = Some cmd_line → _parseCommandLine cmd_line = Some (word :: args) →
  wp (external_args line) (λ a s', a = Some (word :: args) ∧ ∃ w, s' = set_world w s) s.
Proof.
  intros Hmalloc Hstar Hq Hrm Hparse. apply wp_bind, wp_bind, wp_sys. intros p w E.
  pose proof (Hmalloc (Z.of_nat (length line) + 1) (sworld s)) as Hp. rewrite E in Hp. destruct (Z.eqb_spec p NULL); [done|].
  apply wp_ret, wp_bind, wp_defined. exists line. split; [done|]. apply wp_bind, wp_defined. exists cmd_line. split; [done|].
  rewrite Hstar, Hq. cbn [negb andb]. apply wp_bind, wp_defined. exists (word :: args). split; [done|]. apply wp_ret. eauto.
Qed.

(** The parent adds a job in the background. *)
Lemma external_parent_background args line p s : _isBackgroundComamnd line = Some true →
  wp (external_parent (Some args) line p) (λ _ s', ∃ t, jobs_list s' = addJob (Job line (-1) (i32 p) t false) (jobs_list s)) s.
Proof.
  intros Hbg. apply wp_bind, wp_bind, wp_sys. intros t w _. apply wp_ret. rewrite Hbg.
  apply wp_bind, wp_ret, wp_bind, wp_bind, wp_modify, wp_bind, wp_gets, wp_bind, wp_defined. cbn -[addJob i32].
  set (job := Job line (-1) (i32 p) t false). destruct (last (addJob job (jobs_list s))) as [e|] eqn:El.
  - exists e. split; [done|]. exists t. done.
  - exfalso. apply last_None in El. unfold addJob in El. cbn in El. destruct (jobs_list s) as [|[k j] m]; cbn in El; [done|]. repeat case_match; done.
Qed.

(** A failed [fork] is not noticed: the process identifier is kept in a
    [size_t], so that -1 counts as positive.  A command in the background then
    becomes a job with the process identifier -1, the target of the [kill] of
    [fg], [bg], [kill] and [quit kill], which is every process of the user. *)
Theorem fork_failure_becomes_job (line cmd_line word : str) (args : list str) s :
  (∀ n w, (scall (s_malloc n) w).1 ≠ NULL) → (∀ w, (scall s_fork w).1 = -1) →
  contains (lit "*") line = false → contains (lit "?") line = false →
  _removeBackgroundSign line = Some cmd_line → _parseCommandLine cmd_line = Some (word :: args) →
  _isBackgroundComamnd line = Some true →
  wp (ExternalCommand_execute line (-1))
     (λ _ s', ∃ t, jobs_list s' = addJob (Job line (-1) (-1) t false) (jobs_list s)) s.
Proof.
  intros Hmalloc Hfork Hstar Hq Hrm Hparse Hbg. apply wp_bind. eapply wp_mono; [by eapply external_args_ok|].
  intros a s1 [-> [w ->]]. apply wp_bind, wp_sys. intros rc w1 E1. cbn in E1. pose proof (Hfork w) as Hf. rewrite E1 in Hf. cbn in Hf. subst rc.
  change (u64 (-1)) with (2 ^ 64 - 1). cbn -[external_parent]. by apply (external_parent_background _ _ (2 ^ 64 - 1) (set_world w1 s)).
Qed.

(** ** A timeout that runs itself *)

(** The words of the line are separated by tabs. *)
Definition tab_line : str := lit "timeout 5" ++ [ascii_of_nat 9] ++ lit "sleep".
Definition tab_args : list str := [lit "timeout"; lit "5"; lit "sleep"].

Lemma create_tab_line s : CreateCommand tab_line s = Ok (Some (TimeoutCommand tab_args tab_line)) s.
Proof. reflexivity. Qed.
Lemma timeout_tab_line (exec : command → M (SmallShell W) (option JobEntry)) s :
  exec (TimeoutCommand tab_args tab_line) s = OutOfFuel → TimeoutCommand_execute exec tab_args tab_line s = OutOfFuel.
Proof.
  intros E. unfold TimeoutCommand_execute. change ((length tab_args <? 3)%nat || _ || _) with false. cbv iota.
  change (timeout_inner tab_line) with tab_line. unfold bind at 1. rewrite create_tab_line. unfold bind at 1. by rewrite E.
Qed.

(** A timeout can run without end: the inner command of [timeout] starts after
    the first space behind the ninth character, and is the whole line when there is
    none.  The line [timeout 5<TAB>sleep] runs itself at every depth, so that no
    amount of stack is enough. *)
Theorem timeout_runs_itself (fuel loops wf : nat) s : executeCommand fuel loops wf tab_line s = OutOfFuel.
Proof.
  assert (∀ s', execute fuel loops wf (TimeoutCommand tab_args tab_line) s' = OutOfFuel) as Hex.
  { induction fuel as [|fuel IH]; intros s'; [done|]. cbn [execute]. unfold bind. by rewrite timeout_tab_line. }
  unfold executeCommand, executeCommand_with, bind at 1. rewrite create_tab_line. unfold bind. by rewrite Hex.
Qed.

(** ** The end of the input *)

(** A turn of the main loop on an empty line changes nothing but the world. *)
Lemma empty_turn fuel loops wf s :
  (∀ w, sdata (scall s_getline w).2 = []) → wait_job_pid s = -1 →
  wp (main_turn fuel loops wf (Turn [] [])) (λ _ s', ∃ w, s' = set_world w s) s.
Proof.
  intros Heof Hwait. apply wp_bind, wp_bind, wp_gets, wp_cout. intros w. apply wp_bind, wp_ret, wp_bind, wp_sys. intros rc w1 E1.
  apply wp_bind, wp_gets. specialize (Heof w). cbn in E1. rewrite E1 in Heof. cbn in Heof |- *. rewrite Heof.
  apply wp_bind, wp_bind, wp_ret, wp_ret, wp_bind, wp_gets. cbn. rewrite Hwait. apply wp_ret. by exists w1.
Qed.

(** The shell does not see the end of its input: once [getline] reads nothing
    more, the main loop never ends, however many turns it takes; it only prints its
    prompt again. *)
Theorem shell_ignores_eof (fuel loops wf turns : nat) s :
  (∀ w, sdata (scall s_getline w).2 = []) → exit_shell s = false → wait_job_pid s = -1 →
  main_loop fuel loops wf (replicate turns (Turn [] [])) s = OutOfFuel.
Proof.
  intros Heof. revert s. induction turns as [|n IH]; intros s Hexit Hwait; cbn [replicate main_loop]; unfold bind at 1, getS; rewrite Hexit; [done|].
  destruct (wp_run2 _ _ _ (empty_turn fuel loops wf s Heof Hwait)) as ([] & s' & E & w & ->). unfold bind. rewrite E. by apply IH.
Qed.

(** ** Timeouts that are lost or come late *)

(** A second timeout at the same second is not recorded. *)
Lemma schedule_same_time t line job s e :
  map_find ((scall s_time (sworld s)).1 + t) (timeout_list s) = Some e →
  wlp (schedule t line job) (λ _ s', timeout_list s' = timeout_list s) s.
Proof.
  intros Hf. apply wlp_bind. unfold wlp at 1, sys. destruct (scall s_time (sworld s)) as [now w] eqn:Et. cbn in Hf.
  apply wlp_bind. unfold wlp at 1, getS. apply wlp_bind.
  assert (∀ s1 : SmallShell W, timeout_list s1 = timeout_list s →
    wlp (modify (λ s, set_timeouts (map_insert_new (now + t) (set_cmd_line line job) (timeout_list s)) s) ;;;
         let* m := gets jobs_list in
         if jobExist (job_id (set_cmd_line line job)) m then
           let* e := defined (getJobById (job_id (set_cmd_line line job)) m) in modify (set_jobs (map_set e.1 (set_cmd_line line e.2) m))
         else ret tt) (λ _ s', timeout_list s' = timeout_list s) s1) as Hrest.
  { intros s1 E1. apply wlp_bind, wlp_modify, wlp_bind, wlp_gets. unfold map_insert_new. cbn. rewrite E1, Hf. destruct (jobExist _ _); [|done].
    apply wlp_bind. unfold wlp at 1, defined. by destruct (getJobById _ _). }
  destruct (_ || _); [|by apply wlp_ret, Hrest]. apply wlp_bind. unfold wlp at 1, sys. destruct (scall (s_alarm t) _) as [rc w'].
  apply wlp_modify. by apply Hrest.
Qed.
End Limits.

(** The alarm has ended the first job and is set for the second, at 1030; a timeout
    at 1007 is recorded, but no alarm is set for it. *)
Lemma timeout_comes_late :
  let s := demo_line (lit "timeout 2 sleep 90&") (after alarmHandler demo_later) in
  keys (timeout_list s) = [1007; 1030] ∧ d_alarms (sworld s) = [5; 25].
Proof. vm_compute. done. Qed.

(** [timeout 0] sets no alarm, and after it no timeout does. *)
Lemma timeout_zero_blocks :
  let s := demo_line (lit "timeout 3 sleep 90&") (demo_line (lit "timeout 0 sleep 90&") (initial_shell demo_world)) in
  keys (timeout_list s) = [1000; 1003] ∧ d_alarms (sworld s) = [0].
Proof. vm_compute. done. Qed.

(** A kernel on which the first child, 500, has finished. *)
Definition finished_os : ShellOS demo := {|
  scall c w :=
    match c with
    | s_waitpid p _ => if p =? 500 then (500, w) else demo_call c w
    | s_kill p 0 => if p =? 500 then (-1, w) else demo_call c w
    | _ => demo_call c w
    end;
  serrno _ := 22;
  sdata := d_data;
  sstatus := d_status;
  spipe := d_pipe;
  sstrerror _ := lit "error"
|}.
Definition finished_line (line : str) (s : SmallShell demo) : SmallShell demo := after (executeCommand (os := finished_os) 5 100 100 line) s.

(** A job with a timeout finishes and leaves the list, and another job gets its
    identifier: when the time of the first is over, the handler takes the other one,
    whose process 501 goes on, off the list. *)
Lemma alarm_removes_other_job :
  let s := finished_line (lit "sleep 90&") (finished_line (lit "jobs") (finished_line (lit "timeout 5 sleep 1&") (initial_shell demo_world))) in
  let s' := after (alarmHandler (os := finished_os)) (set_world (d_set_clock 1005 (sworld s)) s) in
  map (λ e, (e.1, pid e.2)) (jobs_list s) = [(1, 501)] ∧ map (λ e, (e.1, pid e.2)) (timeout_list s) = [(1005, 500)] ∧ jobs_list s' = [].
Proof. vm_compute. done. Qed.

(** A background sign alone on the line leaves the array of arguments unset. *)
Lemma ampersand_faults : executeCommand 5 100 100 (lit "&") (initial_shell demo_world) = Fault.
Proof. vm_compute. done. Qed.

(** ** Examples *)

(** A world without input in which no process can be created. *)
Definition bare_os : ShellOS unit := {|
  scall c _ := (match c with s_fork => -1 | s_malloc _ => 1 | _ => 0 end, tt);
  serrno _ := 11;
  sdata _ := [];
  sstatus _ := 0;
  spipe _ := (0, 0);
  sstrerror _ := lit "error"
|}.

Lemma fork_failure_becomes_job_witness :
  wp (ExternalCommand_execute (os := bare_os) (lit "sleep 9 &") (-1))
     (λ _ s', ∃ t, jobs_list s' = addJob (Job (lit "sleep 9 &") (-1) (-1) t false) []) (initial_shell tt).
Proof.
  apply (fork_failure_becomes_job (os := bare_os) (lit "sleep 9 &") (lit "sleep 9  ") (lit "sleep") [lit "9"] (initial_shell tt));
    [done|done|reflexivity..].
Defined.

Lemma shell_ignores_eof_witness :
  main_loop (os := bare_os) 5 100 100 (replicate 1000 (Turn [] [])) (initial_shell tt) = OutOfFuel.
Proof. apply (shell_ignores_eof (os := bare_os) 5 100 100 1000 (initial_shell tt)); [done|reflexivity|reflexivity]. Defined.
