(* ===== verification/BootState.v ===== *)
(** * [hw2/.../init/main.c]: the state of the booting kernel

    The variables of [init/main.c], the interface of the parts of the kernel that
    the repository does not hold, and the calls on both.  [BootParams] models the
    options of the command line, [InitCalls] the initcalls, [Boot] the start of
    the kernel up to the first user program.

    A function of another part of the kernel is a parameter of the model: it may
    change the world outside this file, the interrupt flag and the preemption
    count, but not the static variables of [init/main.c].  Every such call leaves
    an event, so that theorems can speak of the order of calls. *)

From S2P Require Import Prelude CString ProcessWeights.

(** What [local_irq_disable], [local_irq_enable], [preempt_disable] and
    [preempt_count_set] act on. *)
Record cpu := Cpu { irqs_off : bool; preempt : Z }.

(** What [parse_args] makes of one word of a command line: a parameter some part
    of the kernel knows ([initcall_debug] is the one that is declared in this
    file), or a call of the handler for unknown ones.  The handler gets the buffer
    from [param] on, and the distance from [param] to [val]. *)
Inductive parsed :=
| CoreParam (initcall_debug : bool)
| OtherParam
| Unknown (param : str) (val : option nat).

(** The kernel outside [init/main.c], and how it is configured. *)
Class KernelEnv := {
  W : Type;
  CONFIG_INIT_ENV_ARG_LIMIT : nat;
  COMMAND_LINE_SIZE : nat;
  CONSOLE_LOGLEVEL_DEBUG : Z;
  CONSOLE_LOGLEVEL_QUIET : Z;
  CONFIG_BLK_DEV_INITRD : bool;
  CONFIG_CONSTRUCTORS : bool;
  CONFIG_KALLSYMS : bool;
  CONFIG_STRICT_KERNEL_RWX : bool;
  (** [kernel/params.c], [lib/cmdline.c] and [strtobool] *)
  parse_words : string → str → Z → list parsed * option str;
  parameq : str → str → bool;
  parameqn : str → str → nat → bool;
  get_option : option str → option Z;
  strtobool : option str → option bool;
  (** functions of other subsystems that return nothing the code uses *)
  subsystem : string → cpu * W → cpu * W;
  (** [setup_arch]: the command line, and whether it calls [parse_early_param] *)
  arch_command_line : W → str;
  arch_parses_early : bool;
  late_time_init : W → bool;
  efi_runtime_services : W → bool;
  initrd_pfn : Z → Z;
  linux_banner : str;
  current_pid : W → Z;
  add_entropy : W → W;
  (** the initcalls, their names, and the clock *)
  initcall_body : Z → cpu * W → Z * (cpu * W);
  ksym : Z → str;
  clock_ns : W → Z * W;
  (** processes and files *)
  thread_of : string → W → gmap Z task_struct → Z * (W * gmap Z task_struct);
  task_of_pid : Z → W → Z;
  execve : str → list str → list str → W → Z * W;
  open_file : str → W → Z * W;
  access_file : str → W → Z
}.

Inductive system_states := SYSTEM_BOOTING | SYSTEM_SCHEDULING | SYSTEM_RUNNING.
#[export] Instance system_states_eq_dec : EqDecision system_states.
Proof. solve_decision. Defined.

(** Calls that leave the file. *)
Inductive event :=
| Call (f : string)
| Initcall (fn ret : Z)
| Thread (f : string) (pid : Z)
| Exec (file : str) (argv envp : list str) (ret : Z).

(** [argv_init] and [envp_init] are arrays of pointers; [None] is [NULL].  The
    pointers lead into command lines whose words are not written again, so an
    entry is the string itself.  [panic_later] comes with [panic_param]. *)
Record init_args := InitArgs {
  argv_init : list (option str);
  envp_init : list (option str);
  panic_later : option (string * str);
  execute_command : option str;
  ramdisk_execute_command : option str
}.

Record boot_opts := BootOpts {
  reset_devices : Z;
  console_loglevel : Z;
  rodata_enabled : bool;
  initcall_debug : bool;
  early_done : bool;
  blacklisted_initcalls : list str
}.

(** A buffer from [memblock_virt_alloc]: its size and the string in it. *)
Record cbuf := CBuf { cap : nat; text : str }.

Record cmd_lines := CmdLines {
  boot_command_line : str;
  saved_command_line : cbuf;
  initcall_command_line : cbuf;
  static_command_line : cbuf
}.

Record sched_vars := SchedVars {
  system_state : system_states;
  early_boot_irqs_disabled : bool;
  kthreadd_task : Z;
  kthreadd_done : bool;
  initrd_start : Z;
  initrd_below_start_ok : bool;
  min_low_pfn : Z
}.

Section State.
Context {env : KernelEnv}.

Record boot := Boot {
  args : init_args;
  opts : boot_opts;
  lines : cmd_lines;
  vars : sched_vars;
  hw : cpu;
  world : W;
  task_table : gmap Z task_struct;
  klog : list str;
  trace : list event
}.

Definition set_args (a : init_args) (s : boot) : boot :=
  Boot a (opts s) (lines s) (vars s) (hw s) (world s) (task_table s) (klog s) (trace s).
Definition set_opts (o : boot_opts) (s : boot) : boot :=
  Boot (args s) o (lines s) (vars s) (hw s) (world s) (task_table s) (klog s) (trace s).
Definition set_lines (l : cmd_lines) (s : boot) : boot :=
  Boot (args s) (opts s) l (vars s) (hw s) (world s) (task_table s) (klog s) (trace s).
Definition set_vars (v : sched_vars) (s : boot) : boot :=
  Boot (args s) (opts s) (lines s) v (hw s) (world s) (task_table s) (klog s) (trace s).
Definition set_hw (c : cpu) (s : boot) : boot :=
  Boot (args s) (opts s) (lines s) (vars s) c (world s) (task_table s) (klog s) (trace s).
Definition set_world (w : W) (s : boot) : boot :=
  Boot (args s) (opts s) (lines s) (vars s) (hw s) w (task_table s) (klog s) (trace s).
Definition set_table (t : gmap Z task_struct) (s : boot) : boot :=
  Boot (args s) (opts s) (lines s) (vars s) (hw s) (world s) t (klog s) (trace s).
Definition log (msg : str) (s : boot) : boot :=
  Boot (args s) (opts s) (lines s) (vars s) (hw s) (world s) (task_table s) (klog s ++ [msg]) (trace s).
Definition record (e : event) (s : boot) : boot :=
  Boot (args s) (opts s) (lines s) (vars s) (hw s) (world s) (task_table s) (klog s) (trace s ++ [e]).

(** Single variables. *)
Definition with_argv (v : list (option str)) (a : init_args) : init_args :=
  InitArgs v (envp_init a) (panic_later a) (execute_command a) (ramdisk_execute_command a).
Definition with_envp (v : list (option str)) (a : init_args) : init_args :=
  InitArgs (argv_init a) v (panic_later a) (execute_command a) (ramdisk_execute_command a).
Definition with_panic (v : option (string * str)) (a : init_args) : init_args :=
  InitArgs (argv_init a) (envp_init a) v (execute_command a) (ramdisk_execute_command a).
Definition with_execute (v : option str) (a : init_args) : init_args :=
  InitArgs (argv_init a) (envp_init a) (panic_later a) v (ramdisk_execute_command a).
Definition with_ramdisk (v : option str) (a : init_args) : init_args :=
  InitArgs (argv_init a) (envp_init a) (panic_later a) (execute_command a) v.

Definition with_reset (v : Z) (o : boot_opts) : boot_opts :=
  BootOpts v (console_loglevel o) (rodata_enabled o) (initcall_debug o) (early_done o) (blacklisted_initcalls o).
Definition with_loglevel (v : Z) (o : boot_opts) : boot_opts :=
  BootOpts (reset_devices o) v (rodata_enabled o) (initcall_debug o) (early_done o) (blacklisted_initcalls o).
Definition with_rodata (v : bool) (o : boot_opts) : boot_opts :=
  BootOpts (reset_devices o) (console_loglevel o) v (initcall_debug o) (early_done o) (blacklisted_initcalls o).
Definition with_debug (v : bool) (o : boot_opts) : boot_opts :=
  BootOpts (reset_devices o) (console_loglevel o) (rodata_enabled o) v (early_done o) (blacklisted_initcalls o).
Definition with_early_done (o : boot_opts) : boot_opts :=
  BootOpts (reset_devices o) (console_loglevel o) (rodata_enabled o) (initcall_debug o) true (blacklisted_initcalls o).
Definition with_blacklist (v : list str) (o : boot_opts) : boot_opts :=
  BootOpts (reset_devices o) (console_loglevel o) (rodata_enabled o) (initcall_debug o) (early_done o) v.

Definition with_system_state (x : system_states) (v : sched_vars) : sched_vars :=
  SchedVars x (early_boot_irqs_disabled v) (kthreadd_task v) (kthreadd_done v) (initrd_start v) (initrd_below_start_ok v) (min_low_pfn v).
Definition with_early_irqs (x : bool) (v : sched_vars) : sched_vars :=
  SchedVars (system_state v) x (kthreadd_task v) (kthreadd_done v) (initrd_start v) (initrd_below_start_ok v) (min_low_pfn v).
Definition with_kthreadd (x : Z) (v : sched_vars) : sched_vars :=
  SchedVars (system_state v) (early_boot_irqs_disabled v) x (kthreadd_done v) (initrd_start v) (initrd_below_start_ok v) (min_low_pfn v).
Definition with_done (x : bool) (v : sched_vars) : sched_vars :=
  SchedVars (system_state v) (early_boot_irqs_disabled v) (kthreadd_task v) x (initrd_start v) (initrd_below_start_ok v) (min_low_pfn v).
Definition with_initrd (x : Z) (v : sched_vars) : sched_vars :=
  SchedVars (system_state v) (early_boot_irqs_disabled v) (kthreadd_task v) (kthreadd_done v) x (initrd_below_start_ok v) (min_low_pfn v).

Definition upd_args (f : init_args → init_args) : M boot unit := modify (λ s, set_args (f (args s)) s).
Definition upd_opts (f : boot_opts → boot_opts) : M boot unit := modify (λ s, set_opts (f (opts s)) s).
Definition upd_vars (f : sched_vars → sched_vars) : M boot unit := modify (λ s, set_vars (f (vars s)) s).

(** ** Calls *)

(** [printk], [pr_warn], [pr_err] and the like. *)
Definition printk (msg : str) : M boot unit := modify (log msg).
(** [panic] does not return; neither does the machine. *)
Definition panic {A} (msg : str) : M boot A := printk msg ;;; exit 1.

(** A call of a function of another part of the kernel, or an assignment to one of
    its variables. *)
Definition call (f : string) : M boot unit :=
  modify (λ s, let '(c, w) := subsystem f (hw s, world s) in record (Call f) (set_hw c (set_world w s))).
Fixpoint calls (fs : list string) : M boot unit :=
  match fs with [] => ret tt | f :: fs' => call f ;;; calls fs' end.

Definition local_irq_disable : M boot unit := modify (λ s, set_hw (Cpu true (preempt (hw s))) s).
Definition local_irq_enable : M boot unit := modify (λ s, set_hw (Cpu false (preempt (hw s))) s).
Definition irqs_disabled : M boot bool := gets (λ s, irqs_off (hw s)).
Definition preempt_count : M boot Z := gets (λ s, preempt (hw s)).
Definition preempt_count_set (n : Z) : M boot unit := modify (λ s, set_hw (Cpu (irqs_off (hw s)) n) s).
Definition preempt_disable : M boot unit := modify (λ s, set_hw (Cpu (irqs_off (hw s)) (preempt (hw s) + 1)) s).

(** [strcpy] into a buffer, which has room for the zero. *)
Definition strcpy (b : cbuf) (src : str) : M boot cbuf :=
  if (length src <? cap b)%nat then ret (CBuf (cap b) src) else fault.

(** [parse_args] calls the handler on every unknown word, and returns what is
    after a double dash. *)
Fixpoint parse_loop (unknown : str → option nat → M boot Z) (l : list parsed) : M boot unit :=
  match l with
  | [] => ret tt
  | CoreParam b :: l' => upd_opts (with_debug b) ;;; parse_loop unknown l'
  | OtherParam :: l' => parse_loop unknown l'
  | Unknown param val :: l' => unknown param val ;;; parse_loop unknown l'
  end.
Definition parse_args (doing : string) (cmdline : str) (level : Z) (unknown : str → option nat → M boot Z) : M boot (option str) :=
  let '(l, after_dashes) := parse_words doing cmdline level in
  parse_loop unknown l ;;; ret after_dashes.
End State.
