(* ===== verification/BootParams.v ===== *)
(** * [hw2/.../init/main.c]: the options of the kernel's command line

    The handlers of single options, the table of [__setup] and [early_param]
    entries, and the two handlers that hand what is left to the first user
    program: unknown options become its arguments and its environment. *)

From S2P Require Import Prelude CString ProcessWeights BootState.

Definition EINVAL : Z := 22.
Definition DOT : ascii := "."%char.
Definition EQUALS : ascii := "="%char.
Definition COMMA : ascii := ","%char.

(** [strchr]: the position of a character. *)
Fixpoint strchr (c : ascii) (s : str) : option nat :=
  match s with
  | [] => None
  | d :: s' => if bool_decide (d = c) then Some O else S <$> strchr c s'
  end.
(** [strncmp] as a test for equality, on strings without a zero. *)
Definition strncmp_eq (a b : str) (n : nat) : bool := bool_decide (take n a = take n b).
(** [memmove] inside one buffer. *)
Definition memmove (buf : str) (dst src n : nat) : str :=
  take dst buf ++ take n (drop src buf) ++ drop (dst + n) buf.

(** [strsep(&s, ",")]: the token, and the new value of the pointer. *)
Definition strsep (s : option str) : option str * option str :=
  match s with
  | None => (None, None)
  | Some t =>
    match strchr COMMA t with
    | Some i => (Some (take i t), Some (drop (S i) t))
    | None => (Some t, None)
    end
  end.

Section Code.
Context {env : KernelEnv}.

Definition MAX_INIT_ARGS : nat := CONFIG_INIT_ENV_ARG_LIMIT.
Definition MAX_INIT_ENVS : nat := CONFIG_INIT_ENV_ARG_LIMIT.

(** The arrays as they are declared. *)
Definition argv_init0 : list (option str) := Some (lit "init") :: replicate (MAX_INIT_ARGS + 1) None.
Definition envp_init0 : list (option str) := Some (lit "HOME=/") :: Some (lit "TERM=linux") :: replicate MAX_INIT_ENVS None.

(** An assignment to an element of an array. *)
Definition array_set (l : list (option str)) (i : nat) (v : option str) : M boot (list (option str)) :=
  if (i <? length l)%nat then ret (<[i := v]> l) else fault.

(** ** Handlers of single options *)

Definition setup_handler : Type := option str → M boot Z.

(** An entry of the table between [__setup_start] and [__setup_end]. *)
Record obs_kernel_param := ObsParam { pstr : str; setup_func : option setup_handler; early : bool }.

Definition set_reset_devices : setup_handler := λ _, upd_opts (with_reset 1) ;;; ret 1.
Definition debug_kernel : setup_handler := λ _, upd_opts (with_loglevel CONSOLE_LOGLEVEL_DEBUG) ;;; ret 0.
Definition quiet_kernel : setup_handler := λ _, upd_opts (with_loglevel CONSOLE_LOGLEVEL_QUIET) ;;; ret 0.

Definition loglevel : setup_handler := λ arg,
  match get_option arg with
  | Some newlevel => upd_opts (with_loglevel newlevel) ;;; ret 0
  | None => ret (- EINVAL)
  end.

(** The loop [for (i = 1; i < MAX_INIT_ARGS; i++) argv_init[i] = NULL]. *)
Fixpoint clear_args (n i : nat) : M boot unit :=
  match n with
  | O => ret tt
  | S n' =>
    let* a := gets args in
    let* v := array_set (argv_init a) i None in
    upd_args (with_argv v) ;;;
    clear_args n' (S i)
  end.

Definition init_setup : setup_handler := λ arg,
  upd_args (with_execute arg) ;;;
  clear_args (MAX_INIT_ARGS - 1) 1 ;;;
  ret 1.

Definition rdinit_setup : setup_handler := λ arg,
  upd_args (with_ramdisk arg) ;;;
  clear_args (MAX_INIT_ARGS - 1) 1 ;;;
  ret 1.

Definition set_debug_rodata : setup_handler := λ arg,
  match strtobool arg with
  | Some b => upd_opts (with_rodata b) ;;; ret 1
  | None => printk (lit "Invalid option string for rodata: '" ++ default [] arg ++ lit "'") ;;; ret 1
  end.

(** The loop of [initcall_blacklist]; [list_add] puts an entry at the head. *)
Fixpoint blacklist_loop (fuel : nat) (s : option str) : M boot unit :=
  match fuel with
  | O => nofuel
  | S fuel' =>
    match strsep s with
    | (Some str_entry, s') =>
      upd_opts (λ o, with_blacklist (str_entry :: blacklisted_initcalls o) o) ;;;
      blacklist_loop fuel' s'
    | (None, _) => ret tt
    end
  end.

Definition initcall_blacklist : setup_handler := λ arg,
  if CONFIG_KALLSYMS then blacklist_loop (length (default [] arg) + 2) arg ;;; ret 1
  else printk (lit "initcall_blacklist requires CONFIG_KALLSYMS") ;;; ret 0.

(** The entries this file adds to the table. *)
Definition main_setups : list obs_kernel_param :=
  [ObsParam (lit "reset_devices") (Some set_reset_devices) false;
   ObsParam (lit "debug") (Some debug_kernel) true;
   ObsParam (lit "quiet") (Some quiet_kernel) true;
   ObsParam (lit "loglevel") (Some loglevel) true;
   ObsParam (lit "init=") (Some init_setup) false;
   ObsParam (lit "rdinit=") (Some rdinit_setup) false;
   ObsParam (lit "initcall_blacklist=") (Some initcall_blacklist) false]
  ++ (if CONFIG_STRICT_KERNEL_RWX then [ObsParam (lit "rodata=") (Some set_debug_rodata) false] else []).

(** ** The walks over the table *)

Context (setup_table : list obs_kernel_param).

(** The body runs before the test against [__setup_end]. *)
Fixpoint checksetup_loop (line : str) (tbl : list obs_kernel_param) (had_early_param : bool) : M boot bool :=
  match tbl with
  | [] => fault
  | p :: tbl' =>
    let next (b : bool) := match tbl' with [] => ret b | _ => checksetup_loop line tbl' b end in
    let n := length (pstr p) in
    if parameqn line (pstr p) n then
      if early p then
        next (match line !! n with None => true | Some c => bool_decide (c = EQUALS) || had_early_param end)
      else
        match setup_func p with
        | None => printk (lit "Parameter " ++ pstr p ++ lit " is obsolete, ignored") ;;; ret true
        | Some f =>
          let* r := f (Some (drop n line)) in
          if r =? 0 then next had_early_param else ret true
        end
    else next had_early_param
  end.
Definition obsolete_checksetup (line : str) : M boot bool := checksetup_loop line setup_table false.

Fixpoint early_loop (param : str) (val : option str) (tbl : list obs_kernel_param) : M boot unit :=
  match tbl with
  | [] => ret tt
  | p :: tbl' =>
    (when (early p && parameq param (pstr p))
          || (bool_decide (param = lit "console") && bool_decide (pstr p = lit "earlycon")) do
      match setup_func p with
      | None => fault
      | Some f =>
        let* r := f val in
        when negb (r =? 0) do printk (lit "Malformed early option '" ++ param ++ lit "'")
      end) ;;;
    early_loop param val tbl'
  end.

(** [val] is [n] bytes behind [param]. *)
Definition do_early_param (param : str) (val : option nat) : M boot Z :=
  early_loop (cstr param) ((λ n, cstr (drop n param)) <$> val) setup_table ;;; ret 0.

Definition parse_early_options (cmdline : str) : M boot (option str) :=
  parse_args "early options" cmdline 0 do_early_param.

(** [strlcpy] cuts the string to the size of [tmp_cmdline]. *)
Definition parse_early_param : M boot unit :=
  let* o := gets opts in
  if early_done o then ret tt
  else
    let* l := gets lines in
    parse_early_options (take (COMMAND_LINE_SIZE - 1) (boot_command_line l)) ;;;
    upd_opts with_early_done.

(** ** What is handed to the first user program *)

(** The buffer from [param] on after the call; [BUG] is a fault. *)
Definition repair_env_string (param : str) (val : option nat) : M boot str :=
  match val with
  | None => ret param
  | Some v =>
    let n := length (cstr param) in
    if (v =? n + 1)%nat then ret (<[(v - 1)%nat := EQUALS]> param)
    else if (v =? n + 2)%nat then
      let p := <[(v - 2)%nat := EQUALS]> param in
      ret (memmove p (v - 1) v (length (cstr (drop v p)) + 1))
    else fault
  end.

(** The loops over [argv_init] and [envp_init]: the index they stop at.
    [set_init_arg] returns at the limit, [unknown_bootoption] goes on. *)
Fixpoint arg_slot (stop : bool) (param : str) (l : list (option str)) (i : nat) : M boot (option nat) :=
  match l with
  | [] => fault
  | None :: _ => ret (Some i)
  | Some _ :: l' =>
    if (i =? MAX_INIT_ARGS)%nat then
      upd_args (with_panic (Some ("init"%string, param))) ;;;
      if stop then ret None else arg_slot stop param l' (S i)
    else arg_slot stop param l' (S i)
  end.
Fixpoint env_slot (param : str) (n : nat) (l : list (option str)) (i : nat) : M boot nat :=
  match l with
  | [] => fault
  | None :: _ => ret i
  | Some e :: l' =>
    (when (i =? MAX_INIT_ENVS)%nat do upd_args (with_panic (Some ("env"%string, param)))) ;;;
    if strncmp_eq param e n then ret i else env_slot param n l' (S i)
  end.

Definition put_arg (i : nat) (param : str) : M boot unit :=
  let* a := gets args in
  let* v := array_set (argv_init a) i (Some param) in
  upd_args (with_argv v).
Definition put_env (i : nat) (param : str) : M boot unit :=
  let* a := gets args in
  let* v := array_set (envp_init a) i (Some param) in
  upd_args (with_envp v).

Definition set_init_arg (param : str) (val : option nat) : M boot Z :=
  let* a := gets args in
  match panic_later a with
  | Some _ => ret 0
  | None =>
    let* buf := repair_env_string param val in
    let param := cstr buf in
    let* r := arg_slot true param (argv_init a) 0 in
    match r with
    | None => ret 0
    | Some i => put_arg i param ;;; ret 0
    end
  end.

(** [strchr(param, '.') && (!val || strchr(param, '.') < val)] *)
Definition module_param (param : str) (val : option nat) : bool :=
  match strchr DOT param, val with
  | Some i, Some v => (i <? v)%nat
  | Some _, None => true
  | None, _ => false
  end.

Definition unknown_bootoption (param : str) (val : option nat) : M boot Z :=
  let* buf := repair_env_string param val in
  let param := cstr buf in
  let* handled := obsolete_checksetup param in
  if handled then ret 0
  else
    if module_param param val then ret 0
    else
      let* a := gets args in
      match panic_later a with
      | Some _ => ret 0
      | None =>
        match val with
        | Some v =>
          let* i := env_slot param v (envp_init a) 0 in
          put_env i param ;;; ret 0
        | None =>
          let* r := arg_slot false param (argv_init a) 0 in
          match r with
          | None => ret 0
          | Some i => put_arg i param ;;; ret 0
          end
        end
      end.

(** ** Command lines *)

Definition setup_command_line (command_line : str) : M boot unit :=
  let* l := gets lines in
  let n := (length (boot_command_line l) + 1)%nat in
  let* saved := strcpy (CBuf n []) (boot_command_line l) in
  let* static := strcpy (CBuf (length command_line + 1) []) command_line in
  modify (set_lines (CmdLines (boot_command_line l) saved (CBuf n []) static)).

(** The part of [start_kernel] that parses the command line. *)
Definition parse_command_line : M boot unit :=
  parse_early_param ;;;
  let* l := gets lines in
  let* after_dashes := parse_args "Booting kernel" (text (static_command_line l)) (-1) unknown_bootoption in
  match after_dashes with
  | Some rest => parse_args "Setting init args" rest (-1) set_init_arg ;;; ret tt
  | None => ret tt
  end.

(** ** The arrays stay in bounds *)

(** The number of entries before the first [NULL]. *)
Fixpoint first_null (l : list (option str)) : nat :=
  match l with Some _ :: l' => S (first_null l') | _ => O end.
(** The entries before the first [NULL]. *)
Fixpoint strings (l : list (option str)) : list str :=
  match l with Some e :: l' => e :: strings l' | _ => [] end.
(** The entry that [unknown_bootoption] overwrites. *)
Fixpoint env_find (param : str) (n : nat) (l : list (option str)) : nat :=
  match l with
  | Some e :: l' => if strncmp_eq param e n then O else S (env_find param n l')
  | _ => O
  end.

(** What reaching the limit leaves. *)
Definition flag (what : string) (param : str) (b : bool) (s : boot) : boot :=
  if b then set_args (with_panic (Some (what, param)) (args s)) s else s.

Lemma first_null_length l : first_null l = length (strings l).
Proof. induction l as [|[e|] l IH]; cbn; by f_equal. Qed.
Lemma first_null_bound l i : l !! i = Some None → (first_null l ≤ i)%nat.
Proof. revert i. induction l as [|[e|] l IH]; intros [|i]; cbn; intros H; simplify_eq; try lia. apply IH in H. lia. Qed.
Lemma first_null_lookup l : (first_null l < length l)%nat → l !! first_null l = Some None.
Proof. induction l as [|[e|] l IH]; cbn; intros ?; [lia| |done]. apply IH. lia. Qed.
Lemma env_find_bound param n l : (env_find param n l ≤ first_null l)%nat.
Proof. induction l as [|[e|] l IH]; cbn; [done| |done]. destruct (strncmp_eq param e n); lia. Qed.

Lemma arg_slot_run param l i s :
  (first_null l < length l)%nat →
  arg_slot false param l i s =
    Ok (Some (i + first_null l)%nat) (flag "init" param ((i <=? MAX_INIT_ARGS) && (MAX_INIT_ARGS <? i + first_null l))%nat s).
Proof.
  revert i s. induction l as [|[e|] l IH]; cbn [first_null length arg_slot]; intros i s Hl; [lia| |].
  - destruct (Nat.eqb_spec i MAX_INIT_ARGS) as [->|Hi].
    + unfold bind, upd_args, modify. rewrite IH by lia. rewrite Nat.add_succ_comm, Nat.leb_refl, (proj2 (Nat.leb_gt (S MAX_INIT_ARGS) MAX_INIT_ARGS)) by lia.
      rewrite (proj2 (Nat.ltb_lt MAX_INIT_ARGS _)) by lia. done.
    + rewrite IH by lia. rewrite Nat.add_succ_comm. do 2 f_equal. f_equal.
      destruct (Nat.leb_spec i MAX_INIT_ARGS), (Nat.leb_spec (S i) MAX_INIT_ARGS); done || lia.
  - rewrite Nat.add_0_r. destruct (Nat.leb_spec i MAX_INIT_ARGS), (Nat.ltb_spec MAX_INIT_ARGS i); done || lia.
Qed.

Lemma arg_slot_stop_run param l i s :
  (first_null l < length l)%nat →
  arg_slot true param l i s =
    if ((i <=? MAX_INIT_ARGS) && (MAX_INIT_ARGS <? i + first_null l))%nat then Ok None (flag "init" param true s)
    else Ok (Some (i + first_null l)%nat) s.
Proof.
  revert i. induction l as [|[e|] l IH]; cbn [first_null length arg_slot]; intros i Hl; [lia| |].
  - destruct (Nat.eqb_spec i MAX_INIT_ARGS) as [->|Hi].
    + rewrite Nat.leb_refl, (proj2 (Nat.ltb_lt MAX_INIT_ARGS _)) by lia. done.
    + rewrite IH by lia. rewrite Nat.add_succ_comm.
      destruct (Nat.leb_spec i MAX_INIT_ARGS), (Nat.leb_spec (S i) MAX_INIT_ARGS); done || lia.
  - rewrite Nat.add_0_r. destruct (Nat.leb_spec i MAX_INIT_ARGS), (Nat.ltb_spec MAX_INIT_ARGS i); done || lia.
Qed.

Lemma env_slot_run param n l i s :
  (first_null l < length l)%nat →
  env_slot param n l i s =
    Ok (i + env_find param n l)%nat
       (flag "env" param ((i <=? MAX_INIT_ENVS) && (MAX_INIT_ENVS <=? i + env_find param n l) && (MAX_INIT_ENVS <? i + first_null l))%nat s).
Proof.
  revert i s. induction l as [|[e|] l IH]; cbn [first_null length env_find env_slot]; intros i s Hl; [lia| |].
  - pose proof (env_find_bound param n l) as Hb. destruct (Nat.eqb_spec i MAX_INIT_ENVS) as [->|Hi]; unfold bind, upd_args, modify.
    + rewrite Nat.leb_refl, (proj2 (Nat.ltb_lt MAX_INIT_ENVS _)) by lia.
      destruct (strncmp_eq param e n); [by rewrite Nat.add_0_r, Nat.leb_refl|].
      rewrite IH by lia. rewrite Nat.add_succ_comm, (proj2 (Nat.leb_gt (S MAX_INIT_ENVS) MAX_INIT_ENVS)), (proj2 (Nat.leb_le MAX_INIT_ENVS _)) by lia. done.
    + cbn. destruct (strncmp_eq param e n).
      { rewrite Nat.add_0_r. destruct (Nat.leb_spec i MAX_INIT_ENVS), (Nat.leb_spec MAX_INIT_ENVS i); done || lia. }
      rewrite IH by lia. rewrite !Nat.add_succ_comm. do 2 f_equal. f_equal.
      destruct (Nat.leb_spec i MAX_INIT_ENVS), (Nat.leb_spec (S i) MAX_INIT_ENVS); done || lia.
  - rewrite Nat.add_0_r. destruct (Nat.leb_spec i MAX_INIT_ENVS), (Nat.ltb_spec MAX_INIT_ENVS i), (Nat.leb_spec MAX_INIT_ENVS i); done || lia.
Qed.

(** Both arrays have their size, and end in [NULL] as long as no panic is due. *)
Record args_ok (a : init_args) : Prop := {
  ok_argv : length (argv_init a) = (MAX_INIT_ARGS + 2)%nat;
  ok_envp : length (envp_init a) = (MAX_INIT_ENVS + 2)%nat;
  ok_null : panic_later a = None →
    argv_init a !! (MAX_INIT_ARGS + 1)%nat = Some None ∧ envp_init a !! (MAX_INIT_ENVS + 1)%nat = Some None
}.
Abbreviation inv := (λ s : boot, args_ok (args s)).

Lemma args_ok_init e r : (1 ≤ CONFIG_INIT_ENV_ARG_LIMIT)%nat → args_ok (InitArgs argv_init0 envp_init0 None e r).
Proof.
  intros H. split; cbn [argv_init envp_init]; unfold argv_init0, envp_init0, MAX_INIT_ARGS, MAX_INIT_ENVS;
    [cbn [length]; rewrite length_replicate; lia..|].
  intros _. split; [rewrite lookup_cons_ne_0 by lia|rewrite !lookup_cons_ne_0 by lia]; apply lookup_replicate_2; lia.
Qed.

Lemma put_arg_ok i param s :
  inv s → (i ≤ MAX_INIT_ARGS + 1)%nat → (i = (MAX_INIT_ARGS + 1)%nat → panic_later (args s) ≠ None) →
  wp (put_arg i param) (λ _ s', inv s' ∧ args s' = with_argv (<[i := Some param]> (argv_init (args s))) (args s)) s.
Proof.
  intros Hok Hi Hl. unfold put_arg, array_set, wp, bind, gets. rewrite (ok_argv _ Hok), (proj2 (Nat.ltb_lt _ _)) by lia.
  cbn. split; [|done]. destruct Hok as [H1 H2 H3]. split; cbn; [by rewrite length_insert|done|]. intros Hp. destruct (H3 Hp) as [Ha He].
  split; [|done]. rewrite list_lookup_insert_ne; [done|]. intros ->. by apply Hl.
Qed.
Lemma put_env_ok i param s :
  inv s → (i ≤ MAX_INIT_ENVS + 1)%nat → (i = (MAX_INIT_ENVS + 1)%nat → panic_later (args s) ≠ None) →
  wp (put_env i param) (λ _ s', inv s' ∧ args s' = with_envp (<[i := Some param]> (envp_init (args s))) (args s)) s.
Proof.
  intros Hok Hi Hl. unfold put_env, array_set, wp, bind, gets. rewrite (ok_envp _ Hok), (proj2 (Nat.ltb_lt _ _)) by lia.
  cbn. split; [|done]. destruct Hok as [H1 H2 H3]. split; cbn; [done|by rewrite length_insert|]. intros Hp. destruct (H3 Hp) as [Ha He].
  split; [done|]. rewrite list_lookup_insert_ne; [done|]. intros ->. by apply Hl.
Qed.

Lemma clear_args_ok n i s : inv s → (i + n ≤ MAX_INIT_ARGS + 1)%nat → wp (clear_args n i) (λ _ s', inv s') s.
Proof.
  revert i s. induction n as [|n IH]; intros i s Hok Hn; [done|]. cbn [clear_args]. unfold wp, bind, gets, array_set.
  rewrite (ok_argv _ Hok), (proj2 (Nat.ltb_lt _ _)) by lia. cbn. apply IH; [|lia]. destruct Hok as [H1 H2 H3].
  split; cbn; [by rewrite length_insert|done|]. intros Hp. destruct (H3 Hp) as [Ha He]. split; [|done].
  rewrite list_lookup_insert_ne; [done|lia].
Qed.

Lemma flag_ok what param b s : inv s → inv (flag what param b s).
Proof. intros [H1 H2 H3]. destruct b; [|done]. by split. Qed.
Lemma flag_panic what param s : panic_later (args (flag what param true s)) ≠ None.
Proof. done. Qed.
Lemma flag_argv what param b s : argv_init (args (flag what param b s)) = argv_init (args s).
Proof. by destruct b. Qed.
Lemma flag_envp what param b s : envp_init (args (flag what param b s)) = envp_init (args s).
Proof. by destruct b. Qed.
Lemma args_ok_null s : inv s → panic_later (args s) = None →
  (first_null (argv_init (args s)) ≤ MAX_INIT_ARGS + 1)%nat ∧ (first_null (argv_init (args s)) < length (argv_init (args s)))%nat ∧
  (first_null (envp_init (args s)) ≤ MAX_INIT_ENVS + 1)%nat ∧ (first_null (envp_init (args s)) < length (envp_init (args s)))%nat.
Proof.
  intros [H1 H2 H3] Hp. destruct (H3 Hp) as [Ha%first_null_bound He%first_null_bound]. rewrite H1, H2. lia.
Qed.

(** *** The words of [initcall_blacklist=] *)

Fixpoint split_commas (s : str) : list str :=
  match s with
  | [] => [[]]
  | c :: s' =>
    if bool_decide (c = COMMA) then [] :: split_commas s'
    else match split_commas s' with w :: ws => (c :: w) :: ws | [] => [[c]] end
  end.

Lemma split_commas_strchr s :
  split_commas s = match strchr COMMA s with Some i => take i s :: split_commas (drop (S i) s) | None => [s] end.
Proof.
  induction s as [|c s IH]; cbn [split_commas strchr]; [done|]. destruct (bool_decide_reflect (c = COMMA)) as [->|Hc]; [done|].
  rewrite IH. by destruct (strchr COMMA s).
Qed.
Lemma strchr_bound c s i : strchr c s = Some i → (i < length s)%nat.
Proof. revert i. induction s as [|d s IH]; intros i; cbn; [done|]. case_bool_decide; [intros [= <-]; lia|]. intros [j [Hj ->]]%fmap_Some. apply IH in Hj. lia. Qed.

(** The tokens hold no comma, and joined with commas they are the argument. *)
Lemma split_commas_spec s :
  Forall (λ w, COMMA ∉ w) (split_commas s) ∧ ∃ w ws, split_commas s = w :: ws ∧ s = w ++ concat ((λ v, COMMA :: v) <$> ws).
Proof.
  induction s as [|c s (IH & w & ws & E & ->)]; cbn [split_commas].
  { split; [repeat constructor; apply not_elem_of_nil|]. by exists [], []. }
  rewrite E in *. apply Forall_cons in IH as [Hw Hws]. destruct (bool_decide_reflect (c = COMMA)) as [->|Hc].
  - split; [repeat constructor; [apply not_elem_of_nil|done..]|]. by exists [], (w :: ws).
  - split; [constructor; [|done]; by apply not_elem_of_cons|]. by exists (c :: w), ws.
Qed.

Lemma blacklist_loop_run t fuel s :
  (length t + 2 ≤ fuel)%nat →
  blacklist_loop fuel (Some t) s = Ok tt (set_opts (with_blacklist (reverse (split_commas t) ++ blacklisted_initcalls (opts s)) (opts s)) s).
Proof.
  remember (length t) as n eqn:Hn. revert t fuel s Hn. induction n as [n IH] using lt_wf_ind; intros t fuel s -> Hf.
  destruct fuel as [|fuel]; [lia|]. cbn [blacklist_loop strsep]. rewrite split_commas_strchr.
  destruct (strchr COMMA t) as [i|] eqn:Ei.
  - pose proof (strchr_bound _ _ _ Ei) as Hi. unfold bind, upd_opts, modify.
    rewrite (IH (length (drop (S i) t))) by (rewrite ?length_drop; done || lia).
    by rewrite reverse_cons, <- app_assoc.
  - destruct fuel as [|fuel]; [lia|]. done.
Qed.

(** *** Every option keeps the arrays in shape *)

Definition setup_ok (p : obs_kernel_param) : Prop :=
  match setup_func p with
  | Some f => ∀ arg s, inv s → wp (f arg) (λ _ s', inv s') s
  | None => True
  end.

Lemma init_setup_ok arg s : inv s → wp (init_setup arg) (λ _ s', inv s') s.
Proof.
  intros [H1 H2 H3]. apply wp_bind, wp_modify, wp_bind. eapply wp_mono; [apply clear_args_ok; [by split|lia]|done].
Qed.
Lemma rdinit_setup_ok arg s : inv s → wp (rdinit_setup arg) (λ _ s', inv s') s.
Proof. intros [H1 H2 H3]. apply wp_bind, wp_modify, wp_bind. eapply wp_mono; [apply clear_args_ok; [by split|lia]|done]. Qed.

Lemma initcall_blacklist_run t s :
  CONFIG_KALLSYMS = true →
  initcall_blacklist (Some t) s = Ok 1 (set_opts (with_blacklist (reverse (split_commas t) ++ blacklisted_initcalls (opts s)) (opts s)) s).
Proof. intros E. unfold initcall_blacklist, bind. rewrite E. cbn [default]. by rewrite blacklist_loop_run. Qed.

Lemma main_setups_ok : Forall setup_ok main_setups.
Proof.
  unfold main_setups. apply Forall_app. split; [repeat (apply Forall_cons; split); [..|by apply Forall_nil]; unfold setup_ok; cbn [setup_func]; try done|].
  - intros arg s Hs. unfold loglevel. by destruct (get_option arg).
  - intros arg s. apply init_setup_ok.
  - intros arg s. apply rdinit_setup_ok.
  - intros [t|] s Hs; unfold wp; [|unfold initcall_blacklist; by destruct CONFIG_KALLSYMS].
    destruct CONFIG_KALLSYMS eqn:E; [by rewrite initcall_blacklist_run|]. unfold initcall_blacklist. by rewrite E.
  - destruct CONFIG_STRICT_KERNEL_RWX; [|by apply Forall_nil]. apply Forall_singleton. unfold setup_ok; cbn [setup_func]. intros arg s Hs.
    unfold set_debug_rodata. by destruct (strtobool arg).
Qed.

(** The table has the entries of this file and others that leave the arrays alone;
    an early entry has a handler. *)
Record setup_table_ok : Prop := {
  st_ne : setup_table ≠ [];
  st_own : ∀ p, p ∈ setup_table → p ∈ main_setups ∨ setup_ok p;
  st_early : ∀ p, p ∈ setup_table → early p = true ∨ pstr p = lit "earlycon" → is_Some (setup_func p)
}.

Lemma setup_ok_all p : setup_table_ok → p ∈ setup_table → setup_ok p.
Proof. intros H Hp. destruct (st_own H p Hp) as [Hm|]; [|done]. by eapply (proj1 (Forall_forall _ _) main_setups_ok). Qed.

Lemma checksetup_loop_ok line tbl b s :
  tbl ≠ [] → (∀ p, p ∈ tbl → setup_ok p) → inv s → wp (checksetup_loop line tbl b) (λ _ s', inv s') s.
Proof.
  revert b s. induction tbl as [|p tbl IH]; intros b s Hne Hall Hs; [done|]. cbn [checksetup_loop].
  assert (Hnext : ∀ b' s', inv s' → wp (match tbl with [] => ret b' | _ => checksetup_loop line tbl b' end) (λ _ s'', inv s'') s').
  { intros b' s' Hs'. destruct tbl as [|q tbl']; [done|]. apply IH; [done| |done]. intros r Hr. apply Hall. by constructor. }
  pose proof (Hall p ltac:(constructor)) as Hp. unfold setup_ok in Hp.
  destruct (parameqn line (pstr p) _); [|by apply Hnext]. destruct (early p); [by apply Hnext|].
  destruct (setup_func p) as [f|]; [|done]. apply wp_bind. eapply wp_mono; [by apply Hp|]. intros r s' Hs'. cbn.
  destruct (r =? 0); [by apply Hnext|done].
Qed.

Lemma early_loop_ok param val tbl s :
  (∀ p, p ∈ tbl → setup_ok p ∧ (early p = true ∨ pstr p = lit "earlycon" → is_Some (setup_func p))) → inv s →
  wp (early_loop param val tbl) (λ _ s', inv s') s.
Proof.
  revert s. induction tbl as [|p tbl IH]; intros s Hall Hs; [done|]. cbn [early_loop]. apply wp_bind.
  assert (Hrest : ∀ s', inv s' → wp (early_loop param val tbl) (λ _ s'', inv s'') s').
  { intros s' Hs'. apply IH; [|done]. intros q Hq. apply Hall. by constructor. }
  destruct (Hall p ltac:(constructor)) as [Hp He]. destruct (_ || _) eqn:E; [|by apply Hrest].
  destruct He as [f Hf].
  { apply orb_true_iff in E as [[? _]%andb_true_iff|[_ ?%bool_decide_eq_true]%andb_true_iff]; auto. }
  unfold setup_ok in Hp. rewrite Hf in *. apply wp_bind. eapply wp_mono; [by apply Hp|]. intros r s' Hs'. cbn.
  destruct (negb (r =? 0)); by apply Hrest.
Qed.

(** ** Words of the command line *)

(** What [parse_args] passes for [key], [key=value] and a quoted value: the zero
    it wrote over the equals sign splits the buffer. *)
Inductive word : str → option nat → str → option str → Prop :=
| word_plain key rest : NUL ∉ key → word (key ++ NUL :: rest) None key None
| word_value key value rest : NUL ∉ key → NUL ∉ value →
    word (key ++ NUL :: value ++ NUL :: rest) (Some (length key + 1)%nat) key (Some value)
| word_quoted key value rest : NUL ∉ key → NUL ∉ value →
    word (key ++ NUL :: DOUBLE_QUOTE :: value ++ NUL :: rest) (Some (length key + 2)%nat) key (Some value).

(** The text of an option. *)
Definition option_text (key : str) (value : option str) : str :=
  match value with None => key | Some v => key ++ EQUALS :: v end.

Lemma cstr_stop k rest : NUL ∉ k → cstr (k ++ NUL :: rest) = k.
Proof.
  induction k as [|c k IH]; cbn; [done|]. intros [H1 H2]%not_elem_of_cons. rewrite bool_decide_eq_false_2 by done. by rewrite IH.
Qed.
Lemma insert_middle (a b : str) x y : <[length a := y]> (a ++ x :: b) = a ++ y :: b.
Proof. by rewrite insert_app_r_alt, Nat.sub_diag by done. Qed.

(** Putting the equals sign back makes [param] the whole option again. *)
Lemma repair_env_string_run param val key value s :
  word param val key value →
  ∃ buf, repair_env_string param val s = Ok buf s ∧ cstr buf = option_text key value.
Proof.
  destruct 1 as [key rest Hk|key value rest Hk Hv|key value rest Hk Hv]; unfold repair_env_string; cbn [option_text].
  - eexists; split; [done|]. by apply cstr_stop.
  - rewrite cstr_stop, Nat.eqb_refl, Nat.add_sub, insert_middle by done. eexists; split; [done|].
    change (key ++ EQUALS :: value ++ NUL :: rest) with (key ++ (EQUALS :: value) ++ NUL :: rest). rewrite app_assoc.
    apply cstr_stop. rewrite elem_of_app, elem_of_cons. intros [|[|]]; [done..].
  - rewrite cstr_stop by done. rewrite (proj2 (Nat.eqb_neq _ _)), Nat.eqb_refl, Nat.add_sub, insert_middle by lia.
    eexists; split; [done|].
    assert (Hd : drop (length key + 2) (key ++ EQUALS :: DOUBLE_QUOTE :: value ++ NUL :: rest) = value ++ NUL :: rest).
    { rewrite <- drop_drop, drop_app_length. done. }
    unfold memmove. rewrite Hd, (cstr_stop value) by done. replace (length key + 2 - 1)%nat with (length (key ++ [EQUALS])) by (rewrite length_app; cbn; lia).
    change (key ++ EQUALS :: DOUBLE_QUOTE :: value ++ NUL :: rest) with (key ++ [EQUALS] ++ DOUBLE_QUOTE :: value ++ NUL :: rest).
    rewrite (app_assoc key), take_app_length. replace (length value + 1)%nat with (length (value ++ [NUL])) by (rewrite length_app; done).
    change (value ++ NUL :: rest) with (value ++ [NUL] ++ rest) at 1. rewrite (app_assoc value), take_app_length.
    rewrite <- !app_assoc. change ((key ++ ([EQUALS] ++ value ++ [NUL] ++ _))) with (key ++ (EQUALS :: value) ++ NUL :: drop (length (key ++ [EQUALS]) + length (value ++ [NUL])) (key ++ [EQUALS] ++ DOUBLE_QUOTE :: value ++ NUL :: rest)).
    rewrite app_assoc. apply cstr_stop. rewrite elem_of_app, elem_of_cons. intros [|[|]]; [done..].
Qed.

Lemma set_init_arg_ok param val key value s :
  word param val key value → inv s → wp (set_init_arg param val) (λ r s', r = 0 ∧ inv s') s.
Proof.
  intros Hw Hs. unfold set_init_arg. apply wp_bind, wp_gets. destruct (panic_later (args s)) eqn:Hp; [done|].
  destruct (repair_env_string_run _ _ _ _ s Hw) as (buf & Hb & _). apply wp_bind. unfold wp at 1. rewrite Hb. apply wp_bind. unfold wp at 1.
  destruct (args_ok_null s Hs Hp) as (Hn & Hl & _). rewrite arg_slot_stop_run by done. cbn [Nat.leb Nat.add].
  destruct (Nat.ltb_spec MAX_INIT_ARGS (first_null (argv_init (args s)))); cbn; [by split; [|apply (flag_ok _ _ true)]|].
  apply wp_bind. eapply wp_mono; [apply put_arg_ok; [done|lia|lia]|]. intros _ s' [? _]. by apply wp_ret.
Qed.

Lemma unknown_bootoption_ok param val key value s :
  setup_table_ok → word param val key value → inv s → wp (unknown_bootoption param val) (λ r s', r = 0 ∧ inv s') s.
Proof.
  intros Ht Hw Hs. unfold unknown_bootoption. destruct (repair_env_string_run _ _ _ _ s Hw) as (buf & Hb & _).
  apply wp_bind. unfold wp at 1. rewrite Hb. apply wp_bind. eapply wp_mono.
  { apply checksetup_loop_ok; [by apply st_ne| |done]. intros p. by apply setup_ok_all. }
  intros handled s' Hs'. cbn beta. destruct handled; [done|]. destruct (module_param _ _); [done|].
  apply wp_bind, wp_gets. destruct (panic_later (args s')) eqn:Hp; [done|]. destruct (args_ok_null s' Hs' Hp) as (Hn & Hl & Hn' & Hl').
  destruct val as [v|]; apply wp_bind; unfold wp at 1.
  - rewrite env_slot_run by done. cbn [Nat.leb Nat.add andb]. pose proof (env_find_bound (cstr buf) v (envp_init (args s'))) as Hf.
    apply wp_bind. eapply wp_mono; [apply put_env_ok; [by apply flag_ok|lia|]|intros _ s'' [? _]; by apply wp_ret].
    intros E. rewrite (proj2 (Nat.leb_le _ _)), (proj2 (Nat.ltb_lt _ _)) by lia. done.
  - rewrite arg_slot_run by done. cbn [Nat.leb Nat.add andb].
    apply wp_bind. eapply wp_mono; [apply put_arg_ok; [by apply flag_ok|lia|]|intros _ s'' [? _]; by apply wp_ret].
    intros E. rewrite (proj2 (Nat.ltb_lt _ _)) by lia. done.
Qed.

(** What the code relies on of [parse_args]: it passes words. *)
Definition unknown_word (p : parsed) : Prop :=
  match p with Unknown param val => ∃ key value, word param val key value | _ => True end.
Definition parse_words_ok : Prop := ∀ doing cmdline level, Forall unknown_word (parse_words doing cmdline level).1.

Lemma parse_loop_ok handler l s :
  (∀ param val key value s', word param val key value → inv s' → wp (handler param val) (λ _ s'', inv s'') s') →
  Forall unknown_word l → inv s → wp (parse_loop handler l) (λ _ s', inv s') s.
Proof.
  intros Hh Hl. revert s. induction Hl as [|p l Hp Hl IH]; intros s Hs; [done|]. destruct p as [b| |param val]; cbn [parse_loop].
  - by apply wp_bind, wp_modify, IH.
  - by apply IH.
  - destruct Hp as (key & value & Hw). apply wp_bind. eapply wp_mono; [by eapply Hh|]. intros ? s' Hs'. by apply IH.
Qed.
Lemma parse_args_ok doing cmdline level handler s :
  parse_words_ok →
  (∀ param val key value s', word param val key value → inv s' → wp (handler param val) (λ _ s'', inv s'') s') →
  inv s → wp (parse_args doing cmdline level handler) (λ _ s', inv s') s.
Proof.
  intros Hp Hh Hs. unfold parse_args. specialize (Hp doing cmdline level). destruct (parse_words doing cmdline level) as [l r].
  apply wp_bind. eapply wp_mono; [by apply parse_loop_ok|]. by intros ? s'.
Qed.

Lemma parse_early_param_ok s : setup_table_ok → parse_words_ok → inv s → wp parse_early_param (λ _ s', inv s') s.
Proof.
  intros Ht Hp Hs. unfold parse_early_param. apply wp_bind, wp_gets. destruct (early_done (opts s)); [done|].
  apply wp_bind, wp_gets, wp_bind. eapply wp_mono; [apply parse_args_ok; [done| |done]|by intros ? ?].
  intros param val key value s' _ Hs'. unfold do_early_param. apply wp_bind. eapply wp_mono; [apply early_loop_ok|by intros ? s''].
  - intros p Hin. split; [by apply setup_ok_all|by apply st_early].
  - done.
Qed.

(** The whole command line is handled without leaving the arrays. *)
Lemma parse_command_line_ok s : setup_table_ok → parse_words_ok → inv s → wp parse_command_line (λ _ s', inv s') s.
Proof.
  intros Ht Hp Hs. unfold parse_command_line. apply wp_bind. eapply wp_mono; [by apply parse_early_param_ok|]. intros ? s1 H1.
  apply wp_bind, wp_gets, wp_bind. eapply wp_mono; [apply parse_args_ok; [done| |done]|].
  { intros. eapply wp_mono; [by eapply unknown_bootoption_ok|]. by intros r ? [_ ?]. }
  intros [rest|] s2 H2; [|done]. apply wp_bind. eapply wp_mono; [apply parse_args_ok; [done| |done]|by intros ? ?].
  intros. eapply wp_mono; [by eapply set_init_arg_ok|]. by intros r ? [_ ?].
Qed.

(** ** What the first user program gets *)

(** No entry of the table takes the option. *)
Definition ignored (opt : str) : Prop := ∀ p, p ∈ setup_table → parameqn opt (pstr p) (length (pstr p)) = false.

Lemma checksetup_ignored opt tbl b s :
  tbl ≠ [] → (∀ p, p ∈ tbl → parameqn opt (pstr p) (length (pstr p)) = false) → checksetup_loop opt tbl b s = Ok b s.
Proof.
  revert b. induction tbl as [|p tbl IH]; intros b Hne Hall; [done|]. cbn [checksetup_loop].
  rewrite (Hall p) by constructor. destruct tbl as [|q tbl]; [done|]. apply IH; [done|]. intros r Hr. apply Hall. by constructor.
Qed.

Lemma strings_insert l e : (first_null l < length l)%nat → l !! S (first_null l) = Some None ∨ length l = S (first_null l) →
  strings (<[first_null l := Some e]> l) = strings l ++ [e].
Proof.
  induction l as [|[x|] l IH]; cbn; intros Hl Hn; [lia| |].
  - f_equal. apply IH; [lia|]. destruct Hn as [Hn|Hn]; [by left|right; lia].
  - f_equal. destruct l as [|[y|] l]; [done| |done]. destruct Hn as [Hn|Hn]; cbn in Hn; [done|lia].
Qed.
Lemma strings_insert_replace l i e : (i < first_null l)%nat → strings (<[i := Some e]> l) = <[i := e]> (strings l).
Proof. revert i. induction l as [|[x|] l IH]; intros i; cbn; [lia| |lia]. destruct i as [|i]; cbn; [done|]. intros Hi. rewrite IH by lia. done. Qed.

(** Behind the first [NULL] there are only [NULL]s; [init=] is what can break it. *)
Definition packed (l : list (option str)) : Prop := ∀ i, (first_null l ≤ i < length l)%nat → l !! i = Some None.

Lemma packed_insert l e : packed l → packed (<[first_null l := Some e]> l).
Proof.
  intros Hp. destruct (decide (first_null l < length l)%nat) as [Hl|Hl]; [|by rewrite list_insert_ge by lia].
  assert (E : first_null (<[first_null l := Some e]> l) = S (first_null l)).
  { rewrite (first_null_length (<[_ := _]> l)), strings_insert; [by rewrite length_app, Nat.add_1_r, <- first_null_length|done|].
    destruct (decide (S (first_null l) < length l)%nat); [left; apply Hp; lia|right; lia]. }
  intros i. rewrite E, length_insert. intros Hi. rewrite list_lookup_insert_ne by lia. apply Hp. lia.
Qed.

(** *** Environments *)

Definition assign (k v : str) : str := k ++ EQUALS :: v.
(** Replace the entry of a variable, or add one. *)
Fixpoint env_put (k v : str) (e : list str) : list str :=
  match e with
  | [] => [assign k v]
  | x :: e' => if starts_with (k ++ [EQUALS]) x then assign k v :: e' else x :: env_put k v e'
  end.
Fixpoint getenv (k : str) (e : list str) : option str :=
  match e with
  | [] => None
  | x :: e' => if starts_with (k ++ [EQUALS]) x then Some (drop (length k + 1) x) else getenv k e'
  end.

Lemma assign_inj k k' a b : EQUALS ∉ k → EQUALS ∉ k' → assign k a = assign k' b → k = k'.
Proof.
  unfold assign. revert k'. induction k as [|c k IH]; intros [|d k']; cbn; [done|..].
  - intros _ [? _]%not_elem_of_cons [= ? ?]. congruence.
  - intros [? _]%not_elem_of_cons _ [= ? ?]. congruence.
  - intros [_ ?]%not_elem_of_cons [_ ?]%not_elem_of_cons [= -> ?]. f_equal. by apply IH.
Qed.
Lemma starts_assign k v : starts_with (k ++ [EQUALS]) (assign k v) = true.
Proof. apply starts_with_spec. exists v. unfold assign. by rewrite <- app_assoc. Qed.
Lemma starts_other k k' x : EQUALS ∉ k → EQUALS ∉ k' → k ≠ k' → starts_with (k ++ [EQUALS]) x = true → starts_with (k' ++ [EQUALS]) x = false.
Proof.
  intros Hk Hk' Hne [b ->]%starts_with_spec. apply not_true_is_false. intros [b' E]%starts_with_spec. apply Hne.
  rewrite <- !app_assoc in E. by apply (assign_inj k k' b b').
Qed.
Lemma drop_assign k v : drop (length k + 1) (assign k v) = v.
Proof. unfold assign. by rewrite <- drop_drop, drop_app_length. Qed.

Lemma getenv_put_eq k v e : getenv k (env_put k v e) = Some v.
Proof.
  induction e as [|x e IH]; cbn [env_put].
  - cbn [getenv]. by rewrite starts_assign, drop_assign.
  - destruct (starts_with (k ++ [EQUALS]) x) eqn:E; cbn [getenv]; [by rewrite starts_assign, drop_assign|by rewrite E].
Qed.
Lemma getenv_put_ne k k' v e : EQUALS ∉ k → EQUALS ∉ k' → k ≠ k' → getenv k' (env_put k v e) = getenv k' e.
Proof.
  intros Hk Hk' Hne. assert (Ha : starts_with (k' ++ [EQUALS]) (assign k v) = false) by (apply (starts_other k k'); auto using starts_assign).
  induction e as [|x e IH]; cbn [env_put].
  - cbn [getenv]. by rewrite Ha.
  - destruct (starts_with (k ++ [EQUALS]) x) eqn:E; cbn [getenv]; [|by rewrite IH].
    by rewrite Ha, (starts_other k k' x).
Qed.

(** The code's search is the one of [env_put], for a value without quotes. *)
Lemma strncmp_assign k v e : strncmp_eq (assign k v) e (length k + 1) = starts_with (k ++ [EQUALS]) e.
Proof.
  unfold strncmp_eq, assign. change (k ++ EQUALS :: v) with (k ++ [EQUALS] ++ v). rewrite app_assoc.
  replace (length k + 1)%nat with (length (k ++ [EQUALS])) by (by rewrite length_app). rewrite take_app_length.
  apply eq_true_iff_eq. rewrite bool_decide_eq_true, starts_with_spec.
  split; [|by intros [b ->]; rewrite take_app_length]. intros H. exists (drop (length (k ++ [EQUALS])) e). rewrite H at 1. by rewrite take_drop.
Qed.
Lemma put_at_find k v l :
  (first_null l < length l)%nat → packed l →
  strings (<[env_find (assign k v) (length k + 1) l := Some (assign k v)]> l) = env_put k v (strings l).
Proof.
  intros Hl Hp. revert Hl Hp. induction l as [|[x|] l IH]; cbn [first_null length env_find strings]; intros Hl Hp; [lia| |].
  - cbn [env_put]. rewrite strncmp_assign. destruct (starts_with _ x); [done|]. cbn. f_equal. apply IH; [lia|].
    intros i Hi. apply (Hp (S i)). cbn. lia.
  - cbn. f_equal. destruct l as [|y l]; [done|]. specialize (Hp 1%nat ltac:(cbn; lia)). by injection Hp as ->.
Qed.
Lemma length_env_put k v e : (length e ≤ length (env_put k v e) ≤ S (length e))%nat.
Proof. induction e as [|x e IH]; cbn; [lia|]. destruct (starts_with _ x); cbn; lia. Qed.
Lemma packed_replace l i e : (i < first_null l)%nat → packed l → packed (<[i := Some e]> l).
Proof.
  intros Hi Hp j. rewrite (first_null_length (<[i := _]> l)), strings_insert_replace, length_insert by done.
  rewrite <- first_null_length, length_insert. intros Hj. rewrite list_lookup_insert_ne by lia. by apply Hp.
Qed.

(** *** Options one after the other *)

(** A state in which no limit has been reached and no argument was cleared. *)
Record ready (s : boot) : Prop := {
  rd_ok : args_ok (args s);
  rd_panic : panic_later (args s) = None;
  rd_argv : packed (argv_init (args s));
  rd_envp : packed (envp_init (args s))
}.

(** An option as it is written on the command line, without quotes, and the word
    [parse_args] makes of it. *)
Definition encode (o : str * option str) : parsed :=
  match o with
  | (k, None) => Unknown (k ++ [NUL]) None
  | (k, Some v) => Unknown (k ++ NUL :: v ++ [NUL]) (Some (length k + 1)%nat)
  end.
(** An option for the first program: no part of the kernel takes it. *)
Record for_init (o : str * option str) : Prop := {
  fi_key : (NUL ∉ o.1) ∧ (EQUALS ∉ o.1) ∧ (DOT ∉ o.1);
  fi_value : match o.2 with Some v => NUL ∉ v | None => True end;
  fi_ignored : ignored (option_text o.1 o.2)
}.

Definition args_of (l : list (str * option str)) : list str := omap (λ o, match o.2 with None => Some o.1 | Some _ => None end) l.
Definition env_of (e : list str) (l : list (str * option str)) : list str :=
  foldl (λ e o, match o.2 with Some v => env_put o.1 v e | None => e end) e l.
(** The last value a variable is given. *)
Fixpoint last_value (k : str) (l : list (str * option str)) : option str :=
  match l with
  | [] => None
  | (k', v) :: l' => match last_value k l' with Some x => Some x | None => if bool_decide (k = k') then v else None end
  end.

Lemma strchr_None c s : c ∉ s → strchr c s = None.
Proof. induction s as [|d s IH]; cbn; [done|]. intros [H1 H2]%not_elem_of_cons. rewrite bool_decide_eq_false_2 by done. by rewrite IH. Qed.
Lemma strchr_app c a b : c ∉ a → strchr c (a ++ b) = (λ i, (length a + i)%nat) <$> strchr c b.
Proof.
  induction a as [|d a IH]; cbn; [by destruct (strchr c b)|]. intros [H1 H2]%not_elem_of_cons. rewrite bool_decide_eq_false_2, IH by done.
  by destruct (strchr c b).
Qed.

(** A dot in a value does not make a module parameter. *)
Lemma module_param_assign k v : DOT ∉ k → module_param (assign k v) (Some (length k + 1)%nat) = false.
Proof.
  intros Hd. unfold module_param, assign. rewrite strchr_app by done. cbn. destruct (strchr DOT v); cbn; [|done]. apply Nat.ltb_ge. lia.
Qed.

Lemma unknown_run_arg k s :
  setup_table ≠ [] → ready s → for_init (k, None) → (length (strings (argv_init (args s))) ≤ MAX_INIT_ARGS)%nat →
  ∃ s', unknown_bootoption (k ++ [NUL]) None s = Ok 0 s' ∧ ready s' ∧
        strings (argv_init (args s')) = strings (argv_init (args s)) ++ [k] ∧ envp_init (args s') = envp_init (args s).
Proof.
  intros Ht [Hok Hp Ha He] [(Hn & _ & Hd) _ Hi] Hroom. cbn in Hn, Hd, Hi. rewrite <- first_null_length in Hroom.
  destruct (args_ok_null s Hok Hp) as (_ & Hl & _).
  unfold unknown_bootoption, bind, repair_env_string, ret. rewrite (cstr_stop k []) by done.
  unfold obsolete_checksetup. rewrite checksetup_ignored by done. unfold module_param. rewrite strchr_None by done.
  unfold gets. rewrite Hp, arg_slot_run by done. cbn [Nat.leb Nat.add andb]. rewrite (proj2 (Nat.ltb_ge _ _)) by done. cbn [flag].
  destruct (wp_run2 _ _ _ (put_arg_ok (first_null (argv_init (args s))) k s Hok ltac:(lia) ltac:(lia))) as ([] & s' & -> & Hok' & E).
  exists s'. rewrite E. split; [done|]. split; [|split; [|done]].
  - split; rewrite ?E; [by rewrite <- E|done|by apply packed_insert|done].
  - apply strings_insert; [done|]. left. apply Ha. rewrite (ok_argv _ Hok). lia.
Qed.

Lemma unknown_run_env k v s :
  setup_table ≠ [] → ready s → for_init (k, Some v) → (length (env_put k v (strings (envp_init (args s)))) ≤ MAX_INIT_ENVS)%nat →
  ∃ s', unknown_bootoption (k ++ NUL :: v ++ [NUL]) (Some (length k + 1)%nat) s = Ok 0 s' ∧ ready s' ∧
        strings (envp_init (args s')) = env_put k v (strings (envp_init (args s))) ∧ argv_init (args s') = argv_init (args s).
Proof.
  intros Ht [Hok Hp Ha He] [(Hn & _ & Hd) Hv Hi] Hroom. cbn in Hn, Hd, Hi, Hv.
  pose proof (length_env_put k v (strings (envp_init (args s)))) as Hlen. rewrite <- first_null_length in Hlen.
  destruct (args_ok_null s Hok Hp) as (_ & _ & _ & Hl).
  destruct (repair_env_string_run _ _ _ _ s (word_value k v [] Hn Hv)) as (buf & Hb & Ec).
  unfold unknown_bootoption, bind. rewrite Hb, Ec. cbn [option_text] in *.
  unfold obsolete_checksetup. rewrite checksetup_ignored by done. fold (assign k v). rewrite module_param_assign by done.
  unfold gets. rewrite Hp, env_slot_run by done. cbn [Nat.leb Nat.add andb].
  rewrite (proj2 (Nat.ltb_ge MAX_INIT_ENVS _)), andb_false_r by lia. cbn [flag].
  pose proof (env_find_bound (assign k v) (length k + 1) (envp_init (args s))) as Hf.
  destruct (wp_run2 _ _ _ (put_env_ok (env_find (assign k v) (length k + 1) (envp_init (args s))) (assign k v) s Hok ltac:(lia) ltac:(lia))) as ([] & s' & -> & Hok' & E).
  exists s'. rewrite E. split; [done|]. split; [|split; [by apply put_at_find|done]].
  split; rewrite ?E; [by rewrite <- E|done|done|]. cbn [envp_init with_envp].
  destruct (decide (env_find (assign k v) (length k + 1) (envp_init (args s)) = first_null (envp_init (args s)))) as [->|];
    [by apply packed_insert|apply packed_replace; [lia|done]].
Qed.

Lemma getenv_env_of k e l : EQUALS ∉ k → Forall (λ o : str * option str, EQUALS ∉ o.1) l →
  getenv k (env_of e l) = match last_value k l with Some v => Some v | None => getenv k e end.
Proof.
  intros Hk Hl. revert e. induction Hl as [|[k' v] l Hk' Hl IH]; intros e; [done|]. change (env_of e ((k', v) :: l)) with (env_of (match v with Some x => env_put k' x e | None => e end) l).
  rewrite IH. cbn [last_value]. destruct (last_value k l); [done|]. cbn in Hk'. destruct (bool_decide_reflect (k = k')) as [->|Hne].
  - destruct v as [v|]; [|done]. apply getenv_put_eq.
  - destruct v as [v|]; [|done]. by rewrite getenv_put_ne.
Qed.
Lemma length_env_of e l : (length e ≤ length (env_of e l))%nat.
Proof.
  revert e. induction l as [|[k v] l IH]; intros e; [done|]. change (env_of e ((k, v) :: l)) with (env_of (match v with Some x => env_put k x e | None => e end) l).
  etrans; [|apply IH]. destruct v as [v|]; [|done]. apply length_env_put.
Qed.

Lemma options_run l s :
  setup_table ≠ [] → ready s → Forall for_init l →
  (length (strings (argv_init (args s)) ++ args_of l) ≤ MAX_INIT_ARGS + 1)%nat →
  (length (env_of (strings (envp_init (args s))) l) ≤ MAX_INIT_ENVS)%nat →
  wp (parse_loop unknown_bootoption (encode <$> l)) (λ _ s', ready s' ∧
    strings (argv_init (args s')) = strings (argv_init (args s)) ++ args_of l ∧
    strings (envp_init (args s')) = env_of (strings (envp_init (args s))) l) s.
Proof.
  intros Ht Hr Hl. revert s Hr. induction Hl as [|[k [v|]] l Ho Hl IH]; intros s Hr Ha He.
  - cbn. by rewrite app_nil_r.
  - change (env_of _ ((k, Some v) :: l)) with (env_of (env_put k v (strings (envp_init (args s)))) l) in *.
    pose proof (length_env_of (env_put k v (strings (envp_init (args s)))) l).
    destruct (unknown_run_env k v s Ht Hr Ho ltac:(lia)) as (s' & Hs' & Hr' & E1 & E2). cbn [fmap list_fmap encode parse_loop].
    apply wp_bind. unfold wp at 1. rewrite Hs', <- E1, <- E2. apply IH; [done|by rewrite E2|by rewrite E1].
  - cbn [args_of omap list_omap snd fst] in Ha |- *. change (env_of _ ((k, None) :: l)) with (env_of (strings (envp_init (args s))) l) in *.
    destruct (unknown_run_arg k s Ht Hr Ho) as (s' & Hs' & Hr' & E1 & E2). { rewrite length_app in Ha. cbn in Ha. lia. }
    cbn [fmap list_fmap encode parse_loop]. apply wp_bind. unfold wp at 1.
    rewrite Hs', cons_middle, app_assoc, <- E1, <- E2. apply IH; [done| |by rewrite E2]. by rewrite E1, <- app_assoc.
Qed.
End Code.

(** ** A kernel for examples *)

Definition dash2underscore (c : ascii) : ascii := if bool_decide (c = "-"%char) then "_"%char else c.
Definition demo_word (w : str) : parsed :=
  if bool_decide (NUL ∈ w) then OtherParam
  else match strchr EQUALS w with
       | None => Unknown (w ++ [NUL]) None
       | Some i =>
         let k := take i w in
         match drop (S i) w with
         | q :: v => if bool_decide (q = DOUBLE_QUOTE) then Unknown (k ++ NUL :: DOUBLE_QUOTE :: v ++ [NUL]) (Some (length k + 2)%nat)
                     else Unknown (k ++ NUL :: (q :: v) ++ [NUL]) (Some (length k + 1)%nat)
         | [] => Unknown (k ++ NUL :: [] ++ [NUL]) (Some (length k + 1)%nat)
         end
       end.
Fixpoint demo_split (ws : list str) : list str * option str :=
  match ws with
  | [] => ([], None)
  | w :: ws' =>
    if bool_decide (w = lit "--") then ([], Some (concat ((λ v, v ++ lit " ") <$> ws')))
    else let '(a, r) := demo_split ws' in (w :: a, r)
  end.

(** [limit] is the configured number of arguments.  Threads are numbered from 1;
    [/bin/sh] is the only program; an odd initcall leaves interrupts off. *)
Definition demo_kernel (limit : nat) : KernelEnv := {|
  W := Z;
  CONFIG_INIT_ENV_ARG_LIMIT := limit;
  COMMAND_LINE_SIZE := 2048;
  CONSOLE_LOGLEVEL_DEBUG := 10;
  CONSOLE_LOGLEVEL_QUIET := 4;
  CONFIG_BLK_DEV_INITRD := true;
  CONFIG_CONSTRUCTORS := false;
  CONFIG_KALLSYMS := true;
  CONFIG_STRICT_KERNEL_RWX := true;
  parse_words := λ _ cmdline _, let '(ws, rest) := demo_split (words cmdline) in (demo_word <$> ws, rest);
  parameq := λ a b, bool_decide (dash2underscore <$> a = dash2underscore <$> b);
  parameqn := λ a b n, bool_decide (dash2underscore <$> take n a = dash2underscore <$> take n b);
  get_option := λ arg, match arg with Some (c :: s) => if isdigit c then Some (atoi (c :: s)) else None | _ => None end;
  strtobool := λ arg, match arg with Some (c :: _) => if bool_decide (c = "1"%char) then Some true else if bool_decide (c = "0"%char) then Some false else None | _ => None end;
  subsystem := λ _ cw, cw;
  arch_command_line := λ _, [];
  arch_parses_early := true;
  late_time_init := λ _, false;
  efi_runtime_services := λ _, false;
  initrd_pfn := λ a, a / 4096;
  linux_banner := lit "Linux";
  current_pid := λ _, 1;
  add_entropy := λ w, w;
  initcall_body := λ fn '(c, w), (0, (if Z.odd fn then Cpu true (preempt c + 1) else c, w));
  ksym := λ fn, lit "init" ++ dec fn;
  clock_ns := λ w, (0, w);
  thread_of := λ _ n T, (n + 1, (n + 1, match T !! (1000 + (n + 1)) with Some _ => T | None => <[1000 + (n + 1) := Task 7 (n + 1) 0 []]> T end));
  task_of_pid := λ p _, 1000 + p;
  execve := λ file _ _ w, (if bool_decide (file = lit "/bin/sh") then 0 else -2, w);
  open_file := λ _ w, (0, w);
  access_file := λ _ _, -2
|}.

Lemma demo_word_ok w : unknown_word (demo_word w).
Proof.
  unfold demo_word. destruct (bool_decide_reflect (NUL ∈ w)) as [|Hw]; [done|].
  assert (Hsub : ∀ i, (NUL ∉ take i w) ∧ (NUL ∉ drop i w)).
  { intros i. rewrite <- (take_drop i w), elem_of_app in Hw. tauto. }
  destruct (strchr EQUALS w) as [i|]; [|by eexists _, _; constructor].
  destruct (Hsub i) as [Hk _], (Hsub (S i)) as [_ Hv]. destruct (drop (S i) w) as [|q v]; [by eexists _, _; constructor|].
  destruct (bool_decide_reflect (q = DOUBLE_QUOTE)) as [->|]; eexists _, _; constructor; try done.
  by apply not_elem_of_cons in Hv as [_ ?].
Qed.
Lemma demo_parse_ok limit : @parse_words_ok (demo_kernel limit).
Proof.
  intros doing cmdline level. cbn. destruct (demo_split (words cmdline)) as [ws rest]. cbn.
  apply Forall_fmap, Forall_forall. intros w _. apply demo_word_ok.
Qed.
Lemma demo_setups_ok limit : @setup_table_ok (demo_kernel limit) (@main_setups (demo_kernel limit)).
Proof.
  split; [done|by left|]. intros p Hp _. revert p Hp. apply Forall_forall. cbn. repeat constructor; by eexists.
Qed.

(** The state in which the kernel starts, with a command line. *)
Definition demo_boot (limit : nat) (cmdline : string) : @boot (demo_kernel limit) :=
  @Boot (demo_kernel limit)
    (InitArgs (@argv_init0 (demo_kernel limit)) (@envp_init0 (demo_kernel limit)) None None None)
    (BootOpts 0 7 true false false [])
    (CmdLines (lit cmdline) (CBuf 0 []) (CBuf 0 []) (CBuf (length (lit cmdline) + 1) (lit cmdline)))
    (SchedVars SYSTEM_BOOTING false 0 false 0 false 0)
    (Cpu true 0) 0 ∅ [] [].
Definition demo_parse (limit : nat) (cmdline : string) : option (list str * list str) :=
  observe (@parse_command_line (demo_kernel limit) (@main_setups (demo_kernel limit))) (demo_boot limit cmdline)
    (λ _ s, (strings (argv_init (args s)), strings (envp_init (args s)))).

(** ** Theorems *)

(** C36: Whatever the command line holds, parsing it never reads or writes outside
    [argv_init] and [envp_init], and unless a panic is due both arrays still end
    in [NULL]. *)
Theorem boot_arrays_in_bounds {env : KernelEnv} (table : list obs_kernel_param) (s : boot) e r :
  (1 ≤ CONFIG_INIT_ENV_ARG_LIMIT)%nat →
  setup_table_ok table → parse_words_ok →
  args s = InitArgs argv_init0 envp_init0 None e r →
  wp (parse_command_line table) (λ _ s',
    length (argv_init (args s')) = (MAX_INIT_ARGS + 2)%nat ∧ length (envp_init (args s')) = (MAX_INIT_ENVS + 2)%nat ∧
    (panic_later (args s') = None →
       argv_init (args s') !! (MAX_INIT_ARGS + 1)%nat = Some None ∧ envp_init (args s') !! (MAX_INIT_ENVS + 1)%nat = Some None)) s.
Proof.
  intros Hl Ht Hp E. eapply wp_mono; [apply parse_command_line_ok; [done..|]|by intros ? s' [? ? ?]].
  rewrite E. by apply args_ok_init.
Qed.

Lemma boot_arrays_in_bounds_witness :
  wp (@parse_command_line (demo_kernel 2) (@main_setups (demo_kernel 2))) (λ _ s',
    length (argv_init (args s')) = 4%nat ∧ length (envp_init (args s')) = 4%nat ∧
    (panic_later (args s') = None → argv_init (args s') !! 3%nat = Some None ∧ envp_init (args s') !! 3%nat = Some None))
    (demo_boot 2 "quiet a b=1 c d e f").
Proof.
  apply (@boot_arrays_in_bounds (demo_kernel 2) (@main_setups (demo_kernel 2)) _ None None);
    [cbn; lia|apply demo_setups_ok|apply demo_parse_ok|reflexivity].
Defined.


Lemma packed_demo_argv limit : packed (Some (lit "init") :: replicate (limit + 1) None).
Proof. intros [|i] Hi; cbn in *; [lia|]. rewrite length_replicate in Hi. apply lookup_replicate_2. lia. Qed.
Lemma packed_demo_envp limit : packed (Some (lit "HOME=/") :: Some (lit "TERM=linux") :: replicate limit None).
Proof. intros i. cbn [first_null length]. rewrite length_replicate. intros Hi. destruct limit as [|n]; [lia|]. cbn [replicate first_null] in Hi. rewrite !lookup_cons_ne_0 by lia. apply (lookup_replicate_2 (S n)). lia. Qed.
Lemma demo_ready limit cmdline : (1 ≤ limit)%nat → ready (demo_boot limit cmdline).
Proof.
  intros Hl. split; [by apply (@args_ok_init (demo_kernel limit))|done|apply packed_demo_argv|apply packed_demo_envp].
Qed.


(** An argument that was given before [init=] can survive it: the loop clears the
    entries below [MAX_INIT_ARGS] and leaves the last one. *)
Theorem init_setup_keeps_last :
  demo_parse 3 "a b c init=/bin/sh x y" = Some ([lit "init"; lit "x"; lit "y"; lit "c"], [lit "HOME=/"; lit "TERM=linux"]).
Proof. vm_compute. reflexivity. Qed.

(** A quoted value does not replace the variable: one character of the value is
    compared too, because [repair_env_string] does not move the caller's [val]. *)
Theorem quoted_variable_duplicated :
  observe (parse_loop (@unknown_bootoption (demo_kernel 5) (@main_setups (demo_kernel 5)))
             [Unknown (lit "A" ++ NUL :: DOUBLE_QUOTE :: lit "x" ++ [NUL]) (Some 3%nat);
              Unknown (lit "A" ++ NUL :: DOUBLE_QUOTE :: lit "y" ++ [NUL]) (Some 3%nat)]) (demo_boot 5 "")
    (λ _ s, strings (envp_init (args s))) = Some [lit "HOME=/"; lit "TERM=linux"; lit "A=x"; lit "A=y"].
Proof. vm_compute. reflexivity. Qed.

(** Giving the variable in the last slot a new value is taken for one variable too
    many: the limit is tested before the name. *)
Theorem last_variable_panics :
  observe (@parse_command_line (demo_kernel 2) (@main_setups (demo_kernel 2))) (demo_boot 2 "A=1 A=2")
    (λ _ s, (panic_later (args s), strings (envp_init (args s)))) =
  Some (Some ("env"%string, lit "A=2"), [lit "HOME=/"; lit "TERM=linux"; lit "A=2"]).
Proof. vm_compute. reflexivity. Qed.
