(* ===== verification/InitCalls.v ===== *)
(** * [hw2/.../init/main.c]: constructors and initcalls

    The linker collects the initcalls of the kernel in one array; nine labels cut
    it into the calls before SMP and eight levels.  [initcall_table] is the array
    from [__initcall_start] to [__initcall_end], and [labels] are the positions of
    [__initcall0_start] to [__initcall_end]. *)

From S2P Require Import Prelude CString ProcessWeights BootState BootParams.

Definition EPERM : Z := 1.

(** [strreplace(fn_name, ' ', '\0')]. *)
Definition strip_module (fn_name : str) : str :=
  cstr ((λ c : ascii, if bool_decide (c = " "%char) then NUL else c) <$> fn_name).

Section Code.
Context {env : KernelEnv} (initcall_table : list Z) (labels : list nat) (ctors : list string).

(** The call of an initcall. *)
Definition run_initcall (fn : Z) : M boot Z :=
  lift_state (λ s, let '(r, (c, w)) := initcall_body fn (hw s, world s) in (r, record (Initcall fn r) (set_hw c (set_world w s)))).

Definition do_ctors : M boot unit := if CONFIG_CONSTRUCTORS then calls ctors else ret tt.

Definition initcall_blacklisted (fn : Z) : M boot bool :=
  let* o := gets opts in
  if CONFIG_KALLSYMS then
    match blacklisted_initcalls o with
    | [] => ret false
    | l =>
      let fn_name := strip_module (ksym fn) in
      ret (existsb (λ buf, bool_decide (fn_name = buf)) l)
    end
  else ret false.

Definition local_clock : M boot Z := lift_state (λ s, let '(t, w) := clock_ns (world s) in (t, set_world w s)).

Definition do_one_initcall_debug (fn : Z) : M boot Z :=
  let* me := gets (λ s, current_pid (world s)) in
  printk (lit "calling  " ++ ksym fn ++ lit " @ " ++ dec me) ;;;
  let* calltime := local_clock in
  let* r := run_initcall fn in
  let* rettime := local_clock in
  let delta := u64 (rettime - calltime) in
  let duration := Z.shiftr delta 10 in
  printk (lit "initcall " ++ ksym fn ++ lit " returned " ++ dec r ++ lit " after " ++ dec duration ++ lit " usecs") ;;;
  ret r.

Definition do_one_initcall (fn : Z) : M boot Z :=
  let* count := preempt_count in
  let* b := initcall_blacklisted fn in
  if b then ret (- EPERM)
  else
    let* o := gets opts in
    let* r := (if initcall_debug o then do_one_initcall_debug fn else run_initcall fn) in
    let* now := preempt_count in
    let* msgbuf := (if negb (now =? count) then preempt_count_set count ;;; ret (lit "preemption imbalance ") else ret []) in
    let* off := irqs_disabled in
    let* msgbuf := (if off then local_irq_enable ;;; ret (msgbuf ++ lit "disabled interrupts ") else ret msgbuf) in
    (when negb (bool_decide (msgbuf = [])) do printk (lit "initcall " ++ ksym fn ++ lit " returned with " ++ msgbuf)) ;;;
    modify (λ s, set_world (add_entropy (world s)) s) ;;;
    ret r.

(** [for (fn = a; fn < a + n; fn++) do_one_initcall of its entry]. *)
Fixpoint initcall_range (n a : nat) : M boot unit :=
  match n with
  | O => ret tt
  | S n' =>
    match initcall_table !! a with
    | None => fault
    | Some fn => do_one_initcall fn ;;; initcall_range n' (S a)
    end
  end.

Definition initcall_level_names : list string :=
  ["early"; "core"; "postcore"; "arch"; "subsys"; "fs"; "device"; "late"]%string.

Definition do_initcall_level (level : nat) : M boot unit :=
  let* l := gets lines in
  let* b := strcpy (initcall_command_line l) (text (saved_command_line l)) in
  modify (set_lines (CmdLines (boot_command_line l) (saved_command_line l) b (static_command_line l))) ;;;
  match initcall_level_names !! level, labels !! level, labels !! S level with
  | Some name, Some first, Some last =>
    parse_args name (text b) (Z.of_nat level) (λ param val, repair_env_string param val ;;; ret 0) ;;;
    initcall_range (last - first) first
  | _, _, _ => fault
  end.

Fixpoint initcall_levels_loop (n level : nat) : M boot unit :=
  match n with
  | O => ret tt
  | S n' => do_initcall_level level ;;; initcall_levels_loop n' (S level)
  end.
Definition do_initcalls : M boot unit := initcall_levels_loop (length labels - 1) 0.

Definition do_pre_smp_initcalls : M boot unit :=
  match labels !! O with Some n => initcall_range n 0 | None => fault end.

Definition do_basic_setup : M boot unit :=
  calls ["cpuset_init_smp"; "shmem_init"; "driver_init"; "init_irq_proc"]%string ;;;
  do_ctors ;;;
  call "usermodehelper_enable" ;;;
  do_initcalls.

Definition load_default_modules : M boot unit := call "load_default_elevator_module".

(** ** One initcall *)

Definition allowed (bl : list str) (fn : Z) : bool :=
  negb (CONFIG_KALLSYMS && existsb (λ buf, bool_decide (strip_module (ksym fn) = buf)) bl).

Lemma initcall_blacklisted_run fn s : initcall_blacklisted fn s = Ok (negb (allowed (blacklisted_initcalls (opts s)) fn)) s.
Proof.
  unfold initcall_blacklisted, bind, gets, allowed. rewrite negb_involutive. destruct CONFIG_KALLSYMS; [|done].
  by destruct (blacklisted_initcalls (opts s)).
Qed.

(** The variables of the file an initcall leaves alone. *)
Definition same_vars (s s' : boot) : Prop :=
  args s' = args s ∧ opts s' = opts s ∧ lines s' = lines s ∧ vars s' = vars s ∧ task_table s' = task_table s.

Lemma run_initcall_ok fn s :
  wp (run_initcall fn) (λ r s', same_vars s s' ∧ trace s' = trace s ++ [Initcall fn r]) s.
Proof.
  unfold run_initcall, wp, lift_state. by destruct (initcall_body fn (hw s, world s)) as [r [c w]].
Qed.

Lemma do_one_initcall_debug_ok fn s :
  wp (do_one_initcall_debug fn) (λ r s', same_vars s s' ∧ trace s' = trace s ++ [Initcall fn r]) s.
Proof.
  unfold do_one_initcall_debug. apply wp_bind, wp_gets, wp_bind, wp_modify, wp_bind.
  unfold local_clock at 1, wp at 1, lift_state. cbn. destruct (clock_ns (world s)) as [t w].
  apply wp_bind. eapply wp_mono; [apply run_initcall_ok|]. intros r s1 [H1 E1]. apply wp_bind.
  unfold local_clock, wp at 1, lift_state. destruct (clock_ns (world s1)) as [t' w']. by apply wp_bind, wp_modify, wp_ret.
Qed.

Lemma do_one_initcall_ok fn s :
  wp (do_one_initcall fn) (λ r s',
    same_vars s s' ∧
    trace s' = trace s ++ (if allowed (blacklisted_initcalls (opts s)) fn then [Initcall fn r] else []) ∧
    preempt (hw s') = preempt (hw s) ∧
    (if allowed (blacklisted_initcalls (opts s)) fn then irqs_off (hw s') = false else s' = s ∧ r = - EPERM)) s.
Proof.
  unfold do_one_initcall. apply wp_bind, wp_gets, wp_bind. unfold wp at 1. rewrite initcall_blacklisted_run.
  destruct (allowed _ fn); cbn [negb]; [|by rewrite app_nil_r]. apply wp_bind, wp_gets, wp_bind.
  apply (wp_mono _ (λ r s', same_vars s s' ∧ trace s' = trace s ++ [Initcall fn r])).
  { destruct (initcall_debug (opts s)); [apply do_one_initcall_debug_ok|apply run_initcall_ok]. }
  intros r s1 [H1 E1]. unfold wp, bind, preempt_count, gets, irqs_disabled, preempt_count_set, modify, local_irq_enable, ret, printk.
  destruct (Z.eqb_spec (preempt (hw s1)) (preempt (hw s))) as [E|E]; cbn.
  - destruct (irqs_off (hw s1)) eqn:Ei; cbn; done.
  - destruct (irqs_off (hw s1)) eqn:Ei; cbn; done.
Qed.

(** ** All of them *)

(** The initcalls that were run, in order. *)
Definition ran (t : list event) : list Z := omap (λ e, match e with Initcall fn _ => Some fn | _ => None end) t.

Lemma ran_app t u : ran (t ++ u) = ran t ++ ran u.
Proof. apply omap_app. Qed.

(** What stays while initcalls run: their command line may be written, the list of
    blacklisted calls is not. *)
Record steady (s s' : boot) : Prop := {
  sd_args : args s' = args s;
  sd_black : blacklisted_initcalls (opts s') = blacklisted_initcalls (opts s);
  sd_saved : saved_command_line (lines s') = saved_command_line (lines s);
  sd_cap : cap (initcall_command_line (lines s')) = cap (initcall_command_line (lines s));
  sd_vars : vars s' = vars s;
  sd_tasks : task_table s' = task_table s
}.

Lemma steady_refl s : steady s s.
Proof. by split. Qed.
Lemma steady_trans s s1 s2 : steady s s1 → steady s1 s2 → steady s s2.
Proof. intros [] []. split; congruence. Qed.
Lemma steady_same s s' : same_vars s s' → steady s s'.
Proof. intros (? & E & F & ? & ?). by split; rewrite ?E, ?F. Qed.

Definition runs (s : boot) (fns : list Z) (s' : boot) : Prop :=
  steady s s' ∧ ran (trace s') = ran (trace s) ++ filter (λ fn, allowed (blacklisted_initcalls (opts s)) fn) fns.

Lemma runs_trans s s1 s2 a b : runs s a s1 → runs s1 b s2 → runs s (a ++ b) s2.
Proof.
  intros [H1 E1] [H2 E2]. split; [by eapply steady_trans|]. rewrite E2, E1, (sd_black _ _ H1), filter_app. by rewrite app_assoc.
Qed.
Lemma runs_nil s s' : steady s s' → ran (trace s') = ran (trace s) → runs s [] s'.
Proof. intros H E. split; [done|]. by rewrite E, filter_nil, app_nil_r. Qed.

Lemma initcall_range_ok n a s :
  (a + n ≤ length initcall_table)%nat →
  wp (initcall_range n a) (λ _ s', runs s (take n (drop a initcall_table)) s') s.
Proof.
  revert a s. induction n as [|n IH]; intros a s Ha; cbn [initcall_range].
  { apply runs_nil; [apply steady_refl|done]. }
  destruct (lookup_lt_is_Some_2 initcall_table a ltac:(lia)) as [fn Hfn]. rewrite Hfn.
  apply wp_bind. eapply wp_mono; [apply do_one_initcall_ok|]. intros r s1 (H1 & E1 & _). eapply wp_mono; [apply IH; lia|].
  intros ? s2 H2. rewrite (drop_S _ fn) by done. cbn [take].
  apply (runs_trans s s1 s2 [fn]); [|done]. split; [by apply steady_same|]. rewrite E1, ran_app. f_equal.
  rewrite filter_cons, filter_nil. destruct (allowed _ fn); [by rewrite decide_True by done|by rewrite decide_False by (by intros [])].
Qed.

(** [parse_args] with [repair_env_string] changes no more than [initcall_debug]. *)
Lemma parse_level_ok name cmdline level s :
  parse_words_ok →
  wp (parse_args name cmdline level (λ param val, repair_env_string param val ;;; ret 0)) (λ _ s', steady s s' ∧ trace s' = trace s) s.
Proof.
  intros Hp. unfold parse_args. specialize (Hp name cmdline level). destruct (parse_words name cmdline level) as [l r].
  apply wp_bind. cbn in Hp. apply (wp_mono _ (λ _ s', steady s s' ∧ trace s' = trace s)); [|by intros ? ?].
  assert (G : ∀ s1, steady s s1 ∧ trace s1 = trace s → wp (parse_loop (λ param val, repair_env_string param val ;;; ret 0) l) (λ _ s', steady s s' ∧ trace s' = trace s) s1);
    [|by apply G; split; [apply steady_refl|]].
  induction Hp as [|p l Hw Hl IH]; intros s1 [H1 E1]; [done|]. destruct p as [b| |param val]; cbn [parse_loop].
  - apply wp_bind, wp_modify, IH. split; [|done]. eapply steady_trans; [done|]. by split.
  - by apply IH.
  - destruct Hw as (key & value & Hw). destruct (repair_env_string_run _ _ _ _ s1 Hw) as (buf & Hb & _).
    apply wp_bind. apply wp_bind. unfold wp at 1. rewrite Hb. by apply IH.
Qed.

(** The labels cut the array. *)
Record layout_ok : Prop := {
  lo_nine : length labels = 9%nat;
  lo_sorted : ∀ i a b, labels !! i = Some a → labels !! S i = Some b → (a ≤ b)%nat;
  lo_last : labels !! 8%nat = Some (length initcall_table)
}.

(** The copies of the command line fit, as [setup_command_line] makes them. *)
Definition lines_ok (l : cmd_lines) : Prop := (length (text (saved_command_line l)) < cap (initcall_command_line l))%nat.

Lemma setup_command_line_ok command_line s :
  wp (setup_command_line command_line) (λ _ s', lines_ok (lines s') ∧
    text (saved_command_line (lines s')) = boot_command_line (lines s) ∧ text (static_command_line (lines s')) = command_line ∧
    args s' = args s ∧ opts s' = opts s) s.
Proof.
  unfold setup_command_line, wp, bind, gets, strcpy. cbn [cap]. rewrite !(proj2 (Nat.ltb_lt _ _)) by lia. cbn. split; [|done]. unfold lines_ok. cbn. lia.
Qed.

Lemma label_bound i a : layout_ok → labels !! i = Some a → (a ≤ length initcall_table)%nat.
Proof.
  intros [H9 Hs Hl] Ha. assert (Hi : (i < 9)%nat) by (rewrite <- H9; by eapply lookup_lt_Some).
  assert (G : ∀ k, (k ≤ 8)%nat → ∀ b, labels !! (8 - k)%nat = Some b → (b ≤ length initcall_table)%nat).
  { induction k as [|k IH]; intros Hk b Hb; [cbn in Hb; rewrite Hl in Hb; by injection Hb as <-|].
    destruct (lookup_lt_is_Some_2 labels (8 - k)%nat ltac:(lia)) as [c Hc]. specialize (IH ltac:(lia) c Hc).
    pose proof (Hs (8 - S k)%nat b c Hb) as G. replace (S (8 - S k)) with (8 - k)%nat in G by lia. specialize (G Hc). lia. }
  apply (G (8 - i)%nat); [lia|]. by replace (8 - (8 - i))%nat with i by lia.
Qed.

Lemma do_initcall_level_ok level a b s :
  layout_ok → parse_words_ok → lines_ok (lines s) → (level < 8)%nat → labels !! level = Some a → labels !! S level = Some b →
  wp (do_initcall_level level) (λ _ s', runs s (take (b - a) (drop a initcall_table)) s') s.
Proof.
  intros Hlo Hp Hln Hlv Ha Hb. unfold do_initcall_level. apply wp_bind, wp_gets, wp_bind. unfold strcpy, wp at 1.
  rewrite (proj2 (Nat.ltb_lt _ _)) by done. cbn [ret]. apply wp_bind, wp_modify. rewrite Ha, Hb.
  destruct (lookup_lt_is_Some_2 initcall_level_names level) as [name ->]; [cbn; lia|].
  apply wp_bind. eapply wp_mono; [by apply parse_level_ok|]. intros ? s1 [H1 E1].
  pose proof (label_bound (S level) b Hlo Hb). pose proof (lo_sorted Hlo level a b Ha Hb).
  eapply wp_mono; [apply initcall_range_ok; lia|]. intros ? s2 H2. apply (runs_trans s s1 s2 []); [|done].
  apply runs_nil; [|by rewrite E1]. eapply steady_trans; [|done]. by split.
Qed.

Lemma initcall_levels_loop_ok n level a s :
  layout_ok → parse_words_ok → lines_ok (lines s) → (level + n = 8)%nat → labels !! level = Some a →
  wp (initcall_levels_loop n level) (λ _ s', runs s (drop a initcall_table) s') s.
Proof.
  intros Hlo Hp. revert level a s. induction n as [|n IH]; intros level a s Hln Hn Ha; cbn [initcall_levels_loop].
  { replace level with 8%nat in Ha by lia. rewrite (lo_last Hlo) in Ha. injection Ha as <-. rewrite drop_all.
    apply runs_nil; [apply steady_refl|done]. }
  destruct (lookup_lt_is_Some_2 labels (S level)) as [b Hb]; [rewrite (lo_nine Hlo); lia|].
  apply wp_bind. eapply wp_mono; [apply (do_initcall_level_ok level a b); done || lia|]. intros ? s1 [H1 E1].
  pose proof (lo_sorted Hlo level a b Ha Hb).
  eapply wp_mono; [apply (IH (S level) b); [|lia|done]|].
  { unfold lines_ok. by rewrite (sd_saved _ _ H1), (sd_cap _ _ H1). }
  intros ? s2 H2. rewrite <- (take_drop (b - a) (drop a initcall_table)), drop_drop. replace (a + (b - a))%nat with b by lia.
  by eapply runs_trans.
Qed.

Lemma do_initcalls_ok a s :
  layout_ok → parse_words_ok → lines_ok (lines s) → labels !! 0%nat = Some a →
  wp do_initcalls (λ _ s', runs s (drop a initcall_table) s') s.
Proof. intros Hlo. unfold do_initcalls. rewrite (lo_nine Hlo). intros. by apply initcall_levels_loop_ok. Qed.

Lemma do_pre_smp_initcalls_ok a s :
  layout_ok → labels !! 0%nat = Some a → wp do_pre_smp_initcalls (λ _ s', runs s (take a initcall_table) s') s.
Proof.
  intros Hlo Ha. unfold do_pre_smp_initcalls. rewrite Ha. pose proof (label_bound 0 a Hlo Ha). by apply (initcall_range_ok a 0).
Qed.

(** Calls into other subsystems run no initcall of the array. *)
Lemma call_ok f s : wp (call f) (λ _ s', same_vars s s' ∧ ran (trace s') = ran (trace s)) s.
Proof.
  unfold call, wp, modify. destruct (subsystem f (hw s, world s)) as [c w]. split; [done|]. cbn. by rewrite ran_app, app_nil_r.
Qed.
Lemma calls_ok fs s : wp (calls fs) (λ _ s', same_vars s s' ∧ ran (trace s') = ran (trace s)) s.
Proof.
  revert s. induction fs as [|f fs IH]; intros s; [done|]. apply wp_bind. eapply wp_mono; [apply call_ok|]. intros ? s1 [(A & B & C & D & F) E1].
  eapply wp_mono; [apply IH|]. intros ? s2 [(A' & B' & C' & D' & F') E2]. unfold same_vars. repeat split; congruence.
Qed.
Lemma same_runs s s' : same_vars s s' ∧ ran (trace s') = ran (trace s) → runs s [] s'.
Proof. intros [? ?]. apply runs_nil; [by apply steady_same|done]. Qed.

Lemma do_basic_setup_ok a s :
  layout_ok → parse_words_ok → lines_ok (lines s) → labels !! 0%nat = Some a →
  wp do_basic_setup (λ _ s', runs s (drop a initcall_table) s') s.
Proof.
  intros Hlo Hp Hln Ha. unfold do_basic_setup. apply wp_bind. eapply wp_mono; [apply calls_ok|]. intros ? s1 R1%same_runs.
  apply wp_bind. apply (wp_mono _ (λ _ s2, runs s [] s2)).
  { unfold do_ctors. destruct CONFIG_CONSTRUCTORS; [|done]. eapply wp_mono; [apply calls_ok|]. intros ? s2 R2%same_runs. by apply (runs_trans s s1 s2 [] []). }
  intros ? s2 R2. apply wp_bind. eapply wp_mono; [apply call_ok|]. intros ? s3 R3%same_runs.
  pose proof (runs_trans _ _ _ [] [] R2 R3) as R. eapply wp_mono; [apply (do_initcalls_ok a); [done|done| |done]|].
  { destruct R as [R _]. unfold lines_ok. by rewrite (sd_saved _ _ R), (sd_cap _ _ R). }
  intros ? s4 R4. by apply (runs_trans s s3 s4 []).
Qed.
End Code.

(** ** Theorems *)

(** An initcall that is not blacklisted is run once and its result returned,
    and whatever it did to the preemption count and to interrupts is undone; a
    blacklisted one is not run, and [-EPERM] is returned. *)
Theorem do_one_initcall_restores {env : KernelEnv} (fn : Z) (s : boot) :
  wp (do_one_initcall fn) (λ r s',
    same_vars s s' ∧ preempt (hw s') = preempt (hw s) ∧
    if allowed (blacklisted_initcalls (opts s)) fn
    then trace s' = trace s ++ [Initcall fn r] ∧ irqs_off (hw s') = false
    else s' = s ∧ r = - EPERM) s.
Proof.
  eapply wp_mono; [apply do_one_initcall_ok|]. intros r s' (H1 & H2 & H3 & H4). split; [done|]. split; [done|].
  by destruct (allowed _ fn).
Qed.

(** After [initcall_blacklist=] with a list of names, the calls before SMP and
    the eight levels run every initcall of the array once, in the order of the
    array, except those whose name is on the list or was before. *)
Theorem initcalls_in_order {env : KernelEnv} (table : list Z) (labels : list nat) (ctors : list string) (names : str) (s : boot) :
  CONFIG_KALLSYMS = true → layout_ok table labels → parse_words_ok → lines_ok (lines s) →
  wp (initcall_blacklist (Some names) ;;; do_pre_smp_initcalls table labels ;;; do_basic_setup table labels ctors) (λ _ s',
    ran (trace s') = ran (trace s) ++
      filter (λ fn, strip_module (ksym fn) ∉ split_commas names ++ blacklisted_initcalls (opts s)) table) s.
Proof.
  intros Hk Hlo Hp Hln. apply wp_bind. unfold wp at 1. rewrite initcall_blacklist_run by done.
  set (s0 := set_opts _ s). destruct (lookup_lt_is_Some_2 labels 0) as [a Ha]; [rewrite (lo_nine _ _ Hlo); lia|].
  apply wp_bind. eapply wp_mono; [by apply (do_pre_smp_initcalls_ok table labels a)|]. intros ? s1 [R1 E1].
  eapply wp_mono; [apply (do_basic_setup_ok table labels ctors a); [done|done| |done]|].
  { unfold lines_ok. by rewrite (sd_saved _ _ R1), (sd_cap _ _ R1). }
  intros ? s2 R2. destruct (runs_trans s0 s1 s2 _ _ (conj R1 E1) R2) as [_ ->]. rewrite take_drop. unfold s0. cbn. f_equal.
  apply list_filter_iff. intros fn. unfold allowed. rewrite Hk. cbn [andb].
  destruct (existsb _ _) eqn:E; cbn.
  - apply existsb_exists in E as (w & Hw%list_elem_of_In & <-%bool_decide_eq_true). split; [done|]. intros []. rewrite elem_of_app in Hw |- *.
    rewrite elem_of_reverse in Hw. done.
  - split; [|done]. intros _ Hin. apply not_true_iff_false in E. apply E. apply existsb_exists. exists (strip_module (ksym fn)).
    split; [|by apply bool_decide_eq_true]. apply list_elem_of_In. rewrite elem_of_app, elem_of_reverse. by rewrite elem_of_app in Hin.
Qed.

(** Nine labels for five initcalls: one before SMP, two at level 1, two at level 6. *)
Definition demo_labels : list nat := [1; 1; 3; 3; 3; 3; 3; 5; 5]%nat.

Lemma demo_layout : layout_ok [10; 11; 12; 13; 14] demo_labels.
Proof.
  split; [done| |done]. intros i a b Ha Hb. assert (Hi : (i < 9)%nat) by (by apply lookup_lt_Some in Ha).
  do 9 (destruct i as [|i]; [cbn in Ha, Hb; simplify_eq; lia|]). lia.
Qed.

Lemma initcalls_in_order_witness :
  wp (@initcall_blacklist (demo_kernel 2) (Some (lit "init12,init99")) ;;; do_pre_smp_initcalls [10; 11; 12; 13; 14] demo_labels ;;;
      do_basic_setup [10; 11; 12; 13; 14] demo_labels []) (λ _ s', ran (trace s') = [10; 11; 13; 14])
     (@set_lines (demo_kernel 2) (CmdLines [] (CBuf 1 []) (CBuf 1 []) (CBuf 1 [])) (demo_boot 2 "")).
Proof.
  eapply wp_mono; [apply (@initcalls_in_order (demo_kernel 2) [10; 11; 12; 13; 14] demo_labels [] (lit "init12,init99"));
    [reflexivity|apply demo_layout|apply demo_parse_ok|unfold lines_ok; cbn; lia]|].
  intros ? s' ->. vm_compute. reflexivity.
Defined.
