(* ===== verification/Boot.v ===== *)
(** * [hw2/.../init/main.c]: from [start_kernel] to the first user program

    [start_kernel] sets the kernel up and calls [rest_init], which creates the
    thread of [kernel_init] and the one of [kthreadd].  [kernel_init] waits until
    [rest_init] is done with both, runs the initcalls and executes the first user
    program.  The repository adds two lines: [rest_init] gives the first task the
    weight 0, and [run_init_process] prints a greeting. *)

From S2P Require Import Prelude CString ProcessWeights BootState BootParams InitCalls.

Definition ENOENT : Z := 2.

(** [%08lx] of a 64-bit number. *)
Definition hex_digit (d : Z) : ascii := if d <? 10 then digit d else ascii_of_nat (87 + Z.to_nat d).
Fixpoint hex_digits (fuel : nat) (n : Z) : str :=
  match fuel with
  | O => []
  | S fuel' => if n <? 16 then [hex_digit n] else hex_digits fuel' (n / 16) ++ [hex_digit (n mod 16)]
  end.
Definition hex08 (n : Z) : str := let s := hex_digits 16 (u64 n) in replicate (8 - length s) "0"%char ++ s.

Section Code.
Context {env : KernelEnv} (setup_table : list obs_kernel_param) (initcall_table : list Z) (labels : list nat) (ctors : list string).

(** ** [start_kernel] *)

(** The functions this file declares weak with an empty body are calls like others,
    since an architecture may replace them. *)
Definition mm_init : M boot unit :=
  calls ["page_ext_init_flatmem"; "mem_init"; "kmem_cache_init"; "pgtable_init"; "vmalloc_init"; "ioremap_huge_init";
         "init_espfix_bsp"; "pti_init"]%string.

(** [setup_arch(&command_line)]; an architecture may call [parse_early_param]. *)
Definition setup_arch : M boot str :=
  call "setup_arch" ;;;
  (when arch_parses_early do parse_early_param setup_table) ;;;
  gets (λ s, arch_command_line (world s)).

(** Up to the parsing of options, with interrupts off. *)
Definition start_kernel_setup : M boot str :=
  calls ["set_task_stack_end_magic"; "smp_setup_processor_id"; "debug_objects_early_init"; "cgroup_init_early"]%string ;;;
  local_irq_disable ;;;
  upd_vars (with_early_irqs true) ;;;
  calls ["boot_cpu_init"; "page_address_init"]%string ;;;
  printk linux_banner ;;;
  let* command_line := setup_arch in
  call "mm_init_cpumask" ;;;
  setup_command_line command_line ;;;
  calls ["setup_nr_cpu_ids"; "setup_per_cpu_areas"; "smp_prepare_boot_cpu"; "boot_cpu_hotplug_init"; "build_all_zonelists";
         "page_alloc_init"]%string ;;;
  let* l := gets lines in
  printk (lit "Kernel command line: " ++ boot_command_line l) ;;;
  call "jump_label_init" ;;;
  ret command_line.

(** From the log buffer to the scheduler. *)
Definition start_kernel_memory : M boot unit :=
  calls ["setup_log_buf"; "vfs_caches_init_early"; "sort_main_extable"; "trap_init"]%string ;;;
  mm_init ;;;
  calls ["ftrace_init"; "early_trace_init"; "sched_init"]%string ;;;
  preempt_disable ;;;
  let* off := irqs_disabled in
  (when negb off do (printk (lit "Interrupts were enabled *very* early, fixing it") ;;; local_irq_disable)).

(** Timers and interrupts, up to the point where interrupts are enabled. *)
Definition start_kernel_irqs : M boot unit :=
  calls ["radix_tree_init"; "housekeeping_init"; "workqueue_init_early"; "rcu_init"; "trace_init"; "context_tracking_init";
         "early_irq_init"; "init_IRQ"; "tick_init"; "rcu_init_nohz"; "init_timers"; "hrtimers_init"; "softirq_init";
         "timekeeping_init"; "time_init"; "random_init"; "boot_init_stack_canary"; "sched_clock_postinit"; "printk_safe_init";
         "perf_event_init"; "profile_init"; "call_function_init"]%string ;;;
  let* off := irqs_disabled in
  (when negb off do printk (lit "Interrupts were enabled early")) ;;;
  upd_vars (with_early_irqs false) ;;;
  local_irq_enable.

(** The console, and the panic that the options asked for. *)
Definition start_kernel_console : M boot unit :=
  calls ["kmem_cache_init_late"; "console_init"]%string ;;;
  let* a := gets args in
  match panic_later a with
  | Some (what, param) => panic (lit "Too many boot " ++ lit what ++ lit " vars at `" ++ param ++ lit "'")
  | None => calls ["lockdep_info"; "locking_selftest"; "mem_encrypt_init"]%string
  end.

(** An initial ram disk below the first page of low memory is dropped. *)
Definition check_initrd : M boot unit :=
  if CONFIG_BLK_DEV_INITRD then
    let* v := gets vars in
    if negb (initrd_start v =? 0) && negb (initrd_below_start_ok v) && (initrd_pfn (initrd_start v) <? min_low_pfn v) then
      printk (lit "initrd overwritten (0x" ++ hex08 (initrd_pfn (initrd_start v)) ++ lit " < 0x" ++ hex08 (min_low_pfn v) ++ lit ") - disabling it.") ;;; upd_vars (with_initrd 0)
    else ret tt
  else ret tt.

(** The rest before threads are created; the machine is an x86. *)
Definition start_kernel_late : M boot unit :=
  check_initrd ;;;
  calls ["kmemleak_init"; "debug_objects_mem_init"; "setup_per_cpu_pageset"; "numa_policy_init"; "acpi_early_init"]%string ;;;
  let* late := gets (λ s, late_time_init (world s)) in
  (when late do call "late_time_init") ;;;
  calls ["calibrate_delay"; "pid_idr_init"; "anon_vma_init"]%string ;;;
  let* efi := gets (λ s, efi_runtime_services (world s)) in
  (when efi do call "efi_enter_virtual_mode") ;;;
  calls ["thread_stack_cache_init"; "cred_init"; "fork_init"; "proc_caches_init"; "buffer_init"; "key_init"; "security_init";
         "dbg_late_init"; "vfs_caches_init"; "pagecache_init"; "signals_init"; "proc_root_init"; "nsfs_init"; "cpuset_init";
         "cgroup_init"; "taskstats_init_early"; "delayacct_init"; "check_bugs"; "acpi_subsystem_init";
         "arch_post_acpi_subsys_init"; "sfi_init_late"]%string ;;;
  let* efi := gets (λ s, efi_runtime_services (world s)) in
  (when efi do call "efi_free_boot_services").

(** ** [rest_init] *)

Definition kernel_thread (f : string) : M boot Z :=
  lift_state (λ s, let '(p, (w, T)) := thread_of f (world s) (task_table s) in (p, record (Thread f p) (set_world w (set_table T s)))).
Definition find_task_by_pid_ns (p : Z) : M boot Z := gets (λ s, task_of_pid p (world s)).

(** An update of the process table, as the code of [ProcessWeights] writes it. *)
Definition on_tasks (c : M kstate unit) : M boot unit := λ s,
  match c (KState (task_table s) 0 []) with
  | Ok _ k => Ok tt (set_table (tasks k) s)
  | Exit code k => Exit code (set_table (tasks k) s)
  | Fault => Fault
  | OutOfFuel => OutOfFuel
  end.

Definition spawn_init : M boot Z :=
  call "rcu_scheduler_starting" ;;;
  kernel_thread "kernel_init".

Definition weigh_init (p : Z) : M boot unit :=
  call "rcu_read_lock" ;;;
  let* tsk := find_task_by_pid_ns p in
  on_tasks (rest_init_weight tsk) ;;;
  calls ["set_cpus_allowed_ptr"; "rcu_read_unlock"]%string.

Definition spawn_kthreadd : M boot unit :=
  call "numa_default_policy" ;;;
  let* p := kernel_thread "kthreadd" in
  call "rcu_read_lock" ;;;
  let* tsk := find_task_by_pid_ns p in
  upd_vars (with_kthreadd tsk) ;;;
  call "rcu_read_unlock".

Definition complete_kthreadd : M boot unit :=
  upd_vars (with_system_state SYSTEM_SCHEDULING) ;;;
  upd_vars (with_done true).

(** [cpu_startup_entry] is the idle loop: the state after [rest_init] is the one in
    which it runs. *)
Definition rest_init : M boot unit :=
  let* p := spawn_init in
  weigh_init p ;;;
  spawn_kthreadd ;;;
  complete_kthreadd ;;;
  calls ["schedule_preempt_disabled"; "cpu_startup_entry"]%string.

Definition start_kernel : M boot unit :=
  start_kernel_setup ;;;
  parse_command_line setup_table ;;;
  start_kernel_memory ;;;
  start_kernel_irqs ;;;
  start_kernel_console ;;;
  start_kernel_late ;;;
  rest_init.

(** ** The thread of [kernel_init] *)

(** A thread that waits does not return before the completion is signalled. *)
Definition wait_for_completion : M boot unit :=
  let* v := gets vars in
  if kthreadd_done v then upd_vars (with_done false) else nofuel.

(** [do_execve] reads both arrays up to their [NULL]. *)
Definition has_null (l : list (option str)) : bool := (first_null l <? length l)%nat.
Definition do_execve (file : str) : M boot Z := λ s,
  let a := args s in
  if has_null (argv_init a) && has_null (envp_init a) then
    let '(r, w) := execve file (strings (argv_init a)) (strings (envp_init a)) (world s) in
    Ok r (record (Exec file (strings (argv_init a)) (strings (envp_init a)) r) (set_world w s))
  else Fault.

Definition run_init_process (init_filename : str) : M boot Z :=
  printk (lit "Hello, Kernel!") ;;;
  let* a := gets args in
  let* v := array_set (argv_init a) 0 (Some init_filename) in
  upd_args (with_argv v) ;;;
  do_execve init_filename.

Definition try_to_run_init_process (init_filename : str) : M boot Z :=
  let* r := run_init_process init_filename in
  (when negb (r =? 0) && negb (r =? - ENOENT) do
     printk (lit "Starting init: " ++ init_filename ++ lit " exists but couldn't execute it (error " ++ dec r ++ lit ")")) ;;;
  ret r.

Definition mark_readonly : M boot unit :=
  if CONFIG_STRICT_KERNEL_RWX then
    let* o := gets opts in
    if rodata_enabled o then calls ["rcu_barrier_sched"; "mark_rodata_ro"; "rodata_test"]%string
    else printk (lit "Kernel memory protection disabled.")
  else printk (lit "This architecture does not have kernel memory protection.").

Definition sys_open (file : str) : M boot Z := lift_state (λ s, let '(r, w) := open_file file (world s) in (r, set_world w s)).

(** Everything but the wait at its start. *)
Definition kernel_init_freeable_rest : M boot unit :=
  calls ["gfp_allowed_mask"; "set_mems_allowed"; "cad_pid"; "smp_prepare_cpus"; "workqueue_init"; "init_mm_internals"]%string ;;;
  do_pre_smp_initcalls initcall_table labels ;;;
  calls ["lockup_detector_init"; "smp_init"; "sched_init_smp"; "page_alloc_init_late"; "page_ext_init"]%string ;;;
  do_basic_setup initcall_table labels ctors ;;;
  let* fd := sys_open (lit "/dev/console") in
  (when fd <? 0 do printk (lit "Warning: unable to open an initial console.")) ;;;
  calls ["sys_dup"; "sys_dup"]%string ;;;
  upd_args (λ a, match ramdisk_execute_command a with None => with_ramdisk (Some (lit "/init")) a | Some _ => a end) ;;;
  let* a := gets args in
  let* r := gets (λ s, access_file (default [] (ramdisk_execute_command a)) (world s)) in
  (when negb (r =? 0) do (upd_args (with_ramdisk None) ;;; call "prepare_namespace")) ;;;
  call "integrity_load_keys" ;;;
  load_default_modules.
Definition kernel_init_freeable : M boot unit := wait_for_completion ;;; kernel_init_freeable_rest.

(** [a || b] on two attempts: 0 as soon as one succeeds. *)
Definition or_try (a b : M boot Z) : M boot Z := let* r := a in if r =? 0 then ret 0 else b.

(** The end of [kernel_init]: the first program that can be executed. *)
Definition find_init : M boot Z :=
  let* a := gets args in
  let* r := (match ramdisk_execute_command a with
             | Some f =>
               let* r := run_init_process f in
               (when negb (r =? 0) do printk (lit "Failed to execute " ++ f ++ lit " (error " ++ dec r ++ lit ")")) ;;;
               ret r
             | None => ret 1
             end) in
  if r =? 0 then ret 0
  else
    match execute_command a with
    | Some f =>
      let* r := run_init_process f in
      if r =? 0 then ret 0 else panic (lit "Requested init " ++ f ++ lit " failed (error " ++ dec r ++ lit ").")
    | None =>
      let* r := or_try (try_to_run_init_process (lit "/sbin/init"))
               (or_try (try_to_run_init_process (lit "/etc/init"))
               (or_try (try_to_run_init_process (lit "/bin/init")) (try_to_run_init_process (lit "/bin/sh")))) in
      if r =? 0 then ret 0 else panic (lit "No working init found.  Try passing init= option to kernel. See Linux Documentation/admin-guide/init.rst for guidance.")
    end.

Definition kernel_init_tail : M boot Z :=
  calls ["async_synchronize_full"; "ftrace_free_init_mem"; "free_initmem"]%string ;;;
  mark_readonly ;;;
  call "pti_finalize" ;;;
  upd_vars (with_system_state SYSTEM_RUNNING) ;;;
  calls ["numa_default_policy"; "rcu_end_inkernel_boot"]%string ;;;
  find_init.
Definition kernel_init : M boot Z := kernel_init_freeable ;;; kernel_init_tail.

(** ** The first program *)

(** The programs [kernel_init] tries, in order. *)
Definition candidates (a : init_args) : list str :=
  match ramdisk_execute_command a with Some f => [f] | None => [] end ++
  match execute_command a with
  | Some f => [f]
  | None => [lit "/sbin/init"; lit "/etc/init"; lit "/bin/init"; lit "/bin/sh"]
  end.

(** Executing candidates until one succeeds: the calls, the world after them, and
    whether one succeeded.  Each gets its own name as argument 0. *)
Fixpoint attempts (tl ev cands : list str) (w : W) : list event * W * bool :=
  match cands with
  | [] => ([], w, false)
  | f :: fs =>
    let '(r, w') := execve f (f :: tl) ev w in
    if r =? 0 then ([Exec f (f :: tl) ev r], w', true)
    else let '(es, w'', b) := attempts tl ev fs w' in (Exec f (f :: tl) ev r :: es, w'', b)
  end.

Lemma attempts_app tl ev l1 l2 w :
  attempts tl ev (l1 ++ l2) w =
    let '(es, w', b) := attempts tl ev l1 w in
    if b then (es, w', true) else let '(es2, w2, b2) := attempts tl ev l2 w' in (es ++ es2, w2, b2).
Proof.
  revert w. induction l1 as [|f l1 IH]; intros w; cbn [attempts app].
  - by destruct (attempts tl ev l2 w) as [[es w2] b2].
  - destruct (execve f (f :: tl) ev w) as [r w']. destruct (r =? 0); [done|]. rewrite IH.
    destruct (attempts tl ev l1 w') as [[es w1] b]. destruct b; [done|]. by destruct (attempts tl ev l2 w1) as [[es2 w2] b2].
Qed.

(** Arguments after argument 0, and environment. *)
Definition shape (a : init_args) (tl ev : list str) : Prop :=
  ∃ h l, argv_init a = Some h :: l ∧ strings l = tl ∧ has_null l = true ∧ strings (envp_init a) = ev ∧ has_null (envp_init a) = true.

(** [c] makes the attempts [cands] and returns 0 iff one succeeds. *)
Definition tries (c : M boot Z) (cands : list str) : Prop :=
  ∀ s tl ev, shape (args s) tl ev →
    let '(es, w, b) := attempts tl ev cands (world s) in
    ∃ r s', c s = Ok r s' ∧ trace s' = trace s ++ es ∧ shape (args s') tl ev ∧ world s' = w ∧ (r =? 0) = b.

Lemma tries_run f : tries (run_init_process f) [f].
Proof.
  intros s tl ev (h & l & Ha & Hl & Hn & He & Hne). cbn [attempts]. destruct (execve f (f :: tl) ev (world s)) as [r w] eqn:Ex.
  assert (G : ∃ s', run_init_process f s = Ok r s' ∧ trace s' = trace s ++ [Exec f (f :: tl) ev r] ∧ shape (args s') tl ev ∧ world s' = w).
  { unfold run_init_process, bind, printk, modify, gets, array_set. cbn [args log]. rewrite Ha. cbn. unfold do_execve. cbn.
    unfold has_null in *. cbn in *. rewrite Hn, Hne, Hl, He, Ex. cbn. eexists; split; [done|]. split; [done|]. split; [|done].
    exists f, l. unfold has_null. done. }
  destruct G as (s' & G1 & G2 & G3 & G4). by destruct (Z.eqb_spec r 0) as [->|Hr]; eexists _, s'; rewrite ?(proj2 (Z.eqb_neq r 0) Hr).
Qed.

(** A message afterwards makes no difference. *)
Lemma tries_log c cands (g : Z → M boot unit) :
  tries c cands → (∀ r s, g r s = Ok tt s ∨ ∃ m, g r s = Ok tt (log m s)) → tries (let* r := c in g r ;;; ret r) cands.
Proof.
  intros Hc Hg s tl ev Hs. specialize (Hc s tl ev Hs). destruct (attempts tl ev cands (world s)) as [[es w] b].
  destruct Hc as (r & s' & Hr & Ht & Hsh & Hw & Hb). exists r. unfold bind. rewrite Hr.
  destruct (Hg r s') as [->|[m ->]]; by eexists.
Qed.
Lemma tries_try f : tries (try_to_run_init_process f) [f].
Proof. apply tries_log; [apply tries_run|]. intros r s. destruct (negb (r =? 0) && _); [right; by eexists|by left]. Qed.
Lemma tries_or a b l1 l2 : tries a l1 → tries b l2 → tries (or_try a b) (l1 ++ l2).
Proof.
  intros Ha Hb s tl ev Hs. rewrite attempts_app. specialize (Ha s tl ev Hs). destruct (attempts tl ev l1 (world s)) as [[es w] b1].
  destruct Ha as (r & s1 & Hr & Ht & Hsh & Hw & E). unfold or_try, bind. rewrite Hr, E. destruct b1; [by eexists 0, s1|].
  specialize (Hb s1 tl ev Hsh). rewrite Hw in Hb. destruct (attempts tl ev l2 w) as [[es2 w2] b2].
  destruct Hb as (r2 & s2 & Hr2 & Ht2 & Hsh2 & Hw2 & E2). exists r2, s2. rewrite Ht2, Ht, app_assoc. done.
Qed.
Lemma tries_none c : (∀ s, ∃ r, c s = Ok r s ∧ r ≠ 0) → tries c [].
Proof.
  intros Hc s tl ev Hs. destruct (Hc s) as (r & Hr & Hn). exists r, s. rewrite app_nil_r. repeat split; try done. by apply Z.eqb_neq.
Qed.

(** The panic at the end of [find_init]. *)
Lemma tries_find_init s tl ev :
  shape (args s) tl ev →
  let '(es, w, b) := attempts tl ev (candidates (args s)) (world s) in
  ∃ s', find_init s = (if b then Ok 0 s' else Exit 1 s') ∧ trace s' = trace s ++ es ∧ world s' = w.
Proof.
  intros Hs. unfold candidates. rewrite attempts_app. unfold find_init, bind at 1, gets.
  set (l1 := match ramdisk_execute_command (args s) with Some _ => _ | None => _ end).
  set (c1 := match ramdisk_execute_command (args s) with Some _ => _ | None => _ end).
  assert (H1 : tries c1 l1).
  { unfold c1, l1. destruct (ramdisk_execute_command (args s)) as [f|].
    - apply (tries_log (run_init_process f)); [apply tries_run|]. intros r s'. destruct (negb (r =? 0)); [right; by eexists|by left].
    - apply tries_none. intros s'. by exists 1. }
  clearbody c1 l1. specialize (H1 s tl ev Hs). destruct (attempts tl ev l1 (world s)) as [[es w] b].
  destruct H1 as (r & s1 & Hr & Ht & Hsh & Hw & E). unfold bind at 1. rewrite Hr, E. destruct b; [by exists s1|].
  destruct (execute_command (args s)) as [f|].
  - pose proof (tries_run f s1 tl ev Hsh) as H2. rewrite Hw in H2. destruct (attempts tl ev [f] w) as [[es2 w2] b2].
    destruct H2 as (r2 & s2 & Hr2 & Ht2 & _ & Hw2 & E2). unfold bind. rewrite Hr2, E2.
    destruct b2; eexists; (split; [done|]); cbn; by rewrite Ht2, Ht, app_assoc.
  - pose proof (tries_or _ _ _ _ (tries_try (lit "/sbin/init")) (tries_or _ _ _ _ (tries_try (lit "/etc/init"))
      (tries_or _ _ _ _ (tries_try (lit "/bin/init")) (tries_try (lit "/bin/sh")))) s1 tl ev Hsh) as H2. cbn [app] in H2. rewrite Hw in H2.
    destruct (attempts tl ev [_; _; _; _] w) as [[es2 w2] b2]. destruct H2 as (r2 & s2 & Hr2 & Ht2 & _ & Hw2 & E2).
    unfold bind. rewrite Hr2, E2. destruct b2; eexists; (split; [done|]); cbn; by rewrite Ht2, Ht, app_assoc.
Qed.

(** ** Threads *)

Definition threads (t : list event) : list (string * Z) := omap (λ e, match e with Thread f p => Some (f, p) | _ => None end) t.
Definition executed (t : list event) : list str := omap (λ e, match e with Exec f _ _ _ => Some f | _ => None end) t.

(** What the code relies on of processes: a new thread has a task ([rest_init] does not
    look at the result of [kernel_thread]), and neither it
    nor a call into another subsystem moves or reweighs the tasks there are. *)
Record thread_laws : Prop := {
  tl_new : ∀ f w T, let '(p, (w', T')) := thread_of f w T in is_Some (T' !! task_of_pid p w');
  tl_find : ∀ f w T q, is_Some (T !! task_of_pid q w) → let '(p, (w', T')) := thread_of f w T in task_of_pid q w' = task_of_pid q w;
  tl_keep : ∀ f w T a t, T !! a = Some t → let '(p, (w', T')) := thread_of f w T in ∃ t', T' !! a = Some t' ∧ weight t' = weight t;
  tl_call : ∀ f c w q, task_of_pid q (subsystem f (c, w)).2 = task_of_pid q w
}.

(** Code that only calls other subsystems and writes its own flags. *)
Record still (s s' : boot) : Prop := {
  st_args : args s' = args s;
  st_tasks : task_table s' = task_table s;
  st_threads : threads (trace s') = threads (trace s);
  st_exec : executed (trace s') = executed (trace s);
  st_find : ∀ q, task_of_pid q (world s') = task_of_pid q (world s)
}.
Definition calm {A} (c : M boot A) : Prop := ∀ s, wp c (λ _ s', still s s') s.

Lemma still_refl s : still s s.
Proof. by split. Qed.
Lemma still_trans s s1 s2 : still s s1 → still s1 s2 → still s s2.
Proof. intros [? ? ? ? F] [? ? ? ? F']. split; [congruence..|]. intros q. by rewrite F', F. Qed.

Lemma calm_ret {A} (a : A) : calm (ret a).
Proof. intros s. apply still_refl. Qed.
Lemma calm_gets {A} (f : boot → A) : calm (gets f).
Proof. intros s. apply still_refl. Qed.
Lemma calm_bind {A B} (c : M boot A) (k : A → M boot B) : calm c → (∀ a, calm (k a)) → calm (bind c k).
Proof.
  intros Hc Hk s. apply wp_bind. eapply wp_mono; [apply Hc|]. intros a s1 H1. eapply wp_mono; [apply Hk|]. intros b s2 H2. exact (still_trans _ _ _ H1 H2).
Qed.
Lemma calm_if {A} (b : bool) (c d : M boot A) : calm c → calm d → calm (if b then c else d).
Proof. by destruct b. Qed.
Lemma calm_modify (f : boot → boot) : (∀ s, still s (f s)) → calm (modify f).
Proof. intros Hf s. apply Hf. Qed.
Lemma calm_call f : thread_laws → calm (call f).
Proof.
  intros Hl s. unfold call, wp, modify. pose proof (tl_call Hl f (hw s) (world s)) as Hf.
  destruct (subsystem f (hw s, world s)) as [c w]. split; cbn; try done; unfold threads, executed; by rewrite omap_app, app_nil_r.
Qed.
Lemma calm_calls fs : thread_laws → calm (calls fs).
Proof. intros Hl. induction fs as [|f fs IH]; [apply calm_ret|]. apply calm_bind; [by apply calm_call|done]. Qed.
Lemma calm_printk m : calm (printk m).
Proof. by apply calm_modify. Qed.
Lemma calm_upd_vars f : calm (upd_vars f).
Proof. by apply calm_modify. Qed.
Lemma calm_irq_enable : calm local_irq_enable.
Proof. by apply calm_modify. Qed.
Lemma calm_irq_disable : calm local_irq_disable.
Proof. by apply calm_modify. Qed.
Lemma calm_preempt_disable : calm preempt_disable.
Proof. by apply calm_modify. Qed.
End Code.

Create HintDb calm.
#[export] Hint Resolve calm_ret calm_gets calm_call calm_calls calm_printk calm_upd_vars calm_irq_enable calm_irq_disable calm_preempt_disable : calm.
Ltac calm_step :=
  first [solve [eauto with calm] | apply calm_bind; [|intros ?] | apply calm_if].
Ltac calm_all := repeat calm_step.

Section Start.
Context {env : KernelEnv} (setup_table : list obs_kernel_param) (laws : thread_laws).

Lemma mm_init_calm : calm mm_init.
Proof. unfold mm_init. calm_all. Qed.
Lemma start_kernel_memory_calm : calm start_kernel_memory.
Proof. unfold start_kernel_memory, irqs_disabled. pose proof mm_init_calm. calm_all. Qed.
Lemma start_kernel_irqs_calm : calm start_kernel_irqs.
Proof. unfold start_kernel_irqs, irqs_disabled. calm_all. Qed.
Lemma check_initrd_calm : calm check_initrd.
Proof. unfold check_initrd. calm_all. Qed.
Lemma start_kernel_late_calm : calm start_kernel_late.
Proof. unfold start_kernel_late. pose proof check_initrd_calm. calm_all. Qed.

(** The task at an address, or of a process, has weight 0. *)
Definition weightless (tsk : Z) (s : boot) : Prop := ∃ t, task_table s !! tsk = Some t ∧ weight t = 0.
Definition weighed (p : Z) (s : boot) : Prop := weightless (task_of_pid p (world s)) s.
Definition has_task (p : Z) (s : boot) : Prop := is_Some (task_table s !! task_of_pid p (world s)).

Lemma still_weighed p s s' : still s s' → weighed p s → weighed p s'.
Proof. intros [_ E _ _ F]. unfold weighed, weightless. by rewrite E, F. Qed.
Lemma still_weightless a s s' : still s s' → weightless a s → weightless a s'.
Proof. intros [_ E _ _ _]. unfold weightless. by rewrite E. Qed.
Lemma still_has_task p s s' : still s s' → has_task p s → has_task p s'.
Proof. intros [_ E _ _ F]. unfold has_task. by rewrite E, F. Qed.

Lemma calls_still fs s : wp (calls fs) (λ _ s', still s s' ∧ same_vars s s') s.
Proof. apply wp_and; [by apply calm_calls|]. eapply wp_mono; [apply calls_ok|]. by intros ? s' [? _]. Qed.
Lemma call_still f s : wp (call f) (λ _ s', still s s' ∧ same_vars s s') s.
Proof. apply (wp_mono _ _ _ s (calls_still [f] s)). done. Qed.

Lemma kernel_thread_ok f s :
  wp (kernel_thread f) (λ p s', args s' = args s ∧ vars s' = vars s ∧ has_task p s' ∧ threads (trace s') = threads (trace s) ++ [(f, p)] ∧
    executed (trace s') = executed (trace s) ∧ (∀ q, weighed q s → weighed q s') ∧ ∀ a, weightless a s → weightless a s') s.
Proof.
  unfold kernel_thread, wp, lift_state. pose proof (tl_new laws f (world s) (task_table s)) as H1.
  pose proof (tl_find laws f (world s) (task_table s)) as H2. pose proof (tl_keep laws f (world s) (task_table s)) as H3.
  destruct (thread_of f (world s) (task_table s)) as [p [w T]]. repeat split; try done.
  - cbn. unfold threads. by rewrite omap_app.
  - cbn. unfold executed. by rewrite omap_app, app_nil_r.
  - intros q (t & Ht & Hw). specialize (H2 q ltac:(by eexists)). destruct (H3 _ _ Ht) as (t' & Ht' & Hw'). exists t'. cbn. rewrite H2. split; [done|lia].
  - intros a (t & Ht & Hw). destruct (H3 _ _ Ht) as (t' & Ht' & Hw'). exists t'. split; [done|lia].
Qed.

Lemma spawn_init_ok s :
  wp spawn_init (λ p s', args s' = args s ∧ vars s' = vars s ∧ has_task p s' ∧ threads (trace s') = threads (trace s) ++ [("kernel_init"%string, p)] ∧
    executed (trace s') = executed (trace s)) s.
Proof.
  unfold spawn_init. apply wp_bind. eapply wp_mono; [apply call_still|]. intros ? s1 [[E1 E2 E3 E4 E5] (_ & _ & _ & V1 & _)].
  eapply wp_mono; [apply kernel_thread_ok|]. intros p s2 (H1 & V2 & H2 & H3 & H4 & _). by rewrite H1, V2, V1, H3, H4, E1, E3, E4.
Qed.

Lemma weigh_init_ok p s :
  has_task p s →
  wp (weigh_init p) (λ _ s', args s' = args s ∧ vars s' = vars s ∧ weighed p s' ∧ threads (trace s') = threads (trace s) ∧ executed (trace s') = executed (trace s) ∧
    task_of_pid p (world s') = task_of_pid p (world s)) s.
Proof.
  intros Hp. unfold weigh_init. apply wp_bind. unfold call at 1, modify, wp at 1.
  pose proof (tl_call laws "rcu_read_lock" (hw s) (world s)) as Hf. destruct (subsystem "rcu_read_lock" (hw s, world s)) as [c w]. cbn in Hf.
  set (s1 := record _ _). apply wp_bind, wp_gets, wp_bind. destruct Hp as [t Ht].
  assert (Ht1 : task_table s1 !! task_of_pid p (world s1) = Some t) by (cbn; by rewrite Hf).
  unfold on_tasks, rest_init_weight, bind, deref, wp at 1. cbn [tasks]. rewrite Ht1. cbn [modify put_task tasks].
  set (s2 := set_table _ s1). assert (Hs2 : weighed p s2).
  { exists (set_weight 0 t). cbn. rewrite Hf, lookup_insert_eq. done. }
  assert (V : vars s2 = vars s ∧ args s2 = args s ∧ threads (trace s2) = threads (trace s) ∧ executed (trace s2) = executed (trace s) ∧
    task_of_pid p (world s2) = task_of_pid p (world s)).
  { cbn. unfold threads, executed. by rewrite !omap_app, !app_nil_r. }
  clearbody s2. destruct V as (V1 & V2 & V3 & V4 & V5).
  eapply wp_mono; [apply calls_still|]. intros ? s3 [Hs3 (_ & _ & _ & E3 & _)].
  pose proof (still_weighed p _ _ Hs3 Hs2). destruct Hs3 as [F1 F2 F3 F4 F5]. by rewrite E3, F1, F3, F4, F5, V1, V2, V3, V4, V5.
Qed.

Lemma spawn_kthreadd_ok s :
  wp spawn_kthreadd (λ _ s', ∃ q, args s' = args s ∧ kthreadd_task (vars s') = task_of_pid q (world s') ∧ has_task q s' ∧
    threads (trace s') = threads (trace s) ++ [("kthreadd"%string, q)] ∧ executed (trace s') = executed (trace s) ∧
    kthreadd_done (vars s') = kthreadd_done (vars s) ∧ (∀ p, weighed p s → weighed p s') ∧ ∀ a, weightless a s → weightless a s') s.
Proof.
  unfold spawn_kthreadd. apply wp_bind. eapply wp_mono; [apply call_still|]. intros ? s1 [S1 (_ & _ & _ & V1 & _)].
  apply wp_bind. eapply wp_mono; [apply kernel_thread_ok|]. intros q s2 (A2 & V2 & T2 & E2 & X2 & W2 & L2).
  apply wp_bind. eapply wp_mono; [apply call_still|]. intros ? s3 [S3 (_ & _ & _ & V3 & _)]. apply wp_bind, wp_gets, wp_bind, wp_modify.
  eapply wp_mono; [apply call_still|]. intros ? s4 [S4 (_ & _ & _ & V4 & _)]. exists q. rewrite V4. cbn [vars set_vars kthreadd_task with_kthreadd kthreadd_done].
  pose proof (λ p H, still_weighed p _ _ S4 (still_weighed p _ _ S3 (W2 p (still_weighed p _ _ S1 H)))) as Hw.
  pose proof (λ a H, still_weightless a _ _ S4 (still_weightless a _ _ S3 (L2 a (still_weightless a _ _ S1 H)))) as Hl.
  pose proof (still_has_task q _ _ S4 (still_has_task q _ _ S3 T2)) as Hq.
  destruct S1 as [F1 _ F3 F4 _], S3 as [G1 _ G3 G4 _], S4 as [I1 _ I3 I4 I5]. cbn [args trace world set_vars] in I1, I3, I4, I5.
  rewrite I1, G1, A2, F1, I3, G3, E2, F3, I4, G4, X2, F4, V3, V2, V1, I5. done.
Qed.

Lemma rest_init_ok s :
  wp rest_init (λ _ s', ∃ p q,
    args s' = args s ∧ threads (trace s') = threads (trace s) ++ [("kernel_init"%string, p); ("kthreadd"%string, q)] ∧
    weighed p s' ∧ has_task q s' ∧ kthreadd_task (vars s') = task_of_pid q (world s') ∧
    kthreadd_done (vars s') = true ∧ system_state (vars s') = SYSTEM_SCHEDULING) s.
Proof.
  unfold rest_init. apply wp_bind. eapply wp_mono; [apply spawn_init_ok|]. intros p s1 (A1 & _ & P1 & T1 & X1).
  apply wp_bind. eapply wp_mono; [by apply weigh_init_ok|]. intros ? s2 (A2 & _ & W2 & T2 & X2 & _).
  apply wp_bind. eapply wp_mono; [apply spawn_kthreadd_ok|]. intros ? s3 (q & A3 & K3 & Q3 & T3 & X3 & D3 & W3 & _).
  apply wp_bind. unfold complete_kthreadd. apply wp_bind, wp_modify, wp_modify.
  eapply wp_mono; [apply calls_still|]. intros ? s4 [S4 (_ & _ & _ & V4 & _)]. exists p, q.
  pose proof (still_weighed p _ _ S4 (W3 p W2)) as Hp. pose proof (still_has_task q _ _ S4 Q3) as Hq.
  destruct S4 as [I1 _ I3 I4 I5]. cbn [args trace world set_vars] in I1, I3, I4, I5. rewrite V4, I1, A3, A2, A1, I3, T3, T2, T1, <- app_assoc, I5. done.
Qed.

(** ** [start_kernel] *)

Abbreviation inv := (λ s : boot, args_ok (args s)).

Lemma calm_inv {A} (c : M boot A) s : calm c → inv s → wp c (λ _ s', inv s') s.
Proof. intros Hc Hs. eapply wp_mono; [apply Hc|]. intros ? s' [E _ _ _ _]. by rewrite E. Qed.

Lemma start_kernel_setup_ok s :
  setup_table_ok setup_table → parse_words_ok → inv s → wp (start_kernel_setup setup_table) (λ _ s', inv s') s.
Proof.
  intros Ht Hp Hs. unfold start_kernel_setup. apply wp_bind. eapply wp_mono; [by apply calm_inv; [apply calm_calls|]|]. intros ? s1 H1.
  apply wp_bind, wp_modify, wp_bind, wp_modify, wp_bind. eapply wp_mono; [by apply calm_inv; [apply calm_calls|]|]. intros ? s2 H2.
  apply wp_bind, wp_modify, wp_bind. apply (wp_mono _ (λ _ s', inv s')).
  { unfold setup_arch. apply wp_bind. eapply wp_mono; [by apply calm_inv; [apply calm_call|]|]. intros ? s3 H3.
    apply wp_bind. apply (wp_mono _ (λ _ s', inv s')); [destruct arch_parses_early; [by apply parse_early_param_ok|done]|]. by intros ? ? ?. }
  intros cl s3 H3. apply wp_bind. eapply wp_mono; [by apply calm_inv; [apply calm_call|]|]. intros ? s4 H4.
  apply wp_bind. eapply wp_mono; [apply setup_command_line_ok|]. intros ? s5 (_ & _ & _ & E5 & _).
  apply wp_bind. eapply wp_mono; [apply calm_inv; [by apply calm_calls|by rewrite E5]|]. intros ? s6 H6.
  apply wp_bind, wp_gets, wp_bind, wp_modify, wp_bind. eapply wp_mono; [by apply calm_inv; [apply calm_call|]|]. by intros ? ? ?.
Qed.

(** It ends in a panic when an array was too small, and else reaches [rest_init]. *)
Lemma start_kernel_console_ok s :
  wpx start_kernel_console (λ _ s', still s s' ∧ panic_later (args s') = None) (λ s', panic_later (args s') ≠ None) s.
Proof.
  unfold start_kernel_console. apply wpx_bind. eapply wpx_mono; [by apply wpx_wp, calm_calls|]. intros ? s1 H1.
  apply wpx_bind. unfold wpx at 1, gets. destruct (panic_later (args s1)) as [[what param]|] eqn:E; [cbn; congruence|].
  eapply wpx_mono; [by apply wpx_wp, calm_calls|]. intros ? s2 H2. split; [exact (still_trans _ _ _ H1 H2)|]. by rewrite (st_args _ _ H2).
Qed.

Lemma start_kernel_ok s :
  setup_table_ok setup_table → parse_words_ok → inv s →
  wpx (start_kernel setup_table) (λ _ s', inv s' ∧ panic_later (args s') = None ∧ ∃ pre p q,
    threads (trace s') = pre ++ [("kernel_init"%string, p); ("kthreadd"%string, q)] ∧
    weighed p s' ∧ has_task q s' ∧ kthreadd_task (vars s') = task_of_pid q (world s') ∧
    kthreadd_done (vars s') = true ∧ system_state (vars s') = SYSTEM_SCHEDULING) (λ s', panic_later (args s') ≠ None) s.
Proof.
  intros Ht Hp Hs. unfold start_kernel. apply wpx_bind. eapply wpx_mono; [by apply wpx_wp, start_kernel_setup_ok|]. intros ? s1 H1.
  apply wpx_bind. eapply wpx_mono; [by apply wpx_wp, parse_command_line_ok|]. intros ? s2 H2.
  apply wpx_bind. eapply wpx_mono; [by apply wpx_wp, calm_inv; [apply start_kernel_memory_calm|]|]. intros ? s3 H3.
  apply wpx_bind. eapply wpx_mono; [by apply wpx_wp, calm_inv; [apply start_kernel_irqs_calm|]|]. intros ? s4 H4.
  apply wpx_bind. eapply wpx_mono; [apply start_kernel_console_ok|]. intros ? s5 [S5 P5].
  apply wpx_bind. eapply wpx_mono; [by apply wpx_wp, start_kernel_late_calm|]. intros ? s6 S6.
  eapply wpx_mono; [apply wpx_wp, rest_init_ok|]. intros ? s7 (p & q & A7 & T7 & H7). rewrite A7, (st_args _ _ S6).
  split; [by rewrite (st_args _ _ S5)|]. split; [done|]. by exists (threads (trace s6)), p, q.
Qed.
End Start.

(** ** The two threads *)

(** Where the boot thread is in [rest_init]; after [weigh_init] the first task is
    known by its address. *)
Inductive boot_pc := AtSpawn | AtWeigh (p : Z) | AtKthreadd (tsk : Z) | AtComplete (tsk : Z) | Idle (tsk : Z).
(** Where the thread of [kernel_init] is. *)
Inductive init_pc := Absent | Waiting | Running | Finished.

Section Threads.
Context {env : KernelEnv} (initcall_table : list Z) (labels : list nat) (ctors : list string).

(** [rest_init] and [kernel_init] under every interleaving.  Other threads may
    change the process table, but they leave the weights of the tasks there are. *)
Inductive boot_step : boot * boot_pc * init_pc → boot * boot_pc * init_pc → Prop :=
| step_spawn s s' p : spawn_init s = Ok p s' → boot_step (s, AtSpawn, Absent) (s', AtWeigh p, Waiting)
| step_weigh s s' p i : weigh_init p s = Ok tt s' → boot_step (s, AtWeigh p, i) (s', AtKthreadd (task_of_pid p (world s)), i)
| step_kthreadd s s' tsk i : spawn_kthreadd s = Ok tt s' → boot_step (s, AtKthreadd tsk, i) (s', AtComplete tsk, i)
| step_complete s s' tsk i : complete_kthreadd s = Ok tt s' → boot_step (s, AtComplete tsk, i) (s', Idle tsk, i)
| step_wait s s' b : wait_for_completion s = Ok tt s' → boot_step (s, b, Waiting) (s', b, Running)
| step_run s s' b r : (kernel_init_freeable_rest initcall_table labels ctors ;;; kernel_init_tail) s = Ok r s' →
    boot_step (s, b, Running) (s', b, Finished)
| step_other s b i T : (∀ a t, task_table s !! a = Some t → ∃ t', T !! a = Some t' ∧ weight t' = weight t) →
    boot_step (s, b, i) (set_table T s, b, i).

(** The steps of the boot thread are those of [rest_init] up to the idle loop, and the
    steps of the other thread those of [kernel_init]. *)
Lemma rest_init_steps s s' :
  rest_init s = Ok tt s' →
  ∃ s1 tsk, star boot_step (s, AtSpawn, Absent) (s1, Idle tsk, Waiting) ∧
    calls ["schedule_preempt_disabled"; "cpu_startup_entry"]%string s1 = Ok tt s'.
Proof.
  unfold rest_init, bind. destruct (spawn_init s) as [p s1| | |] eqn:E1; try done. destruct (weigh_init p s1) as [[] s2| | |] eqn:E2; try done.
  destruct (spawn_kthreadd s2) as [[] s3| | |] eqn:E3; try done. destruct (complete_kthreadd s3) as [[] s4| | |] eqn:E4; try done.
  intros Hc. exists s4, (task_of_pid p (world s1)). split; [|done].
  eapply star_step; [by apply step_spawn|]. eapply star_step; [by apply step_weigh|].
  eapply star_step; [by apply step_kthreadd|]. eapply star_step; [by apply step_complete|apply star_refl].
Qed.
Lemma kernel_init_steps b r s s' :
  kernel_init initcall_table labels ctors s = Ok r s' → star boot_step (s, b, Waiting) (s', b, Finished).
Proof.
  unfold kernel_init, kernel_init_freeable, bind at 1 2. destruct (wait_for_completion s) as [[] s1| | |] eqn:E1; try done.
  intros Hr. eapply star_step; [by apply step_wait|]. eapply star_step; [by apply (step_run s1 s' b r)|apply star_refl].
Qed.

(** Code that leaves the table and [kthreadd_task] alone. *)
Definition settled {A} (c : M boot A) : Prop :=
  ∀ s, wlp c (λ _ s', task_table s' = task_table s ∧ kthreadd_task (vars s') = kthreadd_task (vars s)) s.

Lemma settled_ret {A} (a : A) : settled (ret a).
Proof. done. Qed.
Lemma settled_exit {A} n : settled (A := A) (exit n).
Proof. done. Qed.
Lemma settled_fault {A} : settled (A := A) fault.
Proof. done. Qed.
Lemma settled_gets {A} (f : boot → A) : settled (gets f).
Proof. done. Qed.
Lemma settled_bind {A B} (c : M boot A) (k : A → M boot B) : settled c → (∀ a, settled (k a)) → settled (bind c k).
Proof.
  intros Hc Hk s. apply wlp_bind. eapply wlp_mono; [apply Hc|]. intros a s1 [E1 F1]. eapply wlp_mono; [apply Hk|].
  intros b s2 [E2 F2]. by rewrite E2, F2.
Qed.
Lemma settled_if {A} (b : bool) (c d : M boot A) : settled c → settled d → settled (if b then c else d).
Proof. by destruct b. Qed.
Lemma settled_option {A X} (o : option X) (f : X → M boot A) d : (∀ x, settled (f x)) → settled d → settled (match o with Some x => f x | None => d end).
Proof. by destruct o. Qed.
Lemma settled_modify (f : boot → boot) :
  (∀ s, task_table (f s) = task_table s ∧ kthreadd_task (vars (f s)) = kthreadd_task (vars s)) → settled (modify f).
Proof. intros Hf s. apply Hf. Qed.
Lemma settled_call f : settled (call f).
Proof. intros s. unfold call, modify, wlp. by destruct (subsystem f (hw s, world s)). Qed.
Lemma settled_calls fs : settled (calls fs).
Proof. induction fs as [|f fs IH]; [done|]. apply settled_bind; [apply settled_call|done]. Qed.
Lemma settled_lift {A} (f : boot → A * boot) :
  (∀ s, task_table (f s).2 = task_table s ∧ kthreadd_task (vars (f s).2) = kthreadd_task (vars s)) → settled (lift_state f).
Proof. intros Hf s. specialize (Hf s). unfold lift_state, wlp. by destruct (f s). Qed.
Lemma settled_array_set l i v : settled (array_set l i v).
Proof. unfold array_set. by destruct (i <? length l)%nat. Qed.
Lemma settled_strcpy b v : settled (strcpy b v).
Proof. unfold strcpy. by destruct (length v <? cap b)%nat. Qed.
Lemma settled_repair p v : settled (repair_env_string p v).
Proof. unfold repair_env_string. destruct v as [v|]; [|done]. destruct (v =? _)%nat; [done|]. by destruct (v =? _)%nat. Qed.
End Threads.

Create HintDb settled.
#[export] Hint Resolve settled_ret settled_exit settled_fault settled_gets settled_call settled_calls settled_array_set settled_strcpy settled_repair : settled.
Ltac settled_step :=
  first [solve [eauto with settled] | apply settled_bind; [|intros ?] | apply settled_if | apply settled_option; [intros ?|] | by apply settled_modify].
Ltac settled_all := repeat settled_step.

Section Threads2.
Context {env : KernelEnv} (initcall_table : list Z) (labels : list nat) (ctors : list string).

Lemma settled_run_initcall fn : settled (run_initcall fn).
Proof. apply settled_lift. intros s. by destruct (initcall_body fn (hw s, world s)) as [r [c w]]. Qed.
Lemma settled_clock : settled local_clock.
Proof. apply settled_lift. intros s. by destruct (clock_ns (world s)). Qed.
Lemma settled_one_initcall fn : settled (do_one_initcall fn).
Proof.
  pose proof settled_run_initcall. pose proof settled_clock.
  unfold do_one_initcall, do_one_initcall_debug, preempt_count, preempt_count_set, irqs_disabled, local_irq_enable, printk.
  apply settled_bind; [done|intros ?]. apply settled_bind; [intros s; unfold wlp; by rewrite initcall_blacklisted_run|intros ?]. settled_all.
Qed.
Lemma settled_range n a : settled (initcall_range initcall_table n a).
Proof.
  revert a. induction n as [|n IH]; intros a; cbn [initcall_range]; [done|]. pose proof settled_one_initcall.
  destruct (initcall_table !! a); settled_all.
Qed.
Lemma settled_parse_loop h l : (∀ p v, settled (h p v)) → settled (parse_loop h l).
Proof. intros Hh. induction l as [|[b| |p v] l IH]; cbn [parse_loop]; [done| |done|]; unfold upd_opts; settled_all. Qed.
Lemma settled_parse name cl lv h : (∀ p v, settled (h p v)) → settled (parse_args name cl lv h).
Proof. intros Hh. unfold parse_args. destruct (parse_words name cl lv). pose proof (settled_parse_loop h). settled_all. Qed.
Lemma settled_level level : settled (do_initcall_level initcall_table labels level).
Proof.
  unfold do_initcall_level. pose proof settled_range.
  assert (∀ name cl lv, settled (parse_args name cl lv (λ param val, repair_env_string param val ;;; ret 0))).
  { intros. apply settled_parse. intros. settled_all. }
  settled_all.
Qed.
Lemma settled_levels n level : settled (initcall_levels_loop initcall_table labels n level).
Proof. revert level. induction n as [|n IH]; intros level; cbn [initcall_levels_loop]; [done|]. pose proof settled_level. settled_all. Qed.
Lemma settled_execve f : settled (do_execve f).
Proof.
  intros s. unfold do_execve, wlp. destruct (_ && _); [|done]. by destruct (execve f _ _ (world s)).
Qed.
Lemma settled_run_init f : settled (run_init_process f).
Proof. unfold run_init_process, printk, upd_args. pose proof settled_execve. settled_all. Qed.
Lemma settled_try_init f : settled (try_to_run_init_process f).
Proof. unfold try_to_run_init_process, printk. pose proof settled_run_init. settled_all. Qed.
Lemma settled_find_init : settled find_init.
Proof. unfold find_init, or_try, panic, printk. pose proof settled_run_init. pose proof settled_try_init. settled_all. Qed.

Lemma settled_kernel_init : settled (kernel_init_freeable_rest initcall_table labels ctors ;;; kernel_init_tail).
Proof.
  unfold kernel_init_freeable_rest, kernel_init_tail, do_basic_setup, do_initcalls, do_ctors, do_pre_smp_initcalls, mark_readonly,
    load_default_modules, upd_args, upd_vars, printk.
  pose proof settled_range. pose proof settled_levels. pose proof settled_find_init.
  assert (settled (sys_open (lit "/dev/console"))).
  { apply settled_lift. intros s. by destruct (open_file (lit "/dev/console") (world s)). }
  settled_all.
Qed.

(** The completion is not signalled, and no program has been executed. *)
Definition not_yet (s : boot) : Prop := kthreadd_done (vars s) = false ∧ executed (trace s) = [].

Definition sane (x : boot * boot_pc * init_pc) : Prop :=
  let '(s, b, i) := x in
  match b with
  | AtSpawn => i = Absent ∧ not_yet s
  | AtWeigh p => i = Waiting ∧ not_yet s ∧ has_task p s
  | AtKthreadd tsk => i = Waiting ∧ not_yet s ∧ weightless tsk s
  | AtComplete tsk => i = Waiting ∧ not_yet s ∧ weightless tsk s ∧ is_Some (task_table s !! kthreadd_task (vars s))
  | Idle tsk => weightless tsk s ∧ is_Some (task_table s !! kthreadd_task (vars s))
  end.

Lemma sane_step (laws : thread_laws) x y : sane x → boot_step initcall_table labels ctors x y → sane y.
Proof.
  intros Hx Hstep. destruct Hstep as [s s' p Hr|s s' p i Hr|s s' tsk i Hr|s s' tsk i Hr|s s' b Hr|s s' b r Hr|s b i T HT]; cbn in Hx |- *.
  - destruct Hx as (_ & Hd & He). pose proof (spawn_init_ok laws s) as G. unfold wp in G. rewrite Hr in G.
    destruct G as (_ & V & P & _ & X). unfold not_yet. by rewrite V, X.
  - destruct Hx as (-> & [Hd He] & Hp). pose proof (weigh_init_ok laws p s Hp) as G. unfold wp in G. rewrite Hr in G.
    destruct G as (_ & V & P & _ & X & F). unfold not_yet, weighed in *. rewrite F in P. by rewrite V, X.
  - destruct Hx as (-> & [Hd He] & Hw). pose proof (spawn_kthreadd_ok laws s) as G. unfold wp in G. rewrite Hr in G.
    destruct G as (q & _ & K & Q & _ & X & D & _ & L). unfold not_yet. rewrite D, X, K. auto.
  - destruct Hx as (-> & _ & Hw & Hk). injection Hr as <-. done.
  - revert Hr. unfold wait_for_completion, bind, gets. destruct (kthreadd_done (vars s)) eqn:E; [|done].
    destruct b; unfold not_yet in Hx; [by destruct Hx|destruct Hx as (_ & [? _] & _); congruence..|].
    intros [= <-]. done.
  - pose proof (settled_kernel_init s) as G. unfold wlp in G. rewrite Hr in G. destruct G as [G1 G2].
    destruct b; [by destruct Hx..|]. unfold weightless. by rewrite G1, G2.
  - assert (Hs : ∀ a, is_Some (task_table s !! a) → is_Some (T !! a)).
    { intros a [t Ht]. destruct (HT _ _ Ht) as (t' & Ht' & _). by eexists. }
    assert (Hw : ∀ a, weightless a s → weightless a (set_table T s)).
    { intros a (t & Ht & Hw). destruct (HT _ _ Ht) as (t' & Ht' & Hw'). exists t'. split; [done|lia]. }
    destruct b; cbn; unfold has_task in *; naive_solver.
Qed.
End Threads2.

(** ** Theorems *)

Lemma demo_thread_laws limit : @thread_laws (demo_kernel limit).
Proof.
  split; cbn; try done.
  - intros _ w T. destruct (T !! (1000 + (w + 1))) eqn:E; [by eexists|]. rewrite lookup_insert_eq. by eexists.
  - intros _ w T a t Ht. destruct (T !! (1000 + (w + 1))) eqn:E; [by exists t|]. exists t. split; [|done].
    rewrite lookup_insert_ne; [done|]. intros <-. congruence.
Qed.

(** C38: [start_kernel] reaches its end exactly when the options fitted: it panics if
    [panic_later] was set, and otherwise the arrays for the first program end in
    [NULL], the thread of [kernel_init] was created before the one of [kthreadd],
    the first task has weight 0 and the completion is signalled. *)
Theorem start_kernel_correct {env : KernelEnv} (table : list obs_kernel_param) (s : boot) e r :
  (1 ≤ CONFIG_INIT_ENV_ARG_LIMIT)%nat → setup_table_ok table → parse_words_ok → thread_laws →
  args s = InitArgs argv_init0 envp_init0 None e r →
  wpx (start_kernel table) (λ _ s',
      argv_init (args s') !! (MAX_INIT_ARGS + 1)%nat = Some None ∧ envp_init (args s') !! (MAX_INIT_ENVS + 1)%nat = Some None ∧
      ∃ pre p q, threads (trace s') = pre ++ [("kernel_init"%string, p); ("kthreadd"%string, q)] ∧
        weighed p s' ∧ kthreadd_task (vars s') = task_of_pid q (world s') ∧
        kthreadd_done (vars s') = true ∧ system_state (vars s') = SYSTEM_SCHEDULING)
    (λ s', panic_later (args s') ≠ None) s.
Proof.
  intros Hl Ht Hp Hth E. eapply wpx_mono; [apply start_kernel_ok; [done..|rewrite E; by apply args_ok_init]|].
  intros ? s' ([_ _ Hn] & P & pre & p & q & H). destruct (Hn P) as [Ha He]. split; [done|]. split; [done|]. exists pre, p, q. naive_solver.
Qed.

Lemma start_kernel_correct_witness :
  wpx (@start_kernel (demo_kernel 2) (@main_setups (demo_kernel 2))) (λ _ s',
      argv_init (args s') !! 3%nat = Some None ∧ envp_init (args s') !! 3%nat = Some None ∧
      ∃ pre p q, threads (trace s') = pre ++ [("kernel_init"%string, p); ("kthreadd"%string, q)] ∧
        weighed p s' ∧ kthreadd_task (vars s') = @task_of_pid (demo_kernel 2) q (world s') ∧
        kthreadd_done (vars s') = true ∧ system_state (vars s') = SYSTEM_SCHEDULING)
    (λ s', panic_later (args s') ≠ None) (demo_boot 2 "quiet").
Proof.
  apply (@start_kernel_correct (demo_kernel 2) (@main_setups (demo_kernel 2)) _ None None);
    [cbn; lia|apply demo_setups_ok|apply demo_parse_ok|apply demo_thread_laws|reflexivity].
Defined.

(** C35: Under every interleaving of [rest_init], [kernel_init] and other threads, a
    program is executed only when the task of the first process has weight 0 and
    [kthreadd] has its task. *)
Theorem init_weight_before_programs {env : KernelEnv} (table : list Z) (labels : list nat) (ctors : list string) (s0 s : boot) b i :
  thread_laws → kthreadd_done (vars s0) = false → executed (trace s0) = [] →
  star (boot_step table labels ctors) (s0, AtSpawn, Absent) (s, b, i) → executed (trace s) ≠ [] →
  ∃ tsk t, b = Idle tsk ∧ task_table s !! tsk = Some t ∧ weight t = 0 ∧ is_Some (task_table s !! kthreadd_task (vars s)).
Proof.
  intros Hl Hd He Hstar Hx.
  assert (G : sane (s, b, i)) by (eapply (star_invariant _ sane); [intros; by eapply sane_step|done|done]).
  destruct b as [| | | |tsk]; cbn in G; unfold not_yet in G; try naive_solver. destruct G as [(t & Ht & Hw) Hk]. by exists tsk, t.
Qed.

(** A run of both threads, with three initcalls. *)
Definition demo_start : @boot (demo_kernel 4) :=
  @set_lines (demo_kernel 4) (CmdLines [] (CBuf 1 []) (CBuf 1 []) (CBuf 1 [])) (demo_boot 4 "").
Definition demo_s1 : @boot (demo_kernel 4) := after spawn_init demo_start.
Definition demo_s2 : @boot (demo_kernel 4) := after (weigh_init 1) demo_s1.
Definition demo_s3 : @boot (demo_kernel 4) := after spawn_kthreadd demo_s2.
Definition demo_s4 : @boot (demo_kernel 4) := after complete_kthreadd demo_s3.
Definition demo_s5 : @boot (demo_kernel 4) := after wait_for_completion demo_s4.
Definition demo_s6 : @boot (demo_kernel 4) := after (kernel_init_freeable_rest [10; 11; 12; 13; 14] demo_labels [] ;;; kernel_init_tail) demo_s5.

Lemma init_weight_before_programs_witness :
  ∃ tsk t, Idle 1001 = Idle tsk ∧ task_table demo_s6 !! tsk = Some t ∧ weight t = 0 ∧ is_Some (task_table demo_s6 !! kthreadd_task (vars demo_s6)).
Proof.
  apply (@init_weight_before_programs (demo_kernel 4) [10; 11; 12; 13; 14] demo_labels [] demo_start demo_s6 (Idle 1001) Finished);
    [apply demo_thread_laws|reflexivity|reflexivity| |vm_compute; discriminate].
  eapply star_step; [apply (step_spawn _ _ _ demo_start demo_s1 1), (run_after spawn_init demo_start 1); vm_compute; reflexivity|].
  eapply star_step; [apply (step_weigh _ _ _ demo_s1 demo_s2 1), (run_after (weigh_init 1) demo_s1 tt); vm_compute; reflexivity|].
  eapply star_step; [apply (step_kthreadd _ _ _ demo_s2 demo_s3), (run_after spawn_kthreadd demo_s2 tt); vm_compute; reflexivity|].
  eapply star_step; [apply (step_complete _ _ _ demo_s3 demo_s4), (run_after complete_kthreadd demo_s3 tt); vm_compute; reflexivity|].
  eapply star_step; [apply (step_wait _ _ _ demo_s4 demo_s5), (run_after wait_for_completion demo_s4 tt); vm_compute; reflexivity|].
  eapply star_step; [apply (step_run _ _ _ demo_s5 demo_s6 _ 0), (run_after (kernel_init_freeable_rest [10; 11; 12; 13; 14] demo_labels [] ;;; kernel_init_tail) demo_s5 0); vm_compute; reflexivity|].
  apply star_refl.
Defined.

(** [kernel_init] tries the ram disk's program, then the requested one or the four
    standard ones, each with its own name as argument 0 and the arguments and the
    environment of the command line; it returns at the first that can be executed
    and panics when there is none. *)
Theorem find_init_tries_in_order {env : KernelEnv} (s : boot) h l :
  argv_init (args s) = Some h :: l → has_null l = true → has_null (envp_init (args s)) = true →
  let '(es, w, ok) := attempts (strings l) (strings (envp_init (args s))) (candidates (args s)) (world s) in
  ∃ s', find_init s = (if ok then Ok 0 s' else Exit 1 s') ∧ trace s' = trace s ++ es ∧ world s' = w.
Proof. intros Ha Hl He. apply tries_find_init. by exists h, l. Qed.

Lemma find_init_tries_in_order_witness :
  let s := after (@parse_command_line (demo_kernel 4) (@main_setups (demo_kernel 4))) (demo_boot 4 "a") in
  ∃ s', @find_init (demo_kernel 4) s = Ok 0 s' ∧ executed (trace s') = [lit "/sbin/init"; lit "/etc/init"; lit "/bin/init"; lit "/bin/sh"].
Proof.
  intros s.
  pose proof (@find_init_tries_in_order (demo_kernel 4) s (lit "init") [Some (lit "a"); None; None; None; None] eq_refl eq_refl eq_refl) as H.
  destruct (attempts _ _ _ _) as [[es w] ok] eqn:E. vm_compute in E. injection E as <- <- <-. destruct H as (s' & H1 & H2 & _).
  exists s'. split; [exact H1|]. rewrite H2. vm_compute. reflexivity.
Defined.
