(* ===== verification/SchedTask.v ===== *)
(** * [hw2/.../include/linux/sched.h]: task states, flags and identifiers

    The constants and the inline functions and macros of the header that compute:
    the state of a task and the letter [/proc] shows for it, the flags [PF_*] and
    [PFA_*], the identifiers of a task, and the rule for going to sleep that the
    comment on [set_current_state] states.  Declarations of functions that live
    elsewhere, and the fields of [task_struct] that no code here uses, have no
    counterpart.  The bit operations of [asm/bitops.h] are a class with laws. *)

From S2P Require Import Prelude CString.

(** ** Constants *)

Definition TASK_RUNNING : Z := 0x0000.
Definition TASK_INTERRUPTIBLE : Z := 0x0001.
Definition TASK_UNINTERRUPTIBLE : Z := 0x0002.
Definition __TASK_STOPPED : Z := 0x0004.
Definition __TASK_TRACED : Z := 0x0008.
Definition EXIT_DEAD : Z := 0x0010.
Definition EXIT_ZOMBIE : Z := 0x0020.
Definition EXIT_TRACE : Z := Z.lor EXIT_ZOMBIE EXIT_DEAD.
Definition TASK_PARKED : Z := 0x0040.
Definition TASK_DEAD : Z := 0x0080.
Definition TASK_WAKEKILL : Z := 0x0100.
Definition TASK_WAKING : Z := 0x0200.
Definition TASK_NOLOAD : Z := 0x0400.
Definition TASK_NEW : Z := 0x0800.
Definition TASK_STATE_MAX : Z := 0x1000.

Definition TASK_KILLABLE : Z := Z.lor TASK_WAKEKILL TASK_UNINTERRUPTIBLE.
Definition TASK_STOPPED : Z := Z.lor TASK_WAKEKILL __TASK_STOPPED.
Definition TASK_TRACED : Z := Z.lor TASK_WAKEKILL __TASK_TRACED.
Definition TASK_IDLE : Z := Z.lor TASK_UNINTERRUPTIBLE TASK_NOLOAD.
Definition TASK_NORMAL : Z := Z.lor TASK_INTERRUPTIBLE TASK_UNINTERRUPTIBLE.
Definition TASK_ALL : Z := Z.lor (Z.lor TASK_NORMAL __TASK_STOPPED) __TASK_TRACED.
Definition TASK_REPORT : Z :=
  foldr Z.lor 0 [TASK_RUNNING; TASK_INTERRUPTIBLE; TASK_UNINTERRUPTIBLE; __TASK_STOPPED; __TASK_TRACED; EXIT_DEAD; EXIT_ZOMBIE; TASK_PARKED].
Definition TASK_REPORT_IDLE : Z := TASK_REPORT + 1.
Definition TASK_REPORT_MAX : Z := Z.shiftl TASK_REPORT_IDLE 1.

Definition PF_IDLE : Z := 0x00000002.
Definition PF_USED_MATH : Z := 0x00002000.
Definition PF_FROZEN : Z := 0x00010000.
Definition PF_NO_SETAFFINITY : Z := 0x04000000.

(** All flags of [tsk->flags]. *)
Definition pf_flags : list Z :=
  [PF_IDLE; 0x00000004; 0x00000010; 0x00000020; 0x00000040; 0x00000080; 0x00000100; 0x00000200; 0x00000400; 0x00000800; 0x00001000;
   PF_USED_MATH; 0x00008000; PF_FROZEN; 0x00020000; 0x00040000; 0x00080000; 0x00100000; 0x00200000; 0x00400000; 0x00800000;
   PF_NO_SETAFFINITY; 0x08000000; 0x20000000; 0x40000000; 0x80000000].

(** ** Tasks *)

Inductive pid_type := PIDTYPE_PID | PIDTYPE_PGID | PIDTYPE_SID | PIDTYPE_TGID.

(** The fields the functions use.  [pids] are pointers to a [struct pid], [None]
    is [NULL]; [ti_flags] are the flags of the [thread_info]. *)
Record task := Task {
  state : Z;
  flags : Z;
  task_cpu_no : Z;
  static_prio : Z;
  nr_cpus_allowed : Z;
  exit_state : Z;
  atomic_flags : Z;
  ti_flags : Z;
  tpid : Z;
  tgid : Z;
  real_parent : Z;
  group_leader : Z;
  pids : pid_type → option Z
}.

Definition with_state (v : Z) (t : task) : task :=
  Task v (flags t) (task_cpu_no t) (static_prio t) (nr_cpus_allowed t) (exit_state t) (atomic_flags t) (ti_flags t) (tpid t) (tgid t) (real_parent t) (group_leader t) (pids t).
Definition with_flags (v : Z) (t : task) : task :=
  Task (state t) v (task_cpu_no t) (static_prio t) (nr_cpus_allowed t) (exit_state t) (atomic_flags t) (ti_flags t) (tpid t) (tgid t) (real_parent t) (group_leader t) (pids t).
Definition with_atomic (v : Z) (t : task) : task :=
  Task (state t) (flags t) (task_cpu_no t) (static_prio t) (nr_cpus_allowed t) (exit_state t) v (ti_flags t) (tpid t) (tgid t) (real_parent t) (group_leader t) (pids t).
Definition with_ti (v : Z) (t : task) : task :=
  Task (state t) (flags t) (task_cpu_no t) (static_prio t) (nr_cpus_allowed t) (exit_state t) (atomic_flags t) v (tpid t) (tgid t) (real_parent t) (group_leader t) (pids t).

(** [asm/bitops.h], and what its documentation says. *)
Class BitOps := {
  set_bit : Z → Z → Z;
  clear_bit : Z → Z → Z;
  test_bit : Z → Z → bool;
  fls : Z → Z
}.
Class BitOpsLaws (B : BitOps) : Prop := {
  test_set : ∀ n m x, 0 ≤ n → 0 ≤ m → test_bit n (set_bit m x) = (n =? m) || test_bit n x;
  test_clear : ∀ n m x, 0 ≤ n → 0 ≤ m → test_bit n (clear_bit m x) = negb (n =? m) && test_bit n x;
  fls_zero : fls 0 = 0;
  fls_pos : ∀ x, 0 < x < 2 ^ 32 → 1 ≤ fls x ∧ 2 ^ (fls x - 1) ≤ x < 2 ^ fls x
}.
#[export] Instance z_bitops : BitOps := {|
  set_bit := λ n x, Z.setbit x n; clear_bit := λ n x, Z.clearbit x n; test_bit := λ n x, Z.testbit x n;
  fls := λ x, if x <=? 0 then 0 else Z.log2 x + 1
|}.
#[export] Instance z_bitops_laws : BitOpsLaws z_bitops.
Proof.
  split; cbn.
  - intros n m x Hn Hm. rewrite Z.setbit_eqb by lia. by rewrite (Z.eqb_sym n m).
  - intros n m x Hn Hm. rewrite Z.clearbit_eqb. rewrite (Z.eqb_sym n m). by rewrite andb_comm.
  - done.
  - intros x Hx. destruct (Z.leb_spec x 0); [lia|]. pose proof (Z.log2_spec x ltac:(lia)) as [? ?]. pose proof (Z.log2_nonneg x).
    replace (Z.log2 x + 1 - 1) with (Z.log2 x) by lia. replace (Z.log2 x + 1) with (Z.succ (Z.log2 x)) by lia. lia.
Qed.

(** ** States *)

Definition task_is_traced (t : task) : bool := negb (Z.land (state t) __TASK_TRACED =? 0).
Definition task_is_stopped (t : task) : bool := negb (Z.land (state t) __TASK_STOPPED =? 0).
Definition task_is_stopped_or_traced (t : task) : bool := negb (Z.land (state t) (Z.lor __TASK_STOPPED __TASK_TRACED) =? 0).
Definition task_contributes_to_load (t : task) : bool :=
  negb (Z.land (state t) TASK_UNINTERRUPTIBLE =? 0) && (Z.land (flags t) PF_FROZEN =? 0) && (Z.land (state t) TASK_NOLOAD =? 0).
Definition is_special_task_state (st : Z) : bool := negb (Z.land st (Z.lor (Z.lor __TASK_STOPPED __TASK_TRACED) TASK_DEAD) =? 0).

(** The three ways to set the state of the current task; with
    [CONFIG_DEBUG_ATOMIC_SLEEP] they also tell whether a warning is due. *)
Definition __set_current_state (debug : bool) (v : Z) (t : task) : task * bool := (with_state v t, debug && is_special_task_state v).
Definition set_current_state (debug : bool) (v : Z) (t : task) : task * bool := (with_state v t, debug && is_special_task_state v).
Definition set_special_state (debug : bool) (v : Z) (t : task) : task * bool := (with_state v t, debug && negb (is_special_task_state v)).

Section Code.
Context {B : BitOps}.

Definition task_state_index (t : task) : Z :=
  let tsk_state := u32 (state t) in
  let st := Z.land (Z.lor tsk_state (u32 (exit_state t))) TASK_REPORT in
  let st := if tsk_state =? TASK_IDLE then TASK_REPORT_IDLE else st in
  fls st.

(** Reading past the array is not defined. *)
Definition state_char : str := lit "RSDTtXZPI".
Definition task_index_to_char (i : Z) : option ascii := if i <? 0 then None else state_char !! Z.to_nat i.
Definition task_state_to_char (t : task) : option ascii := task_index_to_char (task_state_index t).

(** ** Flags *)

(** [flags] is an [unsigned int]; [~] of a mask has all the other bits. *)
Definition clear_stopped_child_used_math (t : task) : task := with_flags (Z.land (flags t) (u32 (Z.lnot PF_USED_MATH))) t.
Definition set_stopped_child_used_math (t : task) : task := with_flags (Z.lor (flags t) PF_USED_MATH) t.
Definition conditional_stopped_child_used_math (condition : bool) (t : task) : task :=
  let t := clear_stopped_child_used_math t in with_flags (Z.lor (flags t) (if condition then PF_USED_MATH else 0)) t.
Definition copy_to_stopped_child_used_math (current child : task) : task :=
  let child := clear_stopped_child_used_math child in with_flags (Z.lor (flags child) (Z.land (flags current) PF_USED_MATH)) child.
Definition tsk_used_math (t : task) : Z := Z.land (flags t) PF_USED_MATH.

Definition is_percpu_thread (smp : bool) (t : task) : bool :=
  if smp then negb (Z.land (flags t) PF_NO_SETAFFINITY =? 0) && (nr_cpus_allowed t =? 1) else true.

(** [orig_flags] and [mask] are [unsigned long]. *)
Definition current_restore_flags (orig_flags mask : Z) (t : task) : task :=
  let t := with_flags (u32 (Z.land (flags t) (u64 (Z.lnot mask)))) t in
  with_flags (u32 (Z.lor (flags t) (Z.land orig_flags mask))) t.

Definition is_idle_task (t : task) : bool := negb (Z.land (flags t) PF_IDLE =? 0).

(** The atomic flags; four of them can be cleared. *)
Inductive pfa := NO_NEW_PRIVS | SPREAD_PAGE | SPREAD_SLAB | SPEC_SSB_DISABLE | SPEC_SSB_FORCE_DISABLE | SPEC_IB_DISABLE | SPEC_IB_FORCE_DISABLE.
#[export] Instance pfa_eq_dec : EqDecision pfa.
Proof. solve_decision. Defined.
Definition PFA (f : pfa) : Z :=
  match f with
  | NO_NEW_PRIVS => 0 | SPREAD_PAGE => 1 | SPREAD_SLAB => 2 | SPEC_SSB_DISABLE => 3
  | SPEC_SSB_FORCE_DISABLE => 4 | SPEC_IB_DISABLE => 5 | SPEC_IB_FORCE_DISABLE => 6
  end.
(** The functions that [TASK_PFA_TEST], [TASK_PFA_SET] and [TASK_PFA_CLEAR] make. *)
Definition task_pfa_test (f : pfa) (t : task) : bool := test_bit (PFA f) (atomic_flags t).
Definition task_pfa_set (f : pfa) (t : task) : task := with_atomic (set_bit (PFA f) (atomic_flags t)) t.
Inductive clearable := Clear_SPREAD_PAGE | Clear_SPREAD_SLAB | Clear_SPEC_SSB_DISABLE | Clear_SPEC_IB_DISABLE.
Definition clearable_flag (c : clearable) : pfa :=
  match c with
  | Clear_SPREAD_PAGE => SPREAD_PAGE | Clear_SPREAD_SLAB => SPREAD_SLAB
  | Clear_SPEC_SSB_DISABLE => SPEC_SSB_DISABLE | Clear_SPEC_IB_DISABLE => SPEC_IB_DISABLE
  end.
Definition task_pfa_clear (c : clearable) (t : task) : task := with_atomic (clear_bit (PFA (clearable_flag c)) (atomic_flags t)) t.

(** Flags of the [thread_info]; [TIF_NEED_RESCHED] is a number of the architecture. *)
Context (TIF_NEED_RESCHED : Z).
Definition set_tsk_thread_flag (t : task) (flag : Z) : task := with_ti (set_bit flag (ti_flags t)) t.
Definition clear_tsk_thread_flag (t : task) (flag : Z) : task := with_ti (clear_bit flag (ti_flags t)) t.
Definition test_tsk_thread_flag (t : task) (flag : Z) : bool := test_bit flag (ti_flags t).
Definition test_and_set_tsk_thread_flag (t : task) (flag : Z) : bool * task := (test_bit flag (ti_flags t), set_tsk_thread_flag t flag).
Definition test_and_clear_tsk_thread_flag (t : task) (flag : Z) : bool * task := (test_bit flag (ti_flags t), clear_tsk_thread_flag t flag).
Definition set_tsk_need_resched (t : task) : task := set_tsk_thread_flag t TIF_NEED_RESCHED.
Definition clear_tsk_need_resched (t : task) : task := clear_tsk_thread_flag t TIF_NEED_RESCHED.
Definition test_tsk_need_resched (t : task) : bool := test_tsk_thread_flag t TIF_NEED_RESCHED.
Definition need_resched (current : task) : bool := test_tsk_thread_flag current TIF_NEED_RESCHED.

(** [task_cpu]: 0 without SMP. *)
Definition task_cpu (smp : bool) (t : task) : Z := if smp then task_cpu_no t else 0.

(** ** Identifiers *)

(** The table of tasks, for the pointers [group_leader] and [real_parent];
    [__task_pid_nr_ns] of [kernel/pid.c] with the namespace, and
    [PRIO_TO_NICE] of [linux/sched/prio.h]. *)
Context (tasks : gmap Z task) (pid_nr_ns : task → pid_type → option Z → Z) (init_pid_ns : Z) (PRIO_TO_NICE : Z → Z).

Definition task_pid (t : task) : option Z := pids t PIDTYPE_PID.
(** [None] when the leader is not there; else the pointer. *)
Definition task_tgid (t : task) : option (option Z) := (λ l, pids l PIDTYPE_PID) <$> tasks !! group_leader t.
Definition task_pgrp (t : task) : option (option Z) := (λ l, pids l PIDTYPE_PGID) <$> tasks !! group_leader t.
Definition task_session (t : task) : option (option Z) := (λ l, pids l PIDTYPE_SID) <$> tasks !! group_leader t.

Definition task_pid_nr (t : task) : Z := tpid t.
Definition task_pid_nr_ns (t : task) (ns : Z) : Z := pid_nr_ns t PIDTYPE_PID (Some ns).
Definition task_pid_vnr (t : task) : Z := pid_nr_ns t PIDTYPE_PID None.
Definition task_tgid_nr (t : task) : Z := tgid t.
Definition pid_alive (t : task) : bool := bool_decide (is_Some (pids t PIDTYPE_PID)).
Definition task_pgrp_nr_ns (t : task) (ns : Z) : Z := pid_nr_ns t PIDTYPE_PGID (Some ns).
Definition task_pgrp_vnr (t : task) : Z := pid_nr_ns t PIDTYPE_PGID None.
Definition task_session_nr_ns (t : task) (ns : Z) : Z := pid_nr_ns t PIDTYPE_SID (Some ns).
Definition task_session_vnr (t : task) : Z := pid_nr_ns t PIDTYPE_SID None.
Definition task_tgid_nr_ns (t : task) (ns : Z) : Z := pid_nr_ns t PIDTYPE_TGID (Some ns).
Definition task_tgid_vnr (t : task) : Z := pid_nr_ns t PIDTYPE_TGID None.
(** The parent is read only for a task that is alive. *)
Definition task_ppid_nr_ns (t : task) (ns : Z) : option Z :=
  if pid_alive t then (λ p, task_tgid_nr_ns p ns) <$> tasks !! real_parent t else Some 0.
Definition task_ppid_nr (t : task) : option Z := task_ppid_nr_ns t init_pid_ns.
Definition task_pgrp_nr (t : task) : Z := task_pgrp_nr_ns t init_pid_ns.
Definition is_global_init (t : task) : bool := task_tgid_nr t =? 1.
Definition task_nice (t : task) : Z := PRIO_TO_NICE (static_prio t).
End Code.

(** ** The letter of a state *)

Section StateChar.
Context {B : BitOps} {laws : BitOpsLaws B}.

Lemma fls_log2 x : 0 < x < 2 ^ 32 → fls x = Z.log2 x + 1.
Proof.
  intros Hx. destruct (fls_pos x Hx) as [H1 H2]. enough (Z.log2 x = fls x - 1) by lia.
  apply Z.log2_unique; [lia|]. by replace (Z.succ (fls x - 1)) with (fls x) by lia.
Qed.

(** The letter by the highest bit that is reported. *)
Definition report_letter (st : Z) : ascii :=
  if Z.testbit st 7 then "I"%char
  else if Z.testbit st 6 then "P"%char
  else if Z.testbit st 5 then "Z"%char
  else if Z.testbit st 4 then "X"%char
  else if Z.testbit st 3 then "t"%char
  else if Z.testbit st 2 then "T"%char
  else if Z.testbit st 1 then "D"%char
  else if Z.testbit st 0 then "S"%char
  else "R"%char.

Definition letter_ok (st : Z) : bool :=
  bool_decide (task_index_to_char (if st =? 0 then 0 else Z.log2 st + 1) = Some (report_letter st)).
Lemma letters_ok : forallb letter_ok (seqZ 0 256) = true.
Proof. vm_compute. reflexivity. Qed.

Lemma index_letter st : 0 ≤ st < 256 → task_index_to_char (fls st) = Some (report_letter st).
Proof.
  intros Hst. assert (H : letter_ok st = true).
  { apply (proj1 (forallb_forall _ _) letters_ok). apply list_elem_of_In, elem_of_seqZ. lia. }
  apply bool_decide_eq_true in H. rewrite <- H. destruct (Z.eqb_spec st 0) as [->|]; [by rewrite fls_zero|].
  by rewrite fls_log2 by lia.
Qed.

Lemma land_report_bound x : 0 ≤ Z.land x TASK_REPORT < 128.
Proof.
  change TASK_REPORT with (Z.ones 7). rewrite Z.land_ones by lia. apply Z.mod_pos_bound. lia.
Qed.

(** The bits that are reported: those of both words, or the idle bit. *)
Definition reported (t : task) : Z :=
  if u32 (state t) =? TASK_IDLE then TASK_REPORT_IDLE else Z.land (Z.lor (u32 (state t)) (u32 (exit_state t))) TASK_REPORT.
Lemma reported_bound t : 0 ≤ reported t < 256.
Proof.
  unfold reported. destruct (u32 (state t) =? TASK_IDLE); [done|]. pose proof (land_report_bound (Z.lor (u32 (state t)) (u32 (exit_state t)))). lia.
Qed.
Lemma task_state_index_fls t : task_state_index t = fls (reported t).
Proof. unfold task_state_index, reported. by destruct (u32 (state t) =? TASK_IDLE). Qed.
End StateChar.

(** Whatever the two state words of a task hold, the index is inside the array
    of letters, and the letter is the one of the highest bit that is reported. *)
Theorem task_state_to_char_correct {B : BitOps} {laws : BitOpsLaws B} (t : task) :
  0 ≤ task_state_index t < Z.of_nat (length state_char) ∧ task_state_to_char t = Some (report_letter (reported t)).
Proof.
  unfold task_state_to_char. rewrite task_state_index_fls. pose proof (reported_bound t) as Hb. pose proof (index_letter (reported t) Hb) as Hc.
  split; [|done]. unfold task_index_to_char in Hc. destruct (Z.ltb_spec (fls (reported t)) 0) as [|Hf]; [done|].
  apply lookup_lt_Some in Hc. lia.
Qed.

Lemma task_state_to_char_correct_witness :
  let t := Task 0x2 0 0 120 1 0x20 0 0 7 7 0 0 (λ _, None) in
  0 ≤ @task_state_index z_bitops t < Z.of_nat (length state_char) ∧ @task_state_to_char z_bitops t = Some "Z"%char.
Proof. apply (@task_state_to_char_correct z_bitops z_bitops_laws). Defined.

(** ** Restoring flags *)

(** Every flag is a bit of its own of the 32 bits of [flags]. *)
Theorem pf_flags_bits : NoDup pf_flags ∧ Forall (λ f, f = 2 ^ Z.log2 f ∧ f < 2 ^ 32) pf_flags.
Proof. split; [apply (bool_decide_eq_true_1 _); vm_compute; reflexivity|]. repeat constructor. Qed.

Lemma u32_testbit x i : 0 ≤ i → Z.testbit (u32 x) i = (i <? 32) && Z.testbit x i.
Proof.
  intros Hi. unfold u32. destruct (Z.ltb_spec i 32); [by rewrite Z.mod_pow2_bits_low by lia|by rewrite Z.mod_pow2_bits_high by lia].
Qed.
Lemma u64_testbit x i : 0 ≤ i → Z.testbit (u64 x) i = (i <? 64) && Z.testbit x i.
Proof.
  intros Hi. unfold u64, W64. destruct (Z.ltb_spec i 64); [by rewrite Z.mod_pow2_bits_low by lia|by rewrite Z.mod_pow2_bits_high by lia].
Qed.

Lemma restore_testbit orig mask t i :
  0 ≤ i < 32 →
  Z.testbit (flags (current_restore_flags orig mask t)) i = if Z.testbit mask i then Z.testbit orig i else Z.testbit (flags t) i.
Proof.
  intros Hi. cbn. rewrite !u32_testbit, !Z.lor_spec, !Z.land_spec, u32_testbit, Z.land_spec, u64_testbit, Z.lnot_spec by lia.
  rewrite (proj2 (Z.ltb_lt i 32)), (proj2 (Z.ltb_lt i 64)) by lia. cbn.
  destruct (Z.testbit mask i), (Z.testbit (flags t) i), (Z.testbit orig i); done.
Qed.

(** Saving the flags of a task, changing some of them and restoring those gives
    the flags back: [current_restore_flags] takes the bits of the mask from the
    saved word and leaves the others. *)
Theorem current_restore_flags_roundtrip (orig mask : Z) (t : task) :
  0 ≤ orig < 2 ^ 32 →
  (∀ i, 0 ≤ i < 32 → Z.testbit mask i = false → Z.testbit (flags t) i = Z.testbit orig i) →
  flags (current_restore_flags orig mask t) = orig ∧ state (current_restore_flags orig mask t) = state t.
Proof.
  intros Ho Ht. split; [|done]. apply Z.bits_inj'. intros i Hi. destruct (Z.ltb_spec i 32) as [Hl|Hg].
  - rewrite restore_testbit by lia. destruct (Z.testbit mask i) eqn:E; [done|]. by apply Ht.
  - cbn. rewrite u32_testbit, (proj2 (Z.ltb_ge i 32)) by lia. cbn. symmetry. rewrite <- (Z.mod_small orig (2 ^ 32)) by lia.
    by apply Z.mod_pow2_bits_high.
Qed.

Definition demo_task : task := Task 0 0x00040040 0 120 1 0 0 0 7 7 0 0 (λ _, None).
Lemma current_restore_flags_roundtrip_witness :
  flags (current_restore_flags 0x00000040 0x00040000 demo_task) = 0x00000040 ∧ state (current_restore_flags 0x00000040 0x00040000 demo_task) = 0.
Proof.
  apply (current_restore_flags_roundtrip 0x00000040 0x00040000 demo_task); [lia|].
  intros i Hi Hm. assert (Hne : i ≠ 18) by (intros ->; discriminate Hm).
  change (flags demo_task) with (Z.setbit 0x00000040 18). by rewrite Z.setbit_neq by lia.
Defined.

(** ** Flags that stay *)

Inductive pfa_op := PfaSet (f : pfa) | PfaClear (c : clearable).
Definition pfa_run `{BitOps} (t : task) (o : pfa_op) : task := match o with PfaSet f => task_pfa_set f t | PfaClear c => task_pfa_clear c t end.

Lemma PFA_nonneg f : 0 ≤ PFA f.
Proof. by destruct f. Qed.
Lemma PFA_eqb f g : (PFA f =? PFA g) = bool_decide (f = g).
Proof. by destruct f, g. Qed.
Lemma pfa_test_set `{laws : BitOpsLaws} f g t : task_pfa_test f (task_pfa_set g t) = bool_decide (f = g) || task_pfa_test f t.
Proof. unfold task_pfa_test. cbn. rewrite test_set, PFA_eqb by apply PFA_nonneg. done. Qed.
Lemma pfa_test_clear `{laws : BitOpsLaws} f c t : task_pfa_test f (task_pfa_clear c t) = negb (bool_decide (f = clearable_flag c)) && task_pfa_test f t.
Proof. unfold task_pfa_test. cbn. rewrite test_clear, PFA_eqb by apply PFA_nonneg. done. Qed.

(** A task that may not gain privileges, or has a speculation mitigation forced,
    keeps it through every sequence of operations on the atomic flags. *)
Theorem forced_flags_stay `{laws : BitOpsLaws} (f : pfa) (ops : list pfa_op) (t : task) :
  f ∈ [NO_NEW_PRIVS; SPEC_SSB_FORCE_DISABLE; SPEC_IB_FORCE_DISABLE] →
  task_pfa_test f t = true → task_pfa_test f (foldl pfa_run t ops) = true.
Proof.
  intros Hf. revert t. induction ops as [|o ops IH]; intros t Ht; [done|]. cbn [foldl]. apply IH. destruct o as [g|c]; cbn [pfa_run].
  - rewrite pfa_test_set, Ht. apply orb_true_r.
  - rewrite pfa_test_clear, Ht, andb_true_r. rewrite bool_decide_eq_false_2; [done|]. intros ->. by destruct c; set_unfold; naive_solver.
Qed.
Lemma forced_flags_stay_witness :
  task_pfa_test NO_NEW_PRIVS (foldl pfa_run (task_pfa_set NO_NEW_PRIVS demo_task) [PfaSet SPREAD_PAGE; PfaClear Clear_SPREAD_PAGE; PfaClear Clear_SPEC_IB_DISABLE]) = true.
Proof. apply (forced_flags_stay NO_NEW_PRIVS); [left|reflexivity]. Defined.

(** ** Going to sleep *)

(** The loop of the comment on [set_current_state], and the code that wakes it up:

    [for (;;) { set_current_state(TASK_UNINTERRUPTIBLE); if (!need_sleep) break; schedule(); }
     __set_current_state(TASK_RUNNING);]

    [need_sleep = false; wake_up_state(p, TASK_UNINTERRUPTIBLE);]

    The barriers of [set_current_state] and of the wake-up make the memory
    sequentially consistent for both. *)
Inductive sleeper := SetState | TestCond | Schedule | Blocked | LeaveLoop | Awake.
Inductive waker := ClearCond | WakeUp | WakerDone.
Record sleep_state := SleepState { sleep_task : task; need_sleep : bool; sleeper_at : sleeper; waker_at : waker }.

(** Wakeup will do: if ([@state & p->state]) [p->state = TASK_RUNNING]. *)
Definition wake_up_state (st : Z) (t : task) : task :=
  if negb (Z.land st (state t) =? 0) then with_state TASK_RUNNING t else t.

Inductive sleep_step : sleep_state → sleep_state → Prop :=
| sl_set t c w : sleep_step (SleepState t c SetState w) (SleepState (set_current_state false TASK_UNINTERRUPTIBLE t).1 c TestCond w)
| sl_test t c w : sleep_step (SleepState t c TestCond w) (SleepState t c (if c then Schedule else LeaveLoop) w)
| sl_block t c w : state t ≠ TASK_RUNNING → sleep_step (SleepState t c Schedule w) (SleepState t c Blocked w)
| sl_yield t c w : state t = TASK_RUNNING → sleep_step (SleepState t c Schedule w) (SleepState t c SetState w)
| sl_resume t c w : state t = TASK_RUNNING → sleep_step (SleepState t c Blocked w) (SleepState t c SetState w)
| sl_leave t c w : sleep_step (SleepState t c LeaveLoop w) (SleepState (__set_current_state false TASK_RUNNING t).1 c Awake w)
| wk_clear t c s : sleep_step (SleepState t c s ClearCond) (SleepState t false s WakeUp)
| wk_wake t c s : sleep_step (SleepState t c s WakeUp) (SleepState (wake_up_state TASK_UNINTERRUPTIBLE t) c s WakerDone).

(** The condition is false once the waker has passed it; between the test and the
    sleep the state is the one the waker looks for. *)
Record sleep_ok (x : sleep_state) : Prop := {
  so_cond : waker_at x ≠ ClearCond → need_sleep x = false;
  so_state : sleeper_at x = Schedule ∨ sleeper_at x = Blocked →
    state (sleep_task x) = TASK_RUNNING ∨ state (sleep_task x) = TASK_UNINTERRUPTIBLE ∧ waker_at x ≠ WakerDone;
  so_test : sleeper_at x = TestCond → state (sleep_task x) = TASK_RUNNING ∨ state (sleep_task x) = TASK_UNINTERRUPTIBLE;
  so_awake : sleeper_at x = Awake → state (sleep_task x) = TASK_RUNNING
}.

Lemma sleep_ok_step x y : sleep_ok x → sleep_step x y → sleep_ok y.
Proof.
  intros [H1 H2 H3 H4] Hst. destruct Hst as [t c w|t c w|t c w Hr|t c w Hr|t c w Hr|t c w|t c s|t c s]; cbn in *.
  all: split; cbn; try (intros; naive_solver).
  - by destruct c.
  - intros Hs. left. unfold wake_up_state. destruct (H2 Hs) as [E|[E _]]; rewrite E; done.
  - intros Hs. left. unfold wake_up_state. destruct (H3 Hs) as [E|E]; rewrite E; done.
  - intros Hs. unfold wake_up_state. rewrite (H4 Hs). by apply H4.
Qed.

Lemma sleep_ok_start t : sleep_ok (SleepState t true SetState ClearCond).
Proof. by split; cbn; naive_solver. Qed.

(** No wake-up is lost: in every state that the sleeper and the waker can
    reach, once the waker is done the sleeper leaves its loop by its own steps. *)
Theorem sleeper_wakes (t : task) (x : sleep_state) :
  star sleep_step (SleepState t true SetState ClearCond) x → waker_at x = WakerDone →
  ∃ t', star sleep_step x (SleepState t' false Awake WakerDone) ∧ state t' = TASK_RUNNING.
Proof.
  intros Hs Hw. assert (Hok : sleep_ok x) by (eapply (star_invariant _ sleep_ok); [apply sleep_ok_step|done|apply sleep_ok_start]).
  assert (Hne : waker_at x ≠ ClearCond) by (by rewrite Hw). apply (so_cond _ Hok) in Hne.
  destruct x as [u c s w]; cbn in *. subst w c.
  assert (Hleave : ∀ v, star sleep_step (SleepState v false LeaveLoop WakerDone) (SleepState (with_state TASK_RUNNING v) false Awake WakerDone)).
  { intros v. eapply star_step; [constructor|apply star_refl]. }
  assert (Htest : ∀ v, star sleep_step (SleepState v false TestCond WakerDone) (SleepState (with_state TASK_RUNNING v) false Awake WakerDone)).
  { intros v. eapply star_step; [constructor|apply Hleave]. }
  assert (Hset : ∀ v, ∃ t', star sleep_step (SleepState v false SetState WakerDone) (SleepState t' false Awake WakerDone) ∧ state t' = TASK_RUNNING).
  { intros v. eexists. split; [eapply star_step; [constructor|apply Htest]|done]. }
  destruct s; eauto.
  - destruct (so_state _ Hok) as [E|[_ E]]; [by left| |done]. destruct (Hset u) as (t' & H1 & H2). exists t'. split; [|done].
    eapply star_step; [by apply sl_yield|done].
  - destruct (so_state _ Hok) as [E|[_ E]]; [by right| |done]. destruct (Hset u) as (t' & H1 & H2). exists t'. split; [|done].
    eapply star_step; [by apply sl_resume|done].
  - exists u. split; [apply star_refl|by apply (so_awake _ Hok)].
Qed.

Lemma sleeper_wakes_witness :
  ∃ t', star sleep_step (SleepState (with_state TASK_UNINTERRUPTIBLE demo_task) false TestCond WakerDone) (SleepState t' false Awake WakerDone) ∧ state t' = TASK_RUNNING.
Proof.
  apply (sleeper_wakes demo_task); [|reflexivity]. eapply star_step; [apply wk_clear|]. eapply star_step; [apply wk_wake|].
  eapply star_step; [apply sl_set|]. apply star_refl.
Defined.

(** Testing before setting the state, the other order, can sleep forever. *)
Theorem test_first_loses_wakeup t :
  state t = TASK_RUNNING →
  let woken := wake_up_state TASK_UNINTERRUPTIBLE t in
  state (set_current_state false TASK_UNINTERRUPTIBLE woken).1 = TASK_UNINTERRUPTIBLE ∧ woken = t.
Proof. intros Hs. unfold wake_up_state. by rewrite Hs. Qed.
