(* ===== verification/Syscalls.v ===== *)
(** * [hw2/.../include/linux/syscalls.h] and [syscall_64.tbl]: entering a system call

    The macros of the header that turn the definition of a system call into a
    function of registers, the check on the way back to user mode, and the rows of
    the table that lead to the calls of [ProcessWeights].  How the processor and the
    entry code reach the function is outside the repository; what is used of it is
    that argument registers hold 64 bits of which an [int] parameter sees the lower
    32.  The prototypes of the other system calls and the records for tracing have no
    counterpart. *)

From S2P Require Import Prelude CString ProcessWeights.

(** ** The macros *)

(** Types of parameters; a pointer is an [unsigned long], [umode_t] and [old_uid_t]
    are [unsigned short]. *)
Inductive ctype := Short | UShort | Int | UInt | Long | ULong | LLong | ULLong.
#[export] Instance ctype_eq_dec : EqDecision ctype.
Proof. solve_decision. Defined.

Definition sizeof (t : ctype) : Z := match t with Short | UShort => 2 | Int | UInt => 4 | _ => 8 end.
Definition u16 (z : Z) : Z := z mod 2 ^ 16.
Definition i16 (z : Z) : Z := if z mod 2 ^ 16 <? 2 ^ 15 then z mod 2 ^ 16 else z mod 2 ^ 16 - 2 ^ 16.
(** Conversion to a type. *)
Definition cast (t : ctype) (v : Z) : Z :=
  match t with
  | Short => i16 v
  | UShort => u16 v
  | Int => i32 v
  | UInt => u32 v
  | Long | LLong => i64 v
  | ULong | ULLong => u64 v
  end.
Definition in_type (t : ctype) (v : Z) : Prop :=
  match t with
  | Short => - 2 ^ 15 ≤ v < 2 ^ 15
  | UShort => 0 ≤ v < 2 ^ 16
  | Int => - 2 ^ 31 ≤ v < 2 ^ 31
  | UInt => 0 ≤ v < 2 ^ 32
  | Long | LLong => - 2 ^ 63 ≤ v < 2 ^ 63
  | ULong | ULLong => 0 ≤ v < 2 ^ 64
  end.

(** [__MAP(n, m, t1, a1, ...)]; with another number of pairs it does not compile. *)
Fixpoint __MAP {X A} (n : nat) (m : ctype → A → X) (l : list (ctype * A)) : option (list X) :=
  match n, l with
  | O, [] => Some []
  | S n', (t, a) :: l' => (λ xs, m t a :: xs) <$> __MAP n' m l'
  | _, _ => None
  end.

Definition __TYPE_IS_LL (t : ctype) : bool := bool_decide (t = LLong) || bool_decide (t = ULLong).
(** The type of the parameter of the wrapper. *)
Definition __SC_LONG {A} (t : ctype) (a : A) : ctype := if __TYPE_IS_LL t then LLong else Long.
(** The argument as the wrapper sees it, converted to the declared type. *)
Definition __SC_CAST (t : ctype) (a : Z) : Z := cast t a.
(** The build fails when a type is too wide for a register. *)
Definition __SC_TEST {A} (t : ctype) (a : A) : bool := negb (negb (__TYPE_IS_LL t) && (sizeof Long <? sizeof t)).

(** [SyS##name]: [regs] are what the wrapper's parameters hold; [None] when the
    definition does not compile. *)
Definition __SYSCALL_DEFINEx {S} (x : nat) (params : list (ctype * string)) (SYSC : list Z → M S Z) : option (list Z → M S Z) :=
  match __MAP x __SC_LONG params, __MAP x __SC_TEST params with
  | Some longs, Some tests =>
    if forallb id tests then
      Some (λ regs,
        let held := zip_with cast longs regs in
        match __MAP x __SC_CAST (zip (params.*1) held) with
        | Some a => let* r := SYSC a in ret (i64 r)
        | None => fault
        end)
    else None
  | _, _ => None
  end.

Inductive event_class := Event_enter | Event_exit | Event_other.
(** Without [CONFIG_FTRACE_SYSCALLS] there are no such events. *)
Definition is_syscall_trace_event (ftrace : bool) (c : event_class) : bool :=
  if ftrace then match c with Event_enter | Event_exit => true | Event_other => false end else false.

(** ** Back to user mode *)

(** The part of a thread [addr_limit_user_check] looks at: whether [get_fs] is
    [USER_DS], the flag [TIF_FSCHECK], and whether the thread was killed. *)
Record user_limit := UserLimit { fs_is_user : bool; tif_fscheck : bool; killed : bool }.

(** [flagged]: the architecture has [TIF_FSCHECK].  [CHECK_DATA_CORRUPTION] reports
    and returns its condition. *)
Definition addr_limit_user_check (flagged : bool) (l : user_limit) : user_limit :=
  if flagged && negb (tif_fscheck l) then l
  else
    let l := if negb (fs_is_user l) then UserLimit (fs_is_user l) (tif_fscheck l) true else l in
    if flagged then UserLimit (fs_is_user l) false (killed l) else l.

(** ** The table *)

(** The rows that the repository adds: number, name, entry point.  The entry points
    are declared in [syscalls.h], [sys_set_weight] with an [int] parameter. *)
Definition syscall_rows : list (Z * string * (list Z → M kstate Z)) :=
  [(333, "hello", λ _, sys_hello);
   (334, "set_weight", λ regs, sys_set_weight (cast Int (default 0 (head regs))));
   (335, "get_weight", λ _, sys_get_weight);
   (336, "get_leaf_children_sum", λ _, sys_get_leaf_children_sum);
   (337, "get_heaviest_ancestor", λ _, sys_get_heaviest_ancestor)]%string.

(** What a number leads to; other numbers belong to the rest of the kernel. *)
Definition syscall_entry (nr : Z) : option (list Z → M kstate Z) :=
  match list_find (λ row, row.1.1 = nr) syscall_rows with Some (_, row) => Some row.2 | None => None end.

(** One call after the other, each with what its registers hold. *)
Fixpoint run_calls (l : list (Z * list Z)) : M kstate (list Z) :=
  match l with
  | [] => ret []
  | (nr, regs) :: l' =>
    match syscall_entry nr with
    | Some f => let* r := f regs in let* rs := run_calls l' in ret (r :: rs)
    | None => fault
    end
  end.

(** ** The wrapper passes values of the declared types *)

Lemma i64_range z : - 2 ^ 63 ≤ i64 z < 2 ^ 63.
Proof. unfold i64, W64. pose proof (Z.mod_pos_bound z (2 ^ 64)). destruct (Z.ltb_spec (z mod 2 ^ 64) (2 ^ 63)); lia. Qed.
Lemma i16_range z : - 2 ^ 15 ≤ i16 z < 2 ^ 15.
Proof. unfold i16. pose proof (Z.mod_pos_bound z (2 ^ 16)). destruct (Z.ltb_spec (z mod 2 ^ 16) (2 ^ 15)); lia. Qed.
Lemma cast_in_type t v : in_type t (cast t v).
Proof. destruct t; cbn; [apply i16_range|by apply Z.mod_pos_bound|apply i32_range|by apply Z.mod_pos_bound|apply i64_range|apply u64_range|apply i64_range|apply u64_range]. Qed.

Lemma i64_mod z : ∃ k, i64 z = z + k * 2 ^ 64.
Proof.
  unfold i64, W64. pose proof (Z.div_mod z (2 ^ 64) ltac:(lia)). destruct (Z.ltb_spec (z mod 2 ^ 64) (2 ^ 63)); [exists (- (z / 2 ^ 64))|exists (- (z / 2 ^ 64) - 1)]; lia.
Qed.
Lemma cast_shift t v k : cast t (v + k * 2 ^ 64) = cast t v.
Proof.
  assert (Hm : ∀ n, 0 ≤ n ≤ 64 → (v + k * 2 ^ 64) mod 2 ^ n = v mod 2 ^ n).
  { intros n Hn. replace (k * 2 ^ 64) with (k * 2 ^ (64 - n) * 2 ^ n) by (rewrite <- Z.mul_assoc, <- Z.pow_add_r by lia; do 2 f_equal; lia).
    apply Z.mod_add. apply Z.pow_nonzero; lia. }
  destruct t; cbn; unfold i16, u16, i32, u32, i64, u64, W64; by rewrite ?(Hm 16), ?(Hm 32), ?(Hm 64) by lia.
Qed.
Lemma cast_id t v : in_type t v → cast t v = v.
Proof.
  destruct t; cbn; intros Hv; try (by apply i32_small); try (by apply Z.mod_small);
    [unfold i16; destruct (Z.ltb_spec (v mod 2 ^ 16) (2 ^ 15)); Z.to_euclidean_division_equations; lia|..];
    (unfold i64, W64; destruct (Z.ltb_spec (v mod 2 ^ 64) (2 ^ 63)); Z.to_euclidean_division_equations; lia).
Qed.

(** A value goes through the register and the wrapper unchanged. *)
Lemma cast_register {A} t (a : A) v : in_type t v → __SC_CAST t (cast (__SC_LONG t a) (u64 v)) = v.
Proof.
  intros Hv. unfold __SC_CAST. assert (E : ∃ k, cast (__SC_LONG t a) (u64 v) = v + k * 2 ^ 64).
  { pose proof (Z.div_mod v (2 ^ 64) ltac:(lia)). assert (∃ j, u64 v = v + j * 2 ^ 64) as [j Hj] by (exists (- (v / 2 ^ 64)); unfold u64, W64; lia).
    rewrite Hj. unfold __SC_LONG. destruct (__TYPE_IS_LL t); cbn; destruct (i64_mod (v + j * 2 ^ 64)) as [k ->]; exists (j + k); lia. }
  destruct E as [k ->]. rewrite cast_shift. by apply cast_id.
Qed.

Lemma MAP_Some {X A} n (m : ctype → A → X) l : length l = n → __MAP n m l = Some ((λ p, m p.1 p.2) <$> l).
Proof. intros <-. induction l as [|[t a] l IH]; cbn; [done|]. by rewrite IH. Qed.
Lemma MAP_length {X A} n (m : ctype → A → X) l xs : __MAP n m l = Some xs → length l = n.
Proof. revert l xs. induction n as [|n IH]; intros [|[t a] l] xs; cbn; try done. intros (ys & Hy & _)%fmap_Some. f_equal. by eapply IH. Qed.

(** What the body of a system call gets from the registers. *)
Definition passed (params : list (ctype * string)) (regs : list Z) : list Z :=
  zip_with (λ p r, __SC_CAST p.1 (cast (__SC_LONG p.1 p.2) r)) params regs.

Lemma zip_cast (params : list (ctype * string)) regs :
  length regs = length params →
  (λ p : ctype * Z, __SC_CAST p.1 p.2) <$> zip (params.*1) (zip_with cast ((λ p, __SC_LONG p.1 p.2) <$> params) regs) = passed params regs.
Proof.
  revert regs. induction params as [|[t a] params IH]; intros [|r regs]; cbn; try done. intros [= Hl]. f_equal. by apply IH.
Qed.

Lemma wrapper_run {S} x params (SYSC : list Z → M S Z) SyS regs s :
  __SYSCALL_DEFINEx x params SYSC = Some SyS → length regs = x → SyS regs s = (let* r := SYSC (passed params regs) in ret (i64 r)) s.
Proof.
  unfold __SYSCALL_DEFINEx. intros Hd Hr. destruct (__MAP x __SC_LONG params) as [longs|] eqn:E; [|done].
  pose proof (MAP_length _ _ _ _ E) as Hl. rewrite MAP_Some in E by done. rewrite (MAP_Some x __SC_TEST) in Hd by done. injection E as <-.
  destruct (forallb id _); [|done]. injection Hd as <-.
  rewrite MAP_Some, zip_cast by (rewrite ?length_zip_with, ?length_fmap; lia). done.
Qed.

(** ** Theorems *)

(** C39: Whatever user space leaves in the registers, the body of a system call
    defined with [SYSCALL_DEFINEx] runs on values of its declared types, and
    arguments that user space passes in range arrive unchanged. *)
Theorem syscall_arguments_typed {S} (x : nat) (params : list (ctype * string)) (SYSC : list Z → M S Z) (SyS : list Z → M S Z) (regs : list Z) :
  __SYSCALL_DEFINEx x params SYSC = Some SyS → length regs = x →
  ∃ vals, (∀ s, SyS regs s = (let* r := SYSC vals in ret (i64 r)) s) ∧
    Forall2 (λ p v, in_type p.1 v) params vals ∧
    ∀ given, regs = u64 <$> given → Forall2 (λ p v, in_type p.1 v) params given → vals = given.
Proof.
  intros Hd Hr. exists (passed params regs). split; [intros s; by eapply wrapper_run|].
  assert (Hl : length params = length regs).
  { unfold __SYSCALL_DEFINEx in Hd. destruct (__MAP x __SC_LONG params) eqn:E; [|done]. apply MAP_length in E. lia. }
  clear Hd Hr. split.
  - revert regs Hl. induction params as [|p params IH]; intros [|r regs] Hl; try done; constructor; [apply cast_in_type|apply IH; by injection Hl].
  - intros given -> Hg. clear Hl. induction Hg as [|p v params given Hv Hg IH]; [done|]. cbn. f_equal; [by apply cast_register|done].
Qed.

Lemma syscall_arguments_typed_witness :
  let body := λ a : list Z, @ret unit Z (default 0 (head a)) in
  ∃ SyS, __SYSCALL_DEFINEx 3 [(Int, "fd"%string); (ULong, "addr"%string); (UShort, "mode"%string)] body = Some SyS ∧
  ∃ vals, (∀ s, SyS (u64 <$> [-1; 4096; 420]) s = (let* r := body vals in ret (i64 r)) s) ∧
    Forall2 (λ p v, in_type p.1 v) [(Int, "fd"%string); (ULong, "addr"%string); (UShort, "mode"%string)] vals ∧
    ∀ given, u64 <$> [-1; 4096; 420] = u64 <$> given → Forall2 (λ p v, in_type p.1 v) [(Int, "fd"%string); (ULong, "addr"%string); (UShort, "mode"%string)] given → vals = given.
Proof.
  intros body. eexists. split; [reflexivity|].
  apply (syscall_arguments_typed 3 [(Int, "fd"%string); (ULong, "addr"%string); (UShort, "mode"%string)] body); reflexivity.
Defined.

(** ** The calls of the repository through the table *)

(** The results of a sequence of calls of a task that sets and reads its weight. *)
Fixpoint weight_results (w : Z) (l : list (option Z)) : list Z :=
  match l with
  | [] => []
  | None :: l' => w :: weight_results w l'
  | Some v :: l' => if cast Int v <? 0 then - EINVAL :: weight_results w l' else 0 :: weight_results (cast Int v) l'
  end.
Definition weight_call (o : option Z) : Z * list Z := match o with None => (335, []) | Some v => (334, [v]) end.

(** Through their numbers in the table, the calls that set and read the weight
    of the calling task behave as one register: a negative weight (of the lower 32
    bits of the register) is refused, a read gives the last weight that was
    accepted, and the table of processes stays well formed. *)
Theorem weight_calls_register (l : list (option Z)) (s : kstate) (t : task_struct) :
  table_ok (tasks s) → tasks s !! current s = Some t →
  wp (run_calls (weight_call <$> l)) (λ rs s', rs = weight_results (weight t) l ∧ table_ok (tasks s') ∧
     ∀ a, a ≠ current s → tasks s' !! a = tasks s !! a) s.
Proof.
  revert s t. induction l as [|[v|] l IH]; intros s t Hok Hc; cbn [fmap list_fmap run_calls weight_results weight_call]; [done| |].
  - pose proof (i32_range v) as Hv. change (syscall_entry 334) with (Some (λ regs, sys_set_weight (cast Int (default 0 (head regs))))).
    change (cast Int v) with (i32 v). cbv beta iota. change (cast Int (default 0 (head [v]))) with (i32 v). apply wp_bind. unfold sys_set_weight. destruct (Z.ltb_spec (i32 v) 0).
    + apply wp_ret, wp_bind. eapply wp_mono; [by apply (IH s t)|]. intros rs s' (-> & ? & ?). by apply wp_ret.
    + apply wp_bind, wp_gets, wp_bind. unfold deref, wp at 1. rewrite Hc. apply wp_bind, wp_modify, wp_ret, wp_bind.
      eapply wp_mono; [apply (IH _ (set_weight (i32 v) t)); [apply (table_ok_insert _ _ t); [done..|cbn; lia]|cbn; by rewrite lookup_insert_eq]|].
      intros rs s' (-> & ? & Hsame). apply wp_ret. split; [done|]. split; [done|]. intros a Ha. rewrite Hsame by done. cbn. by rewrite lookup_insert_ne.
  - change (syscall_entry 335) with (Some (λ _ : list Z, sys_get_weight)). apply wp_bind. unfold sys_get_weight. apply wp_bind, wp_gets, wp_bind.
    unfold deref, wp at 1. rewrite Hc. apply wp_ret, wp_bind. eapply wp_mono; [by apply (IH s t)|]. intros rs s' (-> & ? & ?). by apply wp_ret.
Qed.
Lemma weight_calls_register_witness :
  wp (run_calls (weight_call <$> [Some (2 ^ 32 + 7); None; Some (2 ^ 32 - 1); None]))
     (λ rs s', rs = [0; 7; -22; 7] ∧ table_ok (tasks s') ∧ ∀ a, a ≠ 300 → tasks s' !! a = demo_tasks !! a) (demo_state 300).
Proof. apply (weight_calls_register [Some (2 ^ 32 + 7); None; Some (2 ^ 32 - 1); None] (demo_state 300) (Task 9 11 100 [400]) demo_table_ok eq_refl). Defined.

(** The rows have different numbers, so a number leads to one call. *)
Theorem syscall_numbers_distinct : NoDup (syscall_rows.*1.*1).
Proof. apply (bool_decide_eq_true_1 _). vm_compute. reflexivity. Qed.

(** After the check, a thread that goes on has the address limit of user space,
    unless the architecture's flag was not set. *)
Theorem addr_limit_checked (flagged : bool) (l : user_limit) :
  (flagged = true → tif_fscheck l = true) →
  let l' := addr_limit_user_check flagged l in
  (fs_is_user l' = true ∨ killed l' = true) ∧ (flagged = true → tif_fscheck l' = false).
Proof. destruct flagged, l as [[] [] []]; cbn; naive_solver. Qed.
