(* ===== verification/CgiOutput.v ===== *)
(** * [hw3/wet/output.c]: the CGI program of the site

    The program sleeps for the number of seconds in its query string and prints a
    page.  A [double] is a [spec_float] of the Standard Library with 53 bits of
    precision; [atof], the conversion to [useconds_t] and [%.2f] are written out
    on it.  The clock and [usleep] are parameters.  So is what [sprintf] leaves in
    [content] when that buffer is also its argument, which C does not define: the
    theorems hold for every outcome, and an outcome that does not fit the buffer is a
    fault. *)

From Stdlib Require Import SpecFloat.
From S2P Require Import Prelude CString Segel Request.

(** ** Doubles *)

Abbreviation double := spec_float.
Definition prec : Z := 53.
Definition emax : Z := 1024.
Definition dmul : double → double → double := SFmul prec emax.
Definition dadd : double → double → double := SFadd prec emax.
Definition dsub : double → double → double := SFsub prec emax.
Definition ddiv : double → double → double := SFdiv prec emax.

(** The double nearest to [m * 2 ^ e] with a sign. *)
Definition scaled (neg : bool) (m e : Z) : double :=
  match m with
  | Zpos p => binary_round prec emax neg p e
  | _ => S754_zero neg
  end.
Definition of_Z (z : Z) : double := scaled (z <? 0) (Z.abs z) 0.

(** The double nearest to [n * 10 ^ k] with a sign. *)
Definition decimal (neg : bool) (n k : Z) : double :=
  match n with
  | Zpos p =>
    if 0 <=? k then scaled neg (n * 10 ^ k) 0
    else match 10 ^ (- k) with Zpos q => ddiv (S754_finite neg p 0) (S754_finite false q 0) | _ => S754_nan end
  | _ => S754_zero neg
  end.

(** ** [atof] *)

Definition hex_value (c : ascii) : option Z :=
  let n := Z.of_nat (nat_of_ascii c) in
  if isdigit c then Some (n - 48)
  else if (65 <=? n) && (n <=? 70) then Some (n - 55)
  else if (97 <=? n) && (n <=? 102) then Some (n - 87)
  else None.
Definition dec_value (c : ascii) : option Z := if isdigit c then Some (Z.of_nat (nat_of_ascii c) - 48) else None.

(** Digits in a base: their value, their number and the rest. *)
Fixpoint digits (value : ascii → option Z) (base : Z) (s : str) (acc : Z) (n : nat) : Z * nat * str :=
  match s with
  | c :: s' => match value c with Some d => digits value base s' (base * acc + d) (S n) | None => (acc, n, s) end
  | [] => (acc, n, s)
  end.
(** A mantissa: all digits as one number, how many there are, and how many of
    them are behind the point. *)
Definition mantissa (value : ascii → option Z) (base : Z) (s : str) : Z * nat * nat * str :=
  let '(a, n, r) := digits value base s 0 0 in
  match r with
  | c :: r' =>
    if bool_decide (c = "."%char) then let '(b, m, r2) := digits value base r' a 0 in (b, (n + m)%nat, m, r2)
    else (a, n, 0%nat, r)
  | [] => (a, n, 0%nat, r)
  end.
(** An exponent after one of two letters; without digits it is not one. *)
Definition exponent (e1 e2 : ascii) (s : str) : Z :=
  match s with
  | c :: s' =>
    if bool_decide (c = e1) || bool_decide (c = e2) then
      match s' with
      | d :: s'' =>
        if bool_decide (d = "-"%char) then let '(v, _, _) := digits dec_value 10 s'' 0 0 in - v
        else if bool_decide (d = "+"%char) then let '(v, _, _) := digits dec_value 10 s'' 0 0 in v
        else let '(v, _, _) := digits dec_value 10 s' 0 0 in v
      | [] => 0
      end
    else 0
  | [] => 0
  end.

Definition decimal_number (neg : bool) (s : str) : double :=
  let '(m, n, frac, r) := mantissa dec_value 10 s in
  if bool_decide (n = 0%nat) then S754_zero false
  else decimal neg m (exponent "e"%char "E"%char r - Z.of_nat frac).
Definition hex_number (neg : bool) (s : str) : option double :=
  let '(m, n, frac, r) := mantissa hex_value 16 s in
  if bool_decide (n = 0%nat) then None
  else Some (scaled neg m (exponent "p"%char "P"%char r - 4 * Z.of_nat frac)).
Definition unsigned_number (neg : bool) (s : str) : double :=
  let low := tolower <$> s in
  if starts_with (lit "inf") low then S754_infinity neg
  else if starts_with (lit "nan") low then S754_nan
  else if starts_with (lit "0x") low then
    match hex_number neg (drop 2 s) with Some d => d | None => S754_zero neg end
  else decimal_number neg s.
Definition atof (s : str) : double :=
  match trim_left s with
  | c :: s' =>
    if bool_decide (c = "-"%char) then unsigned_number true s'
    else if bool_decide (c = "+"%char) then unsigned_number false s'
    else unsigned_number false (c :: s')
  | [] => S754_zero false
  end.

(** ** Conversions *)

(** To [useconds_t], 32 bits without a sign; [None] where C does not define it. *)
Definition to_useconds (d : double) : option Z :=
  match d with
  | S754_zero _ => Some 0
  | S754_finite neg m e =>
    let t := if 0 <=? e then Zpos m * 2 ^ e else Zpos m / 2 ^ (- e) in
    if neg then (if t =? 0 then Some 0 else None) else if t <? 2 ^ 32 then Some t else None
  | _ => None
  end.

(** Hundredths, rounded to the nearest, ties to even. *)
Definition round_even (n d : Z) : Z :=
  let q := n / d in
  let r := 2 * (n mod d) in
  if r <? d then q else if d <? r then q + 1 else if Z.even q then q else q + 1.
Definition hundredths (m e : Z) : Z := if 0 <=? e then 100 * m * 2 ^ e else round_even (100 * m) (2 ^ (- e)).
(** [%.2f]; a double has at most 309 digits before the point. *)
Definition fixed2 (n : Z) : str := dec_digits 310 (n / 100) ++ "."%char :: [digit (n / 10 mod 10); digit (n mod 10)].
Definition format2 (d : double) : str :=
  match d with
  | S754_zero neg => (if neg then lit "-" else []) ++ lit "0.00"
  | S754_infinity neg => (if neg then lit "-" else []) ++ lit "inf"
  | S754_nan => lit "nan"
  | S754_finite neg m e => (if neg then lit "-" else []) ++ fixed2 (hundredths (Zpos m) e)
  end.

(** ** The program *)

(** The first token of [strtok(buf, "&")]. *)
Definition AMP : ascii := "&"%char.
Fixpoint skip_amp (s : str) : str :=
  match s with c :: s' => if bool_decide (c = AMP) then skip_amp s' else s | [] => [] end.
Fixpoint upto_amp (s : str) : str :=
  match s with c :: s' => if bool_decide (c = AMP) then [] else c :: upto_amp s' | [] => [] end.
Definition strtok_amp (s : str) : option str := match skip_amp s with [] => None | t => Some (upto_amp t) end.

Definition spinfor0 : double := of_Z 5.
(** The value of [spinfor] after [getargs], given [getenv("QUERY_STRING")]. *)
Definition getargs (query : option str) : double :=
  match query with
  | Some buf => match strtok_amp buf with Some p => atof p | None => spinfor0 end
  | None => spinfor0
  end.
(** The argument of [usleep]. *)
Definition usleep_arg (query : option str) : option Z := to_useconds (dmul (getargs query) (of_Z 1000000)).

Record cgi (C : Type) := Cgi { clock : C; slept : list Z; out : str }.
Arguments Cgi {C}.
Arguments clock {C}.
Arguments slept {C}.
Arguments out {C}.

Section Code.
Context {C : Type} (gettimeofday : C → Z * (Z * Z) * C) (usleep : Z → C → C) (overlap : str → str → str).

(** [assert] ends the program with [SIGABRT]. *)
Definition Time_GetSeconds : M (cgi C) double := λ s,
  let '(rc, (tv_sec, tv_usec), c) := gettimeofday (clock s) in
  let s := Cgi c (slept s) (out s) in
  if rc =? 0 then Ok (dadd (of_Z tv_sec) (ddiv (of_Z tv_usec) (of_Z 1000000))) s else Exit 134 s.

Definition do_usleep (us : Z) : M (cgi C) unit := modify (λ s, Cgi (usleep us (clock s)) (slept s ++ [us]) (out s)).
Definition print (t : str) : M (cgi C) unit := modify (λ s, Cgi (clock s) (slept s) (out s ++ t)).
(** A string written to [content], with its zero. *)
Definition in_content (t : str) : M (cgi C) str := if Z.of_nat (length t) <? MAXBUF then ret t else fault.

Definition welcome : str := lit "<p>Welcome to the CGI program</p>" ++ CRLF.
Definition purpose : str := lit "<p>My only purpose is to waste time on the server!</p>" ++ CRLF.
Definition spun (d : double) : str := lit "<p>I spun for " ++ format2 d ++ lit " seconds</p>" ++ CRLF.

Definition cgi_main (query : option str) : M (cgi C) unit :=
  let* t1 := Time_GetSeconds in
  match usleep_arg query with
  | None => fault
  | Some us =>
    do_usleep us ;;;
    let* t2 := Time_GetSeconds in
    let* content := in_content welcome in
    let* content := in_content (overlap content purpose) in
    let* content := in_content (overlap content (spun (dsub t2 t1))) in
    print (lit "Content-length: " ++ dec (Z.of_nat (length content)) ++ CRLF) ;;;
    print (lit "Content-type: text/html" ++ CRLF ++ CRLF) ;;;
    print content ;;;
    exit 0
  end.
End Code.

(** ** The query string *)

Lemma strtok_token t rest : t ≠ [] → AMP ∉ t → (rest = [] ∨ head rest = Some AMP) → strtok_amp (t ++ rest) = Some t.
Proof.
  intros Hne Ha Hr. unfold strtok_amp. destruct t as [|c t]; [done|]. cbn. apply not_elem_of_cons in Ha as [Hc Ha].
  rewrite bool_decide_eq_false_2 by done. cbn. rewrite bool_decide_eq_false_2 by done. do 2 f_equal.
  induction t as [|d t IH]; cbn.
  - destruct rest as [|x rest]; [done|]. destruct Hr as [|[= ->]]; [done|]. done.
  - apply not_elem_of_cons in Ha as [Hd Ha]. rewrite bool_decide_eq_false_2 by done. f_equal. by apply IH.
Qed.

Lemma dec_token n : 0 ≤ n < 10 ^ 20 → dec n ≠ [] ∧ AMP ∉ dec n.
Proof.
  intros Hn. unfold dec. destruct (Z.ltb_spec n 0); [lia|]. destruct (dec_digits_ok 20 n ltac:(done)) as (H1 & _ & H3).
  split; [by apply H3|]. intros Hin. by apply (proj1 (Forall_forall _ _) H1) in Hin.
Qed.

(** Whole seconds up to 4294 are exact, the next ones do not fit 32 bits. *)
Definition sleep_ok (n : Z) : bool :=
  bool_decide (to_useconds (dmul (atof (dec n)) (of_Z 1000000)) = if n <=? 4294 then Some (n * 1000000) else None).
Lemma sleeps_ok : forallb sleep_ok (seqZ 0 5001) = true.
Proof. vm_compute. reflexivity. Qed.

Lemma usleep_arg_query n rest :
  0 ≤ n ≤ 5000 → (rest = [] ∨ head rest = Some AMP) →
  usleep_arg (Some (dec n ++ rest)) = if n <=? 4294 then Some (n * 1000000) else None.
Proof.
  intros Hn Hr. destruct (dec_token n ltac:(lia)) as [H1 H2]. unfold usleep_arg, getargs. rewrite strtok_token by done.
  assert (H : sleep_ok n = true).
  { apply (proj1 (forallb_forall _ _) sleeps_ok). apply list_elem_of_In, elem_of_seqZ. lia. }
  by apply bool_decide_eq_true in H.
Qed.

(** ** Rounding *)

Lemma round_even_nearest n d : 0 < d → Z.abs (2 * (round_even n d * d - n)) ≤ d.
Proof.
  intros Hd. unfold round_even. pose proof (Z.div_mod n d ltac:(lia)). pose proof (Z.mod_pos_bound n d Hd).
  destruct (Z.ltb_spec (2 * (n mod d)) d); [nia|]. destruct (Z.ltb_spec d (2 * (n mod d))); [nia|]. destruct (Z.even (n / d)); nia.
Qed.

(** Read back, the digits are the hundredths. *)
Lemma fixed2_value n :
  0 ≤ n < 10 ^ 312 →
  ∃ whole frac, fixed2 n = whole ++ "."%char :: frac ∧ length frac = 2%nat ∧ digits_value whole 0 * 100 + digits_value frac 0 = n.
Proof.
  intros Hn. assert (Hd : 0 ≤ n / 100 < 10 ^ 310) by (split; [apply Z.div_pos; lia|apply Z.div_lt_upper_bound; lia]).
  destruct (dec_digits_ok 310 (n / 100) Hd) as (_ & H2 & _). eexists _, _. split; [done|]. split; [done|]. rewrite H2.
  cbn [digits_value]. assert (0 ≤ n / 10 mod 10 < 10 ∧ 0 ≤ n mod 10 < 10) as [? ?] by (split; apply Z.mod_pos_bound; lia).
  rewrite !digit_isdigit, !digit_ascii by done. Z.to_euclidean_division_equations. lia.
Qed.

(** The page fits [content] whatever is printed. *)
Lemma length_format2 d : (length (format2 d) ≤ 314)%nat.
Proof.
  destruct d as [neg|neg| |neg m e]; cbn [format2]; [by destruct neg; cbn; lia..|cbn; lia|].
  unfold fixed2. pose proof (length_dec_digits 310 (hundredths (Zpos m) e / 100)) as Hd.
  revert Hd. generalize (dec_digits 310 (hundredths (Zpos m) e / 100)). intros l Hd. rewrite !length_app.
  change (length (_ :: [_; _])) with 3%nat. destruct neg; [change (length (lit "-")) with 1%nat|change (@length ascii []) with 0%nat]; lia.
Qed.
Lemma length_spun d : (length (spun d) ≤ 400)%nat.
Proof. unfold spun. rewrite !length_app. pose proof (length_format2 d).
  change (length (lit "<p>I spun for ")) with 14%nat. change (length (lit " seconds</p>")) with 12%nat. change (length CRLF) with 2%nat. lia. Qed.

(** ** Theorems *)

(** C40: Asked for with a whole number of seconds [n] up to 4294, with or without
    further arguments, the program sleeps for exactly [n] seconds and prints a
    response whose length field is the length of the page, whatever [sprintf] makes
    of its overlapping arguments as long as that fits [content]; it fits when
    [sprintf] appends.  For [n] from 4295 to 5000 the argument of [usleep] is a
    conversion that C does not define.  The clock does not fail. *)
Theorem cgi_main_correct {C : Type} (gettimeofday : C → Z * (Z * Z) * C) (usleep : Z → C → C) (overlap : str → str → str)
    (n : Z) (rest : str) (s : cgi C) :
  0 ≤ n ≤ 5000 → (rest = [] ∨ head rest = Some AMP) → (∀ c, (gettimeofday c).1.1 = 0) →
  if n <=? 4294 then
    ∃ t1 t2 c, let text := overlap welcome purpose in let page := overlap text (spun (dsub t2 t1)) in
      cgi_main gettimeofday usleep overlap (Some (dec n ++ rest)) s =
        (if (Z.of_nat (length text) <? MAXBUF) && (Z.of_nat (length page) <? MAXBUF) then
           Exit 0 (Cgi c (slept s ++ [n * 1000000])
             (out s ++ lit "Content-length: " ++ dec (Z.of_nat (length page)) ++ CRLF ++ lit "Content-type: text/html" ++ CRLF ++ CRLF ++ page))
         else Fault) ∧
      ((∀ a b, overlap a b = a ++ b) → Z.of_nat (length text) < MAXBUF ∧ Z.of_nat (length page) < MAXBUF)
  else cgi_main gettimeofday usleep overlap (Some (dec n ++ rest)) s = Fault.
Proof.
  intros Hn Hr Hc. unfold cgi_main. rewrite usleep_arg_query by done.
  pose proof (Hc (clock s)) as H1. destruct (gettimeofday (clock s)) as [[rc [sec usec]] c1] eqn:E. cbn in H1. subst rc.
  destruct (n <=? 4294); [|unfold bind, Time_GetSeconds; by rewrite E]. unfold bind, do_usleep, modify, Time_GetSeconds. rewrite E. cbn [Z.eqb clock slept out].
  pose proof (Hc (usleep (n * 1000000) c1)) as H2. destruct (gettimeofday (usleep _ _)) as [[rc [sec2 usec2]] c2]. cbn in H2. subst rc. cbn [Z.eqb].
  exists (dadd (of_Z sec) (ddiv (of_Z usec) (of_Z 1000000))), (dadd (of_Z sec2) (ddiv (of_Z usec2) (of_Z 1000000))), c2. cbv zeta. split.
  - unfold in_content. change (Z.of_nat (length welcome) <? MAXBUF) with true. cbn [ret].
    destruct (Z.of_nat (length (overlap welcome purpose)) <? MAXBUF); [|done]. cbn [ret andb].
    destruct (Z.of_nat _ <? MAXBUF); [|done]. unfold print, modify, exit, ret. cbn [clock slept out]. by rewrite <- !app_assoc.
  - intros Ho. rewrite !Ho, !length_app. change (length welcome) with 35%nat. change (length purpose) with 56%nat.
    pose proof (length_spun (dsub (dadd (of_Z sec2) (ddiv (of_Z usec2) (of_Z 1000000))) (dadd (of_Z sec) (ddiv (of_Z usec) (of_Z 1000000))))).
    unfold MAXBUF. lia.
Qed.

(** A clock that advances by what is slept and a hundredth of a second. *)
Definition demo_clock (c : Z) : Z * (Z * Z) * Z := (0, (c / 1000000, c mod 1000000), c + 10000).
Lemma cgi_main_correct_witness :
  ∃ t1 t2 c, let text := welcome ++ purpose in let page := text ++ spun (dsub t2 t1) in
    cgi_main demo_clock Z.add app (Some (dec 3 ++ lit "&x=1")) (Cgi 5000000 [] []) =
      (if (Z.of_nat (length text) <? MAXBUF) && (Z.of_nat (length page) <? MAXBUF) then
         Exit 0 (Cgi c [3000000]
           (lit "Content-length: " ++ dec (Z.of_nat (length page)) ++ CRLF ++ lit "Content-type: text/html" ++ CRLF ++ CRLF ++ page))
       else Fault) ∧
    ((∀ a b : str, a ++ b = a ++ b) → Z.of_nat (length text) < MAXBUF ∧ Z.of_nat (length page) < MAXBUF).
Proof. apply (cgi_main_correct demo_clock Z.add app 3 (lit "&x=1") (Cgi 5000000 [] [])); [lia|by right|done]. Defined.

(** The page of that run. *)
Theorem cgi_demo_page :
  match cgi_main demo_clock Z.add app (Some (lit "3&x=1")) (Cgi 5000000 [] []) with
  | Exit 0 s => contains (lit "<p>I spun for 3.01 seconds</p>") (out s) = true
  | _ => False
  end.
Proof. vm_compute. reflexivity. Qed.

(** [%.2f] prints a number of hundredths that is nearest to the value: for the
    double [m * 2 ^ e] they differ by at most half of one. *)
Theorem format2_nearest (neg : bool) (m : positive) (e : Z) :
  - 1074 ≤ e ≤ 971 → Zpos m < 2 ^ 53 →
  ∃ whole frac n, format2 (S754_finite neg m e) = (if neg then lit "-" else []) ++ whole ++ "."%char :: frac ∧
    length frac = 2%nat ∧ digits_value whole 0 * 100 + digits_value frac 0 = n ∧
    Z.abs (2 * (n * 2 ^ Z.max 0 (- e) - 100 * Zpos m * 2 ^ Z.max 0 e)) ≤ 2 ^ Z.max 0 (- e).
Proof.
  intros He Hm. assert (Hb : 0 ≤ hundredths (Zpos m) e < 10 ^ 312).
  { unfold hundredths. destruct (Z.leb_spec 0 e) as [H0|H0].
    - pose proof (Z.pow_le_mono_r 2 e 971 ltac:(lia) ltac:(lia)). pose proof (Z.pow_pos_nonneg 2 e ltac:(lia) H0).
      assert (100 * (2 ^ 53 * 2 ^ 971) < 10 ^ 312) by (vm_compute; reflexivity). split; [lia|].
      assert (Zpos m * 2 ^ e ≤ 2 ^ 53 * 2 ^ 971) by (apply Z.mul_le_mono_nonneg; lia). lia.
    - pose proof (Z.pow_pos_nonneg 2 (- e) ltac:(lia) ltac:(lia)) as Hp. unfold round_even.
      assert (0 ≤ 100 * Zpos m / 2 ^ (- e) ≤ 100 * 2 ^ 53).
      { split; [apply Z.div_pos; lia|]. apply Z.div_le_upper_bound; [lia|]. nia. }
      assert (100 * 2 ^ 53 + 1 < 10 ^ 312) by (vm_compute; reflexivity).
      destruct (_ <? _); [lia|]. destruct (_ <? _); [lia|]. destruct (Z.even _); lia. }
  destruct (fixed2_value (hundredths (Zpos m) e) Hb) as (whole & frac & E & Hl & Hv).
  exists whole, frac, (hundredths (Zpos m) e). cbn [format2]. rewrite E. split; [done|]. split; [done|]. split; [done|].
  unfold hundredths. destruct (Z.leb_spec 0 e).
  - rewrite (Z.max_l 0 (- e)), (Z.max_r 0 e) by lia. replace (100 * Zpos m * 2 ^ e * 2 ^ 0) with (100 * Zpos m * 2 ^ e) by lia. lia.
  - rewrite (Z.max_r 0 (- e)), (Z.max_l 0 e) by lia. rewrite Z.pow_0_r, Z.mul_1_r. apply round_even_nearest. apply Z.pow_pos_nonneg; lia.
Qed.
Lemma format2_nearest_witness :
  ∃ whole frac n, format2 (S754_finite false 5 (-3)) = [] ++ whole ++ "."%char :: frac ∧
    length frac = 2%nat ∧ digits_value whole 0 * 100 + digits_value frac 0 = n ∧ Z.abs (2 * (n * 2 ^ 3 - 100 * 5 * 2 ^ 0)) ≤ 2 ^ 3.
Proof. apply (format2_nearest false 5 (-3)); lia. Defined.


Lemma contains_none c d s : c ∉ s → contains [c; d] s = false.
Proof.
  intros Hc. unfold contains. destruct (find_sub [c; d] s) eqn:E; [|done]. apply find_sub_Some in E as (a & b & -> & _).
  destruct Hc. rewrite elem_of_app. right. left.
Qed.
Lemma find_sub_char c a b : c ∉ a → find_sub [c] (a ++ c :: b) = Some (length a).
Proof.
  induction a as [|x a IH]; cbn; [by rewrite bool_decide_eq_true_2|]. intros [H1 H2]%not_elem_of_cons.
  rewrite bool_decide_eq_false_2 by done. cbn. by rewrite IH.
Qed.
Lemma contains_app_l pat a b : contains pat a = true → contains pat (a ++ b) = true.
Proof.
  intros Ha. destruct (contains pat (a ++ b)) eqn:E; [done|]. apply contains_app_false in E as [E _]. congruence.
Qed.

(** From the request to the program: the address of a CGI file with a number of
    seconds up to 4294 is split by the server into the file and a query for which
    the program sleeps that many seconds. *)
Theorem cgi_request_sleeps {W} (file : str) (n : Z) (junk : str) (s : proc W) :
  0 ≤ n ≤ 4294 → "?"%char ∉ file → contains (lit "cgi") file = true → contains (lit "..") file = false →
  Z.of_nat (length file) < 7000 →
  ∃ query, requestParseURI (file ++ "?"%char :: dec n) junk s = Ok (false, lit "./public/" ++ file, query) s ∧
    usleep_arg (Some query) = Some (n * 1000000).
Proof.
  intros Hn Hq Hcgi Hdots Hl. exists (dec n). split.
  - assert (Hnd : contains (lit "..") (file ++ "?"%char :: dec n) = false).
    { apply contains_app_2; [done| |done]. apply contains_none, not_elem_of_cons. split; [done|]. intros Hin.
      destruct (dec_digits_ok 20 n ltac:(lia)) as (Hd & _). unfold dec in Hin. destruct (Z.ltb_spec n 0); [lia|].
      by apply (proj1 (Forall_forall _ _) Hd) in Hin. }
    unfold requestParseURI. rewrite Hnd, contains_app_l by done. cbn [negb]. change (lit "?") with ["?"%char].
    rewrite find_sub_char, take_app_length by done. unfold bind, fits, MAXLINE. rewrite length_app. change (length (lit "./public/")) with 9%nat.
    rewrite (proj2 (Z.ltb_lt _ _)) by lia. unfold ret. do 2 f_equal.
    rewrite <- Nat.add_1_r, <- drop_drop, drop_app_length. done.
  - pose proof (usleep_arg_query n [] ltac:(lia) (or_introl eq_refl)) as H. rewrite app_nil_r in H. rewrite H.
    by rewrite (proj2 (Z.leb_le _ _)) by lia.
Qed.
Lemma cgi_request_sleeps_witness :
  ∃ query, requestParseURI (lit "/output.cgi" ++ "?"%char :: dec 12) [] (demo_proc []) =
      Ok (false, lit "./public/" ++ lit "/output.cgi", query) (demo_proc []) ∧
    usleep_arg (Some query) = Some (12 * 1000000).
Proof.
  apply (cgi_request_sleeps (lit "/output.cgi") 12 [] (demo_proc [])); [lia| |reflexivity|reflexivity|cbn; lia].
  apply (bool_decide_eq_true_1 _). reflexivity.
Defined.
